(* ===== verification/_CoqProject ===== *)
-Q . S2P
Prelude.v
Wire.v
Discovery.v
Metrics.v
MetricsProps.v
MetricsServe.v
Beacon.v
Tracker.v
TrackerInv.v
TrackerProps.v
TrackerRepair.v
Dedup.v
SubtreeGroup.v
Filter.v
Reassembly.v
ReassemblySlot.v
ReassemblyInv.v
ReassemblyProps.v
ReassemblyRepair.v
ReassemblyHonest.v
RetryTee.v
TeePool.v
Listener.v
ListenerInv.v
ListenerEgress.v
ListenerExample.v
ListenerProps.v
ListenerKeeps.v
ListenerBundle.v
ListenerClaims.v
ListenerMetrics.v
Serve.v
ServeProps.v
TeeFeed.v
Node.v
ListenerFragments.v
NodeProps.v
NodeRepair.v
Announce.v
TxDedup.v
TxDedupProps.v
Findings.v
Fanout.v
FanoutProps.v
Membership.v
MembershipProps.v
Egress.v
EgressProps.v
Config.v
ConfigProps.v
Sockets.v
ConfigFlags.v
ConfigLoad.v
ConfigLoadProps.v
Wiring.v
WiringProps.v
WiringStore.v
Lifecycle.v
LifecycleProps.v
TestSink.v
