(* ===== verification/Prelude.v ===== *)
(** * shard-listener: a verification development

    shard-listener receives sequenced datagrams from multicast groups, detects and
    repairs losses by NACK, reassembles fragmented objects, filters, deduplicates,
    and forwards frames to unicast, multicast and per-consumer egress.  This
    library models its Go code as executable definitions and proves what each
    part, and the parts together, guarantee.

    ** The program and the files

    - nack/wire.go: [Wire].  The NACK and response datagrams.
    - nack/nack.go: [Tracker] (flow table, observation, requests, sweep, dispatch
      and answers), [TrackerInv] (invariant, accounting), [TrackerProps] (runs),
      [TrackerRepair] (requests, sweeps, backoff, tiers, answers).
    - discovery/: [Discovery] (ADVERT codec, endpoint registry with its cached
      snapshot, beacon handler, port buckets), [Beacon] (the beacon listener's
      sockets and receive loop), [Announce] (the announcement listener; its
      handler is in [Filter]).
    - metrics/metrics.go: [Metrics] (instruments, methods, gauges, probes),
      [MetricsProps] (the metrics reference, the life of a node), [MetricsServe]
      (exporters, shutdown, the probe server; metrics/hostinfo.go).
    - subtreegroup/registry.go: [SubtreeGroup].  filter/: [Filter].
      dedup/dedup.go: [Dedup].
    - reassembly/reassembly.go: [Reassembly] (slots, placement, completion,
      expiry), [ReassemblySlot], [ReassemblyInv], [ReassemblyProps],
      [ReassemblyRepair], [ReassemblyHonest].
    - listener/retrytee.go: [RetryTee] (the queue and its sender), [TeePool] (the
      same with its buffers on a heap), [TeeFeed] (the unicast ingest loops and what
      the loops mirror).
    - listener/listener.go, beef.go, blockgate.go and the per-worker wiring of
      main.go: [Listener] (the worker in a state monad), [ListenerInv] (what a
      step may log and how steps run), [ListenerEgress] (what may be sent),
      [ListenerProps], [ListenerKeeps] (a logic for what handlers keep),
      [ListenerFragments] (behind [Node]), [ListenerBundle], [ListenerClaims] (a credit logic for
      claims and sends), [ListenerMetrics] (what the events count), with the
      concrete worker of [ListenerExample].
    - the workers of one process around one tracker (main.go, the loops and
      goroutines of nack.go): [Node], [NodeProps], [NodeRepair].
    - the receive loops of listener.go, recvbatch_linux.go and recvbatch_other.go:
      [Serve] (the inline loop, the pipeline as a step relation over both builds'
      buffers), [ServeProps].
    - txdedup/txdedup.go: [TxDedup], [TxDedupProps].
    - fanout/fanout.go: [Fanout], [FanoutProps].
    - egress/: [Egress], [EgressProps], [Sockets] (sockets as they are opened, the
      worker's included, and the multi sender).
    - group membership (listener.go), manifest/applier.go and the hooks of
      main.go: [Membership] ([Run] as steps that interleave with [AddGroup] and
      [RemoveGroup]), [MembershipProps].
    - config/: [Config], [ConfigProps] (control-plane prefixes, list and id
      parsers), [ConfigFlags] (the flag table, the environment, the parsers of
      flag values), [ConfigLoad] (the stages of [Load]), [ConfigLoadProps].
    - main.go: [Wiring] (election, rosters, groups, workers from a loaded
      configuration), [WiringProps], [WiringStore] (the claim store), [Lifecycle]
      ([run] from its first call to its return, interleaved with the goroutines it
      starts), [LifecycleProps].
    - cmd/sink-test-frames: [TestSink].
    - [Findings]: runs of the modelled code that go wrong.

    ** How the code is modelled

    Go's integers are [Z] with their wrap-around written out, byte slices lists of
    byte values, maps [gmap]s, durations and times nanoseconds, and float64 the
    Standard Library's [SpecFloat].  A method becomes a function on the state of
    its receiver, one critical section at a time, so a list of calls is an
    interleaving of goroutines; where the code leaves its lock between two effects
    and a theorem depends on it (the memberships, the claims, the process), these are
    steps of their own.  The steps of a [Node] are coarser: a whole datagram, or one
    stage of a request.  What the code reads from outside is an argument
    or an oracle: clocks, random jitter, the order in which Go visits a map,
    answers of sockets, stores and sinks.  Metrics, sends and callbacks are events
    in the order of the code; debug logs are left out.

    Code of other repositories is a parameter: the frame, bundle, object and
    proof-of-work libraries are the classes [FrameLib], [WireLib] and [TeeLib],
    the txid sets the class [TxidSet], whose laws are SETNX with a lifetime
    ([TxidSetLaws]), and the shard engine,
    [seqhash.Hash], the manifest codec and evaluator, the cache and the group
    addresses are arguments, like the answers of the operating system.  Theorems
    that rely on a parameter name what they need as a hypothesis, and their
    witnesses instantiate it.

    The parts meet at interfaces: the buffer asks the tracker through
    [RepairHooks], whose laws ([RepairLaws]) its theorems use and the tracker
    discharges in [ReassemblyRepair]; the worker runs the buffer with hooks on its
    own tracker and turns completions into deliveries ([observeFragment],
    [on_event]); the pipelined loop is written against a class of buffers
    ([Source], [SourceLaws]) that both builds implement; the applier drives the
    memberships of all workers ([auto_config]); workers, stores and listeners are
    built from the configuration [Load] returns; their events are the recorder's
    calls ([event_calls]).  A [Node] puts several workers on one tracker: its steps
    are those of the workers and of the tracker's goroutines, and a retransmitted
    frame goes from one to the other.

    ** What the theorems show

    - Reassembly: amid any other traffic and sweeps an honest object is delivered
      once, whole, whatever the order and repetition of its fragments, as long as they
      come within one slot lifetime and the slots suffice; nothing else is ever delivered than received
      fragments in order; tables and lifetimes are bounded; an incomplete slot asks
      for exactly its missing fragments and waits for their repair, up to its maximum
      age.
    - Tracker: the invariant of all interleavings, the accounting of detected,
      suppressed and unrecovered gaps, the effect of one observation on every
      branch, of a request, a sweep and an answer, exact backoff, the tier walk.
    - Worker: everything handed to an egress passed the gates of its class; the exact
      events of a transaction frame on every branch, and of a bundle; a transaction
      whose fragments arrive is forwarded once, by the call that completes it, if
      filter and claim store let it; what a recovered frame answers the tracker.
    - Node: in any interleaving of workers, buffers, sweeps and requesting goroutines
      the shared tracker makes only its own steps; a frame that is lost at a worker
      is asked for, and when an endpoint returns it exactly that worker forwards it
      and exactly its gap closes.
    - Receive loops: on every schedule the pipeline ends and leaves the worker as
      the inline loop would, and no buffer is used twice at once.
    - Deployment: over all interleavings of its listeners a claimed transaction is
      forwarded at most once, plus once per elapsed claim lifetime and per store error.
    - Discovery: the beacon groups are joined with their rosters, one socket per
      port; the registries take exactly what decodes; the frame filter admits exactly
      what the lists and the announcements that are still alive allow.
    - Configuration and wiring: what loads passed every check of [Load]; the elected topics are
      the ones joined and accepted; rosters never name the node itself; a delivery
      node forwards without recovery stages.
    - Metrics: every series is the number of calls of its row in the metrics
      reference; every received transaction frame is closed by exactly one count;
      the readiness probe follows the workers.
    - Fan-out: exactly the subscribed consumers get a frame, under their elections,
      with the first real error.
    - Egress: success means the wire form went out; dials keep the backoff; sockets
      are opened whole or not at all; the handoff to the delivery tier keeps frames
      whole and destinations apart.
    - Process: on a signal every counted goroutine has ended before anything but the
      context is closed, and what was opened is closed; when a call fails the closes
      balance too, with the exceptions named, but workers may still run.
    - Retry tee: pooled buffers never mix datagrams; the tee gets exactly the
      admitted datagrams of the fabric.
    - Membership: where a worker's record of joined groups and the kernel's can
      differ, and that they agree elsewhere; which groups are joined after any
      sequence of adopted views, with those a dropped pilot takes along.
    - Dedup, filters, registries, codecs, configuration values: refinement of
      their specifications, conservation, round trips, and a safe rollout order of
      the control-plane prefixes.

    ** Bounds and fuel

    Recursion is structural except for the tee: [write_loop] is given the length of
    its batch (every round settles at least one datagram) and [run] the length of
    the queue (every round takes at least one), which [tee_conservation] shows to
    be enough.  The receive pipeline is a relation without fuel: [ends] says that
    every schedule terminates.  Wherever a count could pass its width the wrap is in the
    definition; the hypotheses on widths are those of the Go types.

    ** Not modelled

    Logging, tracing and the gathering of host facts, which are library calls
    without a decision of their own, and ci/main.go, a call into the pipeline of
    another repository.  The command line of the flag package is its result, the
    text given for each flag. *)

From stdpp Require Export gmap strings list fin_maps sets sorting.
From Stdlib Require Export ZArith Lia.
From Corelib Require Import SpecFloat.

#[export] Set Default Goal Selector "!".
Global Open Scope Z_scope.

(** ** Machine integers

    Go's sized integers are modelled as [Z] kept in range by an explicit
    wrap-around.  [u8], [u16], [u32], [u64] are the conversions to an unsigned
    width, [i64] the conversion to a signed 64-bit integer ([int] and
    [time.Duration] on the 64-bit platforms the listener runs on). *)

Definition u8 (z : Z) : Z := z mod 2 ^ 8.

Definition u16 (z : Z) : Z := z mod 2 ^ 16.

Definition u32 (z : Z) : Z := z mod 2 ^ 32.

Definition u64 (z : Z) : Z := z mod 2 ^ 64.

Definition i64 (z : Z) : Z := (z + 2 ^ 63) mod 2 ^ 64 - 2 ^ 63.

Definition max_i64 : Z := 2 ^ 63 - 1.

Definition min_i64 : Z := - 2 ^ 63.

(** Byte strings: a [[]byte] or a [[n]byte] is a list of byte values. *)
Abbreviation bytes := (list Z).

Definition byte_ok (b : Z) : Prop := 0 <= b < 256.

Definition is_u64 (z : Z) : Prop := 0 <= z < 2 ^ 64.

(** ** Go's clock

    A [time.Time] is an integer count of nanoseconds; [time_sub] is
    [Time.Sub], whose result saturates at the range of a [Duration]. *)

Definition ns_per_ms : Z := 1000000.

Definition ns_per_s : Z := 1000000000.

Definition clamp_i64 (z : Z) : Z := Z.max min_i64 (Z.min max_i64 z).

Definition time_sub (a b : Z) : Z := clamp_i64 (a - b).

Definition time_add (t d : Z) : Z := t + d.

Definition after (a b : Z) : bool := b <? a.

Definition before (a b : Z) : bool := a <? b.

(** The zero [time.Time] (January 1, year 1) on the Unix nanosecond axis. *)
Definition zero_time : Z := -62135596800 * ns_per_s.

(** ** Big-endian fields and slices of a buffer

    [be_put n v] is the [n]-byte big-endian encoding of [v], [be_get] reads one
    back; [slice buf off n] is [buf[off:off+n]] and [write buf off bs] the
    buffer after [copy(buf[off:], bs)], for ranges inside the buffer. *)

Fixpoint be_put (n : nat) (v : Z) : bytes :=
  match n with
  | O => []
  | S k => (v / 2 ^ (8 * Z.of_nat k)) mod 256 :: be_put k v
  end.

Definition be_get (bs : bytes) : Z := fold_left (fun acc b => acc * 256 + b) bs 0.

Definition slice (buf : bytes) (off n : nat) : bytes := take n (drop off buf).

Definition write (buf : bytes) (off : nat) (bs : bytes) : bytes :=
  take off buf ++ bs ++ drop (off + length bs) buf.

Definition byte_at (buf : bytes) (i : nat) : Z := nth i buf 0.

(** [make([]byte, n)] *)
Definition zeros (n : nat) : bytes := repeat 0 n.

(** [x != nil] for a value that may be nil. *)
Definition is_set {A} (x : option A) : bool := match x with Some _ => true | None => false end.

(** ** IEEE double arithmetic used by the idle threshold

    [float64(d)] and the product are the round-to-nearest operations of
    [SpecFloat] at precision 53 and exponent bound 1024; the conversion back to
    an integer truncates towards zero, and an out-of-range or non-finite value
    converts to the amd64 result, the least 64-bit integer. *)

Definition f64_of_int (z : Z) : spec_float := binary_normalize 53 1024 z 0 false.

Definition f64_mul (x y : spec_float) : spec_float := SFmul 53 1024 x y.

Definition f64_le0 (x : spec_float) : bool := SFleb x (S754_zero false).

Definition int_of_f64 (x : spec_float) : Z :=
  let fit z := if (min_i64 <=? z) && (z <=? max_i64) then z else min_i64 in
  match x with
  | S754_zero _ => 0
  | S754_infinity _ | S754_nan => min_i64
  | S754_finite s m e =>
      let mag := if 0 <=? e then Z.shiftl (Z.pos m) e else Z.shiftr (Z.pos m) (- e) in
      fit (if s then - mag else mag)
  end.

(** ** Automation *)

(** The hint database of the development: preservation lemmas of the
    components' invariants. *)
Create HintDb listener.

(** Splits the first boolean test, option match or [decide] in the goal. *)
Ltac case_test :=
  match goal with
  | |- context [if ?b then _ else _] =>
      lazymatch type of b with
      | bool => destruct b eqn:?
      | _ => destruct b
      end
  | |- context [match ?x with Some _ => _ | None => _ end] => destruct x eqn:?
  end.

(** Turns boolean comparisons in the context into propositions for [lia]. *)
Ltac bool_to_prop :=
  repeat match goal with
    | H : (_ && _)%bool = true |- _ => apply andb_prop in H; destruct H
    | H : (_ && _)%bool = false |- _ => apply andb_false_iff in H
    | H : (_ || _)%bool = true |- _ => apply orb_true_iff in H
    | H : (_ || _)%bool = false |- _ => apply orb_false_iff in H; destruct H
    | H : negb _ = true |- _ => apply negb_true_iff in H
    | H : negb _ = false |- _ => apply negb_false_iff in H
    | H : (_ <=? _) = true |- _ => apply Z.leb_le in H
    | H : (_ <=? _) = false |- _ => apply Z.leb_gt in H
    | H : (_ <? _) = true |- _ => apply Z.ltb_lt in H
    | H : (_ <? _) = false |- _ => apply Z.ltb_ge in H
    | H : (_ =? _) = true |- _ => apply Z.eqb_eq in H
    | H : (_ =? _) = false |- _ => apply Z.eqb_neq in H
    | H : bool_decide _ = true |- _ => apply bool_decide_eq_true in H
    | H : bool_decide _ = false |- _ => apply bool_decide_eq_false in H
    end.

(** [bool_to_prop], with every resulting disjunction split. *)
Ltac split_bool :=
  repeat (bool_to_prop;
          match goal with H : _ \/ _ |- _ => destruct H end);
  bool_to_prop.

(** ** Integer lemmas *)

Lemma u64_small z : is_u64 z -> u64 z = z.
Proof. unfold is_u64, u64. intros H. by apply Z.mod_small. Qed.

Lemma u64_succ z : u64 (u64 z + 1) = u64 (z + 1).
Proof. unfold u64. apply Zplus_mod_idemp_l. Qed.

Lemma u64_range z : is_u64 (u64 z).
Proof. unfold is_u64, u64. apply Z.mod_pos_bound. lia. Qed.

Lemma i64_div z : i64 z = z - 2 ^ 64 * ((z + 2 ^ 63) / 2 ^ 64).
Proof. unfold i64. rewrite Z.mod_eq by lia. lia. Qed.

Lemma i64_small z : min_i64 <= z <= max_i64 -> i64 z = z.
Proof.
  unfold min_i64, max_i64, i64. intros H.
  rewrite Z.mod_small; lia.
Qed.

Lemma i64_range z : min_i64 <= i64 z <= max_i64.
Proof.
  unfold min_i64, max_i64, i64.
  pose proof (Z.mod_pos_bound (z + 2 ^ 63) (2 ^ 64) ltac:(lia)). lia.
Qed.

Lemma clamp_i64_range z : min_i64 <= clamp_i64 z <= max_i64.
Proof. unfold clamp_i64, min_i64, max_i64. lia. Qed.

Lemma time_sub_small a b :
  min_i64 <= a - b <= max_i64 -> time_sub a b = a - b.
Proof. unfold time_sub, clamp_i64. lia. Qed.

(** ** Buffer lemmas *)

Lemma length_be_put n v : length (be_put n v) = n.
Proof. induction n; cbn [be_put length]; congruence. Qed.

Lemma be_get_app l1 l2 :
  be_get (l1 ++ l2) = be_get l1 * 256 ^ Z.of_nat (length l2) + be_get l2.
Proof.
  unfold be_get. rewrite fold_left_app.
  generalize (fold_left (fun acc b => acc * 256 + b) l1 0) as a.
  induction l2 as [|b l2 IH] using rev_ind; intros a.
  { simpl. lia. }
  rewrite !fold_left_app. simpl. rewrite IH, length_app, Nat2Z.inj_add. simpl.
  rewrite Z.pow_add_r by lia. lia.
Qed.

Lemma be_get_put_mod n v : be_get (be_put n v) = v mod 256 ^ Z.of_nat n.
Proof.
  induction n as [|n IH].
  { simpl. by rewrite Z.mod_1_r. }
  cbn [be_put].
  change (?x :: ?l) with ([x] ++ l).
  rewrite be_get_app, length_be_put, IH.
  change (be_get [?x]) with (0 * 256 + x).
  rewrite Nat2Z.inj_succ, Z.pow_succ_r by lia.
  replace (2 ^ (8 * Z.of_nat n)) with (256 ^ Z.of_nat n)
    by (rewrite Z.pow_mul_r by lia; done).
  rewrite (Z.mul_comm 256 (256 ^ _)), Z.rem_mul_r by lia. lia.
Qed.

Lemma be_get_put n v : 0 <= v < 2 ^ (8 * Z.of_nat n) -> be_get (be_put n v) = v.
Proof.
  intros H. rewrite be_get_put_mod. apply Z.mod_small.
  rewrite Z.pow_mul_r in H by lia. done.
Qed.

Lemma be_get_put4 v : 0 <= v < 2 ^ 32 -> be_get (be_put 4 v) = v.
Proof. apply (be_get_put 4). Qed.

Lemma be_get_put2 v : 0 <= v < 2 ^ 16 -> be_get (be_put 2 v) = v.
Proof. apply (be_get_put 2). Qed.

Lemma be_get_put8 v : is_u64 v -> be_get (be_put 8 v) = v.
Proof. apply (be_get_put 8). Qed.

Lemma be_put_bytes n v : Forall byte_ok (be_put n v).
Proof.
  induction n; constructor; [|done].
  unfold byte_ok. apply Z.mod_pos_bound. lia.
Qed.

#[global] Arguments be_put : simpl never.
#[global] Arguments be_get : simpl never.
#[global] Arguments slice : simpl never.
#[global] Arguments write : simpl never.
#[global] Arguments byte_at : simpl never.
#[global] Arguments u64 : simpl never.
#[global] Arguments i64 : simpl never.

Lemma length_write buf off bs :
  (off + length bs <= length buf)%nat -> length (write buf off bs) = length buf.
Proof.
  intros H. unfold write. rewrite !length_app, length_take, length_drop. lia.
Qed.

Lemma slice_write_eq buf off bs :
  (off + length bs <= length buf)%nat ->
  slice (write buf off bs) off (length bs) = bs.
Proof.
  intros H. unfold slice, write.
  rewrite drop_app_length' by (rewrite length_take; lia).
  by rewrite take_app_length.
Qed.

Lemma slice_write_eq' buf off n bs :
  n = length bs -> (off + n <= length buf)%nat ->
  slice (write buf off bs) off n = bs.
Proof. intros -> H. by apply slice_write_eq. Qed.

Lemma slice_write_lt buf off n off' bs :
  (off + n <= off')%nat -> (off' + length bs <= length buf)%nat ->
  slice (write buf off' bs) off n = slice buf off n.
Proof.
  intros H1 H2. unfold slice, write.
  rewrite drop_app_le by (rewrite length_take; lia).
  rewrite take_app_le by (rewrite length_drop, length_take; lia).
  rewrite skipn_firstn_comm, take_take. f_equal. lia.
Qed.

Lemma slice_write_gt buf off n off' bs :
  (off' + length bs <= off)%nat -> (off' + length bs <= length buf)%nat ->
  slice (write buf off' bs) off n = slice buf off n.
Proof.
  intros H1 H2. unfold slice, write. f_equal.
  rewrite drop_app_ge by (rewrite length_take; lia).
  rewrite length_take, drop_app_ge by lia.
  rewrite drop_drop. f_equal. lia.
Qed.

Lemma slice_one buf i :
  (i < length buf)%nat -> slice buf i 1 = [byte_at buf i].
Proof.
  intros H. unfold slice, byte_at.
  destruct (lookup_lt_is_Some_2 buf i H) as [b Hb].
  rewrite (drop_S buf b i Hb). simpl. f_equal.
  symmetry. apply nth_lookup_Some. exact Hb.
Qed.

Lemma byte_at_slice buf i b :
  slice buf i 1 = [b] -> byte_at buf i = b.
Proof.
  unfold slice, byte_at. intros H.
  assert (Hl : is_Some (buf !! i)).
  { apply lookup_lt_is_Some_2. apply (f_equal length) in H.
    rewrite length_take, length_drop in H. cbn [length] in H. lia. }
  destruct Hl as [c Hc].
  rewrite (drop_S buf c i Hc) in H. simpl in H. injection H as ->.
  apply nth_lookup_Some. exact Hc.
Qed.

Lemma length_write_ge buf off bs : (length buf <= length (write buf off bs))%nat.
Proof. unfold write. rewrite !length_app, length_take, length_drop. lia. Qed.

Lemma take_write_below buf off bs n :
  (n <= off)%nat -> (off <= length buf)%nat ->
  take n (write buf off bs) = take n buf.
Proof.
  intros H1 H2. unfold write.
  rewrite take_app_le by (rewrite length_take; lia).
  rewrite take_take. f_equal. lia.
Qed.

Lemma drop_write_above buf off bs n :
  (off + length bs <= n)%nat -> (off <= length buf)%nat ->
  drop n (write buf off bs) = drop n buf.
Proof.
  intros H1 H2. unfold write.
  rewrite drop_app_ge by (rewrite length_take; lia).
  rewrite drop_app_ge by (rewrite length_take; lia).
  rewrite drop_drop, length_take. f_equal. lia.
Qed.

(** Length side conditions over a chain of writes. *)
Ltac buf_len :=
  rewrite ?length_be_put; cbn [length];
  repeat (eapply Nat.le_trans; [|apply length_write_ge]); lia.

(** Reads a field back through a chain of writes at constant offsets, choosing
    the lemma by comparing the offsets. *)
Ltac read_field :=
  repeat match goal with
    | |- context [slice (write ?b ?o ?bs) ?off ?n] =>
        let same := eval vm_compute in (Nat.eqb o off) in
        let below := eval vm_compute in (Nat.ltb off o) in
        lazymatch same with
        | true => rewrite (slice_write_eq' b o n bs)
                    by (lazymatch goal with
                        | |- _ = _ => rewrite ?length_be_put; cbn [length]; congruence
                        | |- _ => buf_len
                        end)
        | false =>
            lazymatch below with
            | true => rewrite (slice_write_lt b off n o bs) by buf_len
            | false => rewrite (slice_write_gt b off n o bs) by buf_len
            end
        end
    end.

(** Proves one field of an encoded buffer. *)
Ltac wire_field :=
  lazymatch goal with
  | |- byte_at _ _ = _ => apply byte_at_slice; read_field; reflexivity
  | |- be_get (slice _ _ 8) = _ => read_field; apply be_get_put8; assumption
  | |- be_get (slice _ _ 4) = _ => read_field; apply be_get_put4; done
  | |- be_get (slice _ _ 2) = _ => read_field; apply be_get_put2; done
  | |- slice _ _ _ = _ => read_field; reflexivity
  | |- _ => idtac
  end.

(** ** Folds *)

Lemma fold_left_inv {A B} (f : A -> B -> A) (P : A -> Prop) (l : list B) (a : A) :
  P a -> (forall a b, b ∈ l -> P a -> P (f a b)) -> P (fold_left f l a).
Proof.
  revert a. induction l as [|b l IH]; intros a Ha Hf; simpl; [done|].
  apply IH; [apply Hf; [left|done]|]. intros. apply Hf; [by right|done].
Qed.

(** The same with the elements still to visit in the invariant. *)
Lemma fold_left_rest {A B} (f : A -> B -> A) (I : A -> list B -> Prop) (l : list B) (a : A) :
  I a l -> (forall a b rest, I a (b :: rest) -> I (f a b) rest) -> I (fold_left f l a) [].
Proof. revert a. induction l as [|b l IH]; intros a Ha Hf; simpl; auto. Qed.

Lemma filter_none {A} (P : A -> Prop) `{!forall x, Decision (P x)} (l : list A) :
  (forall x, x ∈ l -> ~ P x) -> filter P l = [].
Proof.
  intros Hn. induction l as [|x l IH]; [done|].
  rewrite filter_cons_False by (apply Hn; left). apply IH. intros y Hy. apply Hn. by right.
Qed.

(** The sum of a measure over the values of a map. *)
Definition map_sum {V} (f : V -> nat) (m : gmap Z V) : nat := map_fold (fun _ v n => (f v + n)%nat) 0%nat m.

Lemma map_sum_empty {V} (f : V -> nat) : map_sum f ∅ = 0%nat.
Proof. apply map_fold_empty. Qed.

Lemma map_sum_insert_new {V} (f : V -> nat) m k v :
  m !! k = None -> map_sum f (<[k := v]> m) = (f v + map_sum f m)%nat.
Proof. intros H. unfold map_sum. rewrite map_fold_insert_L; [done| |done]. intros; lia. Qed.

Lemma map_sum_delete {V} (f : V -> nat) (m : gmap Z V) k v :
  m !! k = Some v -> map_sum f m = (f v + map_sum f (delete k m))%nat.
Proof.
  intros H. rewrite <- (insert_delete_id m k v H) at 1.
  apply map_sum_insert_new. apply lookup_delete_eq.
Qed.

Lemma map_sum_insert {V} (f : V -> nat) (m : gmap Z V) k old v :
  m !! k = Some old -> (map_sum f (<[k := v]> m) + f old = map_sum f m + f v)%nat.
Proof.
  intros H. rewrite (map_sum_delete f m k old H).
  rewrite <- insert_delete_eq, map_sum_insert_new by apply lookup_delete_eq. lia.
Qed.

(** Counting the elements that pass a boolean test. *)
Definition count {A} (f : A -> bool) (l : list A) : nat := length (List.filter f l).

Lemma count_cons {A} (f : A -> bool) x l : count f (x :: l) = ((if f x then 1 else 0) + count f l)%nat.
Proof. unfold count. simpl. by destruct (f x). Qed.

Lemma count_app {A} (f : A -> bool) l1 l2 : count f (l1 ++ l2) = (count f l1 + count f l2)%nat.
Proof. unfold count. by rewrite List.filter_app, length_app. Qed.

Lemma count_perm {A} (f : A -> bool) l1 l2 : l1 ≡ₚ l2 -> count f l1 = count f l2.
Proof. unfold count. induction 1; simpl; repeat case_match; simpl; congruence. Qed.

(** How many values of a map pass a test. *)
Definition map_count {V} (f : V -> bool) (m : gmap Z V) : nat := map_sum (fun v => if f v then 1 else 0)%nat m.

Lemma map_count_list {V} (f : V -> bool) (m : gmap Z V) (l : list (Z * V)) :
  l ≡ₚ map_to_list m -> count (fun p => f p.2) l = map_count f m.
Proof.
  intros Hp. rewrite (count_perm _ _ _ Hp). clear l Hp. unfold map_count.
  induction m as [|k v m Hk Hf IH] using map_first_key_ind.
  { by rewrite map_to_list_empty, map_sum_empty. }
  rewrite map_to_list_insert_first_key, map_sum_insert_new by done.
  rewrite <- IH. unfold count. simpl. by destruct (f v).
Qed.

Lemma map_count_empty {V} (f : V -> bool) : map_count f ∅ = 0%nat.
Proof. apply map_sum_empty. Qed.

Lemma map_count_insert_new {V} (f : V -> bool) (m : gmap Z V) k v :
  m !! k = None -> map_count f (<[k := v]> m) = ((if f v then 1 else 0) + map_count f m)%nat.
Proof. apply map_sum_insert_new. Qed.

Lemma map_count_delete {V} (f : V -> bool) (m : gmap Z V) k v :
  m !! k = Some v -> map_count f m = ((if f v then 1 else 0) + map_count f (delete k m))%nat.
Proof. apply map_sum_delete. Qed.

Lemma map_count_delete_le {V} (f : V -> bool) (m : gmap Z V) k :
  (map_count f (delete k m) <= map_count f m)%nat.
Proof.
  destruct (m !! k) as [v|] eqn:E.
  - rewrite (map_count_delete f m k v E). lia.
  - by rewrite delete_id.
Qed.

Lemma map_count_insert_le {V} (f : V -> bool) (m : gmap Z V) k v :
  (map_count f (<[k := v]> m) <= (if f v then 1 else 0) + map_count f m)%nat.
Proof.
  rewrite <- insert_delete_eq, map_count_insert_new by apply lookup_delete_eq.
  pose proof (map_count_delete_le f m k). lia.
Qed.

Lemma map_count_insert_same {V} (f : V -> bool) (m : gmap Z V) k old v :
  m !! k = Some old -> f v = f old -> map_count f (<[k := v]> m) = map_count f m.
Proof.
  intros H Hf. pose proof (map_sum_insert (fun v => if f v then 1 else 0)%nat m k old v H) as Hs.
  unfold map_count. cbn beta in Hs. rewrite Hf in Hs. lia.
Qed.
