(* ===== verification/Wire.v ===== *)
(** * The NACK and response datagrams (nack/wire.go)

    The 64-byte NACK request and the 16-byte MISS/ACK/THROTTLED response,
    field by field at the offsets of the wire tables, with the decoders'
    checks in their order.  A [[]byte] is a list of byte values; the encoders
    write into the caller's buffer and panic ([None]) when it is too short. *)

From S2P Require Import Prelude.

(** ** Data *)

Definition NACKSize : nat := 64.

Definition MsgTypeNACK : Z := 0x10.

Definition MsgTypeMISS : Z := 0x11.

Definition MsgTypeACK : Z := 0x12.

Definition MsgTypeTHROTTLED : Z := 0x13.

Definition ResponseSize : nat := 16.

Definition nackMagic : Z := 0xE3E1F3E8.

Definition nackProtoVer : Z := 0x02BF.

Record NACK := mkNACK {
  n_MsgType : Z;
  n_HashKey : Z;
  n_StartSeq : Z;
  n_EndSeq : Z;
  n_SubtreeID : bytes
}.

Record Response := mkResponse {
  r_MsgType : Z;
  r_Flags : Z;
  r_SeqNum : Z
}.

Inductive WireError := ErrBadNACK | ErrBadResponse.

(** The field ranges that the Go types impose. *)
Definition NACK_ok (n : NACK) : Prop :=
  byte_ok (n_MsgType n) /\ is_u64 (n_HashKey n) /\ is_u64 (n_StartSeq n) /\
  is_u64 (n_EndSeq n) /\ length (n_SubtreeID n) = 32%nat.

Definition Response_ok (r : Response) : Prop :=
  byte_ok (r_MsgType r) /\ byte_ok (r_Flags r) /\ is_u64 (r_SeqNum r).

(** ** Operations *)

Definition Encode (n : NACK) (buf : bytes) : option bytes :=
  if (length buf <? NACKSize)%nat then None else
  let buf := write buf 0 (be_put 4 nackMagic) in
  let buf := write buf 4 (be_put 2 nackProtoVer) in
  let buf := write buf 6 [n_MsgType n] in
  let buf := write buf 7 [0] in
  let buf := write buf 8 (be_put 8 (n_HashKey n)) in
  let buf := write buf 16 (be_put 8 (n_StartSeq n)) in
  let buf := write buf 24 (be_put 8 (n_EndSeq n)) in
  Some (write buf 32 (n_SubtreeID n)).

Definition Decode (buf : bytes) : NACK + WireError :=
  if (length buf <? NACKSize)%nat then inr ErrBadNACK else
  if negb (be_get (slice buf 0 4) =? nackMagic) then inr ErrBadNACK else
  let mt := byte_at buf 6 in
  if negb (mt =? MsgTypeNACK) then inr ErrBadNACK else
  inl {| n_MsgType := mt;
         n_HashKey := be_get (slice buf 8 8);
         n_StartSeq := be_get (slice buf 16 8);
         n_EndSeq := be_get (slice buf 24 8);
         n_SubtreeID := slice buf 32 32 |}.

Definition EncodeResponse (r : Response) (buf : bytes) : option bytes :=
  if (length buf <? ResponseSize)%nat then None else
  let buf := write buf 0 (be_put 4 nackMagic) in
  let buf := write buf 4 (be_put 2 nackProtoVer) in
  let buf := write buf 6 [r_MsgType r] in
  let buf := write buf 7 [r_Flags r] in
  Some (write buf 8 (be_put 8 (r_SeqNum r))).

Definition DecodeResponse (buf : bytes) : Response + WireError :=
  if (length buf <? ResponseSize)%nat then inr ErrBadResponse else
  if negb (be_get (slice buf 0 4) =? nackMagic) then inr ErrBadResponse else
  let mt := byte_at buf 6 in
  if negb (mt =? MsgTypeMISS) && negb (mt =? MsgTypeACK) && negb (mt =? MsgTypeTHROTTLED)
  then inr ErrBadResponse else
  inl {| r_MsgType := mt;
         r_Flags := byte_at buf 7;
         r_SeqNum := be_get (slice buf 8 8) |}.

(** ** Lemmas *)

(** What a written NACK buffer holds at each offset, and what it leaves alone. *)
Lemma Encode_fields n buf out :
  NACK_ok n -> Encode n buf = Some out ->
  length out = length buf /\ (NACKSize <= length out)%nat /\
  be_get (slice out 0 4) = nackMagic /\ be_get (slice out 4 2) = nackProtoVer /\
  byte_at out 6 = n_MsgType n /\ byte_at out 7 = 0 /\
  be_get (slice out 8 8) = n_HashKey n /\ be_get (slice out 16 8) = n_StartSeq n /\
  be_get (slice out 24 8) = n_EndSeq n /\ slice out 32 32 = n_SubtreeID n /\
  drop 64 out = drop 64 buf.
Proof.
  intros (_ & Hh & Hs & He & Hl). unfold Encode, NACKSize.
  destruct (length buf <? 64)%nat eqn:E; [done|]. apply Nat.ltb_ge in E.
  intros [= <-].
  split_and!; wire_field.
  - repeat (rewrite length_write by buf_len). done.
  - buf_len.
  - repeat (rewrite drop_write_above; [|rewrite ?length_be_put; cbn [length]; lia|buf_len]).
    done.
Qed.

Lemma EncodeResponse_fields r buf out :
  Response_ok r -> EncodeResponse r buf = Some out ->
  length out = length buf /\ (ResponseSize <= length out)%nat /\
  be_get (slice out 0 4) = nackMagic /\ be_get (slice out 4 2) = nackProtoVer /\
  byte_at out 6 = r_MsgType r /\ byte_at out 7 = r_Flags r /\
  be_get (slice out 8 8) = r_SeqNum r /\ drop 16 out = drop 16 buf.
Proof.
  intros (_ & _ & Hs). unfold EncodeResponse, ResponseSize.
  destruct (length buf <? 16)%nat eqn:E; [done|]. apply Nat.ltb_ge in E.
  intros [= <-].
  split_and!; wire_field.
  - repeat (rewrite length_write by buf_len). done.
  - buf_len.
  - repeat (rewrite drop_write_above; [|rewrite ?length_be_put; cbn [length]; lia|buf_len]).
    done.
Qed.

Lemma Decode_ok_inv buf n :
  Decode buf = inl n ->
  (NACKSize <= length buf)%nat /\ be_get (slice buf 0 4) = nackMagic /\
  byte_at buf 6 = MsgTypeNACK /\ n_MsgType n = MsgTypeNACK.
Proof.
  unfold Decode. repeat case_test; intros; simplify_eq/=; bool_to_prop.
  split_and!; [by apply Nat.ltb_ge | done..].
Qed.

Lemma DecodeResponse_ok_inv buf r :
  DecodeResponse buf = inl r ->
  (ResponseSize <= length buf)%nat /\ be_get (slice buf 0 4) = nackMagic /\
  r_MsgType r = byte_at buf 6 /\
  (r_MsgType r = MsgTypeMISS \/ r_MsgType r = MsgTypeACK \/ r_MsgType r = MsgTypeTHROTTLED).
Proof.
  unfold DecodeResponse. repeat case_test; intros; simplify_eq/=; bool_to_prop.
  split_and!; [by apply Nat.ltb_ge | done | done |].
  split_bool; auto.
Qed.

(** ** Properties *)

(** Encoding a well-formed NACK into any buffer of at least 64 bytes yields
    a datagram that [Decode] reads back field for field, with the wire's fixed
    protocol version and a zero Flags byte, and leaves the bytes past the
    datagram as they were. *)
Lemma nack_roundtrip (n : NACK) (buf : bytes)
    (Hok : NACK_ok n) (Hty : n_MsgType n = MsgTypeNACK)
    (Hlen : (NACKSize <= length buf)%nat) :
  exists out, Encode n buf = Some out /\ Decode out = inl n /\
    length out = length buf /\ byte_at out 7 = 0 /\
    be_get (slice out 4 2) = nackProtoVer /\ drop NACKSize out = drop NACKSize buf.
Proof.
  destruct (Encode n buf) as [out|] eqn:E.
  2: { exfalso. unfold Encode in E. apply Nat.ltb_ge in Hlen. by rewrite Hlen in E. }
  destruct (Encode_fields n buf out Hok E) as (Hl & Hge & Hm & Hv & H6 & H7 & H8 & H16 & H24 & H32 & Hd).
  exists out. split_and!; try done.
  unfold Decode. apply Nat.ltb_ge in Hge. rewrite Hge, Hm, H6, Hty, H8, H16, H24, H32.
  destruct n; simpl in *; by subst.
Qed.

(** Encoding a well-formed response of one of the three kinds into any
    buffer of at least 16 bytes yields a datagram [DecodeResponse] reads back
    field for field; and no datagram is both a NACK and a response, so the
    drain loop can never take a request for an answer. *)
Lemma response_roundtrip (r : Response) (buf : bytes)
    (Hok : Response_ok r)
    (Hty : r_MsgType r = MsgTypeMISS \/ r_MsgType r = MsgTypeACK \/ r_MsgType r = MsgTypeTHROTTLED)
    (Hlen : (ResponseSize <= length buf)%nat) :
  exists out, EncodeResponse r buf = Some out /\ DecodeResponse out = inl r /\
    length out = length buf /\ Decode out = inr ErrBadNACK.
Proof.
  destruct (EncodeResponse r buf) as [out|] eqn:E.
  2: { exfalso. unfold EncodeResponse in E. apply Nat.ltb_ge in Hlen. by rewrite Hlen in E. }
  destruct (EncodeResponse_fields r buf out Hok E) as (Hl & Hge & Hm & Hv & H6 & H7 & H8 & Hd).
  exists out. split_and!; try done.
  - unfold DecodeResponse. apply Nat.ltb_ge in Hge. rewrite Hge, Hm, H6, H7, H8.
    destruct Hty as [Ht|[Ht|Ht]]; rewrite Ht; destruct r; simpl in *; by subst.
  - unfold Decode. rewrite Hm, H6.
    destruct (length out <? NACKSize)%nat; [done|].
    by destruct Hty as [Ht|[Ht|Ht]]; rewrite Ht.
Qed.

Lemma nack_not_response buf n r : Decode buf = inl n -> DecodeResponse buf <> inl r.
Proof.
  intros Hd Hr. apply Decode_ok_inv in Hd. apply DecodeResponse_ok_inv in Hr.
  unfold MsgTypeNACK, MsgTypeMISS, MsgTypeACK, MsgTypeTHROTTLED in *. lia.
Qed.

(** C40: Round trips of the wire format.  A well-formed NACK encoded into any
    buffer of at least 64 bytes decodes to itself, with the fixed protocol version
    and a zero Flags byte, and the bytes behind it are untouched; a well-formed
    MISS or ACK response encoded into at least 16 bytes decodes to itself; and no
    datagram whatsoever decodes both as a NACK and as a response. *)
Theorem wire_roundtrip :
  (forall n buf, NACK_ok n -> n_MsgType n = MsgTypeNACK -> (NACKSize <= length buf)%nat ->
     exists out, Encode n buf = Some out /\ Decode out = inl n /\
       length out = length buf /\ byte_at out 7 = 0 /\
       be_get (slice out 4 2) = nackProtoVer /\ drop NACKSize out = drop NACKSize buf) /\
  (forall r buf, Response_ok r -> r_MsgType r = MsgTypeMISS \/ r_MsgType r = MsgTypeACK ->
     (ResponseSize <= length buf)%nat ->
     exists out, EncodeResponse r buf = Some out /\ DecodeResponse out = inl r /\ length out = length buf) /\
  (forall buf n r, Decode buf = inl n -> DecodeResponse buf <> inl r).
Proof.
  split; [exact nack_roundtrip|split].
  - intros r buf Hok Hty Hlen. destruct (response_roundtrip r buf Hok) as (out & ? & ? & ? & _); [tauto|done|]. eauto.
  - exact nack_not_response.
Qed.

Lemma wire_roundtrip_witness :
  let n := mkNACK 0x10 (2 ^ 64 - 1) 7 7 (zeros 32) in
  let r := mkResponse 0x12 0x02 12345 in
  (exists out, Encode n (zeros 70) = Some out /\ Decode out = inl n /\ DecodeResponse out <> inl r) /\
  (exists out, EncodeResponse r (zeros 16) = Some out /\ DecodeResponse out = inl r).
Proof.
  intros n r. destruct wire_roundtrip as (Hn & Hr & Hx). split.
  - destruct (Hn n (zeros 70)) as (out & He & Hd & _); [|reflexivity|unfold NACKSize; simpl; lia|].
    + unfold NACK_ok, byte_ok, is_u64; simpl. lia.
    + exists out. split; [done|]. split; [done|]. by apply (Hx out n).
  - destruct (Hr r (zeros 16)) as (out & He & Hd & _); [|right; reflexivity|unfold ResponseSize; simpl; lia|by exists out].
    unfold Response_ok, byte_ok, is_u64; simpl. lia.
Defined.
