(* ===== verification/Discovery.v ===== *)
(** * Retry-endpoint discovery (discovery/advert.go, registry.go, beacon.go)

    The ADVERT beacon codec, the endpoint registry with its cached sorted
    snapshot, and the beacon listener's demultiplexing and group handling.

    The registry's map iteration order and [sort.Slice]'s placement of equal
    elements are not fixed by Go; both are an argument here ([RegEnv]) and the
    theorems hold for every choice that Go allows ([RegEnv_ok]). *)

From stdpp Require Import pretty.
From S2P Require Import Prelude.

(** ** Data *)

Definition ADVERTSize : nat := 56.

Definition MsgTypeADVERT : Z := 0x20.

Definition advertMagic : Z := 0xE3E1F3E8.

Definition advertProtoVer : Z := 0x02BF.

Definition FlagDraining : Z := 0x0004.

Definition FlagUnicastRetransmit : Z := 0x0008.

Inductive AdvertError := ErrBadADVERT | ErrAllZeros.

Record ADVERT := mkADVERT {
  a_Scope : Z;
  a_NACKAddr : bytes;
  a_NACKPort : Z;
  a_Tier : Z;
  a_Preference : Z;
  a_BeaconInterval : Z;
  a_Flags : Z;
  a_InstanceID : Z
}.

Definition ADVERT_ok (a : ADVERT) : Prop :=
  byte_ok (a_Scope a) /\ length (a_NACKAddr a) = 16%nat /\ Forall byte_ok (a_NACKAddr a) /\
  0 <= a_NACKPort a < 2 ^ 16 /\ byte_ok (a_Tier a) /\ byte_ok (a_Preference a) /\
  0 <= a_BeaconInterval a < 2 ^ 16 /\ 0 <= a_Flags a < 2 ^ 16 /\
  0 <= a_InstanceID a < 2 ^ 32.

(** [net.IP.To16]: a 16-byte address as it is, a 4-byte one mapped, else nil. *)
Definition To16 (ip : bytes) : bytes :=
  if (length ip =? 4)%nat then repeat 0 10 ++ [255; 255] ++ ip
  else if (length ip =? 16)%nat then ip else [].

(** ** The ADVERT codec *)

Definition EncodeADVERT (a : ADVERT) (buf : bytes) : option bytes :=
  if (length buf <? ADVERTSize)%nat then None else
  let buf := write buf 0 (be_put 4 advertMagic) in
  let buf := write buf 4 (be_put 2 advertProtoVer) in
  let buf := write buf 6 [MsgTypeADVERT] in
  let buf := write buf 7 [a_Scope a] in
  let buf := write buf 8 (take 16 (To16 (a_NACKAddr a))) in
  let buf := write buf 24 (be_put 2 (a_NACKPort a)) in
  let buf := write buf 26 [a_Tier a] in
  let buf := write buf 27 [a_Preference a] in
  let buf := write buf 28 (be_put 2 (a_BeaconInterval a)) in
  let buf := write buf 30 (be_put 2 (a_Flags a)) in
  let buf := write buf 32 (be_put 4 (a_InstanceID a)) in
  let buf := write buf 36 (be_put 4 0) in
  Some (write buf 40 (zeros 16)).

Definition DecodeADVERT (buf : bytes) : ADVERT + AdvertError :=
  if (length buf <? ADVERTSize)%nat then inr ErrBadADVERT else
  if negb (be_get (slice buf 0 4) =? advertMagic) then inr ErrBadADVERT else
  if negb (byte_at buf 6 =? MsgTypeADVERT) then inr ErrBadADVERT else
  let nackAddr := slice buf 8 16 in
  if forallb (fun b => b =? 0) nackAddr then inr ErrAllZeros else
  inl {| a_Scope := byte_at buf 7;
         a_NACKAddr := nackAddr;
         a_NACKPort := be_get (slice buf 24 2);
         a_Tier := byte_at buf 26;
         a_Preference := byte_at buf 27;
         a_BeaconInterval := be_get (slice buf 28 2);
         a_Flags := be_get (slice buf 30 2);
         a_InstanceID := be_get (slice buf 32 4) |}.

(** ** The registry *)

Record EndpointEntry := mkEndpoint {
  ep_Addr : string;
  ep_Tier : Z;
  ep_Preference : Z;
  ep_Flags : Z;
  ep_Expires : Z;
  ep_InstanceID : Z;
  ep_SupportsUnicast : bool
}.

Record Registry := mkRegistry {
  rg_entries : gmap Z EndpointEntry;
  rg_seeds : list EndpointEntry;
  rg_snapshot : option (list EndpointEntry);
  rg_dirty : bool
}.

(** What Go leaves open: the order in which [range r.entries] visits the map and
    the permutation [sort.Slice] produces. *)
Record RegEnv := mkRegEnv {
  re_range : gmap Z EndpointEntry -> list (Z * EndpointEntry);
  re_sort : list EndpointEntry -> list EndpointEntry
}.

(** The comparison handed to [sort.Slice]. *)
Definition ep_less (x y : EndpointEntry) : bool :=
  if negb (ep_Tier x =? ep_Tier y) then ep_Tier x <? ep_Tier y
  else ep_Preference y <? ep_Preference x.

(** [x] may come before [y] in a slice sorted with [ep_less]. *)
Definition ep_le (x y : EndpointEntry) : Prop := ep_less y x = false.

Definition NewRegistry : Registry := mkRegistry ∅ [] None false.

(** The expiry of a seed: [time.Date(9999, 1, 1, ...)], Unix seconds 253370764800. *)
Definition seed_expiry : Z := 253370764800 * ns_per_s.

Section Ops.

(** [net.IP.String] *)
Variable ip_string : bytes -> string.

Definition advert_addr (a : ADVERT) : string :=
  (("[" ++ ip_string (a_NACKAddr a)) ++ "]:" ++ pretty (a_NACKPort a))%string.

Definition Upsert (r : Registry) (now : Z) (a : ADVERT) : Registry :=
  let ttl := i64 (i64 (a_BeaconInterval a * 3) * ns_per_s) in
  let e := {| ep_Addr := advert_addr a;
              ep_Tier := a_Tier a;
              ep_Preference := a_Preference a;
              ep_Flags := a_Flags a;
              ep_Expires := time_add now ttl;
              ep_InstanceID :=
                match rg_entries r !! a_InstanceID a with
                | Some old => ep_InstanceID old
                | None => a_InstanceID a
                end;
              ep_SupportsUnicast := negb (Z.land (a_Flags a) FlagUnicastRetransmit =? 0) |} in
  mkRegistry (<[a_InstanceID a := e]> (rg_entries r)) (rg_seeds r) (rg_snapshot r) true.

Definition expired (now : Z) (e : EndpointEntry) : bool := after now (ep_Expires e).

Definition Evict (r : Registry) (now : Z) : Registry :=
  let live := filter (fun p => expired now p.2 = false) (rg_entries r) in
  let gone := filter (fun p => expired now p.2 = true) (rg_entries r) in
  mkRegistry live (rg_seeds r) (rg_snapshot r)
    (if decide (gone = ∅) then rg_dirty r else true).

Definition seed_entry (i : nat) (addr : string) : EndpointEntry :=
  {| ep_Addr := addr;
     ep_Tier := 0xFF;
     ep_Preference := u8 (Z.max 0 (255 - Z.of_nat i));
     ep_Flags := 0;
     ep_Expires := seed_expiry;
     ep_InstanceID := u32 (0xFFFFF000 + Z.of_nat i);
     ep_SupportsUnicast := false |}.

Definition Seed (r : Registry) (addrs : list string) : Registry :=
  mkRegistry (rg_entries r) (imap seed_entry addrs) (rg_snapshot r) true.

(** The merged list of a rebuild, before sorting: every beacon entry, then the
    seeds whose address no beacon entry has. *)
Definition merged_list (env : RegEnv) (r : Registry) : list EndpointEntry :=
  let ents := (re_range env (rg_entries r)).*2 in
  let seen := ep_Addr <$> ents in
  ents ++ filter (fun s => ep_Addr s ∉ seen) (rg_seeds r).

Definition Snapshot (env : RegEnv) (r : Registry) : list EndpointEntry * Registry :=
  match rg_dirty r, rg_snapshot r with
  | false, Some snap => (snap, r)
  | _, _ =>
      let snap := re_sort env (merged_list env r) in
      (snap, mkRegistry (rg_entries r) (rg_seeds r) (Some snap) false)
  end.

Definition Len (r : Registry) : Z :=
  Z.of_nat (size (rg_entries r)) + Z.of_nat (length (rg_seeds r)).

(** ** The beacon listener *)

(** [handleADVERT]: an undecodable or draining beacon changes nothing; the
    second component is whether [BeaconAdvertReceived] is counted. *)
Definition handleADVERT (r : Registry) (now : Z) (buf : bytes) : Registry * bool :=
  match DecodeADVERT buf with
  | inr _ => (r, false)
  | inl advert =>
      if negb (Z.land (a_Flags advert) FlagDraining =? 0) then (r, false)
      else (Upsert r now advert, true)
  end.

End Ops.

(** A UDP group address: the IP and the port. *)
Record UDPAddr := mkUDPAddr { ua_IP : bytes; ua_Port : Z }.

(** [bucketByPort]: [idx] is the port to bucket index map. *)
Definition bucket_step (st : gmap Z nat * list (list UDPAddr)) (grp : UDPAddr) :
    gmap Z nat * list (list UDPAddr) :=
  let '(idx, buckets) := st in
  match idx !! ua_Port grp with
  | Some i => (idx, alter (fun b => b ++ [grp]) i buckets)
  | None => (<[ua_Port grp := length buckets]> idx, buckets ++ [[grp]])
  end.

Definition bucketByPort (groups : list UDPAddr) : list (list UDPAddr) :=
  snd (fold_left bucket_step groups (∅, [])).

Definition sourcesFor (byPort : gmap Z (list bytes)) (sources : list bytes) (grp : UDPAddr) : list bytes :=
  match byPort !! ua_Port grp with Some srcs => srcs | None => sources end.

(** ** What Go allows, and the registry's promise *)

Record RegEnv_ok (env : RegEnv) : Prop := {
  re_range_perm : forall m, re_range env m ≡ₚ map_to_list m;
  re_sort_perm : forall l, re_sort env l ≡ₚ l;
  re_sort_sorted : forall l, StronglySorted ep_le (re_sort env l)
}.

(** The promised contents of a snapshot: every beacon entry, and each seed whose
    address no beacon entry has. *)
Definition view (r : Registry) : list EndpointEntry :=
  (map_to_list (rg_entries r)).*2 ++
  filter (fun s => ep_Addr s ∉ (ep_Addr <$> (map_to_list (rg_entries r)).*2)) (rg_seeds r).

Definition is_view (r : Registry) (l : list EndpointEntry) : Prop :=
  l ≡ₚ view r /\ StronglySorted ep_le l.

(** A clean cache holds the current view. *)
Definition reg_inv (r : Registry) : Prop :=
  rg_dirty r = false -> forall l, rg_snapshot r = Some l -> is_view r l.

(** The operations of the registry as steps. *)
Inductive reg_step (ip_string : bytes -> string) : Registry -> Registry -> Prop :=
| step_upsert r now a : reg_step ip_string r (Upsert ip_string r now a)
| step_evict r now : reg_step ip_string r (Evict r now)
| step_seed r addrs : reg_step ip_string r (Seed r addrs)
| step_snapshot r env : RegEnv_ok env -> reg_step ip_string r (snd (Snapshot env r))
| step_advert r now buf : reg_step ip_string r (fst (handleADVERT ip_string r now buf)).

(** ** Lemmas *)

Lemma EncodeADVERT_fields a buf out :
  ADVERT_ok a -> EncodeADVERT a buf = Some out ->
  length out = length buf /\ (ADVERTSize <= length out)%nat /\
  be_get (slice out 0 4) = advertMagic /\ byte_at out 6 = MsgTypeADVERT /\
  byte_at out 7 = a_Scope a /\ slice out 8 16 = a_NACKAddr a /\
  be_get (slice out 24 2) = a_NACKPort a /\ byte_at out 26 = a_Tier a /\
  byte_at out 27 = a_Preference a /\ be_get (slice out 28 2) = a_BeaconInterval a /\
  be_get (slice out 30 2) = a_Flags a /\ be_get (slice out 32 4) = a_InstanceID a /\
  slice out 36 4 = be_put 4 0 /\ slice out 40 16 = zeros 16.
Proof.
  intros (_ & Hl & _ & Hp & _ & _ & Hb & Hf & Hi). unfold EncodeADVERT, ADVERTSize.
  destruct (length buf <? 56)%nat eqn:E; [done|]. apply Nat.ltb_ge in E.
  assert (Hip : take 16 (To16 (a_NACKAddr a)) = a_NACKAddr a).
  { unfold To16. rewrite Hl. apply take_ge. lia. }
  rewrite Hip. intros [= <-].
  assert (Hz : length (zeros 16) = 16%nat) by done.
  set (zz := zeros 16) in *. clearbody zz.
  split_and!; wire_field.
  - repeat (rewrite length_write by buf_len). done.
  - buf_len.
Qed.

Lemma ep_le_perm_view env r : RegEnv_ok env -> merged_list env r ≡ₚ view r.
Proof.
  intros Hok. unfold merged_list, view.
  assert (H2 : (re_range env (rg_entries r)).*2 ≡ₚ (map_to_list (rg_entries r)).*2)
    by (by apply fmap_Permutation, re_range_perm).
  rewrite H2. apply Permutation_app_head.
  assert (Heq : forall s, ep_Addr s ∉ ep_Addr <$> (re_range env (rg_entries r)).*2 <->
                     ep_Addr s ∉ ep_Addr <$> (map_to_list (rg_entries r)).*2).
  { intros s. by rewrite H2. }
  erewrite list_filter_iff; [done|]. apply Heq.
Qed.

Lemma Snapshot_is_view env r :
  RegEnv_ok env -> reg_inv r -> is_view r (fst (Snapshot env r)).
Proof.
  intros Hok Hinv. unfold Snapshot.
  assert (Hre : is_view r (re_sort env (merged_list env r))).
  { split; [|by apply re_sort_sorted].
    rewrite (re_sort_perm env Hok). by apply ep_le_perm_view. }
  destruct (rg_dirty r) eqn:Hd; [done|].
  destruct (rg_snapshot r) as [l|] eqn:Hs; [|done].
  by apply Hinv.
Qed.

Lemma Snapshot_entries env r :
  rg_entries (snd (Snapshot env r)) = rg_entries r /\ rg_seeds (snd (Snapshot env r)) = rg_seeds r.
Proof. unfold Snapshot. by destruct (rg_dirty r), (rg_snapshot r). Qed.

Lemma reg_inv_dirty ents seeds snap : reg_inv (mkRegistry ents seeds snap true).
Proof. by intros ?. Qed.

#[export] Hint Resolve reg_inv_dirty : listener.

Lemma Evict_inv r now : reg_inv r -> reg_inv (Evict r now).
Proof.
  intros Hinv. unfold Evict. case_decide as Hg; [|apply reg_inv_dirty].
  assert (Heq : filter (fun p => expired now p.2 = false) (rg_entries r) = rg_entries r).
  { apply map_filter_id. intros i e Hi. simpl.
    destruct (expired now e) eqn:Hx; [|done].
    assert (Hin : filter (fun p : Z * EndpointEntry => expired now p.2 = true) (rg_entries r) !! i = Some e)
      by (by apply map_lookup_filter_Some_2).
    by rewrite Hg, lookup_empty in Hin. }
  rewrite Heq. by destruct r.
Qed.

Lemma Snapshot_inv env r : RegEnv_ok env -> reg_inv r -> reg_inv (snd (Snapshot env r)).
Proof.
  intros Hok Hinv. pose proof (Snapshot_is_view env r Hok Hinv) as Hv.
  unfold Snapshot in *.
  destruct (rg_dirty r) eqn:Hd; simpl in *.
  { intros _ l [= <-]. exact Hv. }
  destruct (rg_snapshot r) as [l|] eqn:Hs; simpl in *; [done|].
  intros _ l [= <-]. exact Hv.
Qed.

Lemma handleADVERT_inv ip_string r now buf :
  reg_inv r -> reg_inv (fst (handleADVERT ip_string r now buf)).
Proof.
  intros H. unfold handleADVERT. repeat case_match; simpl; auto with listener.
  apply reg_inv_dirty.
Qed.

#[export] Hint Resolve Evict_inv Snapshot_inv handleADVERT_inv : listener.

Lemma reg_step_inv ips r r' : reg_step ips r r' -> reg_inv r -> reg_inv r'.
Proof. intros [] Hi; eauto with listener; apply reg_inv_dirty. Qed.

Lemma reg_reachable_inv ips r : rtc (reg_step ips) NewRegistry r -> reg_inv r.
Proof.
  intros H. eapply (rtc_ind_r reg_inv NewRegistry); [| |exact H].
  - intros ? l. by simpl.
  - intros y z _ Hs Hi. by eapply reg_step_inv.
Qed.

Lemma ep_le_spec x y :
  ep_le x y <-> ep_Tier x < ep_Tier y \/ (ep_Tier x = ep_Tier y /\ ep_Preference y <= ep_Preference x).
Proof.
  unfold ep_le, ep_less.
  destruct (Z.eqb_spec (ep_Tier y) (ep_Tier x)); simpl; rewrite Z.ltb_ge; lia.
Qed.

Lemma sorted_lookup_le l i j x y :
  StronglySorted ep_le l -> l !! i = Some x -> l !! j = Some y -> (i < j)%nat -> ep_le x y.
Proof.
  intros Hs. revert i j. induction Hs as [|z l Hs IH Hall]; intros i j Hi Hj Hij; [done|].
  destruct j as [|j]; [lia|]. destruct i as [|i]; simpl in *.
  - simplify_eq. rewrite Forall_forall in Hall. apply Hall.
    by eapply list_elem_of_lookup_2.
  - eapply IH; eauto. lia.
Qed.

Lemma seed_entry_strict i j x y :
  (i < j < 256)%nat -> ep_le (seed_entry j y) (seed_entry i x) -> False.
Proof.
  intros Hij. rewrite ep_le_spec. simpl. unfold u8.
  rewrite !Z.mod_small by lia. lia.
Qed.

(** The invariant of [bucketByPort]'s loop: [idx] maps each port seen to the
    bucket that holds exactly the groups on that port, in arrival order. *)
Record bucket_inv (seen : list UDPAddr) (st : gmap Z nat * list (list UDPAddr)) : Prop := {
  bi_some : forall (p : Z) (i : nat), st.1 !! p = Some i ->
    st.2 !! i = Some (filter (fun g => ua_Port g = p) seen) /\
    filter (fun g => ua_Port g = p) seen <> [];
  bi_none : forall (p : Z), st.1 !! p = None -> filter (fun g => ua_Port g = p) seen = [];
  bi_all : forall (i : nat) (b : list UDPAddr), st.2 !! i = Some b -> exists p : Z, st.1 !! p = Some i;
  bi_inj : forall (p q : Z) (i : nat), st.1 !! p = Some i -> st.1 !! q = Some i -> p = q
}.

Lemma bucket_inv_lt seen st (p : Z) i : bucket_inv seen st -> st.1 !! p = Some i -> (i < length st.2)%nat.
Proof. intros H Hp. apply (bi_some _ _ H) in Hp as [Hl _]. by eapply lookup_lt_Some. Qed.

Lemma filter_snoc_port p seen grp :
  filter (fun g => ua_Port g = p) (seen ++ [grp]) =
  filter (fun g => ua_Port g = p) seen ++ (if decide (ua_Port grp = p) then [grp] else []).
Proof. rewrite filter_app. f_equal. Qed.

Lemma bucket_step_inv seen st grp :
  bucket_inv seen st -> bucket_inv (seen ++ [grp]) (bucket_step st grp).
Proof.
  intros H. destruct st as [idx bs]. unfold bucket_step.
  destruct (idx !! ua_Port grp) as [i0|] eqn:E; split; simpl; intros p; try rewrite filter_snoc_port.
  - intros i Hp. destruct (bi_some _ _ H p i Hp) as [Hb Hne]. simpl in *.
    case_decide as Hpe; subst.
    + simplify_eq. rewrite list_lookup_alter_eq, Hb. simpl. split; [done|].
      by destruct (filter _ seen).
    + rewrite app_nil_r, list_lookup_alter_ne; [done|].
      intros ->. apply Hpe. by eapply (bi_inj _ _ H).
  - intros Hp. case_decide; [congruence|]. rewrite app_nil_r. by apply (bi_none _ _ H).
  - intros b. destruct (decide (p = i0)) as [->|Hne].
    + eauto.
    + rewrite list_lookup_alter_ne by done. apply (bi_all _ _ H).
  - intros q i. apply (bi_inj _ _ H).
  - intros i. rewrite lookup_insert. case_decide; subst.
    + intros [= <-]. rewrite (bi_none _ _ H) by done. simpl.
      rewrite lookup_app_r, Nat.sub_diag by lia. done.
    + intros Hp. destruct (bi_some _ _ H p i Hp) as [Hb Hne]. simpl in *.
      rewrite app_nil_r, lookup_app_l; [done|]. by eapply lookup_lt_Some.
  - rewrite lookup_insert. case_decide; [done|]. intros Hp.
    rewrite app_nil_r. by apply (bi_none _ _ H).
  - intros b Hb. destruct (decide (p = length bs)) as [->|Hne].
    + exists (ua_Port grp). by rewrite lookup_insert_eq.
    + assert (Hlt : (p < length bs)%nat).
      { apply lookup_lt_Some in Hb. rewrite length_app in Hb. simpl in Hb. lia. }
      rewrite lookup_app_l in Hb by done.
      destruct (bi_all _ _ H p b Hb) as [q Hq]. exists q.
      rewrite lookup_insert_ne; [done|]. intros <-. simpl in *. congruence.
  - intros q i Hp Hq. pose proof (bucket_inv_lt _ _ p i H). pose proof (bucket_inv_lt _ _ q i H).
    rewrite lookup_insert in Hp, Hq. simpl in *.
    repeat case_decide; simplify_eq; try done; try (by eapply (bi_inj _ _ H)); exfalso;
      naive_solver lia.
Qed.

Lemma bucket_fold_inv groups seen st :
  bucket_inv seen st -> bucket_inv (seen ++ groups) (fold_left bucket_step groups st).
Proof.
  revert seen st. induction groups as [|g groups IH]; intros seen st H; simpl.
  { by rewrite app_nil_r. }
  rewrite cons_middle, app_assoc. apply IH. by apply bucket_step_inv.
Qed.

Lemma bucket_final_inv groups : bucket_inv groups (fold_left bucket_step groups (∅, [])).
Proof.
  apply (bucket_fold_inv groups []). split; simpl; intros *; try done; by rewrite lookup_empty.
Qed.

(** Concrete choices of the open orders, for the witnesses: the map's own list
    order and a merge sort. *)
#[export] Instance ep_le_dec : RelDecision ep_le.
Proof. intros x y. unfold ep_le. apply _. Defined.

#[export] Instance ep_le_total : Total ep_le.
Proof. intros x y. rewrite !ep_le_spec. lia. Qed.

#[export] Instance ep_le_trans : Transitive ep_le.
Proof. intros x y z. rewrite !ep_le_spec. lia. Qed.

Definition reg_env0 : RegEnv := mkRegEnv map_to_list (merge_sort ep_le).

Lemma reg_env0_ok : RegEnv_ok reg_env0.
Proof.
  split; intros; simpl; [done| |].
  - apply merge_sort_Permutation.
  - apply StronglySorted_merge_sort; apply _.
Qed.

Definition advert0 : ADVERT :=
  mkADVERT 5 (repeat 0 15 ++ [1]) 9300 1 9 30 8 42.

(** ** Properties *)

(** Encoding an ADVERT with a 16-byte address that is not all zeros into any
    buffer of at least 56 bytes yields a beacon [DecodeADVERT] reads back field
    for field, with the reserved bytes cleared; an all-zero address is refused. *)
Theorem advert_roundtrip (a : ADVERT) (buf : bytes)
    (Hok : ADVERT_ok a) (Hlen : (ADVERTSize <= length buf)%nat) :
  exists out, EncodeADVERT a buf = Some out /\ length out = length buf /\
    slice out 40 16 = zeros 16 /\
    DecodeADVERT out =
      if forallb (fun b => b =? 0) (a_NACKAddr a) then inr ErrAllZeros else inl a.
Proof.
  destruct (EncodeADVERT a buf) as [out|] eqn:E.
  2: { exfalso. unfold EncodeADVERT in E. apply Nat.ltb_ge in Hlen. by rewrite Hlen in E. }
  destruct (EncodeADVERT_fields a buf out Hok E)
    as (Hl & Hge & Hm & H6 & H7 & H8 & H24 & H26 & H27 & H28 & H30 & H32 & _ & Hz).
  exists out. split_and!; try done.
  unfold DecodeADVERT. apply Nat.ltb_ge in Hge.
  rewrite Hge, Hm, H6, H7, H8, H24, H26, H27, H28, H30, H32. by destruct a.
Qed.

Lemma advert_roundtrip_witness :
  exists out, EncodeADVERT advert0 (zeros 56) = Some out /\ length out = length (zeros 56) /\
    slice out 40 16 = zeros 16 /\
    DecodeADVERT out =
      if forallb (fun b => b =? 0) (a_NACKAddr advert0) then inr ErrAllZeros else inl advert0.
Proof.
  apply (advert_roundtrip advert0 (zeros 56)).
  - unfold ADVERT_ok, byte_ok; simpl. split_and!; try lia.
    repeat constructor; lia.
  - unfold ADVERTSize; simpl; lia.
Defined.

(** In every state the registry's operations can reach, whatever the map
    order and the sort's placement of ties, [Snapshot] returns the current
    endpoint set and not a stale cache: exactly the live beacon entries plus the
    seeds whose address no beacon has, ordered by tier and then by descending
    preference. *)
Theorem snapshot_current (ips : bytes -> string) (r : Registry) (env : RegEnv)
    (Hreach : rtc (reg_step ips) NewRegistry r) (Hok : RegEnv_ok env) :
  is_view r (fst (Snapshot env r)).
Proof. apply Snapshot_is_view; [done|]. by eapply reg_reachable_inv. Qed.

Lemma snapshot_current_witness :
  let ips := fun _ : bytes => "::1"%string in
  let r := Evict (Upsert ips (Seed NewRegistry ["[::2]:9300"%string]) 0 advert0) 1 in
  is_view r (fst (Snapshot reg_env0 r)).
Proof.
  intros ips r. apply (snapshot_current ips r reg_env0); [|exact reg_env0_ok].
  eapply rtc_l; [apply (step_seed ips _ ["[::2]:9300"%string])|].
  eapply rtc_l; [apply (step_upsert ips _ 0 advert0)|].
  eapply rtc_l; [apply (step_evict ips _ 1)|]. apply rtc_refl.
Defined.

(** The order of the static seeds survives the unstable sort: in every
    snapshot of a registry whose seeds were last set by [Seed], of two different
    seeds among the first 256 the one earlier in the seed list comes first, and a
    beacon-discovered endpoint below tier 255 comes before every seed. *)
Theorem seed_order (r0 : Registry) (addrs : list string)
    (env : RegEnv) (Hok : RegEnv_ok env) :
  let l := fst (Snapshot env (Seed r0 addrs)) in
  (forall i j a b p q, addrs !! i = Some a -> addrs !! j = Some b -> (i < j < 256)%nat ->
     l !! p = Some (seed_entry i a) -> l !! q = Some (seed_entry j b) -> (p < q)%nat) /\
  (forall i a e p q, addrs !! i = Some a -> ep_Tier e < 255 ->
     l !! p = Some e -> l !! q = Some (seed_entry i a) -> (p < q)%nat).
Proof.
  intros l.
  assert (Hs : StronglySorted ep_le l).
  { by apply (Snapshot_is_view env (Seed r0 addrs) Hok (reg_inv_dirty _ _ _)). }
  split.
  - intros i j a b p q Hi Hj Hij Hp Hq.
    destruct (lt_eq_lt_dec p q) as [[?| ->]|Hlt]; [done| |]; exfalso.
    + assert (Heq : seed_entry i a = seed_entry j b) by congruence.
      eapply (seed_entry_strict i j a b); [done|]. rewrite <- Heq, ep_le_spec. lia.
    + eapply (seed_entry_strict i j); [done|]. by eapply sorted_lookup_le.
  - intros i a e p q Hi Ht Hp Hq.
    destruct (lt_eq_lt_dec p q) as [[?| ->]|Hlt]; [done| |]; exfalso.
    + assert (Heq : e = seed_entry i a) by congruence. subst. simpl in Ht. lia.
    + pose proof (sorted_lookup_le l q p _ _ Hs Hq Hp Hlt) as Hle.
      rewrite ep_le_spec in Hle. simpl in Hle. lia.
Qed.

Lemma seed_order_witness :
  let addrs := ["a:1"%string; "b:1"%string] in
  let l := fst (Snapshot reg_env0 (Seed NewRegistry addrs)) in
  (forall i j a b p q, addrs !! i = Some a -> addrs !! j = Some b -> (i < j < 256)%nat ->
     l !! p = Some (seed_entry i a) -> l !! q = Some (seed_entry j b) -> (p < q)%nat) /\
  (forall i a e p q, addrs !! i = Some a -> ep_Tier e < 255 ->
     l !! p = Some e -> l !! q = Some (seed_entry i a) -> (p < q)%nat).
Proof.
  intros addrs. exact (seed_order NewRegistry addrs reg_env0 reg_env0_ok).
Defined.

(** [bucketByPort] gives one bucket per UDP port: each bucket holds exactly
    the configured groups on its port, in their configured order and at least
    one of them, every group is in a bucket, and two buckets never share a port,
    so no port is bound twice. *)
Theorem bucketByPort_spec (groups : list UDPAddr) :
  (forall i b, bucketByPort groups !! i = Some b ->
     exists p, b = filter (fun g => ua_Port g = p) groups /\ b <> []) /\
  (forall g, g ∈ groups -> exists i b, bucketByPort groups !! i = Some b /\ g ∈ b) /\
  (forall i j b c g h, bucketByPort groups !! i = Some b -> bucketByPort groups !! j = Some c ->
     i <> j -> g ∈ b -> h ∈ c -> ua_Port g <> ua_Port h).
Proof.
  pose proof (bucket_final_inv groups) as H. unfold bucketByPort.
  destruct (fold_left bucket_step groups (∅, [])) as [idx bs] eqn:E. simpl.
  assert (Hof : forall i b, bs !! i = Some b -> exists p : Z, idx !! p = Some i /\
            b = filter (fun g => ua_Port g = p) groups /\ b <> []).
  { intros i b Hb. destruct (bi_all _ _ H i b Hb) as [p Hp]. exists p.
    destruct (bi_some _ _ H p i Hp) as [Hb' Hne]. simpl in *. by simplify_eq. }
  split_and!.
  - intros i b Hb. destruct (Hof i b Hb) as (p & _ & ? & ?). eauto.
  - intros g Hg. destruct (idx !! ua_Port g) as [i|] eqn:Hi.
    + destruct (bi_some _ _ H _ _ Hi) as [Hb _]. exists i, (filter (fun h => ua_Port h = ua_Port g) groups).
      split; [done|]. by apply list_elem_of_filter.
    + pose proof (bi_none _ _ H _ Hi) as Hn.
      assert (Hin : g ∈ filter (fun h => ua_Port h = ua_Port g) groups) by (by apply list_elem_of_filter).
      rewrite Hn in Hin. set_solver.
  - intros i j b c g h Hb Hc Hij Hg Hh Heq.
    destruct (Hof i b Hb) as (p & Hp & -> & _), (Hof j c Hc) as (q & Hq & -> & _).
    apply list_elem_of_filter in Hg as [Hgp _]. apply list_elem_of_filter in Hh as [Hhp _].
    congruence.
Qed.
