(* ===== verification/Metrics.v ===== *)
(** * The metrics recorder (metrics/metrics.go)

    The recorder's counters, gauges and readiness.  A counter is reached through a
    handle, a field of the recorder that [New] sets by registering an instrument;
    its series are the label sets it was called with.  Label values are their text,
    as a scrape shows them.  A method's result is [None] where the code panics: on
    a handle that was never set, or a vector given a wrong number of label values.
    The exporters, the HTTP server and the runtime collectors are libraries. *)

From stdpp Require Import pretty.
From S2P Require Import Prelude.

(** ** Instruments *)

(** The recorder's counter fields. *)
Inductive Handle :=
| promFramesReceived | promFramesDropped | promBundlesRebucketed | promRebucketUnguarded | promFramesForwarded
| promFramesInvalidPayload | promFramesDeduped | promFramesTxDeduped | promEgressErrors | promMCEgressErrors
| promRetryTeeFrames | promRetryTeeErrors | promRetryTeeDropped | frameReassemblyStarted
| frameReassemblyCompleted | frameReassemblyAbandoned | frameReassemblyHashMismatch
| frameReassemblyLateFragment | frameReassemblyBadFragment | frameReassemblyOversize
| reassemblyAbandonedReason | reassemblyRepairWait | reassemblyRepairWaitDone | txDedupErrors
| egressClaimLocalHit | egressClaimWon | egressClaimLost | egressClaimError | ingressMarkSet
| ingressMarkExisted | ingressMarkError | ingressMarkDropped | headerForwarded | headerEgressErrors
| tailProbesSent | tailProbesRecovered | tailProbesMiss | gapsDetected | gapsSuppressed | flowsRefused
| seqRebaselines | nacksDispatched | nackSendErrors | nacksThrottled | nacksUnrecovered | gapsAbandoned
| gapsLateFilled | subtreeGroupAnnouncesReceived | subtreeGroupAnnouncesRejected | subtreeGroupEvictions
| beaconAdvertsReceived | manifestReceived | manifestDivergence | manifestAdoption | manifestReshardEmitDup.

#[export] Instance Handle_eq_dec : EqDecision Handle.
Proof. solve_decision. Defined.

(** What [New] registers behind a field: a Prometheus vector with its label names,
    or an OpenTelemetry counter, whose labels are those of each call. *)
Inductive Instrument := CounterVec (name : string) (labels : list string) | Int64Counter (name : string).

Definition instr_name (i : Instrument) : string := match i with CounterVec n _ | Int64Counter n => n end.

(** The hot path. *)
Definition hot_path : list (Handle * Instrument) := [
  (promFramesReceived, CounterVec "bsl_frames_received_total" ["worker"; "network_interface_name"; "version"]);
  (promFramesDropped, CounterVec "bsl_frames_dropped_total" ["worker"; "reason"]);
  (promBundlesRebucketed, CounterVec "bsl_bundles_rebucketed_total" ["worker"]);
  (promRebucketUnguarded, CounterVec "bsl_rebucket_unguarded_total" ["worker"]);
  (promFramesForwarded, CounterVec "bsl_frames_forwarded_total" ["worker"; "proto"]);
  (promFramesInvalidPayload, CounterVec "bsl_frames_invalid_payload_total" ["worker"]);
  (promFramesDeduped, CounterVec "bsl_frames_deduped_total" ["worker"]);
  (promFramesTxDeduped, CounterVec "bsl_frames_tx_deduped_total" ["worker"]);
  (promEgressErrors, CounterVec "bsl_egress_errors_total" ["worker"]);
  (promMCEgressErrors, CounterVec "bsl_mc_egress_errors_total" ["worker"]);
  (promRetryTeeFrames, CounterVec "bsl_retry_tee_frames_total" ["worker"]);
  (promRetryTeeErrors, CounterVec "bsl_retry_tee_errors_total" ["worker"]);
  (promRetryTeeDropped, CounterVec "bsl_retry_tee_dropped_total" ["worker"])
   ]%string.

(** Reassembly. *)
Definition reassembly_counters : list (Handle * Instrument) := [
  (frameReassemblyStarted, Int64Counter "bsl_reassembly_started_total");
  (frameReassemblyCompleted, Int64Counter "bsl_reassembly_completed_total");
  (frameReassemblyAbandoned, Int64Counter "bsl_reassembly_abandoned_total");
  (frameReassemblyHashMismatch, Int64Counter "bsl_reassembly_hash_mismatch_total");
  (frameReassemblyLateFragment, Int64Counter "bsl_reassembly_late_fragments_total");
  (frameReassemblyBadFragment, Int64Counter "bsl_reassembly_bad_fragment_total");
  (frameReassemblyOversize, Int64Counter "bsl_reassembly_oversize_fragments_total");
  (reassemblyAbandonedReason, Int64Counter "bsl_reassembly_abandoned_reason_total");
  (reassemblyRepairWait, Int64Counter "bsl_reassembly_repair_wait_total");
  (reassemblyRepairWaitDone, Int64Counter "bsl_reassembly_repair_wait_completed_total")
   ]%string.

(** Claims, marks and the header lane. *)
Definition dedup_counters : list (Handle * Instrument) := [
  (txDedupErrors, Int64Counter "bsl_txid_dedup_errors_total");
  (egressClaimLocalHit, Int64Counter "bsl_egress_claim_local_hit_total");
  (egressClaimWon, Int64Counter "bsl_egress_claim_won_total");
  (egressClaimLost, Int64Counter "bsl_egress_claim_lost_total");
  (egressClaimError, Int64Counter "bsl_egress_claim_errors_total");
  (ingressMarkSet, Int64Counter "bsl_ingress_mark_set_total");
  (ingressMarkExisted, Int64Counter "bsl_ingress_mark_existed_total");
  (ingressMarkError, Int64Counter "bsl_ingress_mark_errors_total");
  (ingressMarkDropped, Int64Counter "bsl_ingress_mark_dropped_total");
  (headerForwarded, Int64Counter "bsl_header_forwarded_total");
  (headerEgressErrors, Int64Counter "bsl_header_egress_errors_total")
   ]%string.

(** Gaps, NACKs and tail probes. *)
Definition gap_counters : list (Handle * Instrument) := [
  (tailProbesSent, Int64Counter "bsl_tail_probes_sent_total");
  (tailProbesRecovered, Int64Counter "bsl_tail_probes_recovered_total");
  (tailProbesMiss, Int64Counter "bsl_tail_probes_miss_total");
  (gapsDetected, Int64Counter "bsl_gaps_detected_total");
  (gapsSuppressed, Int64Counter "bsl_gaps_suppressed_total");
  (flowsRefused, Int64Counter "bsl_nack_flows_refused_total");
  (seqRebaselines, Int64Counter "bsl_seq_rebaselines_total");
  (nacksDispatched, Int64Counter "bsl_nacks_dispatched_total");
  (nackSendErrors, Int64Counter "bsl_nack_send_errors_total");
  (nacksThrottled, Int64Counter "bsl_nacks_throttled_total");
  (nacksUnrecovered, Int64Counter "bsl_gaps_unrecovered_total");
  (gapsAbandoned, Int64Counter "bsl_gaps_abandoned_total");
  (gapsLateFilled, Int64Counter "bsl_gaps_late_filled_total")
   ]%string.

(** Announcements, beacons and manifests. *)
Definition discovery_counters : list (Handle * Instrument) := [
  (subtreeGroupAnnouncesReceived, Int64Counter "bsl_subtree_group_announces_received_total");
  (subtreeGroupAnnouncesRejected, Int64Counter "bsl_subtree_group_announces_rejected_total");
  (subtreeGroupEvictions, Int64Counter "bsl_subtree_group_evictions_total");
  (beaconAdvertsReceived, Int64Counter "bsl_beacon_adverts_received_total");
  (manifestReceived, Int64Counter "multicast_manifest_received_total");
  (manifestDivergence, Int64Counter "multicast_manifest_divergence_total");
  (manifestAdoption, Int64Counter "multicast_manifest_adoption_total");
  (manifestReshardEmitDup, Int64Counter "multicast_manifest_resharding_emit_duplicates_total")
   ]%string.

Definition instruments : list (Handle * Instrument) :=
  hot_path ++ reassembly_counters ++ dedup_counters ++ gap_counters ++ discovery_counters.

Definition handle (h : Handle) : option Instrument :=
  match List.find (fun p => bool_decide (p.1 = h)) instruments with Some p => Some p.2 | None => None end.

(** ** The recorder *)

(** A series: a metric name and its labels. *)
Definition Labels : Type := gmap string string.

Definition Series : Type := string * Labels.

(** [r_counters] holds the series counted so far; a series it lacks reads 0. *)
Record Recorder := mkRecorder {
  r_numWorkers : Z;
  r_startTime : Z;
  r_readyCount : Z;
  r_draining : bool;
  r_counters : gmap Series Z;
  r_subtreeGroupEntries : Z;
  r_beaconRegistryEndpoints : Z;
  r_manifestPilotsKnown : Z;
  r_manifestQuorumMetBits : Z;
  r_lastDivergence : gmap string Z;
  r_manifestReshardState : Z;
  r_manifestReshardWindow : Z
}.

(** [Register] refuses a vector whose name is taken. *)
Definition Register (names : list string) (v : Instrument) : option (list string) :=
  if bool_decide (instr_name v ∈ names) then None else Some (instr_name v :: names).

Definition New (numWorkers now : Z) : option Recorder :=
  _ ← foldl (fun names v => names ≫= fun names => Register names v) (Some []) hot_path.*2;
  Some (mkRecorder numWorkers now 0 false ∅ 0 0 0 0 ∅ 0 0).

Definition i32 (z : Z) : Z := (z + 2 ^ 31) mod 2 ^ 32 - 2 ^ 31.

Definition Itoa (n : Z) : string := pretty n.

(** ** Counting *)

Definition counter (r : Recorder) (s : Series) : Z := default 0 (r_counters r !! s).

Definition set_counters (m : gmap Series Z) (r : Recorder) : Recorder :=
  mkRecorder (r_numWorkers r) (r_startTime r) (r_readyCount r) (r_draining r) m (r_subtreeGroupEntries r)
    (r_beaconRegistryEndpoints r) (r_manifestPilotsKnown r) (r_manifestQuorumMetBits r) (r_lastDivergence r)
    (r_manifestReshardState r) (r_manifestReshardWindow r).

Definition bump (s : Series) (n : Z) (r : Recorder) : Recorder := set_counters (<[s := counter r s + n]> (r_counters r)) r.

(** [WithLabelValues(vals...).Inc()]. *)
Definition inc (h : Handle) (vals : list string) (r : Recorder) : option Recorder :=
  match handle h with
  | Some (CounterVec name labels) =>
      if (length vals =? length labels)%nat then Some (bump (name, list_to_map (zip labels vals)) 1 r) else None
  | _ => None
  end.

(** [Add(ctx, n, metric.WithAttributes(attrs...))]. *)
Definition add (h : Handle) (n : Z) (attrs : list (string * string)) (r : Recorder) : option Recorder :=
  match handle h with
  | Some (Int64Counter name) => Some (bump (name, list_to_map attrs) n r)
  | _ => None
  end.

(** [attribute.String] and [attribute.Int]. *)
Definition attr_String (k v : string) : string * string := (k, v).

Definition attr_Int (k : string) (v : Z) : string * string := (k, Itoa v).

(** The methods that are safe on a nil recorder. *)
Definition nil_safe (m : Recorder -> option Recorder) (r : option Recorder) : option (option Recorder) :=
  match r with None => Some None | Some r => Some <$> m r end.

(** ** Methods *)

Definition FrameReceived (workerID : Z) (iface version : string) : Recorder -> option Recorder :=
  inc promFramesReceived [Itoa workerID; iface; version].

Definition FrameDropped (workerID : Z) (reason : string) : Recorder -> option Recorder :=
  inc promFramesDropped [Itoa workerID; reason].

Definition FrameForwarded (workerID : Z) (proto : string) : Recorder -> option Recorder :=
  inc promFramesForwarded [Itoa workerID; proto].

Definition RetryTeeFrame (workerID : Z) : Recorder -> option Recorder := inc promRetryTeeFrames [Itoa workerID].

Definition RetryTeeError (workerID : Z) : Recorder -> option Recorder := inc promRetryTeeErrors [Itoa workerID].

Definition RetryTeeDropped (workerID : Z) : Recorder -> option Recorder := inc promRetryTeeDropped [Itoa workerID].

Definition BundleRebucketed (workerID : Z) : Recorder -> option Recorder := inc promBundlesRebucketed [Itoa workerID].

Definition RebucketUnguarded (workerID : Z) : Recorder -> option Recorder := inc promRebucketUnguarded [Itoa workerID].

Definition FrameInvalidPayload (workerID : Z) : Recorder -> option Recorder := inc promFramesInvalidPayload [Itoa workerID].

Definition ReassemblyStarted : Recorder -> option Recorder := add frameReassemblyStarted 1 [].

Definition ReassemblyCompleted : Recorder -> option Recorder := add frameReassemblyCompleted 1 [].

Definition ReassemblyAbandoned : Recorder -> option Recorder := add frameReassemblyAbandoned 1 [].

Definition ReassemblyHashMismatch : Recorder -> option Recorder := add frameReassemblyHashMismatch 1 [].

Definition ReassemblyLateFragment : Recorder -> option Recorder := add frameReassemblyLateFragment 1 [].

Definition ReassemblyBadFragment : Recorder -> option Recorder := add frameReassemblyBadFragment 1 [].

Definition ReassemblyOversize : Recorder -> option Recorder := add frameReassemblyOversize 1 [].

Definition ReassemblyAbandonedReason (reason : string) : Recorder -> option Recorder :=
  add reassemblyAbandonedReason 1 [attr_String "reason" reason].

Definition ReassemblyRepairWait : Recorder -> option Recorder := add reassemblyRepairWait 1 [].

Definition ReassemblyRepairWaitCompleted : Recorder -> option Recorder := add reassemblyRepairWaitDone 1 [].

Definition FrameDeduped (workerID : Z) : Recorder -> option Recorder := inc promFramesDeduped [Itoa workerID].

Definition FrameTxDeduped (workerID : Z) : Recorder -> option Recorder := inc promFramesTxDeduped [Itoa workerID].

Definition TxDedupError : Recorder -> option Recorder := add txDedupErrors 1 [].

Definition EgressClaimLocalHit : Recorder -> option Recorder := add egressClaimLocalHit 1 [].

Definition EgressClaimWon : Recorder -> option Recorder := add egressClaimWon 1 [].

Definition EgressClaimLost : Recorder -> option Recorder := add egressClaimLost 1 [].

Definition EgressClaimError : Recorder -> option Recorder := add egressClaimError 1 [].

Definition IngressMarkSet : Recorder -> option Recorder := add ingressMarkSet 1 [].

Definition IngressMarkExisted : Recorder -> option Recorder := add ingressMarkExisted 1 [].

Definition IngressMarkError : Recorder -> option Recorder := add ingressMarkError 1 [].

Definition IngressMarkDropped : Recorder -> option Recorder := add ingressMarkDropped 1 [].

Definition EgressError (workerID : Z) : Recorder -> option Recorder := inc promEgressErrors [Itoa workerID].

Definition MCEgressError (workerID : Z) : Recorder -> option Recorder := inc promMCEgressErrors [Itoa workerID].

Definition HeaderForwarded (workerID : Z) : Recorder -> option Recorder :=
  add headerForwarded 1 [attr_Int "worker" workerID].

Definition HeaderEgressError (workerID : Z) : Recorder -> option Recorder :=
  add headerEgressErrors 1 [attr_Int "worker" workerID].

Definition GapDetected (flow source : string) : Recorder -> option Recorder :=
  add gapsDetected 1 [attr_String "flow" flow; attr_String "source" source].

Definition SeqRebaselined (flow source : string) : Recorder -> option Recorder :=
  add seqRebaselines 1 [attr_String "flow" flow; attr_String "source" source].

Definition FlowsRefused (flow : string) : Recorder -> option Recorder := add flowsRefused 1 [attr_String "flow" flow].

Definition GapSuppressed (flow source : string) : Recorder -> option Recorder :=
  add gapsSuppressed 1 [attr_String "flow" flow; attr_String "source" source].

Definition NACKDispatched (flow source : string) : Recorder -> option Recorder :=
  add nacksDispatched 1 [attr_String "flow" flow; attr_String "source" source].

Definition NACKSendError (endpoint : string) : Recorder -> option Recorder :=
  add nackSendErrors 1 [attr_String "endpoint" endpoint].

Definition NACKThrottled (flow source : string) : Recorder -> option Recorder :=
  add nacksThrottled 1 [attr_String "flow" flow; attr_String "source" source].

Definition GapUnrecovered (flow source : string) : Recorder -> option Recorder :=
  add nacksUnrecovered 1 [attr_String "flow" flow; attr_String "source" source].

Definition GapAbandoned (flow source reason : string) : Recorder -> option Recorder :=
  add gapsAbandoned 1 [attr_String "flow" flow; attr_String "source" source; attr_String "reason" reason].

Definition GapLateFilled (flow source : string) : Recorder -> option Recorder :=
  add gapsLateFilled 1 [attr_String "flow" flow; attr_String "source" source].

Definition SubtreeGroupAnnounceReceived : Recorder -> option Recorder := add subtreeGroupAnnouncesReceived 1 [].

Definition SubtreeGroupAnnounceRejected (reason : string) : Recorder -> option Recorder :=
  add subtreeGroupAnnouncesRejected 1 [attr_String "reason" reason].

Definition BeaconAdvertReceived : Recorder -> option Recorder := add beaconAdvertsReceived 1 [].

Definition ManifestReceived : option Recorder -> option (option Recorder) :=
  nil_safe (add manifestReceived 1 []).

Definition ManifestAdoption (field reason : string) : option Recorder -> option (option Recorder) :=
  nil_safe (add manifestAdoption 1 [attr_String "field" field; attr_String "reason" reason]).

Definition ManifestReshardEmitDuplicate : option Recorder -> option (option Recorder) :=
  nil_safe (add manifestReshardEmitDup 1 []).

Definition TailProbeSent (flow source : string) : Recorder -> option Recorder :=
  add tailProbesSent 1 [attr_String "flow" flow; attr_String "source" source].

Definition TailProbeRecovered (flow source : string) : Recorder -> option Recorder :=
  add tailProbesRecovered 1 [attr_String "flow" flow; attr_String "source" source].

Definition TailProbeMiss (flow source : string) : Recorder -> option Recorder :=
  add tailProbesMiss 1 [attr_String "flow" flow; attr_String "source" source].

(** The methods that store. *)
Definition with_gauges (entries endpoints pilots bits : Z) (div : gmap string Z) (state window : Z) (r : Recorder) : Recorder :=
  mkRecorder (r_numWorkers r) (r_startTime r) (r_readyCount r) (r_draining r) (r_counters r) entries endpoints pilots bits
    div state window.

Definition store_entries (n : Z) (r : Recorder) : Recorder :=
  with_gauges n (r_beaconRegistryEndpoints r) (r_manifestPilotsKnown r) (r_manifestQuorumMetBits r) (r_lastDivergence r)
    (r_manifestReshardState r) (r_manifestReshardWindow r) r.

Definition SubtreeGroupEvicted (evicted remaining : Z) (r : Recorder) : option Recorder :=
  store_entries remaining <$> (if 0 <? evicted then add subtreeGroupEvictions evicted [] r else Some r).

Definition SetBeaconRegistryEndpoints (n : Z) (r : Recorder) : option Recorder :=
  Some (with_gauges (r_subtreeGroupEntries r) n (r_manifestPilotsKnown r) (r_manifestQuorumMetBits r)
    (r_lastDivergence r) (r_manifestReshardState r) (r_manifestReshardWindow r) r).

Definition ManifestSetPilotsKnown (n : Z) : option Recorder -> option (option Recorder) :=
  nil_safe (fun r => Some (with_gauges (r_subtreeGroupEntries r) (r_beaconRegistryEndpoints r) n
    (r_manifestQuorumMetBits r) (r_lastDivergence r) (r_manifestReshardState r) (r_manifestReshardWindow r) r)).

Definition ManifestSetQuorumMetBits (bits : Z) : option Recorder -> option (option Recorder) :=
  nil_safe (fun r => Some (with_gauges (r_subtreeGroupEntries r) (r_beaconRegistryEndpoints r) (r_manifestPilotsKnown r)
    bits (r_lastDivergence r) (r_manifestReshardState r) (r_manifestReshardWindow r) r)).

Definition store_divergence (field : string) (ts : Z) (r : Recorder) : Recorder :=
  with_gauges (r_subtreeGroupEntries r) (r_beaconRegistryEndpoints r) (r_manifestPilotsKnown r)
    (r_manifestQuorumMetBits r) (<[field := ts]> (r_lastDivergence r)) (r_manifestReshardState r)
    (r_manifestReshardWindow r) r.

(** [now] is the clock in Unix seconds. *)
Definition ManifestDivergence (now : Z) (field kind : string) : option Recorder -> option (option Recorder) :=
  nil_safe (fun r => store_divergence field now <$>
    add manifestDivergence 1 [attr_String "field" field; attr_String "kind" kind] r).

Definition ManifestSetReshardState (state : Z) : option Recorder -> option (option Recorder) :=
  nil_safe (fun r => Some (with_gauges (r_subtreeGroupEntries r) (r_beaconRegistryEndpoints r) (r_manifestPilotsKnown r)
    (r_manifestQuorumMetBits r) (r_lastDivergence r) state (r_manifestReshardWindow r) r)).

Definition ManifestSetReshardWindowSeconds (s : Z) : option Recorder -> option (option Recorder) :=
  nil_safe (fun r => Some (with_gauges (r_subtreeGroupEntries r) (r_beaconRegistryEndpoints r) (r_manifestPilotsKnown r)
    (r_manifestQuorumMetBits r) (r_lastDivergence r) (r_manifestReshardState r) s r)).

(** ** Readiness *)

Definition set_ready (ready : Z) (draining : bool) (r : Recorder) : Recorder :=
  mkRecorder (r_numWorkers r) (r_startTime r) ready draining (r_counters r) (r_subtreeGroupEntries r)
    (r_beaconRegistryEndpoints r) (r_manifestPilotsKnown r) (r_manifestQuorumMetBits r) (r_lastDivergence r)
    (r_manifestReshardState r) (r_manifestReshardWindow r).

Definition WorkerReady (r : Recorder) : Recorder := set_ready (i32 (r_readyCount r + 1)) (r_draining r) r.

Definition WorkerDone (r : Recorder) : Recorder := set_ready (i32 (r_readyCount r - 1)) (r_draining r) r.

Definition SetDraining (r : Recorder) : Recorder := set_ready (r_readyCount r) true r.

(** An answer of the probe: its HTTP status and the fields of its JSON body. *)
Record Probe := mkProbe { p_code : Z; p_status : string; p_ready : Z; p_total : Z }.

Definition StatusOK : Z := 200.

Definition StatusServiceUnavailable : Z := 503.

Definition handleReadyz (r : Recorder) : Probe :=
  let ready := r_readyCount r in
  let total := r_numWorkers r in
  if r_draining r then mkProbe StatusServiceUnavailable "draining" ready total
  else if (total <=? ready) && (0 <? total) then mkProbe StatusOK "ready" ready total
  else mkProbe StatusServiceUnavailable "starting" ready total.

(** The liveness probe, with the uptime in nanoseconds. *)
Definition handleHealthz (now : Z) (r : Recorder) : Z * string * Z := (StatusOK, "ok"%string, now - r_startTime r).

(** ** Gauges *)

(** What the callbacks observe of a recorder, by metric name; the uptime is in
    nanoseconds. *)
Definition gauges (now : Z) (r : Recorder) : list (string * list (Labels * Z)) := [
  ("bsl_subtree_group_entries", [(∅, r_subtreeGroupEntries r)]);
  ("multicast_manifest_pilots_known", [(∅, r_manifestPilotsKnown r)]);
  ("multicast_manifest_last_divergence_epoch",
    (fun p => (list_to_map [attr_String "field" p.1], p.2)) <$> map_to_list (r_lastDivergence r));
  ("multicast_manifest_quorum_met_bits", [(∅, r_manifestQuorumMetBits r)]);
  ("multicast_manifest_resharding_state", [(∅, r_manifestReshardState r)]);
  ("multicast_manifest_resharding_window_seconds", [(∅, r_manifestReshardWindow r)]);
  ("bsl_beacon_registry_endpoints", [(∅, r_beaconRegistryEndpoints r)]);
  ("bsl_uptime_seconds", [(∅, now - r_startTime r)])
   ]%string.

(** ** Calls *)

(** The methods the listener calls. *)
Inductive Call :=
| CFrameReceived (workerID : Z) (iface version : string)
| CFrameDropped (workerID : Z) (reason : string)
| CFrameForwarded (workerID : Z) (proto : string)
| CRetryTeeFrame (workerID : Z)
| CRetryTeeError (workerID : Z)
| CRetryTeeDropped (workerID : Z)
| CBundleRebucketed (workerID : Z)
| CRebucketUnguarded (workerID : Z)
| CFrameInvalidPayload (workerID : Z)
| CReassemblyStarted
| CReassemblyCompleted
| CReassemblyAbandoned
| CReassemblyHashMismatch
| CReassemblyLateFragment
| CReassemblyBadFragment
| CReassemblyOversize
| CReassemblyAbandonedReason (reason : string)
| CReassemblyRepairWait
| CReassemblyRepairWaitCompleted
| CFrameDeduped (workerID : Z)
| CFrameTxDeduped (workerID : Z)
| CTxDedupError
| CEgressClaimLocalHit
| CEgressClaimWon
| CEgressClaimLost
| CEgressClaimError
| CIngressMarkSet
| CIngressMarkExisted
| CIngressMarkError
| CIngressMarkDropped
| CEgressError (workerID : Z)
| CMCEgressError (workerID : Z)
| CHeaderForwarded (workerID : Z)
| CHeaderEgressError (workerID : Z)
| CGapDetected (flow source : string)
| CSeqRebaselined (flow source : string)
| CFlowsRefused (flow : string)
| CGapSuppressed (flow source : string)
| CNACKDispatched (flow source : string)
| CNACKSendError (endpoint : string)
| CNACKThrottled (flow source : string)
| CGapUnrecovered (flow source : string)
| CGapAbandoned (flow source reason : string)
| CGapLateFilled (flow source : string)
| CSubtreeGroupAnnounceReceived
| CSubtreeGroupAnnounceRejected (reason : string)
| CBeaconAdvertReceived
| CManifestReceived
| CManifestAdoption (field reason : string)
| CManifestReshardEmitDuplicate
| CTailProbeSent (flow source : string)
| CTailProbeRecovered (flow source : string)
| CTailProbeMiss (flow source : string)
| CSubtreeGroupEvicted (evicted remaining : Z)
| CSetBeaconRegistryEndpoints (n : Z)
| CManifestSetPilotsKnown (n : Z)
| CManifestSetQuorumMetBits (bits : Z)
| CManifestDivergence (now : Z) (field kind : string)
| CManifestSetReshardState (state : Z)
| CManifestSetReshardWindowSeconds (s : Z)
| CWorkerReady
| CWorkerDone
| CSetDraining.

#[export] Instance Call_eq_dec : EqDecision Call.
Proof. solve_decision. Defined.

(** A nil-safe method on a recorder that is there. *)
Definition live (m : option Recorder -> option (option Recorder)) (r : Recorder) : option Recorder := m (Some r) ≫= id.

Definition run_call (c : Call) : Recorder -> option Recorder :=
  match c with
  | CFrameReceived workerID iface version => FrameReceived workerID iface version
  | CFrameDropped workerID reason => FrameDropped workerID reason
  | CFrameForwarded workerID proto => FrameForwarded workerID proto
  | CRetryTeeFrame workerID => RetryTeeFrame workerID
  | CRetryTeeError workerID => RetryTeeError workerID
  | CRetryTeeDropped workerID => RetryTeeDropped workerID
  | CBundleRebucketed workerID => BundleRebucketed workerID
  | CRebucketUnguarded workerID => RebucketUnguarded workerID
  | CFrameInvalidPayload workerID => FrameInvalidPayload workerID
  | CReassemblyStarted => ReassemblyStarted
  | CReassemblyCompleted => ReassemblyCompleted
  | CReassemblyAbandoned => ReassemblyAbandoned
  | CReassemblyHashMismatch => ReassemblyHashMismatch
  | CReassemblyLateFragment => ReassemblyLateFragment
  | CReassemblyBadFragment => ReassemblyBadFragment
  | CReassemblyOversize => ReassemblyOversize
  | CReassemblyAbandonedReason reason => ReassemblyAbandonedReason reason
  | CReassemblyRepairWait => ReassemblyRepairWait
  | CReassemblyRepairWaitCompleted => ReassemblyRepairWaitCompleted
  | CFrameDeduped workerID => FrameDeduped workerID
  | CFrameTxDeduped workerID => FrameTxDeduped workerID
  | CTxDedupError => TxDedupError
  | CEgressClaimLocalHit => EgressClaimLocalHit
  | CEgressClaimWon => EgressClaimWon
  | CEgressClaimLost => EgressClaimLost
  | CEgressClaimError => EgressClaimError
  | CIngressMarkSet => IngressMarkSet
  | CIngressMarkExisted => IngressMarkExisted
  | CIngressMarkError => IngressMarkError
  | CIngressMarkDropped => IngressMarkDropped
  | CEgressError workerID => EgressError workerID
  | CMCEgressError workerID => MCEgressError workerID
  | CHeaderForwarded workerID => HeaderForwarded workerID
  | CHeaderEgressError workerID => HeaderEgressError workerID
  | CGapDetected flow source => GapDetected flow source
  | CSeqRebaselined flow source => SeqRebaselined flow source
  | CFlowsRefused flow => FlowsRefused flow
  | CGapSuppressed flow source => GapSuppressed flow source
  | CNACKDispatched flow source => NACKDispatched flow source
  | CNACKSendError endpoint => NACKSendError endpoint
  | CNACKThrottled flow source => NACKThrottled flow source
  | CGapUnrecovered flow source => GapUnrecovered flow source
  | CGapAbandoned flow source reason => GapAbandoned flow source reason
  | CGapLateFilled flow source => GapLateFilled flow source
  | CSubtreeGroupAnnounceReceived => SubtreeGroupAnnounceReceived
  | CSubtreeGroupAnnounceRejected reason => SubtreeGroupAnnounceRejected reason
  | CBeaconAdvertReceived => BeaconAdvertReceived
  | CManifestReceived => live (ManifestReceived)
  | CManifestAdoption field reason => live (ManifestAdoption field reason)
  | CManifestReshardEmitDuplicate => live (ManifestReshardEmitDuplicate)
  | CTailProbeSent flow source => TailProbeSent flow source
  | CTailProbeRecovered flow source => TailProbeRecovered flow source
  | CTailProbeMiss flow source => TailProbeMiss flow source
  | CSubtreeGroupEvicted evicted remaining => SubtreeGroupEvicted evicted remaining
  | CSetBeaconRegistryEndpoints n => SetBeaconRegistryEndpoints n
  | CManifestSetPilotsKnown n => live (ManifestSetPilotsKnown n)
  | CManifestSetQuorumMetBits bits => live (ManifestSetQuorumMetBits bits)
  | CManifestDivergence now field kind => live (ManifestDivergence now field kind)
  | CManifestSetReshardState state => live (ManifestSetReshardState state)
  | CManifestSetReshardWindowSeconds s => live (ManifestSetReshardWindowSeconds s)
  | CWorkerReady => fun r => Some (WorkerReady r)
  | CWorkerDone => fun r => Some (WorkerDone r)
  | CSetDraining => fun r => Some (SetDraining r)
  end.

Fixpoint run_calls (cs : list Call) (r : Recorder) : option Recorder :=
  match cs with
  | [] => Some r
  | c :: cs => r ← run_call c r; run_calls cs r
  end.
