(* ===== verification/MetricsProps.v ===== *)
(** * What the metrics say

    The recorder against the metrics reference of docs/configuration.md, and the
    readiness probe against the life of the workers it speaks for. *)

From stdpp Require Import pretty.
From S2P Require Import Prelude Metrics.

(** ** The metrics reference *)

(** The row of the reference a call adds to: the metric, its labels, and how much. *)
Definition reference (c : Call) : option (string * list (string * string) * Z) :=
  match c with
  | CFrameReceived w i v => Some ("bsl_frames_received_total", [("worker", Itoa w); ("network_interface_name", i); ("version", v)], 1)
  | CFrameForwarded w p => Some ("bsl_frames_forwarded_total", [("worker", Itoa w); ("proto", p)], 1)
  | CFrameDropped w x => Some ("bsl_frames_dropped_total", [("worker", Itoa w); ("reason", x)], 1)
  | CFrameInvalidPayload w => Some ("bsl_frames_invalid_payload_total", [("worker", Itoa w)], 1)
  | CFrameDeduped w => Some ("bsl_frames_deduped_total", [("worker", Itoa w)], 1)
  | CFrameTxDeduped w => Some ("bsl_frames_tx_deduped_total", [("worker", Itoa w)], 1)
  | CEgressError w => Some ("bsl_egress_errors_total", [("worker", Itoa w)], 1)
  | CMCEgressError w => Some ("bsl_mc_egress_errors_total", [("worker", Itoa w)], 1)
  | CRetryTeeFrame w => Some ("bsl_retry_tee_frames_total", [("worker", Itoa w)], 1)
  | CRetryTeeError w => Some ("bsl_retry_tee_errors_total", [("worker", Itoa w)], 1)
  | CRetryTeeDropped w => Some ("bsl_retry_tee_dropped_total", [("worker", Itoa w)], 1)
  | CGapDetected f s => Some ("bsl_gaps_detected_total", [("flow", f); ("source", s)], 1)
  | CGapSuppressed f s => Some ("bsl_gaps_suppressed_total", [("flow", f); ("source", s)], 1)
  | CGapUnrecovered f s => Some ("bsl_gaps_unrecovered_total", [("flow", f); ("source", s)], 1)
  | CGapAbandoned f s x => Some ("bsl_gaps_abandoned_total", [("flow", f); ("source", s); ("reason", x)], 1)
  | CGapLateFilled f s => Some ("bsl_gaps_late_filled_total", [("flow", f); ("source", s)], 1)
  | CNACKDispatched f s => Some ("bsl_nacks_dispatched_total", [("flow", f); ("source", s)], 1)
  | CNACKSendError e => Some ("bsl_nack_send_errors_total", [("endpoint", e)], 1)
  | CNACKThrottled f s => Some ("bsl_nacks_throttled_total", [("flow", f); ("source", s)], 1)
  | CFlowsRefused f => Some ("bsl_nack_flows_refused_total", [("flow", f)], 1)
  | CSeqRebaselined f s => Some ("bsl_seq_rebaselines_total", [("flow", f); ("source", s)], 1)
  | CTailProbeSent f s => Some ("bsl_tail_probes_sent_total", [("flow", f); ("source", s)], 1)
  | CTailProbeRecovered f s => Some ("bsl_tail_probes_recovered_total", [("flow", f); ("source", s)], 1)
  | CTailProbeMiss f s => Some ("bsl_tail_probes_miss_total", [("flow", f); ("source", s)], 1)
  | CReassemblyStarted => Some ("bsl_reassembly_started_total", [], 1)
  | CReassemblyCompleted => Some ("bsl_reassembly_completed_total", [], 1)
  | CReassemblyAbandoned => Some ("bsl_reassembly_abandoned_total", [], 1)
  | CReassemblyAbandonedReason x => Some ("bsl_reassembly_abandoned_reason_total", [("reason", x)], 1)
  | CReassemblyRepairWait => Some ("bsl_reassembly_repair_wait_total", [], 1)
  | CReassemblyRepairWaitCompleted => Some ("bsl_reassembly_repair_wait_completed_total", [], 1)
  | CReassemblyHashMismatch => Some ("bsl_reassembly_hash_mismatch_total", [], 1)
  | CReassemblyLateFragment => Some ("bsl_reassembly_late_fragments_total", [], 1)
  | CReassemblyBadFragment => Some ("bsl_reassembly_bad_fragment_total", [], 1)
  | CReassemblyOversize => Some ("bsl_reassembly_oversize_fragments_total", [], 1)
  | CBundleRebucketed w => Some ("bsl_bundles_rebucketed_total", [("worker", Itoa w)], 1)
  | CRebucketUnguarded w => Some ("bsl_rebucket_unguarded_total", [("worker", Itoa w)], 1)
  | CHeaderForwarded w => Some ("bsl_header_forwarded_total", [("worker", Itoa w)], 1)
  | CHeaderEgressError w => Some ("bsl_header_egress_errors_total", [("worker", Itoa w)], 1)
  | CEgressClaimWon => Some ("bsl_egress_claim_won_total", [], 1)
  | CEgressClaimLost => Some ("bsl_egress_claim_lost_total", [], 1)
  | CEgressClaimLocalHit => Some ("bsl_egress_claim_local_hit_total", [], 1)
  | CEgressClaimError => Some ("bsl_egress_claim_errors_total", [], 1)
  | CTxDedupError => Some ("bsl_txid_dedup_errors_total", [], 1)
  | CIngressMarkSet => Some ("bsl_ingress_mark_set_total", [], 1)
  | CIngressMarkExisted => Some ("bsl_ingress_mark_existed_total", [], 1)
  | CIngressMarkDropped => Some ("bsl_ingress_mark_dropped_total", [], 1)
  | CIngressMarkError => Some ("bsl_ingress_mark_errors_total", [], 1)
  | CBeaconAdvertReceived => Some ("bsl_beacon_adverts_received_total", [], 1)
  | CSubtreeGroupAnnounceReceived => Some ("bsl_subtree_group_announces_received_total", [], 1)
  | CSubtreeGroupAnnounceRejected x => Some ("bsl_subtree_group_announces_rejected_total", [("reason", x)], 1)
  | CManifestReceived => Some ("multicast_manifest_received_total", [], 1)
  | CManifestDivergence _ x k => Some ("multicast_manifest_divergence_total", [("field", x); ("kind", k)], 1)
  | CManifestAdoption x k => Some ("multicast_manifest_adoption_total", [("field", x); ("reason", k)], 1)
  | CManifestReshardEmitDuplicate => Some ("multicast_manifest_resharding_emit_duplicates_total", [], 1)
  | CSubtreeGroupEvicted n _ => Some ("bsl_subtree_group_evictions_total", [], Z.max 0 n)
  | _ => None
  end%string.

(** What a call adds to a series. *)
Definition adds (s : Series) (c : Call) : Z :=
  match reference c with
  | Some (name, labels, n) => if decide ((name, list_to_map labels) = s) then n else 0
  | None => 0
  end.

Definition sum_adds (s : Series) (cs : list Call) : Z := foldr (fun c n => adds s c + n) 0 cs.

(** [r'] is [r] with [n] more in series [s]. *)
Definition counts (s0 : Series) (n : Z) (r r' : Recorder) : Prop :=
  forall s, counter r' s = counter r s + (if decide (s0 = s) then n else 0).

Lemma bump_counts s n r : counts s n r (bump s n r).
Proof.
  intros s'. unfold counter, bump. cbn. destruct (decide (s = s')) as [->|Hs].
  - by rewrite lookup_insert_eq.
  - rewrite lookup_insert_ne by done. lia.
Qed.

Lemma inc_counts h vals name labels kvs r :
  handle h = Some (CounterVec name labels) -> length vals = length labels -> zip labels vals = kvs ->
  exists r', inc h vals r = Some r' /\ counts (name, list_to_map kvs) 1 r r'.
Proof.
  intros Hh Hl <-. unfold inc. rewrite Hh, Hl, Nat.eqb_refl. eexists. split; [done|]. apply bump_counts.
Qed.

Lemma add_counts h n attrs name r :
  handle h = Some (Int64Counter name) -> exists r', add h n attrs r = Some r' /\ counts (name, list_to_map attrs) n r r'.
Proof. intros Hh. unfold add. rewrite Hh. eexists. split; [done|]. apply bump_counts. Qed.

Lemma live_nil_safe m r : live (nil_safe m) r = m r.
Proof. unfold live, nil_safe. by destruct (m r). Qed.

(** A call that leaves the counters alone. *)
Lemma stores_adds r r' : r_counters r' = r_counters r -> forall s, counter r' s = counter r s + 0.
Proof. intros Hr s. unfold counter. rewrite Hr. lia. Qed.

(** Every call succeeds and adds what the reference says. *)
Lemma call_adds c r : exists r', run_call c r = Some r' /\ forall s, counter r' s = counter r s + adds s c.
Proof.
  destruct c; cbn [run_call]; unfold adds; cbn [reference];
    try (eapply inc_counts; reflexivity); try (eapply add_counts; reflexivity);
    try (eexists; split; [reflexivity|by apply stores_adds]);
    try (unfold ManifestReceived, ManifestAdoption, ManifestReshardEmitDuplicate, ManifestDivergence; rewrite live_nil_safe;
         try (eapply add_counts; reflexivity)).
  - unfold SubtreeGroupEvicted. case_test.
    + destruct (add_counts subtreeGroupEvictions evicted [] _ r eq_refl) as (r' & -> & Hr).
      eexists. split; [reflexivity|]. intros s. rewrite Z.max_r by lia. apply Hr.
    + eexists. split; [reflexivity|]. intros s. rewrite Z.max_l by lia.
      etransitivity; [by apply (stores_adds r)|]. by destruct (decide _).
  - destruct (add_counts manifestDivergence 1 [attr_String "field" field; attr_String "kind" kind] _ r eq_refl) as (r' & -> & Hr).
    eexists. split; [reflexivity|]. apply Hr.
Qed.

(** ** Gauges *)

(** The last value the calls store, [d] before the first. *)
Definition latest {A} (f : Call -> option A) (d : A) (cs : list Call) : A := foldl (fun a c => default a (f c)) d cs.

Definition stored_entries (c : Call) : option Z := match c with CSubtreeGroupEvicted _ n => Some n | _ => None end.

Definition stored_endpoints (c : Call) : option Z := match c with CSetBeaconRegistryEndpoints n => Some n | _ => None end.

Definition stored_pilots (c : Call) : option Z := match c with CManifestSetPilotsKnown n => Some n | _ => None end.

Definition stored_bits (c : Call) : option Z := match c with CManifestSetQuorumMetBits n => Some n | _ => None end.

Definition stored_state (c : Call) : option Z := match c with CManifestSetReshardState n => Some n | _ => None end.

Definition stored_window (c : Call) : option Z := match c with CManifestSetReshardWindowSeconds n => Some n | _ => None end.

(** The time of each field's last divergence. *)
Definition divergences (m : gmap string Z) (cs : list Call) : gmap string Z :=
  foldl (fun m c => match c with CManifestDivergence t field _ => <[field := t]> m | _ => m end) m cs.

(** Calls that change neither readiness nor the worker count. *)
Definition readiness_call (c : Call) : bool := match c with CWorkerReady | CWorkerDone | CSetDraining => true | _ => false end.

(** The recorder without its counters. *)
Definition quiet_part (r : Recorder) : Recorder := set_counters ∅ r.

Lemma inc_quiet h vals r r' : inc h vals r = Some r' -> quiet_part r' = quiet_part r.
Proof. unfold inc. destruct (handle h) as [[name labels|]|]; try done. case_match; [|done]. by intros [= <-]. Qed.

Lemma add_quiet h n attrs r r' : add h n attrs r = Some r' -> quiet_part r' = quiet_part r.
Proof. unfold add. destruct (handle h) as [[|name]|]; try done. by intros [= <-]. Qed.

(** A recorder's stored values after a call. *)
Lemma call_stores c r r' :
  run_call c r = Some r' ->
  quiet_part r' =
    mkRecorder (r_numWorkers r) (r_startTime r)
      (match c with CWorkerReady => i32 (r_readyCount r + 1) | CWorkerDone => i32 (r_readyCount r - 1) | _ => r_readyCount r end)
      (match c with CSetDraining => true | _ => r_draining r end) ∅
      (latest stored_entries (r_subtreeGroupEntries r) [c]) (latest stored_endpoints (r_beaconRegistryEndpoints r) [c])
      (latest stored_pilots (r_manifestPilotsKnown r) [c]) (latest stored_bits (r_manifestQuorumMetBits r) [c])
      (divergences (r_lastDivergence r) [c]) (latest stored_state (r_manifestReshardState r) [c])
      (latest stored_window (r_manifestReshardWindow r) [c]).
Proof.
  destruct c; cbn [run_call]; try exact (inc_quiet _ _ _ _); try exact (add_quiet _ _ _ _ _);
    try (by intros [= <-]);
    try (unfold ManifestReceived, ManifestAdoption, ManifestReshardEmitDuplicate, ManifestDivergence; rewrite live_nil_safe;
         try exact (add_quiet _ _ _ _ _)).
  unfold SubtreeGroupEvicted. destruct (if 0 <? evicted then _ else _) as [r1|] eqn:E; [|done]. intros [= <-].
  assert (Hq : quiet_part r1 = quiet_part r) by (revert E; case_test; [apply add_quiet|by intros [= <-]]).
  destruct r, r1. by injection Hq as -> -> -> -> -> -> -> -> -> -> ->.
Qed.

Lemma latest_cons {A} (f : Call -> option A) d c cs : latest f d (c :: cs) = latest f (latest f d [c]) cs.
Proof. done. Qed.

(** ** Scrapes *)

Lemma New_registers n now : New n now = Some (mkRecorder n now 0 false ∅ 0 0 0 0 ∅ 0 0).
Proof. reflexivity. Qed.

Lemma run_calls_gauges cs r r' :
  run_calls cs r = Some r' ->
  r_subtreeGroupEntries r' = latest stored_entries (r_subtreeGroupEntries r) cs /\
  r_beaconRegistryEndpoints r' = latest stored_endpoints (r_beaconRegistryEndpoints r) cs /\
  r_manifestPilotsKnown r' = latest stored_pilots (r_manifestPilotsKnown r) cs /\
  r_manifestQuorumMetBits r' = latest stored_bits (r_manifestQuorumMetBits r) cs /\
  r_lastDivergence r' = divergences (r_lastDivergence r) cs /\
  r_manifestReshardState r' = latest stored_state (r_manifestReshardState r) cs /\
  r_manifestReshardWindow r' = latest stored_window (r_manifestReshardWindow r) cs /\ r_startTime r' = r_startTime r.
Proof.
  revert r. induction cs as [|c cs IH]; intros r; cbn [run_calls]; [intros [= ->]; repeat split|].
  destruct (run_call c r) as [r1|] eqn:E; [|done]. intros Hr. apply call_stores in E. apply IH in Hr. rewrite !(latest_cons _ _ c cs).
  change (divergences (r_lastDivergence r) (c :: cs)) with (divergences (divergences (r_lastDivergence r) [c]) cs).
  destruct r, r1. by injection E as -> -> -> -> -> -> -> -> -> -> ->.
Qed.

Lemma run_calls_counters cs r : exists r', run_calls cs r = Some r' /\ forall s, counter r' s = counter r s + sum_adds s cs.
Proof.
  revert r. induction cs as [|c cs IH]; intros r; [exists r; split; [done|]; cbn; lia|]. cbn [run_calls].
  destruct (call_adds c r) as (r1 & -> & H1). destruct (IH r1) as (r2 & H2 & Hs). exists r2. split; [done|].
  intros s. rewrite Hs, H1. cbn. fold (sum_adds s cs). lia.
Qed.

(** C30: the recorder registers its instruments without a clash, no call the
    listener makes panics, and a scrape shows what the metrics reference says:
    every counter series is the number of calls of its row (evictions: their
    sum), a series without calls reads zero, and every gauge is the last value
    stored, the divergence gauge per field. *)
Theorem metrics_reference (n now : Z) (cs : list Call) :
  exists r0 r, New n now = Some r0 /\ run_calls cs r0 = Some r /\
  (forall s, counter r s = sum_adds s cs) /\
  forall t, gauges t r = [
    ("bsl_subtree_group_entries", [(∅, latest stored_entries 0 cs)]);
    ("multicast_manifest_pilots_known", [(∅, latest stored_pilots 0 cs)]);
    ("multicast_manifest_last_divergence_epoch",
      (fun p => ({["field" := p.1]}, p.2)) <$> map_to_list (divergences ∅ cs));
    ("multicast_manifest_quorum_met_bits", [(∅, latest stored_bits 0 cs)]);
    ("multicast_manifest_resharding_state", [(∅, latest stored_state 0 cs)]);
    ("multicast_manifest_resharding_window_seconds", [(∅, latest stored_window 0 cs)]);
    ("bsl_beacon_registry_endpoints", [(∅, latest stored_endpoints 0 cs)]);
    ("bsl_uptime_seconds", [(∅, t - now)])]%string.
Proof.
  destruct (run_calls_counters cs (mkRecorder n now 0 false ∅ 0 0 0 0 ∅ 0 0)) as (r & Hr & Hs).
  eexists _, r. split; [apply New_registers|]. split; [done|]. split; [exact Hs|]. intros t.
  apply run_calls_gauges in Hr as (H1 & H2 & H3 & H4 & H5 & H6 & H7 & H8). unfold gauges.
  by rewrite H1, H2, H3, H4, H5, H6, H7, H8.
Qed.

(** ** The life of a node *)

(** A worker has not bound yet, is in its receive loop, or has returned. *)
Inductive Phase := Starting | Serving | Stopped.

#[export] Instance Phase_eq_dec : EqDecision Phase.
Proof. solve_decision. Defined.

(** [run] waits for a signal, drains, cancels the workers and waits for them. *)
Inductive Stage := Running | Draining | Cancelled | Exited.

Record Node := mkNode { nd_stage : Stage; nd_workers : list Phase; nd_rec : Recorder }.

Definition node_start (n : nat) (now : Z) : option Node :=
  mkNode Running (replicate n Starting) <$> New (Z.of_nat n) now.

(** The calls only the manifest consumer makes. *)
Definition manifest_call (c : Call) : bool :=
  match c with
  | CManifestReceived | CManifestAdoption _ _ | CManifestReshardEmitDuplicate | CManifestSetPilotsKnown _
  | CManifestSetQuorumMetBits _ | CManifestDivergence _ _ _ | CManifestSetReshardState _
  | CManifestSetReshardWindowSeconds _ => true
  | _ => false
  end.

(** The steps of a node whose manifest consumer is off, as it is by default: a
    worker fails before its loop, enters it, or leaves it; some component makes a
    counting call; [run] takes its next step. *)
Inductive node_step (drainTimeout : Z) : Node -> Node -> Prop :=
| step_fail st ws i r : ws !! i = Some Starting -> node_step drainTimeout (mkNode st ws r) (mkNode st (<[i := Stopped]> ws) r)
| step_serve st ws i r : ws !! i = Some Starting ->
    node_step drainTimeout (mkNode st ws r) (mkNode st (<[i := Serving]> ws) (WorkerReady r))
| step_return st ws i r : ws !! i = Some Serving ->
    node_step drainTimeout (mkNode st ws r) (mkNode st (<[i := Stopped]> ws) (WorkerDone r))
| step_call st ws c r r' : readiness_call c = false -> manifest_call c = false -> run_call c r = Some r' ->
    node_step drainTimeout (mkNode st ws r) (mkNode st ws r')
| step_drain ws r : 0 < drainTimeout -> node_step drainTimeout (mkNode Running ws r) (mkNode Draining ws (SetDraining r))
| step_cancel st ws r : (st = Running /\ drainTimeout <= 0) \/ st = Draining ->
    node_step drainTimeout (mkNode st ws r) (mkNode Cancelled ws r)
| step_exit ws r : Forall (fun p => p = Stopped) ws -> node_step drainTimeout (mkNode Cancelled ws r) (mkNode Exited ws r).

Definition is_serving (p : Phase) : bool := match p with Serving => true | _ => false end.

Definition serving (ws : list Phase) : nat := length (List.filter is_serving ws).

Lemma serving_insert ws i p q :
  ws !! i = Some p ->
  (serving (<[i := q]> ws) + Nat.b2n (is_serving p) = serving ws + Nat.b2n (is_serving q))%nat.
Proof.
  unfold serving. revert i. induction ws as [|x ws IH]; intros [|i] Hi; try done; cbn in *.
  - injection Hi as ->. destruct p, q; cbn; lia.
  - specialize (IH i Hi). destruct x; cbn; first [exact IH|f_equal; exact IH].
Qed.

Lemma serving_le ws : (serving ws <= length ws)%nat.
Proof. unfold serving. induction ws as [|[] ws IH]; cbn; lia. Qed.

Lemma serving_all ws : serving ws = length ws <-> Forall (fun p => p = Serving) ws.
Proof.
  induction ws as [|x ws IH]; [by split|]. rewrite Forall_cons, <- IH. pose proof (serving_le ws).
  unfold serving in *. destruct x; cbn; (split; intros Hx; [try (split; [done|]); lia|destruct Hx as [Hx ?]; first [done|lia]]).
Qed.

Lemma serving_none ws : Forall (fun p => p = Stopped) ws -> serving ws = 0%nat.
Proof. unfold serving. induction 1 as [|x ws -> _ IH]; [done|]. exact IH. Qed.

Lemma serving_starting n : serving (replicate n Starting) = 0%nat.
Proof. unfold serving. by induction n. Qed.

(** The recorder knows how many workers are serving, and whether the node drains. *)
Definition node_ok (n : nat) (drainTimeout : Z) (nd : Node) : Prop :=
  length (nd_workers nd) = n /\
  r_numWorkers (nd_rec nd) = Z.of_nat n /\
  r_readyCount (nd_rec nd) = Z.of_nat (serving (nd_workers nd)) /\
  r_draining (nd_rec nd) = (0 <? drainTimeout) && negb (match nd_stage nd with Running => true | _ => false end) /\
  (nd_stage nd = Exited -> Forall (fun p => p = Stopped) (nd_workers nd)).

Lemma i32_small z : - 2 ^ 31 <= z < 2 ^ 31 -> i32 z = z.
Proof. intros Hz. unfold i32. rewrite Z.mod_small; lia. Qed.

Lemma call_readiness c r r' :
  readiness_call c = false -> run_call c r = Some r' ->
  r_numWorkers r' = r_numWorkers r /\ r_readyCount r' = r_readyCount r /\ r_draining r' = r_draining r.
Proof. intros Hc Hr. apply call_stores in Hr. destruct r, r'. injection Hr. cbn. intros. subst. by destruct c. Qed.

(** No manifest moves the readiness probe: neither a missing quorum nor an adoption
    makes a serving node unready. *)
Theorem manifest_leaves_readiness cs r r' :
  Forall (fun c => readiness_call c = false) cs -> run_calls cs r = Some r' -> handleReadyz r' = handleReadyz r.
Proof.
  intros Hcs. revert r. induction Hcs as [|c cs Hc _ IH]; intros r; cbn [run_calls]; [by intros [= ->]|].
  destruct (run_call c r) as [r1|] eqn:E; [|done]. intros Hr. rewrite (IH _ Hr).
  destruct (call_readiness _ _ _ Hc E) as (H1 & H2 & H3). unfold handleReadyz. by rewrite H1, H2, H3.
Qed.

Lemma stopped_stays (i : nat) p ws :
  ws !! i = Some p -> p <> Stopped -> ~ Forall (fun p => p = Stopped) ws.
Proof. intros Hi Hp Hall. by rewrite (proj1 (Forall_lookup _ _) Hall i p Hi) in Hp. Qed.

Lemma node_step_ok n drain nd nd' : Z.of_nat n < 2 ^ 31 -> node_step drain nd nd' -> node_ok n drain nd -> node_ok n drain nd'.
Proof.
  intros Hn Hstep (Hl & Ht & Hr & Hd & He).
  assert (Hlt : forall i, nd_workers nd !! i = Some Starting -> (serving (nd_workers nd) < n)%nat).
  { intros i Hi. pose proof (serving_insert _ _ _ Serving Hi) as Hs. cbn in Hs.
    pose proof (serving_le (<[i := Serving]> (nd_workers nd))) as Hle. rewrite length_insert in Hle. lia. }
  pose proof (serving_le (nd_workers nd)) as Hle.
  destruct Hstep as [st ws i r Hi|st ws i r Hi|st ws i r Hi|st ws c r r' Hc _ Hcall|ws r Hpos|st ws r Hst|ws r Hall];
    unfold node_ok in *; cbn [nd_stage nd_workers nd_rec] in *; rewrite ?length_insert.
  - pose proof (serving_insert _ _ _ Stopped Hi) as Hs. cbn in Hs. split_and!; try done; [lia|].
    intros E. by destruct (stopped_stays _ _ _ Hi ltac:(done) (He E)).
  - pose proof (serving_insert _ _ _ Serving Hi) as Hs. cbn in Hs. specialize (Hlt _ Hi).
    split_and!; try done; [cbn; rewrite i32_small; lia|]. intros E. by destruct (stopped_stays _ _ _ Hi ltac:(done) (He E)).
  - pose proof (serving_insert _ _ _ Stopped Hi) as Hs. cbn in Hs. split_and!; try done; [cbn; rewrite i32_small; lia|].
    intros E. by destruct (stopped_stays _ _ _ Hi ltac:(done) (He E)).
  - destruct (call_readiness _ _ _ Hc Hcall) as (-> & -> & ->). by split_and!.
  - split_and!; try done. cbn. by rewrite (proj2 (Z.ltb_lt _ _) Hpos).
  - split_and!; try done. rewrite Hd. destruct Hst as [[-> Hst]| ->]; [|done]. cbn. by rewrite (proj2 (Z.ltb_ge _ _) Hst).
  - by split_and!.
Qed.

(** C22: at every point of the life of a node without the manifest consumer (off
    unless -manifest-consumer-enabled is given), the readiness probe answers 200 exactly
    when the node has workers, all of them are in their receive loops, and no drain
    window has begun; it reports how many are serving, of how many; and once the
    process has waited for its workers none is counted. *)
Theorem readyz_exact (n : nat) (drainTimeout now : Z) (nd0 nd : Node) :
  Z.of_nat n < 2 ^ 31 -> node_start n now = Some nd0 -> rtc (node_step drainTimeout) nd0 nd ->
  let p := handleReadyz (nd_rec nd) in
  (p_code p = StatusOK <->
    (0 < n)%nat /\ Forall (fun ph => ph = Serving) (nd_workers nd) /\ (drainTimeout <= 0 \/ nd_stage nd = Running)) /\
  p_ready p = Z.of_nat (serving (nd_workers nd)) /\ p_total p = Z.of_nat n /\
  (nd_stage nd = Exited -> p_ready p = 0).
Proof.
  intros Hn H0 Hrun p.
  assert (Hok : node_ok n drainTimeout nd).
  { unfold node_start in H0. rewrite New_registers in H0. injection H0 as <-.
    match type of Hrun with rtc _ ?x _ => assert (Hx : node_ok n drainTimeout x) end.
    { unfold node_ok. cbn [nd_workers nd_rec nd_stage r_numWorkers r_readyCount r_draining negb]. rewrite length_replicate, andb_false_r. rewrite serving_starting. by split_and!. }
    induction Hrun as [x|x y z Hxy _ IH]; [done|]. by apply IH, (node_step_ok n drainTimeout x y). }
  destruct Hok as (Hl & Ht & Hr & Hd & He). rewrite <- serving_all, Hl.
  assert (Hp : p_ready p = r_readyCount (nd_rec nd) /\ p_total p = r_numWorkers (nd_rec nd)).
  { unfold p, handleReadyz. by repeat case_match. }
  destruct Hp as [-> ->]. rewrite Ht, Hr.
  split; [|split; [done|split; [done|intros E; by rewrite (serving_none _ (He E))]]].
  unfold p, handleReadyz. rewrite Hd, Ht, Hr. pose proof (serving_le (nd_workers nd)).
  destruct (0 <? drainTimeout) eqn:Ed; cbn [andb]; destruct (nd_stage nd); cbn [negb p_code];
    repeat case_test; unfold StatusOK, StatusServiceUnavailable; cbn; split; try lia; try (intros (? & ? & [?|?])); try done; try lia.
  intros _. split_and!; [lia|lia|by right].
Qed.

(** A node of two workers is ready when both serve, and not once it drains. *)
Lemma readyz_exact_witness : exists r,
  rtc (node_step 5) (mkNode Running [Starting; Starting] r) (mkNode Running [Serving; Serving] (WorkerReady (WorkerReady r))) /\
  p_code (handleReadyz (WorkerReady (WorkerReady r))) = StatusOK /\
  p_code (handleReadyz (SetDraining (WorkerReady (WorkerReady r)))) = StatusServiceUnavailable.
Proof.
  eexists (mkRecorder 2 0 0 false ∅ 0 0 0 0 ∅ 0 0).
  assert (Hrun : rtc (node_step 5) (mkNode Running [Starting; Starting] (mkRecorder 2 0 0 false ∅ 0 0 0 0 ∅ 0 0))
    (mkNode Running [Serving; Serving] (WorkerReady (WorkerReady (mkRecorder 2 0 0 false ∅ 0 0 0 0 ∅ 0 0))))).
  { eapply rtc_l; [by apply (step_serve 5 Running _ 0)|]. eapply rtc_l; [by apply (step_serve 5 Running _ 1)|]. apply rtc_refl. }
  split; [exact Hrun|]. split; [|reflexivity].
  apply (readyz_exact 2 5 0 _ _ ltac:(done) eq_refl Hrun). split; [lia|]. split; [by repeat constructor|by right].
Defined.
