(* ===== verification/MetricsServe.v ===== *)
(** * The metrics exporters and the probe server (metrics/metrics.go,
    metrics/hostinfo.go)

    How [New] builds the exporters and the list of functions [Shutdown] runs, what
    the server answers under which path and when it returns, and the host facts
    gauge.  The OpenTelemetry exporter and provider are a class with the laws their
    documentation states. *)

From S2P Require Import Prelude Metrics.

(** ** The exporters *)

Inductive ShutdownFn := ExporterShutdown | ProviderShutdown.

Inductive NewErr := ErrResource | ErrPrometheus | ErrOTLP.

(** The identity of the resource: the host name stands in for an empty id. *)
Definition instance_id (instanceID : string) (hostname : option string) : string :=
  if String.eqb instanceID "" then default "unknown"%string hostname else instanceID.

(** The stages of [New] in front of the instruments: the answers of the three
    library constructors decide, the last is asked only with an endpoint. *)
Definition New_exporters (resource_ok prom_ok otlp_ok : bool) (instanceID : string) (hostname : option string)
    (otlpEndpoint : string) : NewErr + (string * list ShutdownFn) :=
  let id := instance_id instanceID hostname in
  if negb resource_ok then inl ErrResource
  else if negb prom_ok then inl ErrPrometheus
  else if negb (String.eqb otlpEndpoint "") then
    if negb otlp_ok then inl ErrOTLP else inr (id, [ExporterShutdown; ProviderShutdown])
  else inr (id, [ProviderShutdown]).

(** What the provider may ask of the exporter. *)
Inductive ExpCall (P : Type) := CallExport (p : P) | CallShutdown.
Arguments CallExport {P} _.
Arguments CallShutdown {P}.

(** The push exporter: [Export] and [Shutdown] answer whether they failed.  After a
    [Shutdown] an [Export] performs no operation and returns an error; [Shutdown]
    adds nothing to what was exported.  The provider's [Shutdown] with a pending
    collection [p] reaches the exporter by these calls only, and flushes [p] to an
    exporter that takes it. *)
Class PushSDK (P : Type) := mkPushSDK {
  Exporter : Type;
  delivered : Exporter -> list P;
  is_down : Exporter -> bool;
  Export : P -> Exporter -> bool * Exporter;
  ExpShutdown : Exporter -> bool * Exporter;
  provider_calls : P -> Exporter -> list (ExpCall P);
  provider_fails : P -> Exporter -> bool
}.

Section Shutdown.
Context {P : Type} `{PushSDK P}.

Definition do_call (e : Exporter) (c : ExpCall P) : Exporter :=
  match c with CallExport p => snd (Export p e) | CallShutdown => snd (ExpShutdown e) end.

Definition MpShutdown (p : P) (e : Exporter) : bool * Exporter :=
  (provider_fails p e, fold_left do_call (provider_calls p e) e).

Class PushLaws := mkPushLaws {
  export_down p e : is_down e = true -> Export p e = (true, e);
  shutdown_down e : is_down (snd (ExpShutdown e)) = true;
  shutdown_delivers e : delivered (snd (ExpShutdown e)) = delivered e;
  provider_flushes p e : is_down e = false -> fst (Export p e) = false ->
    provider_fails p e = false -> delivered (snd (MpShutdown p e)) = delivered e ++ [p]
}.

(** One function of the list, and [shutdownFn]: all of them in order, failing when
    one fails.  Without an endpoint the provider has no exporter. *)
Definition run_fn (p : P) (fn : ShutdownFn) (e : Exporter) : bool * Exporter :=
  match fn with ExporterShutdown => ExpShutdown e | ProviderShutdown => MpShutdown p e end.

Definition shutdownFn (fns : list ShutdownFn) (p : P) (e : Exporter) : bool * Exporter :=
  fold_left (fun '(failed, e) fn => let '(f, e) := run_fn p fn e in (failed || f, e)) fns (false, e).

(** [Shutdown]: the error is only logged. *)
Definition Shutdown (fns : list ShutdownFn) (p : P) (e : Exporter) : Exporter := snd (shutdownFn fns p e).

Lemma do_calls_down `{!PushLaws} calls e :
  is_down e = true -> delivered (fold_left do_call calls e) = delivered e.
Proof.
  revert e. induction calls as [|c calls IH]; intros e He; [done|]. cbn [fold_left].
  destruct c as [p|]; cbn [do_call]; [by rewrite export_down, IH|]. by rewrite IH, shutdown_delivers by apply shutdown_down.
Qed.

(** [Shutdown] is to flush all pending exports.  The list runs the exporter's own
    shutdown before the provider's, so with an endpoint the provider finds its
    exporter down: the measurements since the last periodic export are never
    delivered.  In the other order a provider that does not fail delivers them. *)
Theorem shutdown_drops_pending `{!PushLaws} id host endpoint fns name (p : P) (e : Exporter) :
  endpoint <> ""%string ->
  New_exporters true true true id host endpoint = inr (name, fns) ->
  delivered (Shutdown fns p e) = delivered e /\
  (is_down e = false -> fst (Export p e) = false -> provider_fails p e = false ->
   delivered (Shutdown (rev fns) p e) = delivered e ++ [p]).
Proof.
  intros Hne. unfold New_exporters. destruct (String.eqb_spec endpoint ""); [done|]. cbn [negb]. intros [= _ <-].
  unfold Shutdown, shutdownFn. cbn [rev app fold_left run_fn]. split.
  - destruct (ExpShutdown e) as [f e1] eqn:He. cbn [run_fn]. unfold MpShutdown. cbn [snd].
    assert (e1 = snd (ExpShutdown e)) as -> by (by rewrite He).
    rewrite do_calls_down by apply shutdown_down. apply shutdown_delivers.
  - intros Hup Hex Hok. rewrite <- (provider_flushes p e) by done. destruct (MpShutdown p e) as [f e1]. cbn [run_fn].
    destruct (ExpShutdown e1) as [f' e2] eqn:He. cbn [snd]. replace e2 with (snd (ExpShutdown e1)) by (by rewrite He).
    apply shutdown_delivers.
Qed.

End Shutdown.

(** A provider that exports what is pending and then closes its exporter. *)
#[local] Instance sdk0 : PushSDK Z := {|
  Exporter := list Z * bool;
  delivered := fst;
  is_down := snd;
  Export p e := if snd e then (true, e) else (false, (fst e ++ [p], snd e));
  ExpShutdown e := (snd e, (fst e, true));
  provider_calls p _ := [CallExport p; CallShutdown];
  provider_fails _ e := snd e
|}.

#[local] Instance laws0 : PushLaws.
Proof. split; intros; destruct e as [l []]; by cbn in *. Qed.

Lemma shutdown_drops_pending_witness :
  let e : Exporter := ([1; 2], false) in
  delivered (Shutdown [ExporterShutdown; ProviderShutdown] 3 e) = [1; 2] /\
  delivered (Shutdown [ProviderShutdown; ExporterShutdown] 3 e) = [1; 2; 3].
Proof.
  intros e. destruct (shutdown_drops_pending "a" None "c:4317" [ExporterShutdown; ProviderShutdown] "a" 3 e) as [H1 H2]; [done..|].
  split; [exact H1|]. exact (H2 eq_refl eq_refl eq_refl).
Defined.

(** ** The server *)

Inductive Handler := HMetrics | HHealthz | HReadyz | HLogLevel.

(** The mux of [Serve]: exact paths; the level handler with a level variable. *)
Definition mux (levelVar : bool) (path : string) : option Handler :=
  if String.eqb path "/metrics" then Some HMetrics
  else if String.eqb path "/healthz" then Some HHealthz
  else if String.eqb path "/readyz" then Some HReadyz
  else if levelVar && String.eqb path "/loglevel" then Some HLogLevel
  else None.

Inductive SrvState := SrvIdle | SrvListening | SrvFailed | SrvClosed.

Record Server := mkServer { srv_state : SrvState; srv_returned : bool }.

(** The goroutine's [ListenAndServe] reaches its listen call ([true]: the address
    could be bound); [done] is closed. *)
Inductive SrvStep := StListen (bound : bool) | StDone.

(** A server that was shut down does not listen any more; a listen error is logged
    and [Serve] keeps waiting; on [done] it shuts the server down and returns. *)
Definition Serve_step (s : Server) (st : SrvStep) : Server :=
  match st with
  | StListen bound =>
      match srv_state s with
      | SrvIdle => mkServer (if bound then SrvListening else SrvFailed) (srv_returned s)
      | _ => s
      end
  | StDone => mkServer SrvClosed true
  end.

Definition Serve (steps : list SrvStep) : Server := fold_left Serve_step steps (mkServer SrvIdle false).

(** The status of a GET; [None] when nobody answers.  [lib] is what the handlers of
    the exposition and of the log level answer. *)
Definition get_status (lib : Handler -> Z) (levelVar : bool) (r : Recorder) (s : Server) (path : string) : option Z :=
  match srv_state s with
  | SrvListening =>
      Some match mux levelVar path with
           | None => 404
           | Some HReadyz => p_code (handleReadyz r)
           | Some HHealthz => StatusOK
           | Some h => lib h
           end
  | _ => None
  end.

Definition is_done (st : SrvStep) : bool := match st with StDone => true | _ => false end.

(** [Serve] returns exactly on [done], whether it listens or not, and nothing is
    answered from then on; the readiness status is the probe's while it listens. *)
Theorem serve_life lib levelVar r steps :
  let s := Serve steps in
  srv_returned s = existsb is_done steps /\
  (existsb is_done steps = true -> forall path, get_status lib levelVar r s path = None) /\
  get_status lib levelVar r s "/readyz" =
    if existsb is_done steps then None
    else match head steps with Some (StListen true) => Some (p_code (handleReadyz r)) | _ => None end.
Proof.
  cbn zeta. unfold Serve.
  assert (Hstuck : forall st b, st <> SrvIdle -> fold_left Serve_step steps (mkServer st b) =
    if existsb is_done steps then mkServer SrvClosed true else mkServer st b).
  { induction steps as [|[bound|] steps IH]; intros st b Hst; [done| |]; cbn [fold_left Serve_step existsb is_done orb srv_state].
    - destruct st; [done|..]; by rewrite IH.
    - rewrite IH by done. by destruct (existsb is_done steps). }
  destruct steps as [|[[]|] steps]; [done|..]; cbn [fold_left Serve_step existsb is_done orb srv_state head srv_returned] in *.
  1,2: (assert (Hs := Hstuck SrvListening false); assert (Hf := Hstuck SrvFailed false); cbn [fold_left Serve_step] in Hs, Hf;
        rewrite ?Hs, ?Hf by done; by destruct (existsb is_done steps)).
  assert (Hs := Hstuck SrvClosed true). cbn [fold_left Serve_step] in Hs. rewrite Hs by done. by destruct (existsb is_done steps).
Qed.

(** ** The host facts gauge *)

Record HostIface := mkHostIface { hi_Name : string; hi_OperState : string; hi_SpeedMbps : Z; hi_IPv4 : list string; hi_IPv6 : list string }.

Record Inventory := mkInventory {
  inv_Hostname : string;
  inv_KernelVersion : string;
  inv_CPULogical : Z;
  inv_MemTotalBytes : Z;
  inv_Sysctl : gmap string string;
  inv_Interfaces : list HostIface;
  inv_Version : string
}.

Definition iface_used (i : HostIface) : bool :=
  String.eqb (hi_OperState i) "up" && (negb (length (hi_IPv4 i) =? 0)%nat || negb (length (hi_IPv6 i) =? 0)%nat).

(** The interface loop: name and speed of the first one in use. *)
Fixpoint host_nic (ifs : list HostIface) : string * string :=
  match ifs with
  | [] => (""%string, ""%string)
  | i :: ifs =>
      if iface_used i then (hi_Name i, if 0 <? hi_SpeedMbps i then Itoa (hi_SpeedMbps i) else ""%string) else host_nic ifs
  end.

Definition host_labels : list string :=
  ["hostname"; "kernel_version"; "cpu_logical"; "mem_bytes"; "rmem_max"; "nic"; "speed_mbps"; "version"]%string.

Definition host_values (inv : Inventory) : list string :=
  let '(nic, speed) := host_nic (inv_Interfaces inv) in
  [inv_Hostname inv; inv_KernelVersion inv; Itoa (inv_CPULogical inv); Itoa (inv_MemTotalBytes inv);
   default ""%string (inv_Sysctl inv !! "net.core.rmem_max"%string); nic; speed; inv_Version inv].

(** The gauge in the registry: [Register] refuses a second one and the call then
    leaves the first; [WithLabelValues] panics ([None]) on a wrong number of values. *)
Definition SetHostInfo (inv : Inventory) (gauge : option (gmap string string)) : option (option (gmap string string)) :=
  match gauge with
  | Some g => Some (Some g)
  | None =>
      if (length (host_values inv) =? length host_labels)%nat
      then Some (Some (list_to_map (zip host_labels (host_values inv)))) else None
  end.

(** The first call publishes one series with all eight facts, its interface the
    first that is up and has an address; a later call changes nothing. *)
Theorem host_info_once (inv inv' : Inventory) :
  exists g, SetHostInfo inv None = Some (Some g) /\ SetHostInfo inv' (Some g) = Some (Some g) /\
    dom g = list_to_set host_labels /\ g !! "hostname"%string = Some (inv_Hostname inv) /\
    g !! "nic"%string = Some (from_option hi_Name ""%string (List.find iface_used (inv_Interfaces inv))).
Proof.
  assert (Hn : (host_nic (inv_Interfaces inv)).1 = from_option hi_Name ""%string (List.find iface_used (inv_Interfaces inv))).
  { induction (inv_Interfaces inv) as [|i ifs IH]; [done|]. cbn. by destruct (iface_used i). }
  unfold SetHostInfo, host_values. destruct (host_nic (inv_Interfaces inv)) as [nic speed]. cbn in Hn. subst nic.
  eexists. split; [reflexivity|]. split; [done|]. split; [|done]. by rewrite dom_list_to_map_L.
Qed.
