(* ===== verification/Beacon.v ===== *)
(** * The beacon listener (discovery/beacon.go)

    The sockets a listener opens, one per UDP port with a membership per group,
    and the loop that feeds the endpoint registry and the manifest registry.  The
    sockets' calls and the manifest codec and registry are parameters. *)

From S2P Require Import Prelude Discovery Metrics.

(** ** Sockets *)

(** An open socket: its port and its memberships, a group with its source roster
    (empty: any source). *)
Record Socket := mkSocket { so_port : Z; so_joined : list (bytes * list bytes) }.

Inductive OpenErr :=
| ErrEmptyBucket
| ErrListenMulticast (grp : UDPAddr)
| ErrListen (port : Z)
| ErrSyscallConn (port : Z)
| ErrBadGroup (grp : UDPAddr)
| ErrControl (grp : UDPAddr)
| ErrJoin (grp : UDPAddr).

(** How [netjoin.Join], run on the socket's descriptor, can end. *)
Inductive JoinAnswer := Joined | ControlFailed | JoinFailed.

(** [netip.AddrFromSlice(ip.To16())]. *)
Definition group_addr (ip : bytes) : option bytes :=
  let ip16 := To16 ip in if (length ip16 =? 16)%nat then Some ip16 else None.

Section Sockets.

(** The answers of the operating system. *)
Variable ListenMulticastUDP : UDPAddr -> bool.
Variable ListenPacket : Z -> bool.
Variable SyscallConn : Z -> bool.
Variable Join : Z -> bytes -> list bytes -> JoinAnswer.

Variable SourcesByPort : gmap Z (list bytes).
Variable Sources : list bytes.

(** The membership loop; an error closes the socket. *)
Fixpoint join_all (port : Z) (srcs : list bytes) (grps : list UDPAddr) (joined : list (bytes * list bytes)) :
    OpenErr + Socket :=
  match grps with
  | [] => inr (mkSocket port joined)
  | grp :: grps =>
      match group_addr (ua_IP grp) with
      | None => inl (ErrBadGroup grp)
      | Some ga =>
          match Join port ga srcs with
          | ControlFailed => inl (ErrControl grp)
          | JoinFailed => inl (ErrJoin grp)
          | Joined => join_all port srcs grps (joined ++ [(ga, srcs)])
          end
      end
  end.

Definition openGroupConn (grps : list UDPAddr) : OpenErr + Socket :=
  match grps with
  | [] => inl ErrEmptyBucket
  | grp :: rest =>
      let port := ua_Port grp in
      let srcs := sourcesFor SourcesByPort Sources grp in
      if bool_decide (srcs = []) && bool_decide (rest = []) then
        if ListenMulticastUDP grp then inr (mkSocket port [(To16 (ua_IP grp), [])])
        else inl (ErrListenMulticast grp)
      else if negb (ListenPacket port) then inl (ErrListen port)
      else if negb (SyscallConn port) then inl (ErrSyscallConn port)
      else join_all port srcs grps []
  end.

(** [Start]: a socket per bucket. *)
Definition open_sockets (groups : list UDPAddr) : list (OpenErr + Socket) := openGroupConn <$> bucketByPort groups.

End Sockets.

(** ** The receive loop *)

Section Loop.

(** [net.IP.String], and the manifest codec and registry. *)
Variable ip_string : bytes -> string.
Context {Manifest MRegistry : Type}.
Variable MsgTypeShardManifest : Z.
Variable DecodeShardManifest : bytes -> option Manifest.
Variable UpsertManifest : bytes -> Manifest -> MRegistry -> MRegistry.

(** What the loop shares: the registries, and the calls it makes of the recorder. *)
Record BeaconState := mkBeacon {
  bs_registry : Registry;
  bs_manifests : option MRegistry;
  bs_rec : bool;
  bs_calls : list Call
}.

Definition count_beacon (c : Call) (st : BeaconState) : BeaconState :=
  mkBeacon (bs_registry st) (bs_manifests st) (bs_rec st) (bs_calls st ++ if bs_rec st then [c] else []).

Definition advert_arrives (now : Z) (buf : bytes) (st : BeaconState) : BeaconState :=
  let '(r, counted) := handleADVERT ip_string (bs_registry st) now buf in
  let st := mkBeacon r (bs_manifests st) (bs_rec st) (bs_calls st) in
  if (counted : bool) then count_beacon CBeaconAdvertReceived st else st.

Definition handleManifest (buf src : bytes) (st : BeaconState) : BeaconState :=
  match bs_manifests st with
  | None => st
  | Some reg =>
      match DecodeShardManifest buf with
      | None => st
      | Some m =>
          match group_addr src with
          | None => st
          | Some srcAddr =>
              count_beacon CManifestReceived
                (mkBeacon (bs_registry st) (Some (UpsertManifest srcAddr m reg)) (bs_rec st) (bs_calls st))
          end
      end
  end.

(** The read buffer. *)
Definition beaconBuf : nat := 2048.

(** One datagram: the bytes read and their source. *)
Definition demux (now : Z) (buf src : bytes) (st : BeaconState) : BeaconState :=
  if (length buf <? 7)%nat then st
  else if byte_at buf 6 =? MsgTypeADVERT then advert_arrives now buf st
  else if byte_at buf 6 =? MsgTypeShardManifest then handleManifest buf src st
  else st.

(** A read ends in a timeout, another error with the state of the context at that
    time, or a datagram. *)
Inductive BRead := BTimeout | BError (cancelled : bool) | BDatagram (now : Z) (datagram src : bytes).

(** The loop over its reads, each with the state of the context before it; the
    first component is whether it returned. *)
Fixpoint listenGroup (reads : list (bool * BRead)) (st : BeaconState) : bool * BeaconState :=
  match reads with
  | [] => (false, st)
  | (true, _) :: _ => (true, st)
  | (false, BTimeout) :: reads => listenGroup reads st
  | (false, BError cancelled) :: reads => if cancelled then (true, st) else listenGroup reads st
  | (false, BDatagram now d src) :: reads => listenGroup reads (demux now (take beaconBuf d) src st)
  end.

(** A tick of [evictLoop]. *)
Definition evict_tick (now : Z) (st : BeaconState) : BeaconState :=
  let r := Evict (bs_registry st) now in
  count_beacon (CSetBeaconRegistryEndpoints (Len r)) (mkBeacon r (bs_manifests st) (bs_rec st) (bs_calls st)).

(** ** What the loop promises *)

(** The endpoints a datagram advertises: a valid ADVERT that is not draining. *)
Definition advertised (now : Z) (buf : bytes) : option (Z * ADVERT) :=
  match DecodeADVERT buf with
  | inl a => if Z.land (a_Flags a) FlagDraining =? 0 then Some (now, a) else None
  | inr _ => None
  end.

Definition announced (buf src : bytes) : option (bytes * Manifest) :=
  m ← DecodeShardManifest buf; a ← group_addr src; Some (a, m).

(** The reads up to the first that makes the loop return, and the datagrams among them. *)
Fixpoint served (reads : list (bool * BRead)) : list (Z * bytes * bytes) :=
  match reads with
  | [] | (true, _) :: _ | (false, BError true) :: _ => []
  | (false, BDatagram now d src) :: reads => (now, take beaconBuf d, src) :: served reads
  | (false, _) :: reads => served reads
  end.

(** Some read sees the context cancelled. *)
Definition cancelled (reads : list (bool * BRead)) : bool :=
  existsb (fun rd => rd.1 || match rd.2 with BError c => c | _ => false end) reads.

End Loop.
Arguments BeaconState : clear implicits.

(** ** The memberships *)

Section Joins.
Variable ListenMulticastUDP : UDPAddr -> bool.
Variable ListenPacket : Z -> bool.
Variable SyscallConn : Z -> bool.
Variable Join : Z -> bytes -> list bytes -> JoinAnswer.
Variable SourcesByPort : gmap Z (list bytes).
Variable Sources : list bytes.

Local Abbreviation roster := (sourcesFor SourcesByPort Sources).
Local Abbreviation open := (openGroupConn ListenMulticastUDP ListenPacket SyscallConn Join SourcesByPort Sources).

(** The membership of a group: its address, with the roster of its port. *)
Definition membership (g : UDPAddr) : bytes * list bytes := (To16 (ua_IP g), roster g).

Lemma group_addr_To16 ip a : group_addr ip = Some a -> a = To16 ip.
Proof. unfold group_addr. case_test; [by intros [= <-]|done]. Qed.

Lemma join_all_joined port srcs grps joined s :
  join_all Join port srcs grps joined = inr s ->
  so_port s = port /\ so_joined s = joined ++ ((fun g => (To16 (ua_IP g), srcs)) <$> grps).
Proof.
  revert joined. induction grps as [|g grps IH]; intros joined; cbn; [intros [= <-]; by rewrite app_nil_r|].
  destruct (group_addr (ua_IP g)) as [ga|] eqn:E; [|done]. destruct (Join port ga srcs); try done.
  intros Hs. apply IH in Hs as [Hp Hj]. split; [done|]. rewrite Hj, <- app_assoc. by rewrite (group_addr_To16 _ _ E).
Qed.

(** One bucket: all its groups have one port, hence one roster. *)
Lemma open_bucket p b s :
  Forall (fun g => ua_Port g = p) b -> open b = inr s -> so_port s = p /\ so_joined s = membership <$> b.
Proof.
  intros Hb. unfold openGroupConn. destruct b as [|g rest]; [done|].
  assert (Hr : forall h, h ∈ g :: rest -> roster h = roster g).
  { rewrite Forall_forall in Hb. intros h Hh. unfold sourcesFor. by rewrite (Hb h Hh), (Hb g (list_elem_of_here _ _)). }
  apply Forall_cons in Hb as [Hp _]. case_bool_decide as Hs; [case_bool_decide as Hn|]; cbn [andb].
  - destruct (ListenMulticastUDP g); [|done]. intros [= <-]. subst rest. split; [done|]. unfold membership. cbn. by rewrite Hs.
  - do 2 (case_test; [done|]). intros Hj. apply join_all_joined in Hj as [-> ->]. split; [done|].
    apply list_fmap_ext. intros i h Hh. unfold membership. rewrite (Hr h); [done|]. by apply list_elem_of_lookup_2 in Hh.
  - do 2 (case_test; [done|]). intros Hj. apply join_all_joined in Hj as [-> ->]. split; [done|].
    apply list_fmap_ext. intros i h Hh. unfold membership. rewrite (Hr h); [done|]. by apply list_elem_of_lookup_2 in Hh.
Qed.

(** when its sockets open, a beacon listener has joined every configured
    group, with the roster of the group's port, on a socket of that port; no port
    is bound twice; and no socket has another membership. *)
Theorem beacon_joins groups socks :
  open_sockets ListenMulticastUDP ListenPacket SyscallConn Join SourcesByPort Sources groups = inr <$> socks ->
  (forall g, g ∈ groups -> exists s, s ∈ socks /\ so_port s = ua_Port g /\ membership g ∈ so_joined s) /\
  (forall i j s t, socks !! i = Some s -> socks !! j = Some t -> so_port s = so_port t -> i = j) /\
  (forall s m, s ∈ socks -> m ∈ so_joined s -> exists g, g ∈ groups /\ ua_Port g = so_port s /\ m = membership g).
Proof.
  intros Ho. destruct (bucketByPort_spec groups) as (Hb & Hin & Hne).
  assert (Hs : forall i s, socks !! i = Some s ->
    exists b, bucketByPort groups !! i = Some b /\ b <> [] /\ b ⊆ groups /\
      Forall (fun g => ua_Port g = so_port s) b /\ so_joined s = membership <$> b).
  { intros i s Hi. assert (Hi' : (inr <$> socks) !! i = Some (inr s : OpenErr + Socket)) by (by rewrite list_lookup_fmap, Hi).
    rewrite <- Ho in Hi'. unfold open_sockets in Hi'. rewrite list_lookup_fmap in Hi'.
    destruct (bucketByPort groups !! i) as [b|] eqn:Eb; [|done]. injection Hi' as Hopen. exists b.
    destruct (Hb i b Eb) as (p & -> & Hnil).
    assert (Hall : Forall (fun g => ua_Port g = p) (filter (fun g => ua_Port g = p) groups)).
    { apply Forall_forall. by intros g [? _]%list_elem_of_filter. }
    destruct (open_bucket _ _ _ Hall Hopen) as [-> Hj]. split_and!; try done. by intros g [_ ?]%list_elem_of_filter. }
  split; [|split].
  - intros g Hg. destruct (Hin g Hg) as (i & b & Eb & Hgb).
    assert (Hi : exists s, socks !! i = Some s).
    { assert (Hl : (inr <$> socks : list (OpenErr + Socket)) !! i = Some (open b)) by (rewrite <- Ho; unfold open_sockets; by rewrite list_lookup_fmap, Eb).
      rewrite list_lookup_fmap in Hl. destruct (socks !! i) as [s|]; [by exists s|done]. }
    destruct Hi as [s Hi]. destruct (Hs i s Hi) as (b' & Eb' & _ & _ & Hp & Hj). rewrite Eb in Eb'. injection Eb' as <-.
    exists s. split; [by apply list_elem_of_lookup_2 in Hi|]. rewrite Forall_forall in Hp. rewrite (Hp g Hgb). split; [done|].
    rewrite Hj. by apply list_elem_of_fmap_2.
  - intros i j s t Hi Hj Hp. destruct (decide (i = j)) as [|Hij]; [done|].
    destruct (Hs i s Hi) as ([|g b] & Eb & Hnb & _ & Hpb & _), (Hs j t Hj) as ([|h b'] & Eb' & Hnb' & _ & Hpb' & _); try done.
    apply Forall_cons in Hpb as [Hpb _]. apply Forall_cons in Hpb' as [Hpb' _].
    destruct (Hne i j _ _ g h Eb Eb' Hij); [left|left|congruence].
  - intros s m [i Hi]%list_elem_of_lookup_1 Hm. destruct (Hs i s Hi) as (b & _ & _ & Hsub & Hp & Hj). rewrite Hj in Hm.
    apply list_elem_of_fmap_1 in Hm as (g & -> & Hg). rewrite Forall_forall in Hp. exists g. split_and!; auto.
Qed.

End Joins.

(** ** The feed *)

Section Feed.
Variable ip_string : bytes -> string.
Context {Manifest MRegistry : Type}.
Variable MsgTypeShardManifest : Z.
Variable DecodeShardManifest : bytes -> option Manifest.
Variable UpsertManifest : bytes -> Manifest -> MRegistry -> MRegistry.

(** The codec accepts only datagrams of its own message type, which is not that
    of an ADVERT. *)
Hypothesis Hdecode : forall buf m, DecodeShardManifest buf = Some m -> (7 <= length buf)%nat /\ byte_at buf 6 = MsgTypeShardManifest.
Hypothesis Htype : MsgTypeShardManifest <> MsgTypeADVERT.

Local Abbreviation listen := (listenGroup ip_string MsgTypeShardManifest DecodeShardManifest UpsertManifest).
Local Abbreviation step := (demux ip_string MsgTypeShardManifest DecodeShardManifest UpsertManifest).

Lemma DecodeADVERT_type buf a : DecodeADVERT buf = inl a -> (7 <= length buf)%nat /\ byte_at buf 6 = MsgTypeADVERT.
Proof.
  unfold DecodeADVERT, ADVERTSize. destruct (Nat.ltb_spec (length buf) 56) as [|Hl]; [done|]. case_match; [done|].
  destruct (Z.eqb_spec (byte_at buf 6) MsgTypeADVERT) as [Ht|]; [|done]. intros _. split; [lia|done].
Qed.

(** Is a datagram counted, and as what? *)
Definition datagram_calls (manifests : bool) (now : Z) (buf src : bytes) : list Call :=
  (if is_set (advertised now buf) then [CBeaconAdvertReceived] else []) ++
  (if manifests && is_set (announced DecodeShardManifest buf src) then [CManifestReceived] else []).

(** One datagram, by what it decodes to and not by its type byte. *)
Lemma demux_spec now buf src (st : BeaconState MRegistry) :
  step now buf src st =
    mkBeacon
      (match advertised now buf with Some (t, a) => Upsert ip_string (bs_registry st) t a | None => bs_registry st end)
      (match announced DecodeShardManifest buf src with
       | Some (a, m) => UpsertManifest a m <$> bs_manifests st | None => bs_manifests st end)
      (bs_rec st)
      (bs_calls st ++ if bs_rec st then datagram_calls (is_set (bs_manifests st)) now buf src else []).
Proof.
  assert (Ha : is_set (advertised now buf) = true -> (length buf <? 7)%nat = false /\ byte_at buf 6 = MsgTypeADVERT).
  { unfold advertised. destruct (DecodeADVERT buf) as [a|] eqn:Ea; [|done]. intros _. apply DecodeADVERT_type in Ea as [? ?].
    split; [by apply Nat.ltb_ge|done]. }
  assert (Hm : is_set (announced DecodeShardManifest buf src) = true ->
    (length buf <? 7)%nat = false /\ byte_at buf 6 = MsgTypeShardManifest).
  { unfold announced. destruct (DecodeShardManifest buf) as [m|] eqn:Em; [|done]. intros _. apply Hdecode in Em as [? ?].
    split; [by apply Nat.ltb_ge|done]. }
  destruct st as [reg mans rec calls]. unfold demux, datagram_calls. cbn [bs_registry bs_manifests bs_rec bs_calls].
  destruct (advertised now buf) as [[t a]|] eqn:Ea; [|destruct (announced DecodeShardManifest buf src) as [[ga m]|] eqn:Em].
  - destruct (Ha eq_refl) as [-> ->]. rewrite Z.eqb_refl.
    destruct (announced _ buf src) as [[ga m]|] eqn:Em; [destruct (Hm eq_refl) as [_ E]; by rewrite (proj2 (Ha eq_refl)) in E|].
    unfold advertised in Ea. unfold advert_arrives, handleADVERT, count_beacon. cbn [bs_registry bs_manifests bs_rec bs_calls].
    destruct (DecodeADVERT buf) as [a'|]; [|done]. destruct (Z.land _ _ =? 0); [|done]. injection Ea as <- <-. cbn.
    by rewrite andb_false_r.
  - destruct (Hm eq_refl) as [-> ->]. rewrite Z.eqb_refl, (proj2 (Z.eqb_neq _ _) Htype). unfold announced in Em.
    unfold handleManifest, count_beacon. cbn [bs_registry bs_manifests bs_rec bs_calls].
    destruct (DecodeShardManifest buf) as [m'|]; [|done]. cbn in Em. destruct (group_addr src) as [ga'|]; [|done].
    injection Em as <- <-. destruct mans; cbn; [done|]. destruct rec; by rewrite app_nil_r.
  - rewrite andb_false_r. cbn [app is_set]. replace (calls ++ (if rec then [] else [])) with calls by (destruct rec; by rewrite app_nil_r).
    case_match; [done|]. case_match.
    + unfold advertised in Ea. unfold advert_arrives, handleADVERT. cbn [bs_registry bs_manifests bs_rec bs_calls].
      destruct (DecodeADVERT buf) as [a'|]; [|done]. by destruct (Z.land _ _ =? 0).
    + case_match; [|done]. unfold handleManifest. cbn [bs_manifests]. unfold announced in Em. destruct mans as [reg'|]; [|done].
      destruct (DecodeShardManifest buf); [|done]. cbn in Em. by destruct (group_addr src).
Qed.

(** The calls of a served datagram. *)
Definition served_calls (manifests : bool) (ds : list (Z * bytes * bytes)) : list Call :=
  flat_map (fun d => datagram_calls manifests d.1.1 d.1.2 d.2) ds.

(** C29: the beacon loop returns exactly when it sees its context cancelled; until
    then the endpoint registry takes every datagram that is a valid ADVERT and not
    draining, the manifest registry, when there is one, every datagram that is a
    valid manifest from a usable source, in the order they arrive; each is counted
    once, and no other datagram changes anything. *)
Theorem beacon_feed reads (st : BeaconState MRegistry) :
  let ds := served reads in
  let adverts := omap (fun d => advertised d.1.1 d.1.2) ds in
  let manifests := omap (fun d => announced DecodeShardManifest d.1.2 d.2) ds in
  listen reads st =
    (cancelled reads,
     mkBeacon (fold_left (fun r p => Upsert ip_string r p.1 p.2) adverts (bs_registry st))
       (fold_left (fun reg p => UpsertManifest p.1 p.2 reg) manifests <$> bs_manifests st) (bs_rec st)
       (bs_calls st ++ if bs_rec st then served_calls (is_set (bs_manifests st)) ds else [])).
Proof.
  revert st. induction reads as [|[[] rd] reads IH]; intros st; cbv zeta.
  - destruct st as [r [m|] [] l]; cbn; by rewrite app_nil_r.
  - destruct st as [r [m|] [] l]; cbn; by rewrite app_nil_r.
  - cbv zeta in IH. destruct rd as [|[]|now d src]; cbn [listenGroup served cancelled existsb fst snd orb].
    + apply IH.
    + destruct st as [r [m|] [] l]; cbn; by rewrite app_nil_r.
    + apply IH.
    + rewrite IH, demux_spec. cbn [bs_registry bs_manifests bs_rec bs_calls omap list_omap fst snd served_calls flat_map].
      fold (cancelled reads).
      destruct st as [r [reg|] [] l]; cbn [bs_registry bs_manifests bs_rec bs_calls]; rewrite <- ?app_assoc;
        destruct (advertised now _) as [[t a]|]; destruct (announced _ _ src) as [[ga m]|]; reflexivity.
Qed.

End Feed.

(** ** A concrete listener *)

(** The two forms of the beacon group on the ADVERT port, one on the manifest port. *)
Definition groups0 : list UDPAddr := [mkUDPAddr (1 :: zeros 15) 9300; mkUDPAddr (1 :: zeros 15) 9001; mkUDPAddr (2 :: zeros 15) 9300].

Definition socks0 : list Socket :=
  [mkSocket 9300 [(1 :: zeros 15, []); (2 :: zeros 15, [])]; mkSocket 9001 [(1 :: zeros 15, [7 :: zeros 15])]].

Definition rosters0 : gmap Z (list bytes) := {[9001 := [7 :: zeros 15]]}.

Lemma beacon_joins_witness :
  exists s, s ∈ socks0 /\ so_port s = 9001 /\ (1 :: zeros 15, [7 :: zeros 15]) ∈ so_joined s.
Proof.
  apply (proj1 (beacon_joins (fun _ => true) (fun _ => true) (fun _ => true) (fun _ _ _ => Joined) rosters0 []
    groups0 socks0 ltac:(vm_compute; reflexivity)) (mkUDPAddr (1 :: zeros 15) 9001)).
  right. left.
Defined.

Definition advert0 : bytes := default [] (EncodeADVERT (mkADVERT 5 (7 :: zeros 15) 9300 1 10 60 0 42) (zeros 56)).

Definition manifest0 (buf : bytes) : option Z := if (7 <=? length buf)%nat && (byte_at buf 6 =? 0x40) then Some (byte_at buf 7) else None.

(** An ADVERT, a manifest, a short datagram, then the context is cancelled. *)
Definition reads0 : list (bool * BRead) :=
  [(false, BDatagram 1 advert0 (zeros 16)); (false, BTimeout); (false, BDatagram 2 (zeros 6 ++ [0x40; 9]) (3 :: zeros 15));
   (false, BDatagram 3 [1; 2] (zeros 16)); (true, BTimeout)].

Lemma beacon_feed_witness :
  let r := listenGroup (fun _ => "ep"%string) 0x40 manifest0 (fun a m reg => (a, m) :: reg) reads0
    (mkBeacon NewRegistry (Some []) true []) in
  r.1 = true /\ bs_manifests r.2 = Some [(3 :: zeros 15, 9)] /\ size (rg_entries (bs_registry r.2)) = 1%nat /\
  bs_calls r.2 = [CBeaconAdvertReceived; CManifestReceived].
Proof.
  cbv zeta. rewrite beacon_feed.
  - vm_compute. repeat split.
  - intros buf m. unfold manifest0. destruct (Nat.leb_spec 7 (length buf)), (Z.eqb_spec (byte_at buf 6) 0x40); done.
  - done.
Defined.
