(* ===== verification/Tracker.v ===== *)
(** * The gap tracker: state and operations (nack/nack.go)

    The flow table with its pending and abandoned gaps, the observation of one
    stamped frame, explicit gap requests, the sweep with its tail probe, the
    NACK dispatch and its answers, and the accounting of every fill and loss.

    Each definition is the body the code runs while it holds the tracker's
    mutex (or the queue operation next to it), so a sequence of these operations
    is an interleaving of the goroutines.  What the code reads from outside is
    an argument: the clock, the random jitter, the order in which Go visits a
    map, and, for a dispatched NACK, the answers of the network.  The metrics
    recorder is a log of the events in order; [t_rec = false] is a nil recorder,
    on which the code skips every event. *)

From Corelib Require Import SpecFloat.
From S2P Require Import Prelude Wire Discovery.

(** ** Configuration and constants *)

Record TrackerConfig := mkTrackerConfig {
  JitterMax : Z;
  BackoffBase : Z;
  BackoffMax : Z;
  MaxRetries : Z;
  GapTTL : Z;
  TailTTL : Z;
  SeqResetThreshold : Z;
  MaxFlows : Z;
  MaxForwardJump : Z;
  TailProbe : bool;
  TailProbeIdleFactor : spec_float;
  TailProbeMinIdle : Z;
  TailProbeMaxMisses : Z
}.

Definition defaultTailProbeIdleFactor : spec_float := f64_of_int 4.

Definition defaultTailProbeMinIdle : Z := 500 * ns_per_ms.

Definition defaultTailProbeMaxMisses : Z := 3.

Definition groupBlockBroadcast : Z := 0xFFFE.

Definition groupSubtreeDataAnnounce : Z := 0xFFFB.

Definition groupCoinbaseFlow : Z := 0xFFF8.

Definition groupAnchorFlow : Z := 0xFFF9.

Definition ownerUnknown : Z := -1.

Definition minContiguousForRecover : Z := 16.

Definition abandonedTTL : Z := 120 * ns_per_s.

Definition abandonedMax : Z := 4096.

Definition defaultMaxConcurrent : Z := 64.

Definition defaultRespTimeout : Z := 300 * ns_per_ms.

Definition defaultBackoffBase : Z := 500 * ns_per_ms.

Definition nackQueueCap : nat := 4096.

Definition respFlagMulticastSent : Z := 0x01.

Definition respFlagUnicastSent : Z := 0x02.

Definition minRetransmitFrame : nat := 64.

Definition unicastDrainWindow : Z := 80 * ns_per_ms.

Definition throttleHintBase : Z := 125 * ns_per_ms.

Definition flowLabel (groupIdx : Z) : string :=
  if groupIdx =? groupBlockBroadcast then "brc131"
  else if groupIdx =? groupSubtreeDataAnnounce then "brc132"
  else if groupIdx =? groupCoinbaseFlow then "brc133"
  else if groupIdx =? groupAnchorFlow then "brc134"
  else if (0x1000 <=? groupIdx) && (groupIdx <=? 0x1FFF) then "brc148"
  else "brc124".

(** ** State *)

(** [retries], [failRounds] and [endpointIdx] are Go ints that count at most one step per
    dispatch; they are kept as integers. *)
Record gapEntry := mkGap {
  ge_hashKey : Z;
  ge_seqNum : Z;
  ge_groupIdx : Z;
  ge_subtreeID : bytes;
  ge_source : option bytes;
  ge_retries : Z;
  ge_failRounds : Z;
  ge_nextAttempt : Z;
  ge_deadline : Z;
  ge_endpointIdx : Z;
  ge_speculative : bool;
  ge_owner : Z
}.

Record flowState := mkFlow {
  fs_lastSeqNum : Z;
  fs_groupIdx : Z;
  fs_subtreeID : bytes;
  fs_flowType : string;
  fs_source : option bytes;
  fs_pending : gmap Z gapEntry;
  fs_lastSeen : Z;
  fs_abandoned : gmap Z Z;
  fs_ewmaIPG : Z;
  fs_contiguous : Z;
  fs_samples : Z;
  fs_probeMisses : Z;
  fs_probing : Z;
  fs_owner : Z
}.

(** The recorder's calls. *)
Inductive MEvent :=
| GapDetected (flow : string) (src : option bytes)
| GapSuppressed (flow : string) (src : option bytes)
| GapUnrecovered (flow : string) (src : option bytes)
| GapAbandoned (flow : string) (src : option bytes) (reason : string)
| GapLateFilled (flow : string) (src : option bytes)
| SeqRebaselined (flow : string) (src : option bytes)
| FlowsRefused (flow : string)
| TailProbeSent (flow : string) (src : option bytes)
| TailProbeRecovered (flow : string) (src : option bytes)
| TailProbeMiss (flow : string) (src : option bytes)
| NACKDispatched (flow : string) (src : option bytes)
| NACKSendError (endpoint : string)
| NACKThrottled (flow : string) (src : option bytes).

(** A re-injection callback is named by a number; [sendNACK] takes the meaning
    of the names. *)
Record Tracker := mkTracker {
  t_cfg : TrackerConfig;
  t_seeds : list string;
  t_rec : bool;
  t_registry : Registry;
  t_respTimeout : Z;
  t_flows : gmap Z flowState;
  t_flowsRefused : Z;
  t_nackQueue : list gapEntry;
  t_recoverFn : option nat;
  t_recovers : list (option nat);
  t_nackSrc : string;
  t_log : list MEvent
}.

(** What one operation reads from outside: the clock, the jitter drawn for a
    gap, the clock reading taken when a gap is booked, and Go's map order. *)
Record Env := mkEnv {
  ev_now : Z;
  ev_jitter : Z -> Z;
  ev_book : Z -> Z -> Z;
  ev_range : gmap Z gapEntry -> list (Z * gapEntry);
  ev_rangeF : gmap Z flowState -> list (Z * flowState)
}.

(** ** Field updates *)

Definition set_lastSeqNum (n : Z) (fs : flowState) : flowState :=
  mkFlow n (fs_groupIdx fs) (fs_subtreeID fs) (fs_flowType fs) (fs_source fs) (fs_pending fs)
    (fs_lastSeen fs) (fs_abandoned fs) (fs_ewmaIPG fs) (fs_contiguous fs) (fs_samples fs)
    (fs_probeMisses fs) (fs_probing fs) (fs_owner fs).

Definition set_pending (p : gmap Z gapEntry) (fs : flowState) : flowState :=
  mkFlow (fs_lastSeqNum fs) (fs_groupIdx fs) (fs_subtreeID fs) (fs_flowType fs) (fs_source fs) p
    (fs_lastSeen fs) (fs_abandoned fs) (fs_ewmaIPG fs) (fs_contiguous fs) (fs_samples fs)
    (fs_probeMisses fs) (fs_probing fs) (fs_owner fs).

Definition set_abandoned (a : gmap Z Z) (fs : flowState) : flowState :=
  mkFlow (fs_lastSeqNum fs) (fs_groupIdx fs) (fs_subtreeID fs) (fs_flowType fs) (fs_source fs)
    (fs_pending fs) (fs_lastSeen fs) a (fs_ewmaIPG fs) (fs_contiguous fs) (fs_samples fs)
    (fs_probeMisses fs) (fs_probing fs) (fs_owner fs).

Definition set_rate (ewma contiguous samples : Z) (fs : flowState) : flowState :=
  mkFlow (fs_lastSeqNum fs) (fs_groupIdx fs) (fs_subtreeID fs) (fs_flowType fs) (fs_source fs)
    (fs_pending fs) (fs_lastSeen fs) (fs_abandoned fs) ewma contiguous samples
    (fs_probeMisses fs) (fs_probing fs) (fs_owner fs).

Definition set_probe (misses probing : Z) (fs : flowState) : flowState :=
  mkFlow (fs_lastSeqNum fs) (fs_groupIdx fs) (fs_subtreeID fs) (fs_flowType fs) (fs_source fs)
    (fs_pending fs) (fs_lastSeen fs) (fs_abandoned fs) (fs_ewmaIPG fs) (fs_contiguous fs)
    (fs_samples fs) misses probing (fs_owner fs).

Definition set_owner (o : Z) (fs : flowState) : flowState :=
  mkFlow (fs_lastSeqNum fs) (fs_groupIdx fs) (fs_subtreeID fs) (fs_flowType fs) (fs_source fs)
    (fs_pending fs) (fs_lastSeen fs) (fs_abandoned fs) (fs_ewmaIPG fs) (fs_contiguous fs)
    (fs_samples fs) (fs_probeMisses fs) (fs_probing fs) o.

Definition set_seen (now : Z) (src : option bytes) (fs : flowState) : flowState :=
  mkFlow (fs_lastSeqNum fs) (fs_groupIdx fs) (fs_subtreeID fs) (fs_flowType fs) src
    (fs_pending fs) now (fs_abandoned fs) (fs_ewmaIPG fs) (fs_contiguous fs)
    (fs_samples fs) (fs_probeMisses fs) (fs_probing fs) (fs_owner fs).

Definition set_attempt (retries failRounds endpointIdx next : Z) (e : gapEntry) : gapEntry :=
  mkGap (ge_hashKey e) (ge_seqNum e) (ge_groupIdx e) (ge_subtreeID e) (ge_source e)
    retries failRounds next (ge_deadline e) endpointIdx (ge_speculative e) (ge_owner e).

Definition set_nextAttempt (next : Z) (e : gapEntry) : gapEntry :=
  set_attempt (ge_retries e) (ge_failRounds e) (ge_endpointIdx e) next e.

(** The tracker with new flows, queue and further events. *)
Definition with_flows (flows : gmap Z flowState) (queue : list gapEntry) (evs : list MEvent)
    (t : Tracker) : Tracker :=
  mkTracker (t_cfg t) (t_seeds t) (t_rec t) (t_registry t) (t_respTimeout t) flows
    (t_flowsRefused t) queue (t_recoverFn t) (t_recovers t) (t_nackSrc t) (t_log t ++ evs).

(** Events reach the log only when there is a recorder. *)
Definition record (rec : bool) (evs : list MEvent) : list MEvent := if rec then evs else [].

(** ** Accounting *)

Definition bookFill (rec : bool) (fs : flowState) (e : gapEntry) : flowState * list MEvent :=
  let fs := if fs_probing fs =? ge_seqNum e then set_probe (fs_probeMisses fs) 0 fs else fs in
  if negb rec then (fs, []) else
  let ft := fs_flowType fs in
  let src := fs_source fs in
  if ge_speculative e then
    (set_probe 0 (fs_probing fs) fs, [TailProbeRecovered ft src; GapDetected ft src; GapSuppressed ft src])
  else (fs, [GapSuppressed ft src]).

(** [now] is this call's own reading of the clock. *)
Definition bookAbandon (rec : bool) (now : Z) (fs : flowState) (seq : Z) (src : option bytes)
    (reason : string) : flowState * list MEvent :=
  let fs :=
    if Z.of_nat (size (fs_abandoned fs)) <? abandonedMax
    then set_abandoned (<[seq := now]> (fs_abandoned fs)) fs else fs in
  (fs, record rec [GapUnrecovered (fs_flowType fs) src; GapAbandoned (fs_flowType fs) src reason]).

Definition noteLateFill (rec : bool) (fs : flowState) (seq : Z) : flowState * list MEvent * bool :=
  match fs_abandoned fs !! seq with
  | None => (fs, [], false)
  | Some _ =>
      (set_abandoned (delete seq (fs_abandoned fs)) fs,
       record rec [GapLateFilled (fs_flowType fs) (fs_source fs)], true)
  end.

(** The [gapEntry] literal of a newly registered gap. *)
Definition newGap (cfg : TrackerConfig) (now jitter hashKey seq groupIdx : Z) (subtreeID : bytes)
    (source : option bytes) (owner : Z) (speculative : bool) : gapEntry :=
  mkGap hashKey seq groupIdx subtreeID source 0 0 (time_add now jitter) (time_add now (GapTTL cfg))
    0 speculative owner.

(** ** Observing a frame *)

Definition newFlow (groupIdx : Z) (subtreeID : bytes) (lastSeen : Z) : flowState :=
  mkFlow 0 groupIdx subtreeID (flowLabel groupIdx) None ∅ lastSeen ∅ 0 0 0 0 0 ownerUnknown.

(** One pass of the restart loop over the pending gaps. *)
Definition restart_one (rec : bool) (book : Z -> Z) (acc : flowState * list MEvent)
    (p : Z * gapEntry) : flowState * list MEvent :=
  let '(fs, evs) := acc in
  let '(seq, e) := p in
  if ge_speculative e then (fs, evs) else
  let '(fs, ev) := bookAbandon rec (book seq) fs seq (fs_source fs) "restart" in
  (fs, evs ++ ev).

(** Registers one gap in [pending] unless it is there ([overwrite] is the
    re-baseline loop, which does not look). *)
Definition register_gap (cfg : TrackerConfig) (rec : bool) (env : Env) (hashKey groupIdx : Z)
    (subtreeID : bytes) (source : option bytes) (overwrite : bool)
    (acc : flowState * list MEvent) (m : Z) : flowState * list MEvent :=
  let '(fs, evs) := acc in
  match (if overwrite then None else fs_pending fs !! m) with
  | Some _ => (fs, evs)
  | None =>
      let e := newGap cfg (ev_now env) (ev_jitter env m) hashKey m groupIdx subtreeID source
                 (fs_owner fs) false in
      (set_pending (<[m := e]> (fs_pending fs)) fs,
       evs ++ record rec [GapDetected (fs_flowType fs) source])
  end.

(** The values [lo, lo+1, ..., hi-1] of a counting loop. *)
Definition seq_range (lo hi : Z) : list Z := seqZ lo (hi - lo).

(** The rate test on a forward jump of [missing] frames. *)
Definition implausible_jump (maxJump missing elapsed ewma : Z) : bool :=
  let implausible := maxJump <? missing in
  if negb implausible && (0 <? ewma) && (64 <? missing)
  then u64 (4 * u64 (u64 (Z.quot elapsed ewma) + 1)) <? missing
  else implausible.

(** Steps 4 to 6: the frame is not (or no longer) a repair. *)
Definition observe_advance (cfg : TrackerConfig) (rec : bool) (env : Env) (elapsed groupIdx : Z)
    (subtreeID : bytes) (hashKey seqNum : Z) (source : option bytes) (fs : flowState) :
    flowState * list MEvent :=
  if fs_lastSeqNum fs =? 0 then (set_lastSeqNum seqNum fs, []) else
  if seqNum <=? fs_lastSeqNum fs then
    let threshold := if SeqResetThreshold cfg =? 0 then 100 else SeqResetThreshold cfg in
    if is_set source && (seqNum <=? threshold) && (threshold <? fs_lastSeqNum fs) then
      let '(fs, evs) :=
        fold_left (restart_one rec (ev_book env hashKey)) (ev_range env (fs_pending fs)) (fs, []) in
      (set_lastSeqNum seqNum (set_pending ∅ fs), evs)
    else (fs, [])
  else
  if seqNum =? u64 (fs_lastSeqNum fs + 1) then
    let ewma :=
      if 0 <? elapsed then
        if fs_ewmaIPG fs =? 0 then elapsed
        else i64 (fs_ewmaIPG fs + Z.quot (i64 (elapsed - fs_ewmaIPG fs)) 8)
      else fs_ewmaIPG fs in
    (set_rate ewma (u64 (fs_contiguous fs + 1)) (u64 (fs_samples fs + 1)) (set_lastSeqNum seqNum fs), [])
  else
  let missing := u64 (u64 (seqNum - fs_lastSeqNum fs) - 1) in
  let maxJump := if MaxForwardJump cfg =? 0 then 4096 else MaxForwardJump cfg in
  if implausible_jump maxJump missing elapsed (fs_ewmaIPG fs) then
    let fs := set_pending ∅ fs in
    let '(fs, evs) :=
      if (0 <? fs_ewmaIPG fs) && (minContiguousForRecover <=? fs_contiguous fs) then
        let tail := u64 (Z.quot elapsed (fs_ewmaIPG fs)) in
        let tail := if missing <? tail then missing else tail in
        let tail := if maxJump <? tail then maxJump else tail in
        fold_left (register_gap cfg rec env hashKey groupIdx subtreeID source true)
          (seq_range (u64 (seqNum - tail)) seqNum) (fs, [])
      else (fs, []) in
    (set_rate 0 0 0 (set_lastSeqNum seqNum fs),
     evs ++ record rec [SeqRebaselined (fs_flowType fs) (fs_source fs)])
  else
  let '(fs, evs) :=
    fold_left (register_gap cfg rec env hashKey groupIdx subtreeID source false)
      (seq_range (u64 (fs_lastSeqNum fs + 1)) seqNum) (fs, []) in
  (set_rate (fs_ewmaIPG fs) 0 (fs_samples fs) (set_lastSeqNum seqNum fs), evs).

(** The part of [ObserveFrom] that works on the flow. *)
Definition observe_flow (cfg : TrackerConfig) (rec : bool) (env : Env) (owner groupIdx : Z)
    (subtreeID : bytes) (hashKey seqNum : Z) (source : option bytes) (fs : flowState) :
    flowState * list MEvent :=
  let fs := if owner =? ownerUnknown then fs else set_owner owner fs in
  let elapsed := time_sub (ev_now env) (fs_lastSeen fs) in
  let fs := set_probe 0 (fs_probing fs)
              (set_seen (ev_now env) (if is_set source then source else fs_source fs) fs) in
  let '(fs, ev1, _) := noteLateFill rec fs seqNum in
  match fs_pending fs !! seqNum with
  | Some e =>
      let fs := set_pending (delete seqNum (fs_pending fs)) fs in
      let '(fs, ev2) := bookFill rec fs e in
      if seqNum <=? fs_lastSeqNum fs then (fs, ev1 ++ ev2) else
      let '(fs, ev3) := observe_advance cfg rec env elapsed groupIdx subtreeID hashKey seqNum source fs in
      (fs, ev1 ++ ev2 ++ ev3)
  | None =>
      let '(fs, ev3) := observe_advance cfg rec env elapsed groupIdx subtreeID hashKey seqNum source fs in
      (fs, ev1 ++ ev3)
  end.

(** At the cap a new flow is refused. *)
Definition at_cap (t : Tracker) : bool :=
  (0 <? MaxFlows (t_cfg t)) && (MaxFlows (t_cfg t) <=? Z.of_nat (size (t_flows t))).

Definition refuse_flow (groupIdx : Z) (t : Tracker) : Tracker :=
  mkTracker (t_cfg t) (t_seeds t) (t_rec t) (t_registry t) (t_respTimeout t) (t_flows t)
    (u64 (t_flowsRefused t + 1)) (t_nackQueue t) (t_recoverFn t) (t_recovers t) (t_nackSrc t)
    (t_log t ++ record (t_rec t) [FlowsRefused (flowLabel groupIdx)]).

Definition ObserveFrom (env : Env) (owner groupIdx : Z) (subtreeID : bytes) (hashKey seqNum : Z)
    (txid : bytes) (source : option bytes) (t : Tracker) : Tracker :=
  if seqNum =? 0 then t else
  let go fs :=
    let '(fs, evs) := observe_flow (t_cfg t) (t_rec t) env owner groupIdx subtreeID hashKey seqNum source fs in
    with_flows (<[hashKey := fs]> (t_flows t)) (t_nackQueue t) evs t in
  match t_flows t !! hashKey with
  | Some fs => go fs
  | None => if at_cap t then refuse_flow groupIdx t else go (newFlow groupIdx subtreeID zero_time)
  end.

Definition Observe (env : Env) (groupIdx : Z) (subtreeID : bytes) (hashKey seqNum : Z)
    (txid : bytes) (source : option bytes) (t : Tracker) : Tracker :=
  ObserveFrom env ownerUnknown groupIdx subtreeID hashKey seqNum txid source t.

(** ** Explicit gap requests *)

(** A non-blocking send on the dispatch queue. *)
Definition enqueue (q : list gapEntry) (e : gapEntry) : option (list gapEntry) :=
  if (length q <? nackQueueCap)%nat then Some (q ++ [e]) else None.

(** One seqNum of a request: registered unless pending, and then queued. *)
Definition request_one (cfg : TrackerConfig) (rec : bool) (env : Env) (hashKey groupIdx : Z)
    (subtreeID : bytes) (acc : flowState * list gapEntry * list MEvent) (seq : Z) :
    flowState * list gapEntry * list MEvent :=
  let '(fs, queued, evs) := acc in
  match fs_pending fs !! seq with
  | Some _ => (fs, queued, evs)
  | None =>
      let e := newGap cfg (ev_now env) (ev_jitter env seq) hashKey seq groupIdx subtreeID
                 (fs_source fs) (fs_owner fs) false in
      (set_pending (<[seq := e]> (fs_pending fs)) fs, queued ++ [e],
       evs ++ record rec [GapDetected (fs_flowType fs) (fs_source fs)])
  end.

(** The enqueue loop after the lock is released: it stops at a full queue. *)
Fixpoint enqueue_all (q : list gapEntry) (es : list gapEntry) : list gapEntry :=
  match es with
  | [] => q
  | e :: es => match enqueue q e with Some q => enqueue_all q es | None => q end
  end.

(** The queue is filled after the lock is released, in the order of the loop; the sends
    do not block and only add to the queue. *)
Definition RequestGapsFrom (env : Env) (owner hashKey groupIdx : Z) (subtreeID : bytes)
    (seqs : list Z) (t : Tracker) : Tracker :=
  match seqs with
  | [] => t
  | _ =>
      let go fs :=
        let fs := if owner =? ownerUnknown then fs else set_owner owner fs in
        let '(fs, queued, evs) :=
          fold_left (request_one (t_cfg t) (t_rec t) env hashKey groupIdx subtreeID) seqs (fs, [], []) in
        with_flows (<[hashKey := fs]> (t_flows t)) (enqueue_all (t_nackQueue t) queued) evs t in
      match t_flows t !! hashKey with
      | Some fs => go fs
      | None => if at_cap t then t else go (newFlow groupIdx subtreeID (ev_now env))
      end
  end.

Definition RequestGaps (env : Env) (hashKey groupIdx : Z) (subtreeID : bytes)
    (seqs : list Z) (t : Tracker) : Tracker :=
  RequestGapsFrom env ownerUnknown hashKey groupIdx subtreeID seqs t.

Definition Fill (hashKey seqNum : Z) (t : Tracker) : Tracker :=
  if seqNum =? 0 then t else
  match t_flows t !! hashKey with
  | None => t
  | Some fs =>
      match fs_pending fs !! seqNum with
      | Some e =>
          let fs := set_pending (delete seqNum (fs_pending fs)) fs in
          let '(fs, evs) := bookFill (t_rec t) fs e in
          with_flows (<[hashKey := fs]> (t_flows t)) (t_nackQueue t) evs t
      | None =>
          let '(fs, evs, _) := noteLateFill (t_rec t) fs seqNum in
          with_flows (<[hashKey := fs]> (t_flows t)) (t_nackQueue t) evs t
      end
  end.

(** ** The sweep *)

Definition retireProbe (fs : flowState) (seq : Z) : flowState :=
  let fs := if fs_probing fs =? seq then set_probe (fs_probeMisses fs) 0 fs else fs in
  set_probe (fs_probeMisses fs + 1) (fs_probing fs) fs.

(** A gap given up by the sweep: a probe is retired, a real gap is booked. *)
Definition evict_gap (rec : bool) (book : Z -> Z) (fs : flowState) (seq : Z) (e : gapEntry)
    (reason : string) : flowState * list MEvent :=
  let fs := set_pending (delete seq (fs_pending fs)) fs in
  if ge_speculative e then (retireProbe fs seq, [])
  else bookAbandon rec (book seq) fs seq (ge_source e) reason.

(** The body of the sweep's loop over one flow's pending gaps. *)
Definition sweep_gap (t : Tracker) (now : Z) (book : Z -> Z)
    (acc : flowState * list gapEntry * list MEvent) (p : Z * gapEntry) :
    flowState * list gapEntry * list MEvent :=
  let '(fs, q, evs) := acc in
  let '(seq, e) := p in
  if after now (ge_deadline e) then
    let '(fs, ev) := evict_gap (t_rec t) book fs seq e "ttl" in (fs, q, evs ++ ev)
  else if MaxRetries (t_cfg t) <=? ge_failRounds e then
    let '(fs, ev) := evict_gap (t_rec t) book fs seq e "retries" in (fs, q, evs ++ ev)
  else if after now (ge_nextAttempt e) then
    let e' := set_nextAttempt (time_add now (t_respTimeout t + 100 * ns_per_ms)) e in
    match enqueue q e' with
    | Some q => (set_pending (<[seq := e']> (fs_pending fs)) fs, q, evs)
    | None => (set_pending (<[seq := set_nextAttempt now e]> (fs_pending fs)) fs, q, evs)
    end
  else (fs, q, evs).

(** The idle threshold of the tail probe. *)
Definition probe_threshold (cfg : TrackerConfig) (ewma : Z) : Z :=
  let factor := if f64_le0 (TailProbeIdleFactor cfg) then defaultTailProbeIdleFactor
                else TailProbeIdleFactor cfg in
  let minIdle := if TailProbeMinIdle cfg <=? 0 then defaultTailProbeMinIdle else TailProbeMinIdle cfg in
  let threshold := int_of_f64 (f64_mul (f64_of_int ewma) factor) in
  if threshold <? minIdle then minIdle else threshold.

Definition maybeProbeTail (t : Tracker) (now hashKey : Z) (fs : flowState) (q : list gapEntry) :
    flowState * list gapEntry * list MEvent :=
  let cfg := t_cfg t in
  if negb (TailProbe cfg) || negb (fs_probing fs =? 0) then (fs, q, []) else
  if (fs_ewmaIPG fs <=? 0) || (fs_samples fs <? minContiguousForRecover) then (fs, q, []) else
  let maxMisses := if TailProbeMaxMisses cfg <=? 0 then defaultTailProbeMaxMisses
                   else TailProbeMaxMisses cfg in
  if maxMisses <=? fs_probeMisses fs then (fs, q, []) else
  if time_sub now (fs_lastSeen fs) <? probe_threshold cfg (fs_ewmaIPG fs) then (fs, q, []) else
  let seq := u64 (fs_lastSeqNum fs + 1) in
  let e := newGap cfg now 0 hashKey seq (fs_groupIdx fs) (fs_subtreeID fs) (fs_source fs)
             (fs_owner fs) true in
  let evs := record (t_rec t) [TailProbeSent (flowLabel (fs_groupIdx fs)) (fs_source fs)] in
  match enqueue q e with
  | Some q => (set_pending (<[seq := e]> (fs_pending fs)) (set_probe (fs_probeMisses fs) seq fs), q, evs)
  | None => (set_pending (delete seq (fs_pending fs)) (set_probe (fs_probeMisses fs) 0 fs), q, evs)
  end.

Definition flow_ttl (cfg : TrackerConfig) : Z :=
  if TailTTL cfg <=? 0 then GapTTL cfg else TailTTL cfg.

Definition purge_abandoned (now : Z) (fs : flowState) : flowState :=
  set_abandoned (filter (fun p => time_sub now p.2 <= abandonedTTL) (fs_abandoned fs)) fs.

(** The sweep of one flow; the result is [None] when the flow is evicted. *)
Definition sweep_flow (t : Tracker) (env : Env) (hashKey : Z) (fs : flowState) (q : list gapEntry) :
    option flowState * list gapEntry * list MEvent :=
  let now := ev_now env in
  let fs := purge_abandoned now fs in
  let '(fs, q, ev1) :=
    fold_left (sweep_gap t now (ev_book env hashKey)) (ev_range env (fs_pending fs)) (fs, q, []) in
  let '(fs, q, ev2) :=
    if decide (fs_pending fs = ∅) then maybeProbeTail t now hashKey fs q else (fs, q, []) in
  let gone := bool_decide (fs_pending fs = ∅) && (flow_ttl (t_cfg t) <? time_sub now (fs_lastSeen fs)) in
  (if gone then None else Some fs, q, ev1 ++ ev2).

Definition sweep_step (t : Tracker) (env : Env)
    (acc : gmap Z flowState * list gapEntry * list MEvent) (p : Z * flowState) :
    gmap Z flowState * list gapEntry * list MEvent :=
  let '(flows, q, evs) := acc in
  let '(hk, fs) := p in
  let '(r, q, ev) := sweep_flow t env hk fs q in
  (match r with Some fs => <[hk := fs]> flows | None => delete hk flows end, q, evs ++ ev).

Definition sweepOnce (env : Env) (t : Tracker) : Tracker :=
  let '(flows, q, evs) :=
    fold_left (sweep_step t env) (ev_rangeF env (t_flows t)) (t_flows t, t_nackQueue t, []) in
  with_flows flows q evs t.

(** ** Answers to a dispatched NACK

    [e] is the copy of the gap taken at dispatch; the stored entry may have
    changed, or be gone, by the time the answer arrives. *)

(** The tracker with one flow replaced. *)
Definition put_flow (hk : Z) (fs : flowState) (evs : list MEvent) (t : Tracker) : Tracker :=
  with_flows (<[hk := fs]> (t_flows t)) (t_nackQueue t) evs t.

Definition probeMissed (e : gapEntry) (t : Tracker) : Tracker :=
  match t_flows t !! ge_hashKey e with
  | None => t
  | Some fs =>
      let fs := set_pending (delete (ge_seqNum e) (fs_pending fs)) fs in
      let fs := if fs_probing fs =? ge_seqNum e then set_probe (fs_probeMisses fs) 0 fs else fs in
      let fs := set_probe (fs_probeMisses fs + 1) (fs_probing fs) fs in
      put_flow (ge_hashKey e) fs
        (record (t_rec t) [TailProbeMiss (flowLabel (fs_groupIdx fs)) (fs_source fs)]) t
  end.

Definition cancelGap (e : gapEntry) (t : Tracker) : Tracker :=
  match t_flows t !! ge_hashKey e with
  | None => t
  | Some fs =>
      match fs_pending fs !! ge_seqNum e with
      | None => t
      | Some pend =>
          let fs := set_pending (delete (ge_seqNum e) (fs_pending fs)) fs in
          let '(fs, evs) := bookFill (t_rec t) fs pend in
          put_flow (ge_hashKey e) fs evs t
      end
  end.

Definition abandonGap (now : Z) (e : gapEntry) (reason : string) (t : Tracker) : Tracker :=
  match t_flows t !! ge_hashKey e with
  | None => t
  | Some fs =>
      let fs := set_pending (delete (ge_seqNum e) (fs_pending fs)) fs in
      let fs := if fs_probing fs =? ge_seqNum e then set_probe (fs_probeMisses fs) 0 fs else fs in
      if ge_speculative e then put_flow (ge_hashKey e) fs [] t else
      let '(fs, evs) := bookAbandon (t_rec t) now fs (ge_seqNum e) (fs_source fs) reason in
      put_flow (ge_hashKey e) fs evs t
  end.

(** [hold] of a THROTTLED answer: the hinted backoff, capped. *)
Definition throttle_hold (cfg : TrackerConfig) (flags : Z) : Z :=
  let hold := i64 (Z.shiftl throttleHintBase (Z.land flags 0x0F)) in
  if (BackoffMax cfg <? hold) || (hold <=? 0) then BackoffMax cfg else hold.

(** [rnd] is the value of [rand.Int64N(half+1)]. *)
Definition throttleGap (now rnd : Z) (e : gapEntry) (flags : Z) (t : Tracker) : Tracker :=
  let half := Z.quot (throttle_hold (t_cfg t) flags) 2 in
  let wait := half + rnd in
  match t_flows t !! ge_hashKey e with
  | None => t
  | Some fs =>
      match fs_pending fs !! ge_seqNum e with
      | None => t
      | Some entry =>
          let entry := set_attempt (ge_retries entry + 1) (ge_failRounds entry) (ge_endpointIdx entry)
                         (time_add now wait) entry in
          put_flow (ge_hashKey e) (set_pending (<[ge_seqNum e := entry]> (fs_pending fs)) fs)
            (record (t_rec t) [NACKThrottled (flowLabel (ge_groupIdx e)) (ge_source e)]) t
      end
  end.

(** The backoff of failed round [failRounds]: doubling from the base, capped,
    with the shift's overflow mapped to the cap. *)
Definition backoff_of (cfg : TrackerConfig) (failRounds : Z) : Z :=
  let backoff := i64 (Z.shiftl (BackoffBase cfg) (failRounds - 1)) in
  if (BackoffMax cfg <? backoff) || (backoff <=? 0) then BackoffMax cfg else backoff.

(** The entry after one attempt; [rnd] is the value of [rand.Int64N(half+1)]. *)
Definition advance_entry (cfg : TrackerConfig) (now rnd : Z) (immediate : bool) (numEndpoints : Z)
    (entry : gapEntry) : gapEntry :=
  let retries := ge_retries entry + 1 in
  let idx := ge_endpointIdx entry + 1 in
  let exhausted := (0 <? numEndpoints) && (numEndpoints <=? idx) in
  if immediate && negb exhausted then set_attempt retries 0 idx now entry
  else
    let rounds := ge_failRounds entry + 1 in
    let half := Z.quot (backoff_of cfg rounds) 2 in
    set_attempt retries rounds idx (time_add now (half + rnd)) entry.

Definition advanceEndpoint (now rnd : Z) (e : gapEntry) (immediate : bool) (numEndpoints : Z)
    (t : Tracker) : Tracker :=
  match t_flows t !! ge_hashKey e with
  | None => t
  | Some fs =>
      match fs_pending fs !! ge_seqNum e with
      | None => t
      | Some entry =>
          put_flow (ge_hashKey e)
            (set_pending (<[ge_seqNum e := advance_entry (t_cfg t) now rnd immediate numEndpoints entry]>
                            (fs_pending fs)) fs) [] t
      end
  end.

(** ** Dispatch *)

(** What a [sendNACK] goroutine finally does with its gap. *)
Inductive Outcome :=
| OAdvance (immediate : bool) (numEndpoints : Z)
| OCancel
| OAbandon (reason : string)
| OProbeMissed
| OThrottle (flags : Z)
| OStop.

Definition apply_outcome (now rnd : Z) (e : gapEntry) (o : Outcome) (t : Tracker) : Tracker :=
  match o with
  | OAdvance immediate n => advanceEndpoint now rnd e immediate n t
  | OCancel => cancelGap e t
  | OAbandon reason => abandonGap now e reason t
  | OProbeMissed => probeMissed e t
  | OThrottle flags => throttleGap now rnd e flags t
  | OStop => t
  end.

(** The switch on a control response; [None] keeps draining for the frame that a
    unicast ACK promises. *)
Definition on_response (reinject : option nat) (speculative : bool) (nsnap : Z) (resp : Response) :
    option Outcome :=
  if r_MsgType resp =? MsgTypeACK then
    if negb (Z.land (r_Flags resp) respFlagUnicastSent =? 0) then
      if is_set reinject then None
      else if Z.land (r_Flags resp) respFlagMulticastSent =? 0 then Some (OAbandon "no_recover")
      else Some OCancel
    else Some OCancel
  else if r_MsgType resp =? MsgTypeMISS then
    Some (if speculative then OProbeMissed else OAdvance true nsnap)
  else if r_MsgType resp =? MsgTypeTHROTTLED then Some (OThrottle (r_Flags resp))
  else Some OStop.

(** A datagram that is taken for a retransmitted frame. *)
Definition is_data (d : bytes) : bool :=
  (minRetransmitFrame <=? length d)%nat && (be_get (slice d 0 4) =? nackMagic).

(** The drain loop over the datagrams the NACK socket yields before its deadline
    (the end of the list is the read error that ends the loop).  [reinject] is
    the resolved callback, [accept] its answer on a frame; the second component
    is the frame handed to it. *)
Fixpoint drain (reinject : option nat) (accept : nat -> bytes -> bool) (speculative : bool)
    (nsnap : Z) (unicastACK : bool) (reads : list bytes) : Outcome * option (nat * bytes) :=
  match reads with
  | [] => (if unicastACK then OAdvance true nsnap else OAdvance false 0, None)
  | d :: rest =>
      match reinject, is_data d with
      | Some f, true => (if accept f d then OCancel else OAbandon "rejected", Some (f, d))
      | _, _ =>
          match DecodeResponse d with
          | inr _ => drain reinject accept speculative nsnap unicastACK rest
          | inl resp =>
              match on_response reinject speculative nsnap resp with
              | None => drain reinject accept speculative nsnap true rest
              | Some o => (o, None)
              end
          end
      end
  end.

(** The results of the socket calls of one dispatch. *)
Record NetAnswer := mkNet {
  na_resolve : bool;
  na_listen : bool;
  na_write : bool;
  na_reads : list bytes
}.

Definition recoverFor (t : Tracker) (owner : Z) : option nat :=
  if (0 <=? owner) && (owner <? Z.of_nat (length (t_recovers t))) then
    match t_recovers t !! Z.to_nat owner with
    | Some (Some f) => Some f
    | _ => t_recoverFn t
    end
  else t_recoverFn t.

(** The endpoint of an attempt: the gap's index, clamped to the deepest tier. *)
Definition pick_endpoint (snap : list EndpointEntry) (idx : Z) : option EndpointEntry :=
  let n := Z.of_nat (length snap) in
  snap !! Z.to_nat (if n <=? idx then n - 1 else idx).

(** The datagram an attempt writes. *)
Definition nack_datagram (e : gapEntry) : option bytes :=
  Encode (mkNACK MsgTypeNACK (ge_hashKey e) (ge_seqNum e) (ge_seqNum e) (ge_subtreeID e)) (zeros NACKSize).

Definition with_registry (reg : Registry) (evs : list MEvent) (t : Tracker) : Tracker :=
  mkTracker (t_cfg t) (t_seeds t) (t_rec t) reg (t_respTimeout t) (t_flows t)
    (t_flowsRefused t) (t_nackQueue t) (t_recoverFn t) (t_recovers t) (t_nackSrc t) (t_log t ++ evs).

(** What [sendNACK] decides, and what it records, from the registry snapshot and
    the network's answers; [None] is the early return with no endpoint. *)
Definition sendNACK_decide (accept : nat -> bytes -> bool) (net : NetAnswer)
    (snap : list EndpointEntry) (e : gapEntry) (t : Tracker) :
    option (Outcome * list MEvent * option (nat * bytes)) :=
  match pick_endpoint snap (ge_endpointIdx e) with
  | None => None
  | Some endpoint =>
      let n := Z.of_nat (length snap) in
      if negb (na_resolve net) then Some (OAdvance false 0, [], None) else
      if negb (na_listen net) then Some (OAdvance false 0, [], None) else
      if negb (na_write net) then Some (OAdvance false n, [NACKSendError (ep_Addr endpoint)], None) else
      let '(o, fr) := drain (recoverFor t (ge_owner e)) accept (ge_speculative e) n false (na_reads net) in
      Some (o, [NACKDispatched (flowLabel (ge_groupIdx e)) (ge_source e)], fr)
  end.

(** [sendNACK] when nothing runs between its parts; [reinject] is the effect of
    the callback on the tracker. *)
Definition sendNACK (renv : RegEnv) (accept : nat -> bytes -> bool)
    (reinject : nat -> bytes -> Tracker -> Tracker) (net : NetAnswer) (now rnd : Z)
    (e : gapEntry) (t : Tracker) : Tracker :=
  let '(snap, reg) := Snapshot renv (t_registry t) in
  let t := with_registry reg [] t in
  match sendNACK_decide accept net snap e t with
  | None => t
  | Some (o, evs, fr) =>
      let t := with_registry reg (record (t_rec t) evs) t in
      let t := match fr with Some (f, raw) => reinject f raw t | None => t end in
      apply_outcome now rnd e o t
  end.

(** [dispatchLoop] takes the oldest queued gap. *)
Definition dispatch (t : Tracker) : option (gapEntry * Tracker) :=
  match t_nackQueue t with
  | [] => None
  | e :: q => Some (e, with_flows (t_flows t) q [] t)
  end.

(** ** Construction, wiring and queries *)

Definition SetRecoverFunc (f : nat) (t : Tracker) : Tracker :=
  mkTracker (t_cfg t) (t_seeds t) (t_rec t) (t_registry t) (t_respTimeout t) (t_flows t)
    (t_flowsRefused t) (t_nackQueue t) (Some f) (t_recovers t) (t_nackSrc t) (t_log t).

Definition RegisterRecover (id : Z) (f : nat) (t : Tracker) : Tracker :=
  if id <? 0 then t else
  let n := Z.to_nat id in
  let padded := t_recovers t ++ repeat None (S n - length (t_recovers t)) in
  mkTracker (t_cfg t) (t_seeds t) (t_rec t) (t_registry t) (t_respTimeout t) (t_flows t)
    (t_flowsRefused t) (t_nackQueue t) (t_recoverFn t) (<[n := Some f]> padded) (t_nackSrc t) (t_log t).

Definition FlowCount (t : Tracker) : Z := Z.of_nat (size (t_flows t)).

Definition PendingGaps (t : Tracker) : Z :=
  map_fold (fun _ fs n => n + Z.of_nat (size (fs_pending fs))) 0 (t_flows t).

Definition Pending (t : Tracker) (hashKey : Z) (seqs : list Z) : bool :=
  match t_flows t !! hashKey with
  | None => false
  | Some fs => existsb (fun seq => is_set (fs_pending fs !! seq)) seqs
  end.

Section Seeds.

(** [net.SplitHostPort] (the host, or [None] on an error) and [net.ParseIP] (the
    16-byte form, or [None]). *)
Variable SplitHostPort : string -> option string.
Variable ParseIP : string -> option bytes.
(** [strings.EqualFold] and [strings.Trim(_, "[]")]. *)
Variable EqualFold : string -> string -> bool.
Variable TrimBrackets : string -> string.

Definition sameHost (a b : string) : bool :=
  match ParseIP (TrimBrackets a), ParseIP (TrimBrackets b) with
  | Some ia, Some ib => bool_decide (ia = ib)
  | _, _ => EqualFold (TrimBrackets a) (TrimBrackets b)
  end.

Definition is_self (selfAddr ep : string) : bool :=
  match SplitHostPort ep with Some host => sameHost host selfAddr | None => false end.

Definition demoteSelf (endpoints : list string) (selfAddr : string) : list string :=
  if bool_decide (selfAddr = ""%string) || (length endpoints <? 2)%nat then endpoints else
  filter (fun ep => is_self selfAddr ep = false) endpoints ++
  filter (fun ep => is_self selfAddr ep = true) endpoints.

Definition SetNACKSource (addr : string) (t : Tracker) : Tracker :=
  let reg := match t_seeds t with
             | [] => t_registry t
             | _ => Seed (t_registry t) (demoteSelf (t_seeds t) addr)
             end in
  mkTracker (t_cfg t) (t_seeds t) (t_rec t) reg (t_respTimeout t) (t_flows t)
    (t_flowsRefused t) (t_nackQueue t) (t_recoverFn t) (t_recovers t) addr (t_log t).

End Seeds.

(** [New]: [registry = None] is a nil registry argument. *)
Definition New (cfg : TrackerConfig) (retryEndpoints : list string) (rec : bool)
    (registry : option Registry) : Tracker :=
  let reg := match registry with Some r => r | None => NewRegistry end in
  let reg := match retryEndpoints with [] => reg | _ => Seed reg retryEndpoints end in
  let cfg := if BackoffBase cfg <=? 0
             then mkTrackerConfig (JitterMax cfg) defaultBackoffBase (BackoffMax cfg) (MaxRetries cfg)
                    (GapTTL cfg) (TailTTL cfg) (SeqResetThreshold cfg) (MaxFlows cfg)
                    (MaxForwardJump cfg) (TailProbe cfg) (TailProbeIdleFactor cfg)
                    (TailProbeMinIdle cfg) (TailProbeMaxMisses cfg)
             else cfg in
  mkTracker cfg retryEndpoints rec reg defaultRespTimeout ∅ 0 [] None [] "" [].
