(* ===== verification/TrackerInv.v ===== *)
(** * The gap tracker: runs, well-formedness and accounting

    The interleavings of the tracker's operations as a step relation, the
    invariant every reachable tracker satisfies, and the accounting of losses:
    per-flow lemmas that each operation settles the gaps it removes, composed
    over the flow table. *)

From S2P Require Import Prelude Wire Discovery Tracker.

(** ** What Go guarantees of a range loop *)

Record Env_ok (env : Env) : Prop := mkEnvOk {
  env_range : forall m, ev_range env m ≡ₚ map_to_list m;
  env_rangeF : forall m, ev_rangeF env m ≡ₚ map_to_list m
}.

(** ** Well-formed flows *)

Record gap_wf (hk seq : Z) (e : gapEntry) : Prop := mkGapWf {
  gw_hash : ge_hashKey e = hk;
  gw_seq : ge_seqNum e = seq;
  gw_retries : 0 <= ge_failRounds e <= ge_retries e;
  gw_idx : 0 <= ge_endpointIdx e
}.

(** A flow's gaps are filed under their own numbers, a speculative gap is the
    one the flow is probing (so a flow has at most one probe in flight), and
    the memory of abandoned gaps is bounded. *)
Record flow_wf (hk : Z) (fs : flowState) : Prop := mkFlowWf {
  fw_gaps : map_Forall (gap_wf hk) (fs_pending fs);
  fw_probe : map_Forall (fun seq e => ge_speculative e = true -> fs_probing fs = seq) (fs_pending fs);
  fw_abandoned : Z.of_nat (size (fs_abandoned fs)) <= abandonedMax;
  fw_last : is_u64 (fs_lastSeqNum fs);
  fw_misses : 0 <= fs_probeMisses fs
}.

Record tracker_wf (t : Tracker) : Prop := mkTrackerWf {
  tw_flows : map_Forall flow_wf (t_flows t);
  tw_queue : (length (t_nackQueue t) <= nackQueueCap)%nat;
  tw_cap : 0 < MaxFlows (t_cfg t) -> FlowCount t <= MaxFlows (t_cfg t)
}.

(** ** Balance of the recorder *)

Definition ev_value (ev : MEvent) : Z :=
  match ev with
  | GapDetected _ _ => 1
  | GapSuppressed _ _ | GapUnrecovered _ _ => -1
  | _ => 0
  end.

(** Gaps detected, less gaps booked as suppressed or as unrecovered. *)
Definition balance (evs : list MEvent) : Z := fold_right (fun ev n => ev_value ev + n) 0 evs.

Arguments balance : simpl never.

Definition is_real (e : gapEntry) : bool := negb (ge_speculative e).

(** The pending gaps of a flow that are observed losses, not probes. *)
Definition real_gaps (fs : flowState) : nat := map_count is_real (fs_pending fs).

Definition real_pending (t : Tracker) : nat := map_sum real_gaps (t_flows t).

(** The gaps still pending are among the detected gaps not yet booked. *)
Definition accounted (t : Tracker) : Prop := Z.of_nat (real_pending t) <= balance (t_log t).

(** One operation on a flow keeps it well-formed and settles what it removes. *)
Definition settles (rec : bool) (fs fs' : flowState) (evs : list MEvent) : Prop :=
  rec = true -> Z.of_nat (real_gaps fs') <= Z.of_nat (real_gaps fs) + balance evs.

(** The same with no gap dropped unbooked. *)
Definition settles_exactly (rec : bool) (fs fs' : flowState) (evs : list MEvent) : Prop :=
  rec = true -> Z.of_nat (real_gaps fs') = Z.of_nat (real_gaps fs) + balance evs.

Definition flow_good (rec : bool) (hk : Z) (fs fs' : flowState) (evs : list MEvent) : Prop :=
  (flow_wf hk fs -> flow_wf hk fs') /\ settles rec fs fs' evs.

Lemma balance_app evs1 evs2 : balance (evs1 ++ evs2) = balance evs1 + balance evs2.
Proof. unfold balance. induction evs1 as [|ev evs IH]; simpl; lia. Qed.

Lemma flow_good_refl rec hk fs : flow_good rec hk fs fs [].
Proof. split; [done|]. intros _. unfold balance; simpl. lia. Qed.

Lemma flow_good_trans rec hk fs1 fs2 fs3 ev1 ev2 :
  flow_good rec hk fs1 fs2 ev1 -> flow_good rec hk fs2 fs3 ev2 -> flow_good rec hk fs1 fs3 (ev1 ++ ev2).
Proof.
  intros [Hw1 Hs1] [Hw2 Hs2]. split; [auto|].
  intros Hr. rewrite balance_app. specialize (Hs1 Hr). specialize (Hs2 Hr). lia.
Qed.

(** An update that leaves the gaps, the probe and the position alone. *)
Lemma flow_good_same rec hk fs fs' evs :
  fs_pending fs' = fs_pending fs -> fs_probing fs' = fs_probing fs ->
  (size (fs_abandoned fs') <= size (fs_abandoned fs))%nat \/ Z.of_nat (size (fs_abandoned fs')) <= abandonedMax ->
  (is_u64 (fs_lastSeqNum fs) -> is_u64 (fs_lastSeqNum fs')) ->
  (0 <= fs_probeMisses fs -> 0 <= fs_probeMisses fs') -> (rec = true -> 0 <= balance evs) ->
  flow_good rec hk fs fs' evs.
Proof.
  intros Hp Hq Ha Hl Hm He. split.
  - intros [H1 H2 H3 H4 H5]. split; rewrite ?Hp, ?Hq; auto. lia.
  - intros Hr. specialize (He Hr). unfold real_gaps. rewrite Hp. lia.
Qed.

(** ** Operations on one flow *)

(** The flow without the gap [seq], its probe cleared if it was that gap. *)
Definition without_gap (seq : Z) (fs : flowState) : flowState :=
  let fs := set_pending (delete seq (fs_pending fs)) fs in
  if fs_probing fs =? seq then set_probe (fs_probeMisses fs) 0 fs else fs.

Lemma without_gap_wf hk seq fs : flow_wf hk fs -> flow_wf hk (without_gap seq fs).
Proof.
  intros [H1 H2 H3 H4 H5]. unfold without_gap; cbn. case_test; split; cbn; try done; try by apply map_Forall_delete.
  all: intros k e [Hne Hk]%lookup_delete_Some Hs; specialize (H2 k e Hk Hs); cbn in *; lia.
Qed.

Lemma without_gap_real seq fs :
  real_gaps fs = ((match fs_pending fs !! seq with Some e => if is_real e then 1 else 0 | None => 0 end)
                  + real_gaps (without_gap seq fs))%nat.
Proof.
  assert (real_gaps (without_gap seq fs) = map_count is_real (delete seq (fs_pending fs))) as ->
    by (unfold without_gap; cbn; by case_test).
  unfold real_gaps. case_match eqn:E.
  - by apply map_count_delete.
  - by rewrite delete_id.
Qed.

Lemma without_gap_good rec hk seq fs : flow_good rec hk fs (without_gap seq fs) [].
Proof.
  split; [apply without_gap_wf|]. intros _. rewrite (without_gap_real seq fs). unfold balance; simpl. lia.
Qed.

(** Closing a pending gap: [bookFill] after its removal. *)
Lemma bookFill_good rec hk fs seq e :
  fs_pending fs !! seq = Some e -> flow_wf hk fs ->
  let '(fs', evs) := bookFill rec (set_pending (delete seq (fs_pending fs)) fs) e in
  flow_good rec hk fs fs' evs.
Proof.
  intros He Hwf. pose proof (fw_gaps _ _ Hwf seq e He) as [_ Hseq _ _].
  unfold bookFill. rewrite Hseq.
  change (if fs_probing (set_pending (delete seq (fs_pending fs)) fs) =? seq then _ else _)
    with (without_gap seq fs).
  pose proof (without_gap_real seq fs) as Hr. rewrite He in Hr.
  pose proof (without_gap_wf hk seq fs) as Hw. unfold is_real in Hr.
  destruct rec; cbn -[without_gap].
  - destruct (ge_speculative e); split; cbn -[without_gap] in *.
    + intros H%Hw. destruct H. split; cbn; auto; lia.
    + intros _. unfold real_gaps in *. unfold balance; cbn -[without_gap]. lia.
    + done.
    + intros _. unfold balance; simpl. lia.
  - split; [done|]. intros [=].
Qed.

Lemma abandoned_bound rec now fs seq src reason :
  let '(fs', evs) := bookAbandon rec now fs seq src reason in
  (size (fs_abandoned fs') <= size (fs_abandoned fs))%nat \/ Z.of_nat (size (fs_abandoned fs')) <= abandonedMax.
Proof.
  unfold bookAbandon. case_test; [right|left; done]. cbn.
  rewrite map_size_insert. bool_to_prop. case_match; unfold id; lia.
Qed.

Lemma delete_wf hk seq fs : flow_wf hk fs -> flow_wf hk (set_pending (delete seq (fs_pending fs)) fs).
Proof. intros [H1 H2 H3 H4 H5]. split; cbn; auto; by apply map_Forall_delete. Qed.

Lemma without_gap_pending seq fs : fs_pending (without_gap seq fs) = delete seq (fs_pending fs).
Proof. unfold without_gap; cbn. by case_test. Qed.

(** Giving up a pending real gap, already removed from [fs1]. *)
Lemma bookAbandon_good rec hk fs fs1 now seq e src reason :
  fs_pending fs !! seq = Some e -> ge_speculative e = false ->
  fs_pending fs1 = delete seq (fs_pending fs) -> (flow_wf hk fs -> flow_wf hk fs1) ->
  let '(fs', evs) := bookAbandon rec now fs1 seq src reason in
  flow_good rec hk fs fs' evs /\ settles_exactly rec fs fs' evs /\ fs_pending fs' = fs_pending fs1.
Proof.
  intros He Hs Hp1 Hw1. pose proof (abandoned_bound rec now fs1 seq src reason) as Ha.
  pose proof (map_count_delete is_real _ _ _ He) as Hr. unfold is_real at 2 in Hr. rewrite Hs in Hr.
  unfold bookAbandon in *.
  set (fs' := if _ <? abandonedMax then _ else fs1) in *.
  assert (fs_pending fs' = fs_pending fs1) as Hp by (unfold fs'; by case_test).
  assert (flow_good rec hk fs1 fs' []) as [Hw _].
  { apply flow_good_same; auto; try (unfold fs'; by case_test). done. }
  assert (settles_exactly rec fs fs' (record rec [GapUnrecovered (fs_flowType fs') src; GapAbandoned (fs_flowType fs') src reason])) as Hx.
  { intros ->. unfold real_gaps in *. rewrite Hp, Hp1. unfold balance; simpl in *. lia. }
  split; [split; [auto|]|done]. intros Ht. rewrite (Hx Ht). lia.
Qed.

Lemma noteLateFill_good rec hk fs seq :
  let '(fs', evs, _) := noteLateFill rec fs seq in flow_good rec hk fs fs' evs.
Proof.
  unfold noteLateFill. case_test; [|apply flow_good_refl].
  apply flow_good_same; cbn; auto.
  - left. rewrite map_size_delete. case_match; unfold id; lia.
  - intros ->. unfold balance; simpl. lia.
Qed.

Lemma noteLateFill_frame rec fs seq :
  let '(fs', evs, _) := noteLateFill rec fs seq in
  fs_pending fs' = fs_pending fs /\ fs_lastSeqNum fs' = fs_lastSeqNum fs /\
  fs_owner fs' = fs_owner fs /\ fs_ewmaIPG fs' = fs_ewmaIPG fs /\ fs_contiguous fs' = fs_contiguous fs.
Proof. unfold noteLateFill. by case_test. Qed.

Lemma bookFill_frame rec fs e :
  let '(fs', evs) := bookFill rec fs e in
  fs_pending fs' = fs_pending fs /\ fs_lastSeqNum fs' = fs_lastSeqNum fs /\
  fs_owner fs' = fs_owner fs /\ fs_ewmaIPG fs' = fs_ewmaIPG fs /\ fs_contiguous fs' = fs_contiguous fs.
Proof. unfold bookFill. destruct (fs_probing fs =? _), rec, (ge_speculative e); done. Qed.

(** Registering a gap that is not pending. *)
Lemma newGap_wf cfg now jit hk seq g sid src owner spec :
  gap_wf hk seq (newGap cfg now jit hk seq g sid src owner spec).
Proof. split; cbn; lia || done. Qed.

Lemma insert_real_wf hk fs seq e :
  gap_wf hk seq e -> ge_speculative e = false -> flow_wf hk fs ->
  flow_wf hk (set_pending (<[seq := e]> (fs_pending fs)) fs).
Proof.
  intros He Hs [H1 H2 H3 H4 H5]. split; cbn; auto; apply map_Forall_insert_2; congruence || done.
Qed.

Lemma register_gap_good cfg rec env hk g sid src overwrite acc m fs0 :
  (overwrite = true -> fs_pending (fst acc) !! m = None) ->
  flow_good rec hk fs0 (fst acc) (snd acc) ->
  let acc' := register_gap cfg rec env hk g sid src overwrite acc m in
  flow_good rec hk fs0 (fst acc') (snd acc').
Proof.
  destruct acc as [fs evs]; cbn. intros Ho H. unfold register_gap.
  assert ((if overwrite then None else fs_pending fs !! m) = fs_pending fs !! m) as ->
    by (destruct overwrite; [symmetry; auto|done]).
  case_match eqn:E; [done|]. cbn.
  eapply flow_good_trans; [exact H|]. split.
  - apply insert_real_wf; [apply newGap_wf|done].
  - intros ->. unfold real_gaps. cbn. rewrite map_count_insert_new by done.
    cbn. unfold balance; simpl. lia.
Qed.

Lemma register_gap_frame cfg rec env hk g sid src overwrite acc m :
  let acc' := register_gap cfg rec env hk g sid src overwrite acc m in
  (forall k, k <> m -> fs_pending (fst acc') !! k = fs_pending (fst acc) !! k) /\
  fs_lastSeqNum (fst acc') = fs_lastSeqNum (fst acc) /\ fs_owner (fst acc') = fs_owner (fst acc).
Proof.
  destruct acc as [fs evs]. unfold register_gap. cbn. case_match; cbn; repeat split; auto.
  intros k Hk. by rewrite lookup_insert_ne.
Qed.

(** The registering loop puts exactly the gaps of its range in [pending]; only
    the re-baseline loop replaces one that is there. *)
Lemma register_all_lookup cfg rec env hk g sid src overwrite l fs evs :
  let fs' := fst (fold_left (register_gap cfg rec env hk g sid src overwrite) l (fs, evs)) in
  fs_lastSeqNum fs' = fs_lastSeqNum fs /\ fs_owner fs' = fs_owner fs /\
  forall m, fs_pending fs' !! m =
    if bool_decide (m ∈ l) then
      match (if overwrite then None else fs_pending fs !! m) with
      | Some e => Some e
      | None => Some (newGap cfg (ev_now env) (ev_jitter env m) hk m g sid src (fs_owner fs) false)
      end
    else fs_pending fs !! m.
Proof.
  revert fs evs. induction l as [|a l IH]; intros fs evs; [done|]. cbn [fold_left].
  pose proof (register_gap_frame cfg rec env hk g sid src overwrite (fs, evs) a) as (Hf & Hl & Ho).
  assert (fs_pending (fst (register_gap cfg rec env hk g sid src overwrite (fs, evs) a)) !! a =
    match (if overwrite then None else fs_pending fs !! a) with
    | Some e => Some e
    | None => Some (newGap cfg (ev_now env) (ev_jitter env a) hk a g sid src (fs_owner fs) false)
    end) as Ha.
  { unfold register_gap. destruct (if overwrite then None else _) eqn:E; cbn.
    - by destruct overwrite.
    - apply lookup_insert_eq. }
  destruct (register_gap _ _ _ _ _ _ _ _ _ _) as [fs1 evs1]; cbn in *.
  destruct (IH fs1 evs1) as (IHl & IHo & IHm). rewrite IHl, IHo. repeat split; [done..|].
  intros m. rewrite IHm, Ho. destruct (decide (m = a)) as [->|Hne].
  - rewrite Ha, (bool_decide_true (a ∈ a :: l)) by left.
    destruct overwrite; [by case_bool_decide|]. destruct (fs_pending fs !! a); by case_bool_decide.
  - rewrite Hf by done. rewrite (bool_decide_ext (m ∈ a :: l) (m ∈ l)); [done|].
    rewrite elem_of_cons. split; [by intros [->|]|by right].
Qed.

Lemma seq_range_NoDup lo hi : NoDup (seq_range lo hi).
Proof. apply NoDup_seqZ. Qed.

(** The loop of a gap, and the loop of a re-baseline from no pending gap. *)
Lemma register_all_good cfg rec env hk g sid src overwrite l fs0 fs evs :
  (overwrite = true -> fs_pending fs = ∅) -> NoDup l -> flow_good rec hk fs0 fs evs ->
  let acc' := fold_left (register_gap cfg rec env hk g sid src overwrite) l (fs, evs) in
  flow_good rec hk fs0 (fst acc') (snd acc').
Proof.
  intros Ho Hnd Hg.
  pose proof (fold_left_rest (register_gap cfg rec env hk g sid src overwrite)
    (fun acc rest => NoDup rest /\ flow_good rec hk fs0 (fst acc) (snd acc) /\
       (overwrite = true -> forall m, m ∈ rest -> fs_pending (fst acc) !! m = None)) l (fs, evs)) as H.
  apply H; clear H.
  - split; [done|]. split; [done|]. intros Ht m _. cbn. by rewrite Ho, lookup_empty.
  - intros acc m rest ([Hm Hnd']%NoDup_cons & Hacc & Hnew). split; [done|]. split.
    + apply register_gap_good; [|done]. intros Ht. apply Hnew; [done|left].
    + intros Ht k Hk.
      pose proof (register_gap_frame cfg rec env hk g sid src overwrite acc m) as (Hf & _).
      rewrite Hf by set_solver. apply Hnew; [done|by right].
Qed.

(** What the restart loop leaves: the same flow with more abandoned gaps, and one
    loss booked for each real gap. *)
Lemma restart_all rec book l fs evs :
  let acc' := fold_left (restart_one rec book) l (fs, evs) in
  fs_pending (fst acc') = fs_pending fs /\ fs_probing (fst acc') = fs_probing fs /\
  fs_lastSeqNum (fst acc') = fs_lastSeqNum fs /\ fs_probeMisses (fst acc') = fs_probeMisses fs /\
  ((size (fs_abandoned (fst acc')) <= size (fs_abandoned fs))%nat \/
   Z.of_nat (size (fs_abandoned (fst acc'))) <= abandonedMax) /\
  (rec = true -> balance (snd acc') = balance evs - Z.of_nat (count (fun p => is_real p.2) l)).
Proof.
  revert fs evs. induction l as [|[seq e] l IH]; intros fs evs.
  { unfold count; cbn. repeat split; auto. intros _; lia. }
  cbn [fold_left]. rewrite count_cons. unfold restart_one at 2 4 6 8 10 12 14, is_real; cbn [snd].
  destruct (ge_speculative e); cbn [negb]; [apply IH|].
  pose proof (abandoned_bound rec (book seq) fs seq (fs_source fs) "restart") as Ha.
  unfold bookAbandon in *. set (fs' := if _ <? abandonedMax then _ else fs) in *.
  assert (fs_pending fs' = fs_pending fs /\ fs_probing fs' = fs_probing fs /\
          fs_lastSeqNum fs' = fs_lastSeqNum fs /\ fs_probeMisses fs' = fs_probeMisses fs)
    as (Hp & Hq & Hl & Hm) by (unfold fs'; by case_test).
  match goal with |- context [fold_left _ l (fs', ?ev)] => destruct (IH fs' ev) as (H1 & H2 & H3 & H4 & H5 & H6) end.
  rewrite H1, H2, H3, H4. repeat split; auto; [lia|].
  intros Hr. rewrite (H6 Hr), balance_app, Hr. unfold is_real, balance; simpl. lia.
Qed.

Lemma set_last_good rec hk fs seq : is_u64 seq -> flow_good rec hk fs (set_lastSeqNum seq fs) [].
Proof. intros Hs. by apply flow_good_same; auto. Qed.

Lemma set_rate_good rec hk fs a b c : flow_good rec hk fs (set_rate a b c fs) [].
Proof. by apply flow_good_same; auto. Qed.

Lemma clear_wf hk fs : flow_wf hk fs -> flow_wf hk (set_pending ∅ fs).
Proof. intros [H1 H2 H3 H4 H5]. split; cbn; auto; apply map_Forall_empty. Qed.

Lemma clear_good rec hk fs : flow_good rec hk fs (set_pending ∅ fs) [].
Proof. split; [apply clear_wf|]. intros _. unfold real_gaps, balance; cbn. rewrite map_count_empty. lia. Qed.

(** The restart: every real gap is booked, then all are dropped. *)
Lemma restart_good rec hk env fs seq :
  Env_ok env -> is_u64 seq ->
  let acc := fold_left (restart_one rec (ev_book env hk)) (ev_range env (fs_pending fs)) (fs, []) in
  flow_good rec hk fs (set_lastSeqNum seq (set_pending ∅ (fst acc))) (snd acc).
Proof.
  intros He Hs. cbn zeta.
  pose proof (restart_all rec (ev_book env hk) (ev_range env (fs_pending fs)) fs []) as H.
  destruct (fold_left _ _ _) as [fs' evs]; cbn in H |- *. destruct H as (H1 & H2 & H3 & H4 & H5 & H6).
  split.
  - intros [W1 W2 W3 W4 W5]. split; cbn; auto; [apply map_Forall_empty..|lia|lia].
  - intros Hr. rewrite (H6 Hr), (map_count_list is_real _ _ (env_range _ He _)).
    unfold real_gaps, balance; cbn. rewrite map_count_empty. lia.
Qed.

Lemma observe_advance_good cfg rec env elapsed g sid hk seq src fs :
  Env_ok env -> is_u64 seq ->
  let '(fs', evs) := observe_advance cfg rec env elapsed g sid hk seq src fs in
  flow_good rec hk fs fs' evs.
Proof.
  intros He Hs. unfold observe_advance. case_test; [by apply set_last_good|]. case_test.
  { case_test; [|apply flow_good_refl]. pose proof (restart_good rec hk env fs seq He Hs) as H.
    cbn zeta in H. by destruct (fold_left _ _ _). }
  case_test; [by apply flow_good_same; auto|].
  set (maxJump := if MaxForwardJump cfg =? 0 then 4096 else _).
  destruct (implausible_jump _ _ _ _).
  - assert (forall fs1 evs1, flow_good rec hk (set_pending ∅ fs) fs1 evs1 ->
      flow_good rec hk fs (set_rate 0 0 0 (set_lastSeqNum seq fs1))
        (evs1 ++ record rec [SeqRebaselined (fs_flowType fs1) (fs_source fs1)])) as Hend.
    { intros fs1 evs1 H1. rewrite <- (app_nil_l (evs1 ++ _)).
      eapply flow_good_trans; [apply clear_good|]. eapply flow_good_trans; [exact H1|].
      apply flow_good_same; auto. by intros ->. }
    case_test; [|apply (Hend _ []), flow_good_refl].
    match goal with |- context [fold_left ?f ?l ?a] =>
      pose proof (register_all_good cfg rec env hk g sid src true l (set_pending ∅ fs) (set_pending ∅ fs) []) as H
    end.
    cbn zeta in H. destruct (fold_left _ _ _) as [fs1 evs1]; cbn in H.
    apply Hend, H; [done|apply seq_range_NoDup|apply flow_good_refl].
  - pose proof (register_all_good cfg rec env hk g sid src false
      (seq_range (u64 (fs_lastSeqNum fs + 1)) seq) fs fs []) as H.
    cbn zeta in H. destruct (fold_left _ _ _) as [fs1 evs1]; cbn in H.
    rewrite <- (app_nil_r evs1).
    eapply flow_good_trans; [apply H; [done|apply seq_range_NoDup|apply flow_good_refl]|].
    by apply flow_good_same; auto.
Qed.

Lemma set_owner_good rec hk fs owner :
  flow_good rec hk fs (if owner =? ownerUnknown then fs else set_owner owner fs) [].
Proof. case_test; by apply flow_good_same; auto. Qed.

Lemma observe_flow_good cfg rec env owner g sid hk seq src fs :
  Env_ok env -> is_u64 seq -> flow_wf hk fs ->
  let '(fs', evs) := observe_flow cfg rec env owner g sid hk seq src fs in
  flow_good rec hk fs fs' evs.
Proof.
  intros He Hs Hwf. unfold observe_flow.
  set (fs1 := if owner =? ownerUnknown then fs else _).
  set (fs2 := set_probe 0 _ _).
  assert (flow_good rec hk fs fs2 []) as H2.
  { eapply (flow_good_trans _ _ _ fs1 _ [] []); [apply set_owner_good|]. by apply flow_good_same; auto. }
  pose proof (noteLateFill_good rec hk fs2 seq) as H3.
  destruct (noteLateFill rec fs2 seq) as [[fs3 ev1] ?].
  pose proof (flow_good_trans _ _ _ _ _ _ _ H2 H3) as H13. cbn [app] in H13.
  destruct (fs_pending fs3 !! seq) as [e|] eqn:Hp.
  - pose proof (bookFill_good rec hk fs3 seq e Hp (proj1 H13 Hwf)) as H4.
    destruct (bookFill _ _ _) as [fs4 ev2].
    pose proof (flow_good_trans _ _ _ _ _ _ _ H13 H4) as H14.
    case_test; [done|].
    pose proof (observe_advance_good cfg rec env (time_sub (ev_now env) (fs_lastSeen fs1)) g sid hk seq src fs4 He Hs) as H5.
    destruct (observe_advance _ _ _ _ _ _ _ _ _ _) as [fs5 ev3].
    rewrite (app_assoc ev1). by eapply flow_good_trans.
  - pose proof (observe_advance_good cfg rec env (time_sub (ev_now env) (fs_lastSeen fs1)) g sid hk seq src fs3 He Hs) as H5.
    destruct (observe_advance _ _ _ _ _ _ _ _ _ _) as [fs5 ev3]. by eapply flow_good_trans.
Qed.

Lemma newFlow_wf hk g sid seen : flow_wf hk (newFlow g sid seen).
Proof.
  split; cbn [newFlow fs_pending]; [intros ? ? H; by apply lookup_empty_Some in H..|done|done|done].
Qed.

Lemma newFlow_real g sid seen : real_gaps (newFlow g sid seen) = 0%nat.
Proof. apply map_count_empty. Qed.

Lemma request_all_good cfg rec env hk g sid seqs fs0 fs :
  flow_good rec hk fs0 fs [] ->
  let '(fs', queued, evs) :=
    fold_left (request_one cfg rec env hk g sid) seqs (fs, [], []) in
  flow_good rec hk fs0 fs' evs.
Proof.
  intros H0.
  apply (fold_left_inv (request_one cfg rec env hk g sid)
    (fun acc => let '(fs', queued, evs) := acc in flow_good rec hk fs0 fs' evs)); [done|].
  intros [[fs' queued] evs] seq _ H. unfold request_one. destruct (fs_pending fs' !! seq) eqn:E; [done|].
  eapply flow_good_trans; [exact H|]. split.
  - apply insert_real_wf; [apply newGap_wf|done].
  - intros ->. unfold real_gaps. cbn. rewrite map_count_insert_new by done.
    cbn. unfold balance; simpl. lia.
Qed.

(** ** The sweep of one flow *)

(** A gap survives the sweep when it is neither expired nor out of rounds. *)
Definition sweep_keeps (cfg : TrackerConfig) (now : Z) (e : gapEntry) : bool :=
  negb (after now (ge_deadline e)) && negb (MaxRetries cfg <=? ge_failRounds e).

(** What the sweep makes of one gap: gone, or the same with its next attempt. *)
Definition swept (cfg : TrackerConfig) (now : Z) (o o' : option gapEntry) : Prop :=
  match o with
  | Some e => if sweep_keeps cfg now e then exists next, o' = Some (set_nextAttempt next e) else o' = None
  | None => o' = None
  end.

Lemma evict_gap_good rec hk book fs seq e reason :
  fs_pending fs !! seq = Some e ->
  let '(fs', evs) := evict_gap rec book fs seq e reason in
  flow_good rec hk fs fs' evs /\ settles_exactly rec fs fs' evs /\
  fs_pending fs' = delete seq (fs_pending fs).
Proof.
  intros He. unfold evict_gap. destruct (ge_speculative e) eqn:Hs.
  - unfold retireProbe. change (if _ =? seq then _ else _) with (without_gap seq fs). split; [|split].
    + eapply (flow_good_trans _ _ _ _ _ [] []); [apply without_gap_good|].
      apply flow_good_same; auto; cbn; [lia|done].
    + intros _. unfold real_gaps, balance; cbn [set_probe fs_pending fold_right].
      rewrite without_gap_pending, (map_count_delete is_real _ _ _ He). unfold is_real at 2. rewrite Hs. cbn. lia.
    + apply without_gap_pending.
  - pose proof (bookAbandon_good rec hk fs (set_pending (delete seq (fs_pending fs)) fs) (book seq)
                  seq e (ge_source e) reason He Hs eq_refl (delete_wf hk seq fs)) as H.
    by destruct (bookAbandon _ _ _ _ _ _).
Qed.

Lemma set_next_wf hk seq next e : gap_wf hk seq e -> gap_wf hk seq (set_nextAttempt next e).
Proof. intros [H1 H2 H3 H4]. by split. Qed.

(** Rewriting a pending gap without touching its probe flag. *)
Lemma update_gap_good rec hk fs seq e e' evs :
  fs_pending fs !! seq = Some e -> ge_speculative e' = ge_speculative e ->
  (gap_wf hk seq e -> gap_wf hk seq e') -> (rec = true -> balance evs = 0) ->
  flow_good rec hk fs (set_pending (<[seq := e']> (fs_pending fs)) fs) evs.
Proof.
  intros He Hs Hw Hb. split.
  - intros [H1 H2 H3 H4 H5]. split; cbn; auto; apply map_Forall_insert_2; auto.
    rewrite Hs. apply (H2 _ _ He).
  - intros Hr. rewrite (Hb Hr). unfold real_gaps; cbn.
    rewrite (map_count_insert_same is_real _ _ e); [lia|done|]. unfold is_real. by rewrite Hs.
Qed.

Lemma length_enqueue q e q' :
  enqueue q e = Some q' -> (length q <= nackQueueCap)%nat -> (length q' <= nackQueueCap)%nat.
Proof. unfold enqueue. case_test; [|done]. intros [= <-] _. rewrite length_app. apply Nat.ltb_lt in Heqb. simpl. lia. Qed.

Lemma sweep_gap_good t hk now book fs q evs seq e :
  fs_pending fs !! seq = Some e ->
  let '(fs', q', evs') := sweep_gap t now book (fs, q, evs) (seq, e) in
  exists ev, evs' = evs ++ ev /\ (flow_good (t_rec t) hk fs fs' ev /\ settles_exactly (t_rec t) fs fs' ev) /\
  swept (t_cfg t) now (Some e) (fs_pending fs' !! seq) /\
  (forall k, k <> seq -> fs_pending fs' !! k = fs_pending fs !! k) /\
  ((length q <= nackQueueCap)%nat -> (length q' <= nackQueueCap)%nat).
Proof.
  intros He. unfold sweep_gap, swept, sweep_keeps.
  assert (forall reason, let '(fs', ev) := evict_gap (t_rec t) book fs seq e reason in
    (flow_good (t_rec t) hk fs fs' ev /\ settles_exactly (t_rec t) fs fs' ev) /\ fs_pending fs' !! seq = None /\
    (forall k, k <> seq -> fs_pending fs' !! k = fs_pending fs !! k)) as Hev.
  { intros reason. pose proof (evict_gap_good (t_rec t) hk book fs seq e reason He) as H.
    destruct (evict_gap _ _ _ _ _ _) as [fs' ev]. destruct H as (H & Hx & ->).
    split; [done|]. split; [apply lookup_delete_eq|]. intros k Hk. by apply lookup_delete_ne. }
  assert (forall next, let fs' := set_pending (<[seq := set_nextAttempt next e]> (fs_pending fs)) fs in
    (flow_good (t_rec t) hk fs fs' [] /\ settles_exactly (t_rec t) fs fs' []) /\ (exists next, fs_pending fs' !! seq = Some (set_nextAttempt next e)) /\
    (forall k, k <> seq -> fs_pending fs' !! k = fs_pending fs !! k)) as Hup.
  { intros next fs'. split; [|split].
    - split; [apply (update_gap_good _ _ _ _ e); auto using set_next_wf|].
      intros _. unfold real_gaps; cbn. rewrite (map_count_insert_same is_real _ _ e); [|done..].
      unfold balance; simpl. lia.
    - exists next. apply lookup_insert_eq.
    - intros k Hk. by apply lookup_insert_ne. }
  destruct (after now (ge_deadline e)); cbn [negb andb].
  { specialize (Hev "ttl"). destruct (evict_gap _ _ _ _ _ _). destruct Hev as (? & ? & ?). eauto 10. }
  destruct (MaxRetries (t_cfg t) <=? ge_failRounds e); cbn [negb].
  { specialize (Hev "retries"). destruct (evict_gap _ _ _ _ _ _). destruct Hev as (? & ? & ?). eauto 10. }
  destruct (after now (ge_nextAttempt e)).
  - destruct (enqueue q _) eqn:Eq.
    + destruct (Hup (time_add now (t_respTimeout t + 100 * ns_per_ms))) as (? & ? & ?).
      exists []. rewrite app_nil_r. eauto 10 using length_enqueue.
    + destruct (Hup now) as (? & ? & ?). exists []. rewrite app_nil_r. eauto 10.
  - exists []. rewrite app_nil_r, He. split; [done|]. split; [split; [apply flow_good_refl|]; intros _; unfold balance; simpl; lia|].
    split; [|auto]. exists (ge_nextAttempt e). by destruct e.
Qed.

(** The loop over the pending gaps, in any order Go visits them. *)
Lemma sweep_gaps_good t hk now book l fs q :
  l ≡ₚ map_to_list (fs_pending fs) ->
  let '(fs', q', evs) := fold_left (sweep_gap t now book) l (fs, q, []) in
  (flow_good (t_rec t) hk fs fs' evs /\ settles_exactly (t_rec t) fs fs' evs) /\
  (forall k, swept (t_cfg t) now (fs_pending fs !! k) (fs_pending fs' !! k)) /\
  ((length q <= nackQueueCap)%nat -> (length q' <= nackQueueCap)%nat).
Proof.
  intros Hl.
  pose (I := fun (acc : flowState * list gapEntry * list MEvent) (rest : list (Z * gapEntry)) =>
    let '(fs', q', evs) := acc in
    NoDup rest.*1 /\
    (forall k e, (k, e) ∈ rest -> fs_pending fs !! k = Some e /\ fs_pending fs' !! k = Some e) /\
    (forall k, k ∉ rest.*1 -> swept (t_cfg t) now (fs_pending fs !! k) (fs_pending fs' !! k)) /\
    (flow_good (t_rec t) hk fs fs' evs /\ settles_exactly (t_rec t) fs fs' evs) /\
    ((length q <= nackQueueCap)%nat -> (length q' <= nackQueueCap)%nat)).
  assert (I (fs, q, []) l) as H0.
  { unfold I. split; [rewrite Hl; apply NoDup_fst_map_to_list|].
    split; [intros k e He; rewrite Hl in He; by apply elem_of_map_to_list in He|].
    split; [|split; [split; [apply flow_good_refl|]; intros _; unfold balance; simpl; lia|done]].
    intros k Hk. destruct (fs_pending fs !! k) as [e|] eqn:E; [|done].
    destruct Hk. rewrite Hl. apply list_elem_of_fmap. exists (k, e). by rewrite elem_of_map_to_list. }
  pose proof (fold_left_rest (sweep_gap t now book) I l (fs, q, []) H0) as H.
  destruct (fold_left _ _ _) as [[fs' q'] evs].
  destruct H as (_ & _ & H1 & H2 & H3).
  { clear. intros [[fs1 q1] ev1] [k e] rest (Hnd & Hin & Hout & Hg & Hq).
    cbn [fmap list_fmap fst] in Hnd. apply NoDup_cons in Hnd as [Hk Hnd].
    destruct (Hin k e ltac:(left)) as [Hk0 Hk1].
    pose proof (sweep_gap_good t hk now book fs1 q1 ev1 k e Hk1) as H.
    destruct (sweep_gap _ _ _ _ _) as [[fs2 q2] ev2]. destruct H as (ev & -> & Hg2 & Hsw & Hfr & Hq2).
    split; [done|]. split; [|split; [|split]].
    - intros k' e' He'. destruct (Hin k' e' ltac:(by right)) as [? ?].
      rewrite Hfr; [done|]. intros ->. apply Hk. apply list_elem_of_fmap. by exists (k, e').
    - intros k' Hk'. destruct (decide (k' = k)) as [->|Hne].
      + by rewrite Hk0.
      + rewrite Hfr by done. apply Hout. cbn [fmap list_fmap fst]. by apply not_elem_of_cons.
    - destruct Hg as [Hg Hx], Hg2 as [Hg2 Hx2]. split; [by eapply flow_good_trans|].
      intros Hr. rewrite (Hx2 Hr), (Hx Hr), balance_app. lia.
    - auto. }
  split; [done|]. split; [|done]. intros k. apply H1. cbn. set_solver.
Qed.

Lemma purge_good rec hk now fs : flow_good rec hk fs (purge_abandoned now fs) [].
Proof.
  apply flow_good_same; auto; [|done]. left. cbn. apply map_subseteq_size, map_filter_subseteq.
Qed.

Lemma probe_wf hk fs seq e :
  fs_pending fs = ∅ -> gap_wf hk seq e -> flow_wf hk fs ->
  flow_wf hk (set_pending (<[seq := e]> (fs_pending fs)) (set_probe (fs_probeMisses fs) seq fs)).
Proof.
  intros Hp He [H1 H2 H3 H4 H5].
  split; cbn; auto; rewrite Hp, insert_empty; by apply map_Forall_singleton.
Qed.

Lemma maybeProbeTail_good t now hk fs q :
  fs_pending fs = ∅ ->
  let '(fs', q', evs) := maybeProbeTail t now hk fs q in
  flow_good (t_rec t) hk fs fs' evs /\
  ((length q <= nackQueueCap)%nat -> (length q' <= nackQueueCap)%nat).
Proof.
  intros Hp. unfold maybeProbeTail.
  do 4 (case_test; [split; [apply flow_good_refl|done]|]).
  assert (forall evs, t_rec t = true -> balance (record (t_rec t) evs) = balance evs) as Hrec by by intros ? ->.
  destruct (enqueue q _) eqn:Eq.
  - split; [split|eauto using length_enqueue].
    + apply probe_wf; [done|apply newGap_wf].
    + intros Hr. rewrite Hrec by done. unfold real_gaps, balance; cbn.
      pose proof (map_count_insert_le is_real (fs_pending fs) (u64 (fs_lastSeqNum fs + 1))) as H.
      match goal with |- context [<[_ := ?e]> _] => specialize (H e) end. cbn in H. lia.
  - split; [split|done].
    + intros [H1 H2 H3 H4 H5].
      split; cbn; auto; rewrite Hp, delete_empty; apply map_Forall_empty.
    + intros Hr. rewrite Hrec by done. unfold real_gaps, balance; cbn.
      pose proof (map_count_delete_le is_real (fs_pending fs) (u64 (fs_lastSeqNum fs + 1))). lia.
Qed.

(** A flow that disappears leaves no real gap behind. *)
Definition real_opt (o : option flowState) : nat := match o with Some fs => real_gaps fs | None => 0 end.

Lemma sweep_flow_good t env hk fs q :
  Env_ok env -> flow_wf hk fs ->
  let '(r, q', evs) := sweep_flow t env hk fs q in
  (forall fs', r = Some fs' -> flow_wf hk fs') /\
  (t_rec t = true -> Z.of_nat (real_opt r) <= Z.of_nat (real_gaps fs) + balance evs) /\
  ((length q <= nackQueueCap)%nat -> (length q' <= nackQueueCap)%nat).
Proof.
  intros He Hwf. unfold sweep_flow.
  pose proof (purge_good (t_rec t) hk (ev_now env) fs) as H1.
  set (fs1 := purge_abandoned (ev_now env) fs) in *.
  pose proof (sweep_gaps_good t hk (ev_now env) (ev_book env hk) (ev_range env (fs_pending fs1)) fs1 q
                (env_range _ He _)) as H2.
  destruct (fold_left _ _ _) as [[fs2 q2] ev1]. destruct H2 as ([H2 _] & _ & Hq2).
  pose proof (flow_good_trans _ _ _ _ _ _ _ H1 H2) as H12. cbn [app] in H12.
  assert (let '(fs3, q3, ev2) := if decide (fs_pending fs2 = ∅)
            then maybeProbeTail t (ev_now env) hk fs2 q2 else (fs2, q2, []) in
          flow_good (t_rec t) hk fs2 fs3 ev2 /\
          ((length q2 <= nackQueueCap)%nat -> (length q3 <= nackQueueCap)%nat)) as H3.
  { case_decide; [by apply maybeProbeTail_good|]. split; [apply flow_good_refl|done]. }
  destruct (if decide (fs_pending fs2 = ∅) then _ else _) as [[fs3 q3] ev2]. destruct H3 as [H3 Hq3].
  destruct (flow_good_trans _ _ _ _ _ _ _ H12 H3) as [Hw Hs].
  split; [|split]; [| |auto].
  - intros fs'. case_test; [done|]. intros [= <-]. auto.
  - intros Hr. specialize (Hs Hr). case_test; cbn; lia.
Qed.

(** ** The tracker *)

Definition tracker_good (t t' : Tracker) : Prop :=
  t_rec t' = t_rec t /\
  (tracker_wf t -> tracker_wf t' /\ (t_rec t = true -> accounted t -> accounted t')).

Lemma tracker_good_refl t : tracker_good t t.
Proof. by split; auto. Qed.

(** An operation on one flow, tracked already or new below the cap. *)
Lemma put_good t hk fs fs' q evs :
  (t_flows t !! hk = Some fs \/
   t_flows t !! hk = None /\ at_cap t = false /\ flow_wf hk fs /\ real_gaps fs = 0%nat) ->
  (flow_wf hk fs -> flow_good (t_rec t) hk fs fs' evs) ->
  ((length (t_nackQueue t) <= nackQueueCap)%nat -> (length q <= nackQueueCap)%nat) ->
  tracker_good t (with_flows (<[hk := fs']> (t_flows t)) q evs t).
Proof.
  intros Hfs Hg Hq. split; [done|]. intros [W1 W2 W3].
  assert (flow_wf hk fs) as Hwf by (destruct Hfs as [H|(_ & _ & ? & _)]; [by apply (W1 hk fs H)|done]).
  destruct (Hg Hwf) as [Hw Hs]. split.
  - split; cbn; auto.
    + apply map_Forall_insert_2; auto.
    + unfold FlowCount in *; cbn. rewrite map_size_insert. intros Hc. specialize (W3 Hc).
      destruct Hfs as [->|(-> & Hcap & _)]; unfold id; [done|]. unfold at_cap in Hcap. split_bool; lia.
  - intros Hr. unfold accounted, real_pending; cbn. rewrite balance_app. specialize (Hs Hr).
    destruct Hfs as [H|(H & _ & _ & H0)].
    + pose proof (map_sum_insert real_gaps (t_flows t) hk fs fs' H). lia.
    + rewrite map_sum_insert_new by done. lia.
Qed.

Lemma length_enqueue_all es q :
  (length q <= nackQueueCap)%nat -> (length (enqueue_all q es) <= nackQueueCap)%nat.
Proof.
  revert q. induction es as [|e es IH]; intros q Hq; simpl; [done|].
  destruct (enqueue q e) eqn:E; eauto using length_enqueue.
Qed.

Lemma ObserveFrom_good env owner g sid hk seq txid src t :
  Env_ok env -> is_u64 seq -> tracker_good t (ObserveFrom env owner g sid hk seq txid src t).
Proof.
  intros He Hs. unfold ObserveFrom. case_test; [apply tracker_good_refl|].
  assert (forall fs,
    (t_flows t !! hk = Some fs \/
     t_flows t !! hk = None /\ at_cap t = false /\ flow_wf hk fs /\ real_gaps fs = 0%nat) ->
    tracker_good t (let '(fs, evs) := observe_flow (t_cfg t) (t_rec t) env owner g sid hk seq src fs in
      with_flows (<[hk := fs]> (t_flows t)) (t_nackQueue t) evs t)) as H.
  { intros fs Hfs.
    pose proof (observe_flow_good (t_cfg t) (t_rec t) env owner g sid hk seq src fs He Hs) as Hg.
    destruct (observe_flow _ _ _ _ _ _ _ _ _ _) as [fs' evs]. by eapply put_good. }
  destruct (t_flows t !! hk) as [fs|] eqn:Hf; [apply H; auto|].
  destruct (at_cap t) eqn:Hc.
  - split; [done|]. intros [W1 W2 W3]. split; [by split|]. intros Hr.
    unfold accounted, real_pending; cbn. rewrite balance_app, Hr. unfold balance at 3; simpl. lia.
  - apply H. right. auto using newFlow_wf, newFlow_real.
Qed.

Lemma RequestGapsFrom_good env owner hk g sid seqs t :
  tracker_good t (RequestGapsFrom env owner hk g sid seqs t).
Proof.
  unfold RequestGapsFrom. destruct seqs as [|s seqs]; [apply tracker_good_refl|].
  set (l := s :: seqs). clearbody l.
  assert (forall fs,
    (t_flows t !! hk = Some fs \/
     t_flows t !! hk = None /\ at_cap t = false /\ flow_wf hk fs /\ real_gaps fs = 0%nat) ->
    tracker_good t (let '(fs, queued, evs) :=
        fold_left (request_one (t_cfg t) (t_rec t) env hk g sid) l
          (if owner =? ownerUnknown then fs else set_owner owner fs, [], []) in
      with_flows (<[hk := fs]> (t_flows t)) (enqueue_all (t_nackQueue t) queued) evs t)) as H.
  { intros fs Hfs.
    pose proof (request_all_good (t_cfg t) (t_rec t) env hk g sid l fs _
                  (set_owner_good (t_rec t) hk fs owner)) as Hg.
    destruct (fold_left _ _ _) as [[fs' queued] evs].
    eapply put_good; [done|auto|apply length_enqueue_all]. }
  destruct (t_flows t !! hk) as [fs|] eqn:Hf; [apply H; auto|].
  destruct (at_cap t) eqn:Hc; [apply tracker_good_refl|].
  apply H. right. auto using newFlow_wf, newFlow_real.
Qed.

Lemma Fill_good hk seq t : tracker_good t (Fill hk seq t).
Proof.
  unfold Fill. case_test; [apply tracker_good_refl|].
  destruct (t_flows t !! hk) as [fs|] eqn:Hf; [|apply tracker_good_refl].
  destruct (fs_pending fs !! seq) as [e|] eqn:Hp.
  - pose proof (bookFill_good (t_rec t) hk fs seq e Hp) as Hg.
    destruct (bookFill _ _ _) as [fs' evs]. by eapply put_good; eauto.
  - pose proof (noteLateFill_good (t_rec t) hk fs seq) as Hg.
    destruct (noteLateFill _ _ _) as [[fs' evs] ?]. by eapply put_good; eauto.
Qed.

Lemma sweepOnce_good env t : Env_ok env -> tracker_good t (sweepOnce env t).
Proof.
  intros He.
  pose (I := fun (acc : gmap Z flowState * list gapEntry * list MEvent) (rest : list (Z * flowState)) =>
    let '(flows, q, evs) := acc in
    NoDup rest.*1 /\ (forall k fs, (k, fs) ∈ rest -> flows !! k = Some fs) /\
    map_Forall flow_wf flows /\ (length q <= nackQueueCap)%nat /\ (size flows <= size (t_flows t))%nat /\
    (t_rec t = true -> Z.of_nat (map_sum real_gaps flows) <= Z.of_nat (real_pending t) + balance evs)).
  assert (tracker_wf t -> I (t_flows t, t_nackQueue t, []) (ev_rangeF env (t_flows t))) as H0.
  { intros [W1 W2 W3]. unfold I. rewrite (env_rangeF _ He). split; [apply NoDup_fst_map_to_list|].
    split; [intros k fs Hk; rewrite (env_rangeF _ He) in Hk; by apply elem_of_map_to_list in Hk|].
    do 3 (split; [done|]). intros _. unfold real_pending, balance; simpl. lia. }
  assert (forall acc p rest, I acc (p :: rest) -> I (sweep_step t env acc p) rest) as Hstep.
  { clear H0. intros [[flows q] evs] [k fs] rest (Hnd & Hin & W & Hq & Hsz & Hb).
    cbn [fmap list_fmap fst] in Hnd. apply NoDup_cons in Hnd as [Hk Hnd].
    pose proof (Hin k fs ltac:(left)) as Hfs.
    pose proof (sweep_flow_good t env k fs q He (W k fs Hfs)) as H. cbn.
    destruct (sweep_flow t env k fs q) as [[r q'] ev]. destruct H as (Hw & Hs & Hq').
    assert (forall k' fs', (k', fs') ∈ rest -> k' <> k) as Hne.
    { intros k' fs' Hr ->. apply Hk. apply list_elem_of_fmap. by exists (k, fs'). }
    assert (forall flows' : gmap Z flowState, (forall k', k' <> k -> flows' !! k' = flows !! k') ->
      forall k' f, (k', f) ∈ rest -> flows' !! k' = Some f) as Hfr.
    { intros flows' Heq k' f Hr. rewrite Heq by eauto. apply Hin. by right. }
    split; [done|]. rewrite balance_app. destruct r as [fs'|]; cbn in Hs.
    - pose proof (map_sum_insert real_gaps flows k fs fs' Hfs).
      split; [apply Hfr; intros; by apply lookup_insert_ne|].
      split; [apply map_Forall_insert_2; auto|]. rewrite map_size_insert, Hfs. unfold id.
      do 2 (split; [auto|]). intros Hr. specialize (Hs Hr); specialize (Hb Hr). lia.
    - pose proof (map_sum_delete real_gaps flows k fs Hfs).
      split; [apply Hfr; intros; by apply lookup_delete_ne|].
      split; [by apply map_Forall_delete|]. rewrite map_size_delete, Hfs.
      split; [auto|]. split; [lia|]. intros Hr. specialize (Hs Hr); specialize (Hb Hr). lia. }
  unfold sweepOnce.
  pose proof (fun W => fold_left_rest (sweep_step t env) I _ _ (H0 W) Hstep) as H.
  destruct (fold_left _ _ _) as [[flows q] evs]. split; [done|]. intros W.
  destruct (H W) as (_ & _ & H1 & H2 & H3 & H4). destruct W as [W1 W2 W3]. split.
  - split; cbn; auto. unfold FlowCount in *; cbn. intros Hc. specialize (W3 Hc). lia.
  - intros Hr. unfold accounted. cbn. rewrite balance_app. specialize (H4 Hr).
    change (real_pending (with_flows flows q evs t)) with (map_sum real_gaps flows). lia.
Qed.

(** ** Answers *)

(** The loss an answer books is one that is still pending: the copy that was
    dispatched is a probe, or the stored gap is real. *)
Definition answer_current (e : gapEntry) (o : Outcome) (t : Tracker) : Prop :=
  match o with
  | OAbandon _ =>
      ge_speculative e = true \/
      match t_flows t !! ge_hashKey e with
      | Some fs => exists pend, fs_pending fs !! ge_seqNum e = Some pend /\ ge_speculative pend = false
      | None => True
      end
  | _ => True
  end.

Lemma cancelGap_good e t : tracker_good t (cancelGap e t).
Proof.
  unfold cancelGap. destruct (t_flows t !! _) as [fs|] eqn:Hf; [|apply tracker_good_refl].
  destruct (fs_pending fs !! _) as [pend|] eqn:Hp; [|apply tracker_good_refl].
  pose proof (bookFill_good (t_rec t) (ge_hashKey e) fs _ pend Hp) as Hg.
  destruct (bookFill _ _ _) as [fs' evs]. by eapply put_good; eauto.
Qed.

Lemma probeMissed_good e t : tracker_good t (probeMissed e t).
Proof.
  unfold probeMissed. destruct (t_flows t !! _) as [fs|] eqn:Hf; [|apply tracker_good_refl].
  change (if _ =? ge_seqNum e then _ else _) with (without_gap (ge_seqNum e) fs).
  eapply put_good; [by left| |done]. intros _.
  eapply (flow_good_trans _ _ _ _ _ []); [apply without_gap_good|].
  apply flow_good_same; auto; cbn; [lia|]. by intros ->.
Qed.

Lemma abandonGap_wf now e reason t : tracker_wf t -> tracker_wf (abandonGap now e reason t).
Proof.
  intros W. unfold abandonGap. destruct (t_flows t !! _) as [fs|] eqn:Hf; [|done].
  change (if _ =? ge_seqNum e then _ else _) with (without_gap (ge_seqNum e) fs).
  destruct W as [W1 W2 W3].
  assert (forall fs' evs, flow_wf (ge_hashKey e) fs' -> tracker_wf (put_flow (ge_hashKey e) fs' evs t)) as H.
  { intros fs' evs Hw. split; cbn; auto.
    - by apply map_Forall_insert_2.
    - unfold FlowCount in *; cbn. rewrite map_size_insert, Hf. done. }
  pose proof (without_gap_wf _ (ge_seqNum e) _ (W1 _ _ Hf)) as Hw.
  case_test; [by apply H|].
  pose proof (abandoned_bound (t_rec t) now (without_gap (ge_seqNum e) fs) (ge_seqNum e)
    (fs_source (without_gap (ge_seqNum e) fs)) reason) as Ha.
  unfold bookAbandon in *. apply H. set (fs' := if _ <? abandonedMax then _ else _) in *.
  assert (flow_good true (ge_hashKey e) (without_gap (ge_seqNum e) fs) fs' []) as [Hg _]; [|auto].
  apply flow_good_same; auto; try (unfold fs'; by case_test). done.
Qed.

Lemma abandonGap_good now e reason t :
  answer_current e (OAbandon reason) t -> tracker_good t (abandonGap now e reason t).
Proof.
  intros Hc. unfold abandonGap. cbn in Hc.
  destruct (t_flows t !! _) as [fs|] eqn:Hf; [|apply tracker_good_refl].
  change (if _ =? ge_seqNum e then _ else _) with (without_gap (ge_seqNum e) fs).
  destruct (ge_speculative e) eqn:Hs.
  { eapply put_good; [by left| |done]. intros _. apply without_gap_good. }
  destruct Hc as [|(pend & Hp & Hr)]; [done|].
  pose proof (bookAbandon_good (t_rec t) (ge_hashKey e) fs (without_gap (ge_seqNum e) fs) now
    (ge_seqNum e) pend (fs_source (without_gap (ge_seqNum e) fs)) reason Hp Hr
    (without_gap_pending _ _) (without_gap_wf _ _ _)) as Hg.
  destruct (bookAbandon _ _ _ _ _ _) as [fs' evs].
  eapply put_good; [by left| |done]. intros _. apply Hg.
Qed.

(** An answer that only reschedules the stored gap. *)
Lemma reschedule_good e t fs entry entry' evs :
  t_flows t !! ge_hashKey e = Some fs -> fs_pending fs !! ge_seqNum e = Some entry ->
  ge_speculative entry' = ge_speculative entry ->
  (gap_wf (ge_hashKey e) (ge_seqNum e) entry -> gap_wf (ge_hashKey e) (ge_seqNum e) entry') ->
  (t_rec t = true -> balance evs = 0) ->
  tracker_good t (put_flow (ge_hashKey e) (set_pending (<[ge_seqNum e := entry']> (fs_pending fs)) fs) evs t).
Proof.
  intros Hf Hp Hs Hw Hb. eapply put_good; [by left| |done].
  intros _. by apply (update_gap_good _ _ _ _ entry).
Qed.

Lemma throttleGap_good now rnd e flags t : tracker_good t (throttleGap now rnd e flags t).
Proof.
  unfold throttleGap. destruct (t_flows t !! _) as [fs|] eqn:Hf; [|apply tracker_good_refl].
  destruct (fs_pending fs !! _) as [entry|] eqn:Hp; [|apply tracker_good_refl].
  eapply reschedule_good; [done..| |].
  - intros [H1 H2 H3 H4]. split; cbn; auto; lia.
  - by intros ->.
Qed.

Lemma advanceEndpoint_good now rnd e imm n t : tracker_good t (advanceEndpoint now rnd e imm n t).
Proof.
  unfold advanceEndpoint. destruct (t_flows t !! _) as [fs|] eqn:Hf; [|apply tracker_good_refl].
  destruct (fs_pending fs !! _) as [entry|] eqn:Hp; [|apply tracker_good_refl].
  eapply reschedule_good; [done..| | |done]; unfold advance_entry; case_test; cbn; auto;
    intros [H1 H2 H3 H4]; split; cbn; auto; lia.
Qed.
