(* ===== verification/TrackerProps.v ===== *)
(** * The gap tracker: theorems about its runs

    Reachable trackers are well-formed, their accounting never books a gap
    twice when answers are current, and what one observation, request, sweep or
    answer does to the flow it concerns. *)

From Corelib Require Import SpecFloat.
From S2P Require Import Prelude Wire Discovery Tracker TrackerInv.

(** ** Runs *)

(** One critical section of one goroutine.  [strict] restricts answers to those
    that find the gap they abandon still pending. *)
Inductive step (strict : bool) : Tracker -> Tracker -> Prop :=
| StObserve env owner g sid hk seq txid src t :
    Env_ok env -> is_u64 seq -> step strict t (ObserveFrom env owner g sid hk seq txid src t)
| StRequest env owner hk g sid seqs t :
    step strict t (RequestGapsFrom env owner hk g sid seqs t)
| StFill hk seq t : step strict t (Fill hk seq t)
| StSweep env t : Env_ok env -> step strict t (sweepOnce env t)
| StDispatch e t t' : dispatch t = Some (e, t') -> step strict t t'
| StAsk accept net snap e o evs fr reg t :
    sendNACK_decide accept net snap e t = Some (o, evs, fr) ->
    step strict t (with_registry reg (record (t_rec t) evs) t)
| StAnswer now rnd e o t :
    (strict = true -> answer_current e o t) -> step strict t (apply_outcome now rnd e o t)
| StRegistry reg t : step strict t (with_registry reg [] t)
| StSetRecover f t : step strict t (SetRecoverFunc f t)
| StRegister id f t : step strict t (RegisterRecover id f t)
| StSource split parse fold trim addr t : step strict t (SetNACKSource split parse fold trim addr t).

Definition reachable (strict : bool) (t : Tracker) : Prop :=
  exists cfg eps rec reg, rtc (step strict) (New cfg eps rec reg) t.

Lemma New_wf cfg eps rec reg : tracker_wf (New cfg eps rec reg).
Proof.
  split; cbn; [apply map_Forall_empty|lia|].
  unfold FlowCount; cbn [New t_flows]. rewrite map_size_empty. lia.
Qed.

Lemma same_flows_good t t' evs :
  t_flows t' = t_flows t -> t_cfg t' = t_cfg t -> t_rec t' = t_rec t ->
  (length (t_nackQueue t') <= length (t_nackQueue t))%nat ->
  t_log t' = t_log t ++ evs -> (t_rec t = true -> balance evs = 0) -> tracker_good t t'.
Proof.
  intros Hf Hc Hr Hq Hl Hb. split; [done|]. intros [W1 W2 W3]. split.
  - split; rewrite ?Hf; auto; [lia|]. unfold FlowCount in *. by rewrite Hf, Hc.
  - intros Ht. unfold accounted, real_pending. rewrite Hf, Hl, balance_app, (Hb Ht). lia.
Qed.

Lemma decide_balance accept net snap e o evs fr t :
  sendNACK_decide accept net snap e t = Some (o, evs, fr) -> balance evs = 0.
Proof.
  unfold sendNACK_decide. destruct (pick_endpoint _ _); [|done].
  do 3 (case_test; [by intros [= <- <- <-]|]). destruct (drain _ _ _ _ _ _). by intros [= <- <- <-].
Qed.

Lemma apply_outcome_good now rnd e o t :
  answer_current e o t -> tracker_good t (apply_outcome now rnd e o t).
Proof.
  destruct o; cbn [apply_outcome]; intros H; auto using advanceEndpoint_good, cancelGap_good,
    probeMissed_good, throttleGap_good, tracker_good_refl, abandonGap_good.
Qed.

Lemma step_good t t' : step true t t' -> tracker_good t t'.
Proof.
  destruct 1; auto using ObserveFrom_good, RequestGapsFrom_good, Fill_good, sweepOnce_good, apply_outcome_good.
  - unfold dispatch in *. destruct (t_nackQueue t) as [|e' q] eqn:E; simplify_eq.
    apply (same_flows_good _ _ []); cbn; rewrite ?E; cbn; auto.
  - apply (same_flows_good _ _ (record (t_rec t) evs)); cbn; auto.
    intros ->. by eapply decide_balance.
  - apply (same_flows_good _ _ []); cbn; auto.
  - apply (same_flows_good _ _ []); cbn; rewrite ?app_nil_r; auto.
  - unfold RegisterRecover. case_test; [apply tracker_good_refl|].
    apply (same_flows_good _ _ []); cbn; rewrite ?app_nil_r; auto.
  - apply (same_flows_good _ _ []); cbn; rewrite ?app_nil_r; auto.
Qed.

Lemma step_wf strict t t' : step strict t t' -> tracker_wf t -> tracker_wf t'.
Proof.
  intros Hs W. assert (step true t t' \/ exists now e r, t' = abandonGap now e r t) as [H|(now & e & r & ->)].
  { destruct Hs; try by left; econstructor; eauto.
    destruct o; try (left; by apply StAnswer). right. cbn. eauto. }
  - by apply (step_good _ _ H).
  - by apply abandonGap_wf.
Qed.

(** ** Concrete inputs *)

Definition cfg0 : TrackerConfig :=
  mkTrackerConfig (200 * ns_per_ms) (500 * ns_per_ms) (5 * ns_per_s) 5 (600 * ns_per_s) 0 0 1000 0
    true (f64_of_int 4) (500 * ns_per_ms) 3.

Definition env0 (now : Z) : Env :=
  mkEnv now (fun _ => 0) (fun _ _ => now) map_to_list map_to_list.

Definition src0 : bytes := [10; 0; 0; 1].

Lemma env0_ok now : Env_ok (env0 now).
Proof. by split. Qed.

(** A flow that received 1 and then 4. *)
Definition run0 : Tracker :=
  let t := New cfg0 ["[fd00::1]:9300"%string] true None in
  let t := ObserveFrom (env0 1000) 0 0 (zeros 32) 7 1 (zeros 32) (Some src0) t in
  ObserveFrom (env0 2000) 0 0 (zeros 32) 7 4 (zeros 32) (Some src0) t.

Lemma run0_reachable strict : reachable strict run0.
Proof.
  exists cfg0, ["[fd00::1]:9300"%string], true, None.
  eapply rtc_l; [apply (StObserve _ (env0 1000) 0 0 (zeros 32) 7 1 (zeros 32) (Some src0)); [apply env0_ok|done]|].
  eapply rtc_l; [apply (StObserve _ (env0 2000) 0 0 (zeros 32) 7 4 (zeros 32) (Some src0)); [apply env0_ok|done]|].
  apply rtc_refl.
Qed.

Arguments is_u64 : simpl never.

(** C11: Whatever the interleaving of observations, gap requests, fills, sweeps,
    dispatches, answers and wiring calls, from [New] on: every pending gap is
    filed under its own flow and SeqNum with non-negative counters, a flow has
    at most one tail probe in flight and it is the one [probing] names, at most
    4096 abandoned gaps are remembered per flow, the dispatch queue never
    exceeds its capacity, and with the flood guard on the number of flows never
    exceeds MaxFlows. *)
Theorem tracker_invariant (strict : bool) (t : Tracker) :
  reachable strict t -> tracker_wf t.
Proof.
  intros (cfg & eps & rec & reg & H).
  eapply (rtc_ind_r tracker_wf); [apply New_wf| |exact H]. intros; by eapply step_wf.
Qed.

Lemma tracker_invariant_witness : tracker_wf run0.
Proof. apply (tracker_invariant true). apply run0_reachable. Defined.

(** C12: Loss accounting never overbooks.  With a recorder, and as long as an
    answer that abandons a gap finds that gap still pending, the gaps booked as
    suppressed or unrecovered together with the real gaps still pending never
    exceed the gaps booked as detected, so the repair ratio stays at most 1. *)
Theorem tracker_accounting (t : Tracker) :
  reachable true t -> t_rec t = true -> accounted t.
Proof.
  intros (cfg & eps & rec & reg & H).
  cut (tracker_wf t /\ (t_rec t = true -> accounted t)); [intros [_ ?]; done|].
  eapply (rtc_ind_r (fun t => tracker_wf t /\ (t_rec t = true -> accounted t))); [| |exact H].
  - split; [apply New_wf|]. intros _. unfold accounted, real_pending. cbn. rewrite map_sum_empty. done.
  - intros t1 t2 _ Hst [W A]. destruct (step_good _ _ Hst) as [Hr Hg]. destruct (Hg W) as [W2 A2].
    split; [done|]. rewrite Hr. auto.
Qed.

Lemma tracker_accounting_witness : accounted run0.
Proof. apply tracker_accounting; [apply run0_reachable|reflexivity]. Defined.

(** The guard of the accounting theorem is needed: [abandonGap] does not look
    whether its gap is still pending.  Gap 3 is dispatched, the frame arrives on
    the wire and is booked as a repair, then the unicast copy is rejected and
    the same gap is booked as unrecovered too. *)
Definition double_booked : Tracker :=
  let t := sweepOnce (env0 (ns_per_s)) run0 in
  match dispatch t with
  | None => t
  | Some (e, t) =>
      let t := ObserveFrom (env0 (2 * ns_per_s)) 0 0 (zeros 32) 7 3 (zeros 32) (Some src0) t in
      apply_outcome (3 * ns_per_s) 0 e (OAbandon "rejected") t
  end.

Theorem abandon_double_books : reachable false double_booked /\ t_rec double_booked = true /\ ~ accounted double_booked.
Proof.
  split; [|split; [vm_compute; reflexivity|]].
  - destruct (run0_reachable false) as (cfg & eps & rec & reg & H). exists cfg, eps, rec, reg.
    etrans; [exact H|].
    eapply rtc_l; [apply (StSweep _ (env0 ns_per_s)), env0_ok|]. unfold double_booked.
    destruct (dispatch _) as [[e t]|] eqn:E; [|apply rtc_refl].
    eapply rtc_l; [by eapply StDispatch|].
    eapply rtc_l; [apply (StObserve _ (env0 (2 * ns_per_s)) 0 0 (zeros 32) 7 3 (zeros 32) (Some src0));
                     [apply env0_ok|done] |].
    apply rtc_once, StAnswer. done.
  - unfold accounted. vm_compute. intros H. by apply H.
Qed.

(** ** Observing a frame on a tracked flow *)

Section Observe.
Context (t : Tracker) (env : Env) (owner g : Z) (sid : bytes) (hk seq : Z) (txid : bytes) (src : option bytes).
Context (fs : flowState).
Hypothesis Hfs : t_flows t !! hk = Some fs.
Hypothesis Henv : Env_ok env.
Hypothesis Hseq : is_u64 seq.
Hypothesis Hnz : seq <> 0.

Local Abbreviation elapsed := (time_sub (ev_now env) (fs_lastSeen fs)).

Lemma observe_tracked :
  t_flows (ObserveFrom env owner g sid hk seq txid src t) !! hk = Some (fst (observe_flow (t_cfg t) (t_rec t) env owner g sid hk seq src fs)) /\
  (forall k, k <> hk -> t_flows (ObserveFrom env owner g sid hk seq txid src t) !! k = t_flows t !! k) /\
  t_log (ObserveFrom env owner g sid hk seq txid src t) = t_log t ++ snd (observe_flow (t_cfg t) (t_rec t) env owner g sid hk seq src fs).
Proof.
  unfold ObserveFrom. rewrite Hfs. apply Z.eqb_neq in Hnz as ->.
  destruct (observe_flow _ _ _ _ _ _ _ _ _ _) as [fs' evs]. cbn.
  split; [apply lookup_insert_eq|]. split; [intros k Hk; by apply lookup_insert_ne|done].
Qed.

(** The whole effect on [pending], [lastSeqNum]: the frame's own gap is closed,
    and unless that makes it a handled repair the stream advances. *)
Lemma observe_flow_cases :
  let fs' := fst (observe_flow (t_cfg t) (t_rec t) env owner g sid hk seq src fs) in
  exists fs2,
    fs_pending fs2 = delete seq (fs_pending fs) /\ fs_lastSeqNum fs2 = fs_lastSeqNum fs /\
    fs_owner fs2 = (if owner =? ownerUnknown then fs_owner fs else owner) /\
    fs_ewmaIPG fs2 = fs_ewmaIPG fs /\ fs_contiguous fs2 = fs_contiguous fs /\
    (if is_set (fs_pending fs !! seq) && (seq <=? fs_lastSeqNum fs) then fs' = fs2
     else fs' = fst (observe_advance (t_cfg t) (t_rec t) env elapsed g sid hk seq src fs2)).
Proof.
  unfold observe_flow.
  set (fs0 := if owner =? ownerUnknown then fs else _).
  assert (fs_pending fs0 = fs_pending fs /\ fs_lastSeqNum fs0 = fs_lastSeqNum fs /\
          fs_owner fs0 = (if owner =? ownerUnknown then fs_owner fs else owner) /\
          fs_ewmaIPG fs0 = fs_ewmaIPG fs /\ fs_contiguous fs0 = fs_contiguous fs /\
          fs_lastSeen fs0 = fs_lastSeen fs) as (P0 & L0 & O0 & E0 & C0 & S0) by (unfold fs0; by case_test).
  rewrite S0. match goal with |- context [noteLateFill ?r ?f ?s] => pose proof (noteLateFill_frame r f s) as H end.
  destruct (noteLateFill _ _ _) as [[fs2 ev1] ?]. destruct H as (P2 & L2 & O2 & E2 & C2); cbn in P2, L2, O2, E2, C2.
  rewrite P2, P0. destruct (fs_pending fs !! seq) as [e|] eqn:He; cbn [is_set andb].
  - match goal with |- context [bookFill ?r ?f ?s] => pose proof (bookFill_frame r f s) as H end.
    destruct (bookFill _ _ _) as [fs3 ev2]. destruct H as (P3 & L3 & O3 & E3 & C3); cbn in P3, L3, O3, E3, C3.
    exists fs3. rewrite P3, L3, O3, E3, C3, L2, O2, E2, C2. do 5 (split; [done|]).
    rewrite L0. case_test; [done|]. by destruct (observe_advance _ _ _ _ _ _ _ _ _ _).
  - exists fs2. rewrite P2, L2, O2, E2, C2, P0, delete_id by done. do 5 (split; [done|]).
    by destruct (observe_advance _ _ _ _ _ _ _ _ _ _).
Qed.

(** The frame is no repair: the stream advances from the flow's position. *)
Lemma observe_flow_advance :
  fs_pending fs !! seq = None ->
  exists fs2, fs_pending fs2 = fs_pending fs /\ fs_lastSeqNum fs2 = fs_lastSeqNum fs /\
    fs_owner fs2 = (if owner =? ownerUnknown then fs_owner fs else owner) /\
    fs_ewmaIPG fs2 = fs_ewmaIPG fs /\ fs_contiguous fs2 = fs_contiguous fs /\
    t_flows (ObserveFrom env owner g sid hk seq txid src t) !! hk = Some (fst (observe_advance (t_cfg t) (t_rec t) env elapsed g sid hk seq src fs2)).
Proof.
  intros Hp. destruct observe_flow_cases as (fs2 & H1 & H2 & H3 & H4 & H5 & H6).
  destruct observe_tracked as [Ht _]. exists fs2. rewrite Ht, H1, H2, H3, H4, H5, delete_id by done.
  rewrite Hp in H6. cbn in H6. by rewrite H6.
Qed.

(** A frame that closes a pending gap behind the flow's position does that
    and nothing else: exactly its own gap leaves [pending], the position stays,
    every other flow is untouched, so a late repair of an early SeqNum is never
    taken for a proxy restart. *)
Theorem observe_repair (e : gapEntry) :
  fs_pending fs !! seq = Some e -> seq <= fs_lastSeqNum fs ->
  exists fs', t_flows (ObserveFrom env owner g sid hk seq txid src t) !! hk = Some fs' /\
    fs_pending fs' = delete seq (fs_pending fs) /\ fs_lastSeqNum fs' = fs_lastSeqNum fs /\
    (forall k, k <> hk -> t_flows (ObserveFrom env owner g sid hk seq txid src t) !! k = t_flows t !! k).
Proof.
  intros Hp Hle. destruct observe_flow_cases as (fs2 & H1 & H2 & _ & _ & _ & H6).
  rewrite Hp, (proj2 (Z.leb_le _ _) Hle) in H6. cbn in H6.
  destruct observe_tracked as (Ht & Hk & _). exists fs2. rewrite Ht, H6. auto.
Qed.

(** A plausible forward jump registers exactly the missing SeqNums: every
    number strictly between the old position and the frame is pending
    afterwards (an entry already there is kept, a new one gets the flow's owner,
    the frame's source and the configured deadline), no other number changes,
    and the position is the frame's. *)
Theorem observe_gap :
  0 < fs_lastSeqNum fs -> fs_lastSeqNum fs + 1 < seq -> fs_pending fs !! seq = None ->
  implausible_jump (if MaxForwardJump (t_cfg t) =? 0 then 4096 else MaxForwardJump (t_cfg t))
    (seq - fs_lastSeqNum fs - 1) elapsed (fs_ewmaIPG fs) = false ->
  exists fs', t_flows (ObserveFrom env owner g sid hk seq txid src t) !! hk = Some fs' /\ fs_lastSeqNum fs' = seq /\ fs_contiguous fs' = 0 /\
    forall m, fs_pending fs' !! m =
      if (fs_lastSeqNum fs <? m) && (m <? seq) then
        match fs_pending fs !! m with
        | Some e => Some e
        | None => Some (newGap (t_cfg t) (ev_now env) (ev_jitter env m) hk m g sid src
                          (if owner =? ownerUnknown then fs_owner fs else owner) false)
        end
      else fs_pending fs !! m.
Proof.
  intros H0 Hgt Hp Himp. destruct (observe_flow_advance Hp) as (fs2 & P2 & L2 & O2 & E2 & C2 & Ht).
  rewrite Ht. clear Ht. unfold is_u64 in Hseq.
  assert (u64 (u64 (seq - fs_lastSeqNum fs) - 1) = seq - fs_lastSeqNum fs - 1) as Hmiss
    by (rewrite !u64_small; unfold is_u64; rewrite ?u64_small; unfold is_u64; lia).
  assert (u64 (fs_lastSeqNum fs + 1) = fs_lastSeqNum fs + 1) as Hnext by (apply u64_small; unfold is_u64; lia).
  unfold observe_advance. rewrite L2, E2, Hmiss, Hnext, Himp.
  rewrite (proj2 (Z.eqb_neq _ 0)), (proj2 (Z.leb_gt seq _)), (proj2 (Z.eqb_neq seq _)) by lia.
  pose proof (register_all_lookup (t_cfg t) (t_rec t) env hk g sid src false
    (seq_range (fs_lastSeqNum fs + 1) seq) fs2 []) as (Rl & Ro & Rm).
  destruct (fold_left _ _ _) as [fs3 evs]; cbn in Rl, Ro, Rm |- *.
  eexists. split; [done|]. cbn. do 2 (split; [done|]). intros m. rewrite Rm, P2, O2.
  unfold seq_range. destruct ((fs_lastSeqNum fs <? m) && (m <? seq)) eqn:Em.
  - rewrite bool_decide_true; [done|]. apply elem_of_seqZ. split_bool; lia.
  - rewrite bool_decide_false; [done|]. rewrite elem_of_seqZ. split_bool; lia.
Qed.

(** The flow's position only moves forward, except at a detected proxy
    restart: then the frame came live from the wire (it has a source), it is at
    or below the reset threshold with the flow above it, it is not the repair of
    a pending gap, and afterwards the flow is at the frame with no pending gap. *)
Theorem observe_position :
  exists fs', t_flows (ObserveFrom env owner g sid hk seq txid src t) !! hk = Some fs' /\
    (fs_lastSeqNum fs <= fs_lastSeqNum fs' /\ (fs_lastSeqNum fs' = fs_lastSeqNum fs \/ fs_lastSeqNum fs' = seq) \/
     fs_lastSeqNum fs' = seq /\ fs_pending fs' = ∅ /\ src <> None /\ fs_pending fs !! seq = None /\
     let threshold := if SeqResetThreshold (t_cfg t) =? 0 then 100 else SeqResetThreshold (t_cfg t) in
     seq <= threshold < fs_lastSeqNum fs).
Proof.
  destruct observe_flow_cases as (fs2 & P2 & L2 & O2 & E2 & C2 & H6).
  destruct observe_tracked as (Ht & _). eexists; split; [exact Ht|]. revert H6.
  generalize (fst (observe_flow (t_cfg t) (t_rec t) env owner g sid hk seq src fs)) as fs'. intros fs'.
  destruct (is_set (fs_pending fs !! seq) && (seq <=? fs_lastSeqNum fs)) eqn:Hrep.
  { intros ->. left. rewrite L2. auto using Z.le_refl. }
  intros ->. unfold observe_advance. rewrite L2. clear Ht.
  destruct (fs_lastSeqNum fs =? 0) eqn:Hz; [left; cbn; unfold is_u64 in Hseq; split_bool; lia|].
  destruct (seq <=? fs_lastSeqNum fs) eqn:Hle.
  { destruct (is_set src && _ && _) eqn:Hr; [|left; cbn; lia].
    right. pose proof (restart_all (t_rec t) (ev_book env hk) (ev_range env (fs_pending fs2)) fs2 []) as H.
    destruct (fold_left _ _ _) as [fs3 evs]. cbn. rewrite andb_true_r in Hrep.
    split; [done|]. split; [done|]. split; [by destruct src|]. split; [by destruct (fs_pending fs !! seq)|].
    split_bool; lia. }
  left. bool_to_prop. destruct (seq =? u64 (fs_lastSeqNum fs + 1)); [cbn; lia|].
  destruct (implausible_jump _ _ _ _).
  - destruct (if (0 <? _) && _ then _ else _) as [fs3 evs]. cbn. lia.
  - destruct (fold_left _ _ _) as [fs3 evs]. cbn. lia.
Qed.

(** C33: An implausible forward jump (an emitter change) drops every old gap and
    requests only the rate-plausible tail just before the frame: at most the
    frames the silence can have lost at the flow's rate, at most the jump, at
    most the configured cap, and nothing when the rate is not established. *)
Theorem observe_rebaseline :
  let maxJump := if MaxForwardJump (t_cfg t) =? 0 then 4096 else MaxForwardJump (t_cfg t) in
  let missing := seq - fs_lastSeqNum fs - 1 in
  let tail := if (0 <? fs_ewmaIPG fs) && (minContiguousForRecover <=? fs_contiguous fs)
              then Z.min (u64 (Z.quot elapsed (fs_ewmaIPG fs))) (Z.min missing maxJump) else 0 in
  0 < fs_lastSeqNum fs -> fs_lastSeqNum fs + 1 < seq -> fs_pending fs !! seq = None ->
  0 <= MaxForwardJump (t_cfg t) -> implausible_jump maxJump missing elapsed (fs_ewmaIPG fs) = true ->
  exists fs', t_flows (ObserveFrom env owner g sid hk seq txid src t) !! hk = Some fs' /\ fs_lastSeqNum fs' = seq /\
    fs_ewmaIPG fs' = 0 /\ fs_contiguous fs' = 0 /\ fs_samples fs' = 0 /\
    forall m, is_Some (fs_pending fs' !! m) <-> seq - tail <= m < seq.
Proof.
  intros maxJump missing tail H0 Hgt Hp Hm Himp.
  destruct (observe_flow_advance Hp) as (fs2 & P2 & L2 & O2 & E2 & C2 & Ht).
  rewrite Ht. clear Ht. unfold is_u64 in Hseq.
  assert (u64 (u64 (seq - fs_lastSeqNum fs) - 1) = missing) as Hmiss
    by (unfold missing; rewrite !u64_small; unfold is_u64; rewrite ?u64_small; unfold is_u64; lia).
  unfold observe_advance. rewrite L2, E2, Hmiss. fold maxJump. rewrite Himp.
  rewrite (proj2 (Z.eqb_neq _ 0)), (proj2 (Z.leb_gt seq _)) by lia.
  rewrite (proj2 (Z.eqb_neq seq _)) by (rewrite u64_small; unfold is_u64; lia).
  cbn [set_pending fs_ewmaIPG fs_contiguous]. rewrite E2, C2. unfold tail.
  destruct ((0 <? fs_ewmaIPG fs) && _) eqn:Hrate.
  - set (q := u64 (Z.quot elapsed (fs_ewmaIPG fs))).
    assert (0 <= q) as Hq by apply Z.mod_pos_bound, eq_refl.
    assert ((if maxJump <? (if missing <? q then missing else q) then maxJump
             else if missing <? q then missing else q) = Z.min q (Z.min missing maxJump)) as ->
      by (destruct (missing <? q) eqn:?; case_test; bool_to_prop; lia).
    assert (0 <= maxJump) by (unfold maxJump; case_test; lia).
    rewrite (u64_small (seq - _)) by (unfold is_u64, missing in *; lia).
    match goal with |- context [fold_left (register_gap ?a ?b ?c ?d ?e ?f ?gg ?h) ?l (?fs3, ?i)] =>
      pose proof (register_all_lookup a b c d e f gg h l fs3 i) as (Rl & Ro & Rm) end.
    destruct (fold_left _ _ _) as [fs3 evs]; cbn in Rl, Ro, Rm |- *.
    eexists. split; [done|]. cbn. do 4 (split; [done|]). intros m. rewrite Rm.
    unfold seq_range. case_bool_decide as Hin; rewrite elem_of_seqZ in Hin.
    + split; [lia|eauto].
    + rewrite lookup_empty. split; [by intros []|lia].
  - cbn. eexists. split; [done|]. cbn. do 4 (split; [done|]). intros m. rewrite lookup_empty.
    split; [by intros []|lia].
Qed.

End Observe.

(** A flow that received 1 to 20, a second apart. *)
Definition paced : Tracker :=
  fold_left (fun t n => ObserveFrom (env0 (n * ns_per_s)) 0 0 (zeros 32) 7 n (zeros 32) (Some src0) t)
    (seqZ 1 20) (New cfg0 [] true None).

Definition flow_of (t : Tracker) (hk : Z) : flowState := default (newFlow 0 [] 0) (t_flows t !! hk).

Definition gap_of (t : Tracker) (hk seq : Z) : gapEntry :=
  default (newGap cfg0 0 0 0 0 0 [] None 0 false) (fs_pending (flow_of t hk) !! seq).

Lemma observe_repair_witness :
  exists fs', t_flows (ObserveFrom (env0 3000) 0 0 (zeros 32) 7 3 (zeros 32) (Some src0) run0) !! 7 = Some fs' /\
    fs_lastSeqNum fs' = 4.
Proof.
  destruct (observe_repair run0 (env0 3000) 0 0 (zeros 32) 7 3 (zeros 32) (Some src0) (flow_of run0 7)
    ltac:(vm_compute; reflexivity) ltac:(lia) (gap_of run0 7 3) ltac:(vm_compute; reflexivity)
    ltac:(vm_compute; discriminate)) as (fs' & H1 & _ & H2 & _).
  exists fs'. split; [exact H1|]. rewrite H2. vm_compute. reflexivity.
Defined.

Lemma observe_gap_witness :
  exists fs', t_flows (ObserveFrom (env0 3000) 0 0 (zeros 32) 7 9 (zeros 32) (Some src0) run0) !! 7 = Some fs' /\
    fs_lastSeqNum fs' = 9.
Proof.
  destruct (observe_gap run0 (env0 3000) 0 0 (zeros 32) 7 9 (zeros 32) (Some src0) (flow_of run0 7)
    ltac:(vm_compute; reflexivity) ltac:(done) ltac:(lia) ltac:(vm_compute; reflexivity)
    ltac:(vm_compute; reflexivity) ltac:(vm_compute; reflexivity) ltac:(vm_compute; reflexivity))
    as (fs' & H1 & H2 & _).
  exists fs'. split; [exact H1|exact H2].
Defined.

Lemma observe_position_witness :
  exists fs', t_flows (ObserveFrom (env0 3000) 0 0 (zeros 32) 7 9 (zeros 32) (Some src0) run0) !! 7 = Some fs' /\
    0 <= fs_lastSeqNum fs'.
Proof.
  destruct (observe_position run0 (env0 3000) 0 0 (zeros 32) 7 9 (zeros 32) (Some src0) (flow_of run0 7)
    ltac:(vm_compute; reflexivity) ltac:(done) ltac:(lia)) as (fs' & H1 & [[H2 _]|[H2 _]]); exists fs';
    (split; [exact H1|]).
  - etransitivity; [|exact H2]. vm_compute. discriminate.
  - lia.
Defined.

Lemma observe_rebaseline_witness :
  exists fs',
    t_flows (ObserveFrom (env0 (23 * ns_per_s)) 0 0 (zeros 32) 7 1000 (zeros 32) (Some src0) paced) !! 7 = Some fs' /\
    forall m, is_Some (fs_pending fs' !! m) <-> 997 <= m < 1000.
Proof.
  destruct (observe_rebaseline paced (env0 (23 * ns_per_s)) 0 0 (zeros 32) 7 1000 (zeros 32) (Some src0) (flow_of paced 7)
    ltac:(vm_compute; reflexivity) ltac:(done) ltac:(lia) ltac:(vm_compute; reflexivity)
    ltac:(vm_compute; reflexivity) ltac:(vm_compute; reflexivity) ltac:(vm_compute; discriminate)
    ltac:(vm_compute; reflexivity)) as (fs' & H1 & _ & _ & _ & _ & H2).
  exists fs'. split; [exact H1|]. intros m. rewrite H2.
  match goal with |- _ - ?x <= _ < _ <-> _ => replace x with 3 by (vm_compute; reflexivity) end. lia.
Defined.
