(* ===== verification/TrackerRepair.v ===== *)
(** * The gap tracker: requests, sweeps and repair attempts

    What an explicit request guarantees its caller, what a sweep does to every
    gap and flow, the backoff and the walk over the retry tiers, and when the
    answers of the network may close a gap. *)

From Corelib Require Import SpecFloat.
From S2P Require Import Prelude Wire Discovery Tracker TrackerInv TrackerProps.

(** ** Requests *)

Lemma request_all_pending cfg rec env hk g sid seqs fs queued evs :
  let '(fs', _, _) := fold_left (request_one cfg rec env hk g sid) seqs (fs, queued, evs) in
  (forall m, m ∈ seqs -> is_Some (fs_pending fs' !! m)) /\
  (forall m e, fs_pending fs !! m = Some e -> fs_pending fs' !! m = Some e) /\
  (forall m, m ∉ seqs -> fs_pending fs' !! m = fs_pending fs !! m) /\
  fs_lastSeqNum fs' = fs_lastSeqNum fs.
Proof.
  revert fs queued evs. induction seqs as [|s seqs IH]; intros fs queued evs; cbn [fold_left].
  { repeat split; auto. by intros m ?%elem_of_nil. }
  assert (exists fs1 q1 ev1, request_one cfg rec env hk g sid (fs, queued, evs) s = (fs1, q1, ev1) /\
    is_Some (fs_pending fs1 !! s) /\ (forall m e, fs_pending fs !! m = Some e -> fs_pending fs1 !! m = Some e) /\
    (forall m, m <> s -> fs_pending fs1 !! m = fs_pending fs !! m) /\ fs_lastSeqNum fs1 = fs_lastSeqNum fs)
    as (fs1 & q1 & ev1 & -> & H1 & H2 & H3 & H4).
  { unfold request_one. destruct (fs_pending fs !! s) as [e|] eqn:E.
    - do 3 eexists. split; [done|]. eauto.
    - do 3 eexists. split; [done|]. cbn. rewrite lookup_insert_eq. split; [done|].
      split; [|split; [|done]]; intros m; intros; rewrite lookup_insert_ne; congruence. }
  specialize (IH fs1 q1 ev1). destruct (fold_left _ _ _) as [[fs' ?] ?].
  destruct IH as (I1 & I2 & I3 & I4). repeat split; [| | |congruence].
  - intros m [->|Hm]%elem_of_cons; [|auto]. destruct H1 as [e He]. eauto.
  - auto.
  - intros m [Hne Hm]%not_elem_of_cons. rewrite I3, H3; auto.
Qed.

(** What a request guarantees its caller. *)
Lemma request_gaps_pending (t : Tracker) (env : Env) (owner hk g : Z) (sid : bytes) (seqs : list Z) :
  is_Some (t_flows t !! hk) \/ at_cap t = false ->
  let t' := RequestGapsFrom env owner hk g sid seqs t in
  (forall s, s ∈ seqs -> Pending t' hk [s] = true) /\
  (forall s, Pending t hk [s] = true -> Pending t' hk [s] = true) /\
  (forall k s, k <> hk \/ s ∉ seqs -> Pending t' k [s] = Pending t k [s]).
Proof.
  intros Hok t'. unfold t', RequestGapsFrom. destruct seqs as [|s0 seqs0].
  { split; [by intros s ?%elem_of_nil|]. auto. }
  set (seqs := s0 :: seqs0). clearbody seqs.
  assert (forall fs0, (forall m, fs_pending fs0 !! m =
      match t_flows t !! hk with Some fs => fs_pending fs !! m | None => None end) ->
    let '(fs', queued, evs) := fold_left (request_one (t_cfg t) (t_rec t) env hk g sid) seqs
        (if owner =? ownerUnknown then fs0 else set_owner owner fs0, [], []) in
    let t' := with_flows (<[hk := fs']> (t_flows t)) (enqueue_all (t_nackQueue t) queued) evs t in
    (forall s, s ∈ seqs -> Pending t' hk [s] = true) /\
    (forall s, Pending t hk [s] = true -> Pending t' hk [s] = true) /\
    (forall k s, k <> hk \/ s ∉ seqs -> Pending t' k [s] = Pending t k [s])) as H.
  { intros fs0 H0. set (fs1 := if owner =? ownerUnknown then fs0 else _).
    assert (fs_pending fs1 = fs_pending fs0) as Hf1 by (unfold fs1; by case_test).
    pose proof (request_all_pending (t_cfg t) (t_rec t) env hk g sid seqs fs1 [] []) as H.
    destruct (fold_left _ _ _) as [[fs' queued] evs]. destruct H as (R1 & R2 & R3 & _). cbn zeta.
    unfold Pending; cbn. rewrite lookup_insert_eq. split; [|split].
    - intros s Hs. cbn. by destruct (R1 s Hs) as [e ->].
    - intros s. cbn. rewrite !orb_false_r. specialize (H0 s). rewrite <- Hf1 in H0.
      destruct (t_flows t !! hk) as [fs|]; [|done]. rewrite <- H0.
      destruct (fs_pending fs1 !! s) eqn:E; [|done]. by rewrite (R2 _ _ E).
    - intros k s [Hk|Hs]; [by rewrite lookup_insert_ne|].
      destruct (decide (k = hk)) as [->|Hk]; [|by rewrite lookup_insert_ne].
      rewrite lookup_insert_eq. cbn. rewrite R3, Hf1, H0 by done. by destruct (t_flows t !! hk). }
  destruct (t_flows t !! hk) as [fs|] eqn:Hf.
  - specialize (H fs (fun m => eq_refl)). by destruct (fold_left _ _ _) as [[fs' queued] evs].
  - destruct Hok as [[? ?]| ->]; [done|].
    specialize (H (newFlow g sid (ev_now env)) (fun m => lookup_empty m)).
    by destruct (fold_left _ _ _) as [[fs' queued] evs].
Qed.

(** After an explicit request on a flow that is tracked, or that the flood
    guard lets in, every requested SeqNum is a pending gap, each gap that was
    pending still is, unchanged, and no other SeqNum of the flow or of another
    flow is affected. *)
Theorem request_pending (t : Tracker) (env : Env) (owner hk g : Z) (sid : bytes) (seqs : list Z) :
  is_Some (t_flows t !! hk) \/ at_cap t = false ->
  let t' := RequestGapsFrom env owner hk g sid seqs t in
  (forall s, s ∈ seqs -> Pending t' hk [s] = true) /\
  (forall s, Pending t hk [s] = true -> Pending t' hk [s] = true) /\
  (forall k s, k <> hk \/ s ∉ seqs -> Pending t' k [s] = Pending t k [s]).
Proof. apply request_gaps_pending. Qed.

Lemma request_pending_witness :
  let t' := RequestGapsFrom (env0 3000) 0 7 0 (zeros 32) [5; 6] run0 in
  Pending t' 7 [5] = true /\ Pending t' 7 [6] = true /\ Pending t' 8 [5] = Pending run0 8 [5].
Proof.
  destruct (request_pending run0 (env0 3000) 0 7 0 (zeros 32) [5; 6]) as (H1 & _ & H3);
    [right; vm_compute; reflexivity|].
  split; [apply H1; set_solver|]. split; [apply H1; set_solver|]. apply H3. left. lia.
Defined.

(** ** The sweep *)

Definition same_position (fs fs' : flowState) : Prop :=
  fs_lastSeqNum fs' = fs_lastSeqNum fs /\ fs_lastSeen fs' = fs_lastSeen fs.

Lemma sweep_gap_position t now book acc p :
  same_position (fst (fst acc)) (fst (fst (sweep_gap t now book acc p))).
Proof.
  destruct acc as [[fs q] evs], p as [seq e]. unfold sweep_gap, evict_gap, bookAbandon, retireProbe, same_position.
  repeat case_test; done.
Qed.

Lemma sweep_gaps_position t now book l fs q evs :
  same_position fs (fst (fst (fold_left (sweep_gap t now book) l (fs, q, evs)))).
Proof.
  apply (fold_left_inv (sweep_gap t now book) (fun acc => same_position fs (fst (fst acc)))); [done|].
  intros acc p _ [H1 H2]. destruct (sweep_gap_position t now book acc p) as [H3 H4]. split; congruence.
Qed.

(** A tail probe is the only gap a sweep adds. *)
Lemma maybeProbeTail_cases t now hk fs q :
  fs_pending fs = ∅ ->
  let '(fs', q', evs) := maybeProbeTail t now hk fs q in
  same_position fs fs' /\ balance evs = 0 /\
  (fs_pending fs' = ∅ \/
   exists e, fs_pending fs' = {[u64 (fs_lastSeqNum fs + 1) := e]} /\ ge_speculative e = true).
Proof.
  intros Hp. unfold maybeProbeTail. do 4 (case_test; [split; [done|]; auto|]).
  destruct (enqueue q _); cbn; (split; [done|]); (split; [by destruct (t_rec t)|]).
  - right. rewrite Hp, insert_empty. by eexists.
  - left. by rewrite Hp, delete_empty.
Qed.

(** What one sweep makes of a flow. *)
Definition flow_swept (cfg : TrackerConfig) (now : Z) (fs : flowState) (r : option flowState) : Prop :=
  match r with
  | Some fs' =>
      same_position fs fs' /\
      (forall seq e, fs_pending fs !! seq = Some e -> sweep_keeps cfg now e = true ->
         exists next, fs_pending fs' !! seq = Some (set_nextAttempt next e)) /\
      (forall seq e', fs_pending fs' !! seq = Some e' ->
         (exists e, fs_pending fs !! seq = Some e /\ sweep_keeps cfg now e = true) \/
         ge_speculative e' = true /\ seq = u64 (fs_lastSeqNum fs + 1) /\
         forall k e, fs_pending fs !! k = Some e -> sweep_keeps cfg now e = false)
  | None =>
      flow_ttl cfg < time_sub now (fs_lastSeen fs) /\
      forall k e, fs_pending fs !! k = Some e -> sweep_keeps cfg now e = false
  end.

Lemma sweep_flow_spec t env hk fs q :
  Env_ok env ->
  let '(r, q', evs) := sweep_flow t env hk fs q in
  flow_swept (t_cfg t) (ev_now env) fs r /\
  (t_rec t = true -> Z.of_nat (real_opt r) = Z.of_nat (real_gaps fs) + balance evs).
Proof.
  intros He. unfold sweep_flow. set (fs1 := purge_abandoned (ev_now env) fs).
  pose proof (sweep_gaps_good t hk (ev_now env) (ev_book env hk) (ev_range env (fs_pending fs1)) fs1 q
                (env_range _ He _)) as H2.
  pose proof (sweep_gaps_position t (ev_now env) (ev_book env hk) (ev_range env (fs_pending fs1)) fs1 q []) as P2.
  destruct (fold_left _ _ _) as [[fs2 q2] ev1]. destruct H2 as ([_ Hx] & Hsw & _). cbn in P2, Hsw.
  assert (fs_pending fs2 = ∅ -> forall k e, fs_pending fs !! k = Some e -> sweep_keeps (t_cfg t) (ev_now env) e = false) as Hno.
  { intros Hp k e Hk. specialize (Hsw k). rewrite Hk, Hp, lookup_empty in Hsw. cbn in Hsw.
    by destruct (sweep_keeps _ _ e); [destruct Hsw|]. }
  assert (forall seq e, fs_pending fs !! seq = Some e -> sweep_keeps (t_cfg t) (ev_now env) e = true ->
    exists next, fs_pending fs2 !! seq = Some (set_nextAttempt next e)) as Hkeep.
  { intros seq e Hk Hs. specialize (Hsw seq). rewrite Hk in Hsw. cbn in Hsw. by rewrite Hs in Hsw. }
  assert (forall seq e', fs_pending fs2 !! seq = Some e' ->
    exists e, fs_pending fs !! seq = Some e /\ sweep_keeps (t_cfg t) (ev_now env) e = true) as Honly.
  { intros seq e' Hk. specialize (Hsw seq). rewrite Hk in Hsw.
    destruct (fs_pending fs !! seq) as [e|]; cbn in Hsw; [|done].
    destruct (sweep_keeps _ _ e) eqn:E; [eauto|done]. }
  case_decide as Hp.
  - pose proof (maybeProbeTail_cases t (ev_now env) hk fs2 q2 Hp) as H3.
    destruct (maybeProbeTail _ _ _ _ _) as [[fs3 q3] ev2]. destruct H3 as (P3 & B3 & H3).
    destruct P2 as [L2 S2], P3 as [L3 S3]. rewrite balance_app, B3. cbn in L2, S2.
    assert (t_rec t = true -> real_gaps fs3 = real_gaps fs2) as Hr3.
    { intros _. unfold real_gaps. rewrite Hp, map_count_empty. destruct H3 as [-> | (e & -> & Hs)];
        [apply map_count_empty|]. rewrite <- insert_empty, map_count_insert_new by done.
      unfold is_real. by rewrite Hs, map_count_empty. }
    destruct (bool_decide (fs_pending fs3 = ∅) && _) eqn:Hg; (split; [|intros Hr; specialize (Hr3 Hr); specialize (Hx Hr)]).
    + bool_to_prop. split; [|by apply Hno]. by rewrite <- S2, <- S3.
    + bool_to_prop. unfold real_gaps in Hr3 at 1. cbn. unfold real_gaps in *. cbn in Hx.
      replace (fs_pending fs3) with (∅ : gmap Z gapEntry) in Hr3 by (symmetry; done).
      rewrite map_count_empty in Hr3. lia.
    + split; [split; congruence|]. split.
      * intros seq e Hk Hs. by rewrite (Hno Hp seq e Hk) in Hs.
      * intros seq e' Hk. right. destruct H3 as [H3|(e & H3 & Hs)]; rewrite H3 in Hk.
        { by apply lookup_empty_Some in Hk. }
        apply lookup_singleton_Some in Hk as [<- <-]. split; [done|]. split; [by rewrite L2|by apply Hno].
    + cbn. unfold real_gaps in *. cbn in Hx. lia.
  - rewrite (bool_decide_false _ Hp). cbn [andb]. rewrite app_nil_r. split.
    + destruct P2 as [L2 S2]. cbn in L2, S2. split; [by split|]. split; [done|eauto].
    + intros Hr. specialize (Hx Hr). cbn in *. exact Hx.
Qed.

(** The loop over the flows visits each once: its result for a flow is the
    sweep of that flow with some queue. *)
Lemma sweep_flows t env :
  Env_ok env ->
  let '(flows, q, evs) := fold_left (sweep_step t env) (ev_rangeF env (t_flows t)) (t_flows t, t_nackQueue t, []) in
  (forall hk, match t_flows t !! hk with
              | Some fs => exists q0, fst (fst (sweep_flow t env hk fs q0)) = flows !! hk
              | None => flows !! hk = None
              end) /\
  (t_rec t = true -> Z.of_nat (map_sum real_gaps flows) = Z.of_nat (real_pending t) + balance evs).
Proof.
  intros He.
  pose (I := fun (acc : gmap Z flowState * list gapEntry * list MEvent) (rest : list (Z * flowState)) =>
    let '(flows, q, evs) := acc in
    NoDup rest.*1 /\ (forall k fs, (k, fs) ∈ rest -> flows !! k = Some fs /\ t_flows t !! k = Some fs) /\
    (forall k, k ∉ rest.*1 -> match t_flows t !! k with
              | Some fs => exists q0, fst (fst (sweep_flow t env k fs q0)) = flows !! k
              | None => flows !! k = None end) /\
    (t_rec t = true -> Z.of_nat (map_sum real_gaps flows) = Z.of_nat (real_pending t) + balance evs)).
  assert (I (t_flows t, t_nackQueue t, []) (ev_rangeF env (t_flows t))) as H0.
  { unfold I. split; [rewrite (env_rangeF _ He); apply NoDup_fst_map_to_list|].
    split; [intros k fs Hk; rewrite (env_rangeF _ He) in Hk; by apply elem_of_map_to_list in Hk|].
    split; [|intros _; unfold real_pending, balance; simpl; lia].
    intros k Hk. destruct (t_flows t !! k) as [fs|] eqn:E; [|done].
    destruct Hk. rewrite (env_rangeF _ He). apply list_elem_of_fmap. exists (k, fs). by rewrite elem_of_map_to_list. }
  pose proof (fold_left_rest (sweep_step t env) I _ _ H0) as H. clear H0.
  destruct (fold_left _ _ _) as [[flows q] evs].
  destruct H as (_ & _ & H1 & H2); [|split; [|done]; intros hk; apply H1; cbn; by intros ?%elem_of_nil].
  clear flows q evs. intros [[flows q] evs] [k fs] rest (Hnd & Hin & Hout & Hb).
  cbn [fmap list_fmap fst] in Hnd. apply NoDup_cons in Hnd as [Hk Hnd].
  destruct (Hin k fs ltac:(left)) as [Hfs Hfs0].
  pose proof (sweep_flow_spec t env k fs q He) as H. cbn.
  destruct (sweep_flow t env k fs q) as [[r q'] ev] eqn:Esw. destruct H as [_ Hx].
  set (flows' := match r with Some fs' => _ | None => _ end).
  assert (forall k', k' <> k -> flows' !! k' = flows !! k') as Hne.
  { intros k' Hk'. unfold flows'. destruct r; [by apply lookup_insert_ne|by apply lookup_delete_ne]. }
  assert (flows' !! k = r) as Hr by (unfold flows'; destruct r; [apply lookup_insert_eq|apply lookup_delete_eq]).
  split; [done|]. split; [|split].
  - intros k' f Hf. rewrite Hne; [apply Hin; by right|]. intros ->. apply Hk.
    apply list_elem_of_fmap. by exists (k, f).
  - intros k' Hk'. destruct (decide (k' = k)) as [->|Hd].
    + rewrite Hfs0, Hr. exists q. by rewrite Esw.
    + rewrite (Hne k' Hd). apply Hout. cbn [fmap list_fmap fst]. by apply not_elem_of_cons.
  - intros Ht. rewrite balance_app. specialize (Hx Ht). specialize (Hb Ht). unfold flows'.
    destruct r as [fs'|]; cbn in Hx.
    + pose proof (map_sum_insert real_gaps flows k fs fs' Hfs). lia.
    + pose proof (map_sum_delete real_gaps flows k fs Hfs). lia.
Qed.

(** C34: One sweep, whatever the order in which Go visits the maps: every gap
    within its deadline and its retry budget survives with only its next
    attempt changed; every other gap is gone; the only gap a sweep adds is a
    speculative probe for the flow's next SeqNum, and only when no gap is left;
    a flow is evicted exactly idle and without a live gap; no flow appears; and
    the real gaps that went are booked one by one, none dropped silently. *)
Theorem sweep_spec (t : Tracker) (env : Env) :
  Env_ok env ->
  let t' := sweepOnce env t in
  (forall hk, match t_flows t !! hk with
              | Some fs => flow_swept (t_cfg t) (ev_now env) fs (t_flows t' !! hk)
              | None => t_flows t' !! hk = None
              end) /\
  exists evs, t_log t' = t_log t ++ evs /\
    (t_rec t = true -> Z.of_nat (real_pending t') = Z.of_nat (real_pending t) + balance evs).
Proof.
  intros He t'. unfold t', sweepOnce. pose proof (sweep_flows t env He) as H.
  destruct (fold_left _ _ _) as [[flows q] evs]. destruct H as [H1 H2]. cbn. split.
  - intros hk. specialize (H1 hk). destruct (t_flows t !! hk) as [fs|]; [|done].
    destruct H1 as [q0 <-]. pose proof (sweep_flow_spec t env hk fs q0 He) as H.
    destruct (sweep_flow t env hk fs q0) as [[r ?] ?]. apply H.
  - exists evs. split; [done|]. exact H2.
Qed.

Lemma sweep_spec_witness :
  flow_swept cfg0 (700 * ns_per_s) (flow_of run0 7) (t_flows (sweepOnce (env0 (700 * ns_per_s)) run0) !! 7).
Proof.
  destruct (sweep_spec run0 (env0 (700 * ns_per_s)) (env0_ok _)) as [H _]. specialize (H 7).
  assert (t_flows run0 !! 7 = Some (flow_of run0 7)) as E by (vm_compute; reflexivity).
  rewrite E in H. exact H.
Defined.

(** ** Backoff and the walk over the tiers *)

(** For positive settings whose product fits 63 bits (the defaults do), the
    backoff of round [k] is exactly the doubled base capped at the maximum, for
    every [k]: a shift that overflows wraps to zero, to a negative number or
    beyond the maximum, never to a short positive wait. *)
Theorem backoff_exact (cfg : TrackerConfig) (k : Z) :
  0 < BackoffBase cfg -> 0 < BackoffMax cfg -> BackoffBase cfg * BackoffMax cfg < 2 ^ 63 -> 1 <= k ->
  backoff_of cfg k = Z.min (BackoffBase cfg * 2 ^ (k - 1)) (BackoffMax cfg).
Proof.
  intros Hb Hm Hbm Hk. unfold backoff_of. rewrite Z.shiftl_mul_pow2 by lia.
  set (B := BackoffBase cfg) in *. set (M := BackoffMax cfg) in *. set (p := 2 ^ (k - 1)).
  assert (0 < p) as Hp by (apply Z.pow_pos_nonneg; lia).
  destruct (Z.lt_ge_cases (B * p) (2 ^ 63)) as [Hlt|Hge].
  - rewrite i64_small by (unfold min_i64, max_i64; lia). case_test; split_bool; nia.
  - assert (M < p) as HMp by nia.
    assert (i64 (B * p) <= 0 \/ p <= i64 (B * p)) as Hi.
    { rewrite i64_div. unfold p in *. destruct (Z.le_gt_cases (k - 1) 64).
      - generalize ((B * 2 ^ (k - 1) + 2 ^ 63) / 2 ^ 64) as q. intros q.
        replace (2 ^ 64) with (2 ^ (k - 1) * 2 ^ (64 - (k - 1)))
          by (rewrite <- Z.pow_add_r by lia; f_equal; lia).
        replace (B * 2 ^ (k - 1) - 2 ^ (k - 1) * 2 ^ (64 - (k - 1)) * q)
          with (2 ^ (k - 1) * (B - 2 ^ (64 - (k - 1)) * q)) by ring.
        generalize (B - 2 ^ (64 - (k - 1)) * q). intros c. destruct (Z.le_gt_cases c 0).
        + left. apply Z.mul_nonneg_nonpos; lia.
        + right. rewrite <- (Z.mul_1_r (2 ^ (k - 1))) at 1. apply Z.mul_le_mono_nonneg_l; lia.
      - left. replace (2 ^ (k - 1)) with (2 ^ 64 * 2 ^ (k - 1 - 64))
          by (rewrite <- Z.pow_add_r by lia; f_equal; lia).
        generalize (2 ^ (k - 1 - 64)). intros q.
        replace (B * (2 ^ 64 * q) + 2 ^ 63) with (2 ^ 63 + (B * q) * 2 ^ 64) by ring.
        rewrite Z.div_add, Z.div_small by lia. lia. }
    rewrite Z.min_r by nia. case_test; [done|]. split_bool; lia.
Qed.

Lemma backoff_exact_witness : backoff_of cfg0 60 = Z.min (500 * ns_per_ms * 2 ^ 59) (5 * ns_per_s).
Proof. apply (backoff_exact cfg0 60); [done|done|done|lia]. Defined.

Lemma pick_clamped snap idx :
  0 <= idx -> pick_endpoint snap idx = snap !! Nat.min (Z.to_nat idx) (length snap - 1).
Proof.
  intros Hi. unfold pick_endpoint. case_test; bool_to_prop; f_equal; lia.
Qed.

(** Walking the tiers by MISS answers: attempt [k] of a fresh gap asks the
    [k]-th endpoint of the snapshot, clamped to the deepest; as long as a tier is
    left the MISS costs no retry round, and from the deepest tier on every MISS
    costs exactly one. *)
Theorem tier_walk (cfg : TrackerConfig) (snap : list EndpointEntry) (now rnd : Z) (e : gapEntry) (k : nat) :
  ge_endpointIdx e = 0 -> ge_failRounds e = 0 -> snap <> [] ->
  let e' := Nat.iter k (advance_entry cfg now rnd true (Z.of_nat (length snap))) e in
  pick_endpoint snap (ge_endpointIdx e') = snap !! Nat.min k (length snap - 1) /\
  is_Some (pick_endpoint snap (ge_endpointIdx e')) /\
  ge_failRounds e' = Z.of_nat (k - (length snap - 1)).
Proof.
  intros Hi Hf Hs e'.
  assert (0 < length snap)%nat as Hn by (destruct snap; [done|simpl; lia]).
  assert (ge_endpointIdx e' = Z.of_nat k /\ ge_failRounds e' = Z.of_nat (k - (length snap - 1))) as [H1 H2].
  { unfold e'. clear e'. induction k as [|k IH]; [by split|]. rewrite Nat.iter_succ.
    set (e' := Nat.iter k _ e) in *. destruct IH as [I1 I2]. unfold advance_entry. rewrite I1.
    case_test; cbn; split_bool; split; try lia. }
  rewrite H1, pick_clamped by lia. rewrite Nat2Z.id. split; [done|]. split; [|done].
  apply lookup_lt_is_Some. lia.
Qed.

Lemma tier_walk_witness :
  let e' := Nat.iter 3 (advance_entry cfg0 0 0 true 2) (gap_of run0 7 2) in
  ge_failRounds e' = 2.
Proof.
  apply (tier_walk cfg0 [seed_entry 0 "a:1"; seed_entry 1 "b:1"] 0 0 (gap_of run0 7 2) 3);
    [vm_compute; reflexivity|vm_compute; reflexivity|discriminate].
Defined.

(** ** The answers of one attempt *)

Section Drain.
Context (reinject : option nat) (accept : nat -> bytes -> bool) (speculative : bool) (nsnap : Z).

(** One of the datagrams is an ACK whose flags satisfy [ok]. *)
Definition acked (reads : list bytes) (ok : Z -> Prop) : Prop :=
  exists d resp, d ∈ reads /\ DecodeResponse d = inl resp /\ r_MsgType resp = MsgTypeACK /\ ok (r_Flags resp).

(** What the datagrams must contain for an outcome. *)
Definition justified (reads : list bytes) (o : Outcome) (fr : option (nat * bytes)) : Prop :=
  match fr with
  | Some (f, d) =>
      reinject = Some f /\ d ∈ reads /\ (minRetransmitFrame <= length d)%nat /\
      o = (if accept f d then OCancel else OAbandon "rejected")
  | None =>
      match o with
      | OCancel =>
          acked reads (fun flags => Z.land flags respFlagUnicastSent = 0 \/
                         reinject = None /\ Z.land flags respFlagMulticastSent <> 0)
      | OAbandon reason =>
          reason = "no_recover"%string /\
          acked reads (fun flags => reinject = None /\ Z.land flags respFlagUnicastSent <> 0 /\
                         Z.land flags respFlagMulticastSent = 0)
      | OProbeMissed => speculative = true
      | OAdvance true n => n = nsnap
      | OAdvance false n => n = 0
      | OThrottle _ | OStop => True
      end
  end.

Lemma acked_cons d reads ok : acked reads ok -> acked (d :: reads) ok.
Proof. intros (d0 & resp & ? & ?). exists d0, resp. split; [by right|done]. Qed.

Lemma justified_cons d reads o fr : justified reads o fr -> justified (d :: reads) o fr.
Proof.
  unfold justified. destruct fr as [[f d0]|].
  - intros (? & ? & ? & ?). split; [done|]. split; [by right|done].
  - destruct o; auto using acked_cons. intros [? ?]. auto using acked_cons.
Qed.

Lemma data_justified f d rest :
  reinject = Some f -> is_data d = true ->
  justified (d :: rest) (if accept f d then OCancel else OAbandon "rejected") (Some (f, d)).
Proof.
  intros Hf [Hd%Nat.leb_le _]%andb_prop. split; [done|]. split; [by left|done].
Qed.

Lemma on_response_justified d rest resp :
  DecodeResponse d = inl resp ->
  match on_response reinject speculative nsnap resp with
  | Some o => justified (d :: rest) o None
  | None => True
  end.
Proof.
  intros Hr. unfold on_response.
  assert (forall ok : Z -> Prop, r_MsgType resp = MsgTypeACK -> ok (r_Flags resp) -> acked (d :: rest) ok) as Hack.
  { intros ok ? ?. exists d, resp. split; [by left|done]. }
  case_test; bool_to_prop.
  - case_test; bool_to_prop; [|apply Hack; cbn; auto].
    destruct (is_set reinject) eqn:Hi; [done|]. assert (reinject = None) by (by destruct reinject).
    case_test; bool_to_prop; cbn; [split; [done|]|]; apply Hack; cbn; auto.
  - case_test; [unfold justified; by destruct speculative|]. by case_test.
Qed.

(** C35: What may close or abandon a gap.  A cancellation means the pipeline
    accepted a retransmitted frame of this very drain, or an ACK arrived that
    does not rest on a unicast return this listener is waiting for; a frame
    handed to the callback decides the outcome; an abandonment means the
    pipeline rejected the frame, or the repair went out by unicast only with no
    callback to take it; a MISS retires the gap only if it is a probe. *)
Theorem drain_sound (unicastACK : bool) (reads : list bytes) :
  let '(o, fr) := drain reinject accept speculative nsnap unicastACK reads in justified reads o fr.
Proof.
  revert unicastACK. induction reads as [|d rest IH]; intros unicastACK; [by destruct unicastACK|].
  assert (forall u, let '(o, fr) := drain reinject accept speculative nsnap u rest in justified (d :: rest) o fr)
    as Hrec by (intros u; specialize (IH u); destruct (drain _ _ _ _ u rest); by apply justified_cons).
  cbn [drain].
  destruct (DecodeResponse d) as [resp|] eqn:Hr; cycle 1.
  { destruct reinject as [f|] eqn:Hf; [destruct (is_data d) eqn:Hd|]; [by apply data_justified|apply Hrec..]. }
  pose proof (on_response_justified d rest resp Hr) as Hc.
  destruct reinject as [f|] eqn:Hf; [destruct (is_data d) eqn:Hd; [by apply data_justified|]|];
    (destruct (on_response _ _ _ _); [done|apply Hrec]).
Qed.

End Drain.

(** Re-injection reaches the worker that owns the flow: after worker [id]
    registered its callback, a gap owned by [id] resolves to that callback, and
    the resolution of every other owner is unchanged. *)
Theorem recover_routing (t : Tracker) (id : Z) (f : nat) (owner : Z) :
  0 <= id -> recoverFor (RegisterRecover id f t) owner = if owner =? id then Some f else recoverFor t owner.
Proof.
  intros Hid. unfold RegisterRecover. rewrite (proj2 (Z.ltb_ge _ _) Hid).
  unfold recoverFor at 1; cbn [t_recovers t_recoverFn].
  set (rs := t_recovers t). set (n := Z.to_nat id). set (padded := rs ++ _).
  assert (n < length padded)%nat as Hn by (unfold padded; rewrite length_app, repeat_length; lia).
  rewrite length_insert. destruct (owner =? id) eqn:Ho; bool_to_prop.
  - subst owner. rewrite (proj2 (Z.leb_le _ _) Hid), (proj2 (Z.ltb_lt _ _)) by lia.
    cbn [andb]. by rewrite list_lookup_insert_eq.
  - unfold recoverFor. fold rs. destruct (0 <=? owner) eqn:H0; cbn [andb]; [|done]. bool_to_prop.
    rewrite list_lookup_insert_ne by lia. unfold padded.
    destruct (owner <? Z.of_nat (length rs)) eqn:H1; bool_to_prop.
    + rewrite (proj2 (Z.ltb_lt _ _)) by (rewrite length_app; lia). by rewrite lookup_app_l by lia.
    + case_test; [|done]. rewrite lookup_app_r by lia.
      destruct (repeat None (S n - length rs) !! _) as [o|] eqn:E; [|done].
      apply list_elem_of_lookup_2, list_elem_of_In, repeat_spec in E. by subst o.
Qed.

Lemma recover_routing_witness : recoverFor (RegisterRecover 2 9 run0) 2 = Some 9%nat.
Proof. exact (recover_routing run0 2 9 2 ltac:(lia)). Defined.

(** [demoteSelf] keeps the operator's endpoints (a permutation, the others in
    their order) and with an address set never puts an own endpoint before one
    of another node, so a node asks itself last. *)
Theorem demote_self_last (split : string -> option string) (parse : string -> option bytes)
    (fold : string -> string -> bool) (trim : string -> string) (eps : list string) (self : string) :
  let l := demoteSelf split parse fold trim eps self in
  let own := is_self split parse fold trim self in
  l ≡ₚ eps /\ filter (fun ep => own ep = false) l = filter (fun ep => own ep = false) eps /\
  (self <> ""%string -> forall i j a b, (i < j)%nat -> l !! i = Some a -> l !! j = Some b -> own a = true -> own b = true).
Proof.
  intros l own. unfold l, demoteSelf. fold own.
  destruct (bool_decide (self = ""%string) || _) eqn:Hc.
  - split; [done|]. split; [done|]. intros Hs i j a b Hij Hi Hj _. split_bool; [done|].
    apply Nat.ltb_lt in H. apply lookup_lt_Some in Hj. lia.
  - split; [|split].
    + rewrite <- (filter_app_complement (fun ep => own ep = false) eps) at 3.
      f_equiv. apply reflexive_eq, list_filter_iff. intros x. by destruct (own x).
    + rewrite filter_app, list_filter_filter_l by done.
      rewrite (filter_none _ (filter (fun ep => own ep = true) eps)); [apply app_nil_r|].
      intros x [Hx _]%list_elem_of_filter. congruence.
    + intros _ i j a b Hij Hi Hj Ha.
      destruct (decide (j < length (filter (fun ep => own ep = false) eps))%nat) as [Hlt|Hge].
      * rewrite lookup_app_l in Hi by lia. apply list_elem_of_lookup_2, list_elem_of_filter in Hi as [Hi _].
        congruence.
      * rewrite lookup_app_r in Hj by lia. by apply list_elem_of_lookup_2, list_elem_of_filter in Hj as [Hj _].
Qed.
