(* ===== verification/Dedup.v ===== *)
(** * Egress deduplication (dedup/dedup.go)

    The fixed-capacity set of recently forwarded frames: a map of expiries plus a
    ring of inserted keys.  The abstract specification is a window of the last
    [capacity] new keys; without a TTL the ring implements it exactly, and with
    one it still answers "seen" only for a key that was offered in time. *)

From S2P Require Import Prelude.

(** ** Data *)

Record Key := mkKey { GroupIdx : Z; SubtreeID : bytes; SeqNum : Z }.

#[global] Instance Key_eq_dec : EqDecision Key.
Proof. solve_decision. Defined.

#[global] Instance Key_countable : Countable Key.
Proof.
  apply (inj_countable' (fun k => (GroupIdx k, SubtreeID k, SeqNum k)) (fun p => mkKey p.1.1 p.1.2 p.2)).
  by intros [].
Defined.

#[global] Instance Key_inhabited : Inhabited Key := populate (mkKey 0 (zeros 32) 0).

(** The struct [Set]; [s_head] and [s_count] are indices into the ring. *)
Record DSet := mkSet {
  s_capacity : nat;
  s_ttl : Z;
  s_entries : gmap Key Z;
  s_ring : list Key;
  s_head : nat;
  s_count : nat
}.

(** ** Operations *)

Definition NewSet (capacity ttl : Z) : DSet :=
  if capacity <=? 0 then mkSet 0 0 ∅ [] 0 0
  else mkSet (Z.to_nat capacity) ttl ∅ (replicate (Z.to_nat capacity) inhabitant) 0 0.

(** [now] is the reading of the clock, in nanoseconds. *)
Definition SeenAndAdd (now : Z) (key : Key) (s : DSet) : bool * DSet :=
  if (s_capacity s =? 0)%nat then (false, s) else
  let expiry := if 0 <? s_ttl s then i64 (now + s_ttl s) else now in
  let hit := match s_entries s !! key with
             | Some exp => (s_ttl s <=? 0) || (now <=? exp)
             | None => false
             end in
  if hit then
    (true, mkSet (s_capacity s) (s_ttl s) (<[key := expiry]> (s_entries s)) (s_ring s) (s_head s) (s_count s))
  else
    let '(entries, count) :=
      if (s_count s =? s_capacity s)%nat
      then (delete (s_ring s !!! s_head s) (s_entries s), s_count s)
      else (s_entries s, S (s_count s)) in
    (false, mkSet (s_capacity s) (s_ttl s) (<[key := expiry]> entries)
              (<[s_head s := key]> (s_ring s)) ((s_head s + 1) mod s_capacity s) count).

Definition Len (s : DSet) : Z := Z.of_nat (s_count s).

(** A run of calls, oldest first. *)
Definition run (calls : list (Z * Key)) (s : DSet) : DSet :=
  fold_left (fun s c => snd (SeenAndAdd c.1 c.2 s)) calls s.

(** ** The window specification *)

(** The window holds the most recent new keys, newest first. *)
Definition window_step (capacity : nat) (key : Key) (w : list Key) : bool * list Key :=
  if bool_decide (key ∈ w) then (true, w) else (false, take capacity (key :: w)).

(** ** The ring *)

(** The slot of the [i]-th newest key. *)
Definition slot (cap head i : nat) : nat := ((head + cap - 1 - i) mod cap)%nat.

Lemma slot_eq cap head i :
  (head < cap)%nat -> (i < cap)%nat ->
  slot cap head i = (if decide (i < head)%nat then head - 1 - i else head + cap - 1 - i)%nat.
Proof.
  intros Hh Hi. unfold slot. case_decide.
  - replace (head + cap - 1 - i)%nat with (head - 1 - i + 1 * cap)%nat by lia.
    rewrite Nat.Div0.mod_add. apply Nat.mod_small. lia.
  - apply Nat.mod_small. lia.
Qed.

Lemma next_head cap head :
  (head < cap)%nat -> ((head + 1) mod cap = if decide (head + 1 = cap) then 0 else head + 1)%nat.
Proof.
  intros H. case_decide as E; [rewrite E; apply Nat.Div0.mod_same|apply Nat.mod_small; lia].
Qed.

(** The ring holds the window [w]. *)
Record ring_ok (s : DSet) (w : list Key) : Prop := mkRingOk {
  ro_cap : (0 < s_capacity s)%nat;
  ro_len : length (s_ring s) = s_capacity s;
  ro_head : (s_head s < s_capacity s)%nat;
  ro_count : s_count s = length w;
  ro_bound : (length w <= s_capacity s)%nat;
  ro_slots : forall i k, w !! i = Some k -> s_ring s !! slot (s_capacity s) (s_head s) i = Some k;
  ro_entries : forall k, is_Some (s_entries s !! k) -> k ∈ w
}.

(** Overwriting the head slot shifts the window. *)
Lemma ring_push s w key entries count :
  ring_ok s w -> count = length (take (s_capacity s) (key :: w)) ->
  (forall k, is_Some (entries !! k) -> k ∈ take (s_capacity s) (key :: w)) ->
  ring_ok (mkSet (s_capacity s) (s_ttl s) entries (<[s_head s := key]> (s_ring s))
             ((s_head s + 1) mod s_capacity s) count) (take (s_capacity s) (key :: w)).
Proof.
  intros [H1 H2 H3 H4 H5 H6 H7] Hc He. split; cbn [s_capacity s_ring s_head s_count s_entries]; auto.
  - by rewrite length_insert.
  - apply Nat.mod_upper_bound. lia.
  - rewrite length_take. lia.
  - intros i k [Hi Hlt]%lookup_take_Some.
    rewrite slot_eq; [|apply Nat.mod_upper_bound; lia|lia]. rewrite next_head by lia.
    destruct i as [|i]; cbn in Hi.
    + simplify_eq. rewrite list_lookup_insert_Some. left.
      destruct (decide (_ + 1 = _)%nat); case_decide; (split; [lia|]; split; [done|lia]).
    + specialize (H6 i k Hi). rewrite slot_eq in H6 by lia.
      rewrite list_lookup_insert_ne by (destruct (decide (_ + 1 = _)%nat); repeat case_decide; lia).
      rewrite <- H6. f_equal. destruct (decide (_ + 1 = _)%nat); repeat case_decide; lia.
Qed.

(** The oldest key of a full window is in the head slot. *)
Lemma ring_oldest s w k :
  ring_ok s w -> length w = s_capacity s -> last w = Some k -> s_ring s !!! s_head s = k.
Proof.
  intros [H1 H2 H3 H4 H5 H6 H7] Hf Hl. rewrite last_lookup in Hl. specialize (H6 _ _ Hl).
  rewrite slot_eq in H6 by lia. apply list_lookup_total_correct.
  rewrite <- H6. f_equal. case_decide; lia.
Qed.

Lemma NewSet_ring cap ttl : 0 < cap -> ring_ok (NewSet cap ttl) [].
Proof.
  intros H. unfold NewSet. rewrite (proj2 (Z.leb_gt _ _)) by lia.
  split; cbn [s_capacity s_ring s_head s_count s_entries]; auto; try (cbn; lia).
  - by rewrite length_replicate.
  - intros i k Hk. by rewrite lookup_nil in Hk.
  - intros k Hk. by apply lookup_empty_is_Some in Hk.
Qed.

(** Without a TTL the entries are exactly the window. *)
Record window_ok (s : DSet) (w : list Key) : Prop := mkWindowOk {
  wo_ring : ring_ok s w;
  wo_ttl : s_ttl s <= 0;
  wo_all : forall k, k ∈ w -> is_Some (s_entries s !! k);
  wo_nodup : NoDup w
}.

Lemma take_window cap (key : Key) w :
  (0 < cap)%nat -> (length w <= cap)%nat ->
  take cap (key :: w) = key :: (if decide (length w = cap) then removelast w else w).
Proof.
  intros H0 Hl. destruct cap as [|cap]; [lia|]. cbn. f_equal. case_decide as Hd.
  - rewrite removelast_firstn_len, Hd. done.
  - apply take_ge. lia.
Qed.

Lemma removelast_split (w : list Key) k : last w = Some k -> w = removelast w ++ [k].
Proof.
  intros Hl. apply last_Some in Hl as [l' ->]. by rewrite removelast_last.
Qed.

(** What the map loses on an insertion is what the window loses. *)
Lemma evict_window s w key entries count :
  ring_ok s w ->
  (if (s_count s =? s_capacity s)%nat
   then (delete (s_ring s !!! s_head s) (s_entries s), s_count s)
   else (s_entries s, S (s_count s))) = (entries, count) ->
  let rest := if decide (length w = s_capacity s) then removelast w else w in
  count = length (key :: rest) /\
  (forall k, is_Some (entries !! k) -> k ∈ rest) /\
  (NoDup w -> (forall k, k ∈ w -> is_Some (s_entries s !! k)) -> forall k, k ∈ rest -> is_Some (entries !! k)).
Proof.
  intros Hr He rest. pose proof Hr as [H1 H2 H3 H4 H5 H6 H7]. rewrite H4 in He. unfold rest. clear rest.
  destruct (decide (length w = s_capacity s)) as [Hf|Hf].
  - rewrite (proj2 (Nat.eqb_eq _ _) Hf) in He. simplify_eq.
    destruct (last w) as [o|] eqn:Hl; [|apply last_None in Hl; subst w; cbn in *; lia].
    rewrite (ring_oldest s w o Hr Hf Hl). pose proof (removelast_split w o Hl) as Hw.
    assert (length w = S (length (removelast w))) as Hlen by (rewrite Hw at 1; rewrite length_app; cbn; lia).
    split; [cbn; lia|]. split.
    + intros k [Hne Hk%H7]%lookup_delete_is_Some. rewrite Hw in Hk.
      apply elem_of_app in Hk as [?|Hk]; [done|]. apply list_elem_of_singleton in Hk. congruence.
    + intros Hnd Hall k Hk. rewrite lookup_delete_is_Some. rewrite Hw in Hnd.
      apply NoDup_app in Hnd as (_ & Hd & _). split.
      * intros ->. apply (Hd k Hk), list_elem_of_singleton. done.
      * apply Hall. rewrite Hw. by apply elem_of_app; left.
  - rewrite (proj2 (Nat.eqb_neq _ _) Hf) in He. simplify_eq. split; [cbn; lia|]. auto.
Qed.

(** One call keeps the ring, whatever the TTL. *)
Lemma SeenAndAdd_ring now key s w :
  ring_ok s w -> exists w', ring_ok (snd (SeenAndAdd now key s)) w' /\ s_capacity (snd (SeenAndAdd now key s)) = s_capacity s.
Proof.
  intros Hr. pose proof Hr as [H1 H2 H3 H4 H5 H6 H7]. unfold SeenAndAdd.
  rewrite (proj2 (Nat.eqb_neq _ _)) by lia. case_test.
  - exists w. split; [|done]. split; cbn [snd s_capacity s_ring s_head s_count s_entries]; auto.
    intros k Hk. destruct (decide (k = key)) as [->|Hne].
    + apply H7. by destruct (s_entries s !! key).
    + apply H7. by rewrite lookup_insert_ne in Hk.
  - destruct (if (s_count s =? s_capacity s)%nat then _ else _) as [entries count] eqn:He.
    destruct (evict_window s w key entries count Hr He) as (E1 & E2 & _). cbn [snd].
    exists (take (s_capacity s) (key :: w)). split; [|done]. apply ring_push; [done| |].
    + rewrite take_window by done. exact E1.
    + intros k Hk. rewrite take_window by done. destruct (decide (k = key)) as [->|Hne]; [left|].
      right. apply E2. by rewrite lookup_insert_ne in Hk.
Qed.

Lemma SeenAndAdd_window now key s w :
  window_ok s w ->
  fst (SeenAndAdd now key s) = fst (window_step (s_capacity s) key w) /\
  window_ok (snd (SeenAndAdd now key s)) (snd (window_step (s_capacity s) key w)) /\
  s_capacity (snd (SeenAndAdd now key s)) = s_capacity s.
Proof.
  intros [Hr Ht Ha Hn]. pose proof Hr as [H1 H2 H3 H4 H5 H6 H7]. unfold SeenAndAdd, window_step.
  rewrite (proj2 (Nat.eqb_neq _ _)) by lia. rewrite (proj2 (Z.leb_le _ _) Ht).
  destruct (s_entries s !! key) as [x|] eqn:Hk; cbn [orb].
  - rewrite bool_decide_true by (apply H7; by eexists). split; [done|]. split; [|done].
    split; auto; [split; cbn [snd s_capacity s_ring s_head s_count s_entries]; auto|]; intros k Hk'.
    + destruct (decide (k = key)) as [->|Hne]; [apply H7; by eexists|].
      apply H7. by rewrite lookup_insert_ne in Hk'.
    + cbn. destruct (decide (k = key)) as [->|Hne]; [by rewrite lookup_insert_eq|].
      rewrite lookup_insert_ne by done. auto.
  - assert (key ∉ w) as Hout by (intros Hin; destruct (Ha key Hin); congruence).
    rewrite bool_decide_false by done.
    destruct (if (s_count s =? s_capacity s)%nat then _ else _) as [entries count] eqn:He.
    destruct (evict_window s w key entries count Hr He) as (E1 & E2 & E3). cbn [fst snd].
    split; [done|]. split; [|done]. rewrite take_window by done.
    assert (forall k, k ∈ (if decide (length w = s_capacity s) then removelast w else w) -> k ∈ w) as Hsub.
    { intros k. case_decide; [|done]. destruct (last w) as [o|] eqn:Hl.
      - intros. rewrite (removelast_split w o Hl). by apply elem_of_app; left.
      - apply last_None in Hl. by subst w. }
    split.
    + rewrite <- take_window by done. apply ring_push; [done| |]; rewrite take_window by done; [exact E1|].
      intros k Hk'. destruct (decide (k = key)) as [->|Hne]; [left|].
      right. apply E2. by rewrite lookup_insert_ne in Hk'.
    + done.
    + cbn. intros k [->|Hin]%elem_of_cons; [by rewrite lookup_insert_eq|].
      rewrite lookup_insert_ne by (intros <-; auto). auto.
    + apply NoDup_cons. split; [auto|]. case_decide; [|done]. destruct (last w) as [o|] eqn:Hl.
      * rewrite (removelast_split w o Hl) in Hn. by apply NoDup_app in Hn as [? _].
      * apply last_None in Hl. by subst w.
Qed.

(** ** Theorems *)

Lemma run_snoc calls c s : run (calls ++ [c]) s = snd (SeenAndAdd c.1 c.2 (run calls s)).
Proof. unfold run. by rewrite fold_left_app. Qed.

Definition key0 (n : Z) : Key := mkKey 3 (zeros 32) n.

(** C39: Without a TTL the ring and map implement the window specification: after
    any sequence of calls the set answers "seen" exactly for the last [capacity]
    distinct new keys, no matter how often they were offered in between. *)
Theorem dedup_window (cap ttl : Z) (calls : list (Z * Key)) (now : Z) (key : Key) :
  0 < cap -> ttl <= 0 ->
  let w := fold_left (fun w c => snd (window_step (Z.to_nat cap) c.2 w)) calls [] in
  fst (SeenAndAdd now key (run calls (NewSet cap ttl))) = bool_decide (key ∈ w) /\
  (length w <= Z.to_nat cap)%nat /\ NoDup w.
Proof.
  intros Hc Ht w.
  assert (window_ok (run calls (NewSet cap ttl)) w /\
          s_capacity (run calls (NewSet cap ttl)) = Z.to_nat cap) as [Hw Hcap].
  { unfold w. clear w. induction calls as [|c calls IH] using rev_ind.
    - split; [|unfold NewSet; by rewrite (proj2 (Z.leb_gt _ _)) by lia]. split; [by apply NewSet_ring| | |].
      + unfold NewSet. rewrite (proj2 (Z.leb_gt _ _)) by lia. done.
      + by intros k ?%elem_of_nil.
      + apply NoDup_nil_2.
    - destruct IH as [IH1 IH2]. rewrite run_snoc, fold_left_app. cbn [fold_left].
      destruct (SeenAndAdd_window c.1 c.2 _ _ IH1) as (_ & H & Hcap). rewrite IH2 in *. auto. }
  destruct (SeenAndAdd_window now key _ _ Hw) as (-> & _ & _). rewrite Hcap. unfold window_step.
  split; [by case_bool_decide|]. destruct Hw as [[] ? ? ?]. by rewrite <- Hcap.
Qed.

Lemma dedup_window_witness :
  fst (SeenAndAdd 9 (key0 1) (run [(1, key0 1); (2, key0 2); (3, key0 1); (4, key0 3)] (NewSet 2 0))) = false.
Proof.
  destruct (dedup_window 2 0 [(1, key0 1); (2, key0 2); (3, key0 1); (4, key0 3)] 9 (key0 1)) as [-> _];
    [lia|lia|vm_compute; reflexivity].
Defined.

(** Every remembered key was offered, and its expiry is that of an offer. *)
Definition offered (ttl : Z) (calls : list (Z * Key)) (s : DSet) : Prop :=
  s_ttl s = ttl /\
  forall k exp, s_entries s !! k = Some exp ->
    exists at_, (at_, k) ∈ calls /\ exp = if 0 <? ttl then i64 (at_ + ttl) else at_.

Lemma SeenAndAdd_offered ttl calls now key s :
  offered ttl calls s -> offered ttl (calls ++ [(now, key)]) (snd (SeenAndAdd now key s)).
Proof.
  intros [Ht Hin].
  assert (forall m : gmap Key Z, (forall k, m !! k = s_entries s !! k \/ m !! k = None) ->
    forall k exp, (<[key := if 0 <? s_ttl s then i64 (now + s_ttl s) else now]> m) !! k = Some exp ->
    exists a, (a, k) ∈ calls ++ [(now, key)] /\ exp = if 0 <? ttl then i64 (a + ttl) else a) as Hm.
  { intros m Hm k exp. rewrite Ht. destruct (decide (k = key)) as [->|Hne].
    - rewrite lookup_insert_eq. intros [= <-]. exists now. split; [|done]. apply elem_of_app. right. by left.
    - rewrite lookup_insert_ne by done. destruct (Hm k) as [-> | ->]; [|done]. intros He.
      destruct (Hin k exp He) as (a & Ha & ->). exists a. split; [|done]. by apply elem_of_app; left. }
  unfold SeenAndAdd. case_test.
  { split; [done|]. intros k exp He. destruct (Hin k exp He) as (a & Ha & ->).
    exists a. split; [|done]. by apply elem_of_app; left. }
  case_test; [split; [done|apply Hm; auto]|].
  destruct (if (s_count s =? _)%nat then _ else _) as [entries count] eqn:He. split; [done|].
  cbn. apply Hm. intros k. destruct ((s_count s =? _)%nat); simplify_eq; [|auto].
  destruct (decide (k = s_ring s !!! s_head s)) as [->|Hne]; [right; apply lookup_delete_eq|].
  left. by apply lookup_delete_ne.
Qed.

Lemma run_offered cap ttl calls : 0 < cap -> offered ttl calls (run calls (NewSet cap ttl)).
Proof.
  intros Hc. induction calls as [|[now key] calls IH] using rev_ind.
  - unfold run, NewSet. rewrite (proj2 (Z.leb_gt _ _)) by lia. split; [done|].
    intros k e He. cbn in He. by rewrite lookup_empty in He.
  - rewrite run_snoc. by apply SeenAndAdd_offered.
Qed.

Lemma run_ring cap ttl calls : 0 < cap ->
  exists w, ring_ok (run calls (NewSet cap ttl)) w /\ s_capacity (run calls (NewSet cap ttl)) = Z.to_nat cap.
Proof.
  intros Hc. induction calls as [|c calls (w & Hr & Hcap)] using rev_ind.
  - exists []. split; [by apply NewSet_ring|]. unfold run, NewSet. by rewrite (proj2 (Z.leb_gt _ _)) by lia.
  - rewrite run_snoc. destruct (SeenAndAdd_ring c.1 c.2 _ w Hr) as (w' & Hr' & Hc').
    exists w'. split; [done|]. by rewrite Hc'.
Qed.

(** The map never outgrows the window. *)
Lemma entries_bound s w : ring_ok s w -> (size (s_entries s) <= length w)%nat.
Proof.
  intros [_ _ _ _ _ _ Hin]. rewrite <- length_map_to_list, <- (length_fmap fst).
  apply submseteq_length, NoDup_submseteq; [apply NoDup_fst_map_to_list|].
  intros k [[k' v] [-> Hk%elem_of_map_to_list]]%list_elem_of_fmap. apply Hin. by exists v.
Qed.

Lemma run_disabled cap ttl calls : cap <= 0 -> run calls (NewSet cap ttl) = mkSet 0 0 ∅ [] 0 0.
Proof.
  intros Hc. unfold NewSet. rewrite (proj2 (Z.leb_le _ _) Hc). unfold run.
  apply (fold_left_inv _ (fun x => x = mkSet 0 0 ∅ [] 0 0)); [done|]. by intros ? c _ ->.
Qed.

(** A duplicate verdict is never invented: whatever the capacity, the TTL and
    the clock, the set calls a key "seen" only if the same key was offered before,
    and with a TTL only until that offer's expiry; and it never remembers more
    keys than its capacity. *)
Theorem dedup_sound (cap ttl : Z) (calls : list (Z * Key)) (now : Z) (key : Key) :
  let s := run calls (NewSet cap ttl) in
  (fst (SeenAndAdd now key s) = true ->
     exists at_, (at_, key) ∈ calls /\ (0 < ttl -> now <= i64 (at_ + ttl))) /\
  Z.of_nat (size (s_entries s)) <= Z.max cap 0 /\ Len s <= Z.max cap 0.
Proof.
  intros s. destruct (Z.le_gt_cases cap 0) as [Hc|Hc].
  { unfold s. rewrite run_disabled by done. unfold Len; cbn -[size]. rewrite map_size_empty. split; [done|lia]. }
  destruct (run_ring cap ttl calls Hc) as (w & Hr & Hcap), (run_offered cap ttl calls Hc) as [Httl Hin].
  fold s in Hr, Hcap, Httl, Hin. clearbody s. pose proof (entries_bound s w Hr).
  destruct Hr as [H1 H2 H3 H4 H5 H6 H7]. split; [|unfold Len; lia].
  unfold SeenAndAdd. rewrite (proj2 (Nat.eqb_neq _ _)) by lia.
  destruct (s_entries s !! key) as [exp|] eqn:He; [|by destruct (if (s_count s =? _)%nat then _ else _)].
  destruct (Hin _ _ He) as (a & Ha & ->). intros Hhit. exists a. split; [done|]. intros Hpos.
  rewrite Httl, (proj2 (Z.leb_gt ttl 0) Hpos), (proj2 (Z.ltb_lt 0 ttl) Hpos) in Hhit. cbn [orb] in Hhit.
  destruct (now <=? i64 (a + ttl)) eqn:E; [by bool_to_prop|]. by destruct (if (_ =? _)%nat then _ else _).
Qed.

(** With a TTL the window can be cut short.  Key 1 goes stale and is inserted
    again while its first ring slot is still there; recycling that slot deletes
    the fresh entry, so key 1 is taken for new within its TTL after a single
    other insertion. *)
Theorem dedup_forgets_fresh_key :
  let s := run [(0, key0 1); (1, key0 2); (20, key0 1); (21, key0 3)] (NewSet 3 10) in
  fst (SeenAndAdd 22 (key0 1) s) = false.
Proof. vm_compute. reflexivity. Qed.
