(* ===== verification/SubtreeGroup.v ===== *)
(** * Subtree-group membership (subtreegroup/registry.go)

    The registry of live (group, subtree) memberships of the subscribed groups.
    Its specification is a registry that never evicts: eviction only bounds
    memory and no later query can tell it happened. *)

From S2P Require Import Prelude.

Module SubtreeGroup.

(** ** State and operations *)

Record Registry := mkRegistry {
  subscribedGroups : gset bytes;
  entries : gmap bytes (gmap bytes Z);
  defaultTTL : Z
}.

Definition New (subscribed : list bytes) (ttl : Z) : Registry :=
  mkRegistry (list_to_set subscribed)
    (fold_left (fun m g => <[g := ∅]> m) subscribed ∅) ttl.

Definition Add (now : Z) (groupID subtreeID : bytes) (ttl : Z) (r : Registry) : Registry :=
  if bool_decide (groupID ∈ subscribedGroups r) then
    let ttl := if ttl <=? 0 then defaultTTL r else ttl in
    mkRegistry (subscribedGroups r)
      (alter (fun subs => <[subtreeID := time_add now ttl]> subs) groupID (entries r)) (defaultTTL r)
  else r.

Definition Remove (groupID subtreeID : bytes) (r : Registry) : Registry :=
  if bool_decide (groupID ∈ subscribedGroups r) then
    mkRegistry (subscribedGroups r)
      (alter (fun subs => delete subtreeID subs) groupID (entries r)) (defaultTTL r)
  else r.

(** [now gid] is the reading of the clock when the loop is at group [gid]. *)
Definition Contains (now : bytes -> Z) (subtreeID : bytes) (r : Registry) : bool :=
  existsb (fun p => match p.2 !! subtreeID with
                    | Some expiry => before (now p.1) expiry
                    | None => false
                    end) (map_to_list (entries r)).

Definition Evict (now : Z) (r : Registry) : Registry :=
  mkRegistry (subscribedGroups r)
    ((fun subs => filter (fun p => after now p.2 = false) subs) <$> entries r) (defaultTTL r).

Definition Len (r : Registry) : Z :=
  map_fold (fun _ subs n => n + Z.of_nat (size subs)) 0 (entries r).

(** The number of entries a call of [Evict] reports. *)
Definition evicted (now : Z) (r : Registry) : Z := Len r - Len (Evict now r).

(** ** The specification without eviction *)

Inductive Op :=
| OpAdd (now : Z) (g s : bytes) (ttl : Z)
| OpRemove (g s : bytes)
| OpEvict (now : Z).

Definition apply_op (r : Registry) (o : Op) : Registry :=
  match o with
  | OpAdd now g s ttl => Add now g s ttl r
  | OpRemove g s => Remove g s r
  | OpEvict now => Evict now r
  end.

(** The expiry of membership [(g, s)] after the operations, newest first. *)
Fixpoint member_spec (subscribed : list bytes) (dflt : Z) (newest_first : list Op) (g s : bytes) : option Z :=
  match newest_first with
  | [] => None
  | OpAdd now g' s' ttl :: rest =>
      if bool_decide (g = g' /\ s = s' /\ g ∈ subscribed)
      then Some (time_add now (if ttl <=? 0 then dflt else ttl))
      else member_spec subscribed dflt rest g s
  | OpRemove g' s' :: rest =>
      if bool_decide (g = g' /\ s = s') then None else member_spec subscribed dflt rest g s
  | OpEvict _ :: rest => member_spec subscribed dflt rest g s
  end.

(** ** Lemmas *)

Definition lookup2 (r : Registry) (g s : bytes) : option Z :=
  match entries r !! g with Some subs => subs !! s | None => None end.

Lemma Contains_spec now s r :
  Contains now s r = true <-> exists g x, lookup2 r g s = Some x /\ before (now g) x = true.
Proof.
  unfold Contains, lookup2. rewrite existsb_exists. split.
  - intros ([g subs] & Hin & Hb). cbn in Hb. apply list_elem_of_In, elem_of_map_to_list in Hin.
    destruct (subs !! s) as [x|] eqn:E; [|done]. exists g, x. by rewrite Hin, E.
  - intros (g & x & Hl & Hb). destruct (entries r !! g) as [subs|] eqn:E; [|done].
    exists (g, subs). split; [by apply list_elem_of_In, elem_of_map_to_list|]. cbn. by rewrite Hl.
Qed.

Lemma New_entries subscribed ttl g :
  entries (New subscribed ttl) !! g = if bool_decide (g ∈ subscribed) then Some ∅ else None.
Proof.
  cbn. assert (forall m : gmap bytes (gmap bytes Z),
    fold_left (fun m g => <[g := ∅]> m) subscribed m !! g = if bool_decide (g ∈ subscribed) then Some ∅ else m !! g) as H.
  { induction subscribed as [|a l IH]; intros m; [done|]. cbn. rewrite IH. destruct (decide (g = a)) as [->|Hne].
    - rewrite lookup_insert_eq, (bool_decide_true (a ∈ a :: l)) by left. by case_bool_decide.
    - rewrite lookup_insert_ne by done. rewrite (bool_decide_ext (g ∈ a :: l) (g ∈ l)); [done|].
      rewrite elem_of_cons. split; [by intros [?|?]|by right]. }
  rewrite H. by case_bool_decide.
Qed.

(** A stored membership against the specified one: the same, or removed by an
    eviction after it expired. *)
Definition up_to_eviction (ops : list Op) (spec v : option Z) : Prop :=
  v = spec \/ v = None /\ exists x now, spec = Some x /\ OpEvict now ∈ ops /\ x < now.

(** The stored memberships are those of the specification, less expired ones the
    last eviction may have removed. *)
Record simulates (subscribed : list bytes) (dflt : Z) (ops : list Op) (r : Registry) : Prop := mkSim {
  sim_subs : subscribedGroups r = list_to_set subscribed;
  sim_ttl : defaultTTL r = dflt;
  sim_groups : forall g, is_Some (entries r !! g) <-> g ∈ subscribed;
  sim_members : forall g s, up_to_eviction ops (member_spec subscribed dflt (reverse ops) g s) (lookup2 r g s)
}.

Lemma up_to_eviction_snoc ops o spec v : up_to_eviction ops spec v -> up_to_eviction (ops ++ [o]) spec v.
Proof.
  intros [Hl|[Hl (x & now & ? & ? & ?)]]; [by left|right]. split; [done|].
  exists x, now. split; [done|]. split; [|done]. by apply elem_of_app; left.
Qed.

Lemma lookup2_alter g0 f r g s subs0 ttl0 :
  lookup2 (mkRegistry subs0 (alter f g0 (entries r)) ttl0) g s =
  if bool_decide (g = g0) then match entries r !! g with Some subs => f subs !! s | None => None end
  else lookup2 r g s.
Proof.
  unfold lookup2; cbn. case_bool_decide as H.
  - subst g0. rewrite lookup_alter_eq. by destruct (entries r !! g).
  - by rewrite lookup_alter_ne.
Qed.

Lemma lookup2_Evict now r g s :
  lookup2 (Evict now r) g s = match lookup2 r g s with Some x => if after now x then None else Some x | None => None end.
Proof.
  unfold lookup2; cbn [entries Evict]. rewrite lookup_fmap. destruct (entries r !! g) as [subs|]; [|done]. cbn.
  destruct (subs !! s) as [x|] eqn:Es; [destruct (after now x) eqn:Ha|].
  - apply map_lookup_filter_None. right. intros y Hy. cbn. congruence.
  - by apply map_lookup_filter_Some_2.
  - apply map_lookup_filter_None. by left.
Qed.

Lemma simulates_Add subscribed dflt ops r now g0 s0 ttl :
  simulates subscribed dflt ops r -> simulates subscribed dflt (ops ++ [OpAdd now g0 s0 ttl]) (apply_op r (OpAdd now g0 s0 ttl)).
Proof.
  intros [H1 H2 H3 H4]. cbn [apply_op]. unfold Add.
  rewrite H1, (bool_decide_ext (g0 ∈ list_to_set subscribed) (g0 ∈ subscribed)) by apply elem_of_list_to_set.
  case_bool_decide as Hin; split; auto; try (intros g); cbn [entries].
  - by rewrite lookup_alter_is_Some.
  - intros s. rewrite reverse_snoc, lookup2_alter. cbn [member_spec].
    destruct (bool_decide_reflect (g = g0)) as [->|Hg].
    + destruct (proj2 (H3 g0) Hin) as [subs Hsubs]. rewrite Hsubs. destruct (decide (s = s0)) as [->|Hs].
      { rewrite lookup_insert_eq, bool_decide_true, H2 by done. by left. }
      rewrite lookup_insert_ne, (bool_decide_false (g0 = g0 /\ s = s0 /\ _)) by (intuition congruence).
      replace (subs !! s) with (lookup2 r g0 s) by (unfold lookup2; by rewrite Hsubs). by apply up_to_eviction_snoc.
    + rewrite (bool_decide_false (g = g0 /\ _)) by (intuition congruence). by apply up_to_eviction_snoc.
  - intros s. rewrite reverse_snoc. cbn [member_spec].
    rewrite bool_decide_false by (intros (-> & _ & ?); done). by apply up_to_eviction_snoc.
Qed.

Lemma simulates_Remove subscribed dflt ops r g0 s0 :
  simulates subscribed dflt ops r -> simulates subscribed dflt (ops ++ [OpRemove g0 s0]) (apply_op r (OpRemove g0 s0)).
Proof.
  intros [H1 H2 H3 H4]. cbn [apply_op]. unfold Remove.
  rewrite H1, (bool_decide_ext (g0 ∈ list_to_set subscribed) (g0 ∈ subscribed)) by apply elem_of_list_to_set.
  case_bool_decide as Hin; split; auto; try (intros g); cbn [entries].
  - by rewrite lookup_alter_is_Some.
  - intros s. rewrite reverse_snoc, lookup2_alter. cbn [member_spec].
    destruct (bool_decide_reflect (g = g0)) as [->|Hg].
    + destruct (proj2 (H3 g0) Hin) as [subs Hsubs]. rewrite Hsubs. destruct (decide (s = s0)) as [->|Hs].
      { rewrite lookup_delete_eq, bool_decide_true by done. by left. }
      rewrite lookup_delete_ne, (bool_decide_false (g0 = g0 /\ s = s0)) by (intuition congruence).
      replace (subs !! s) with (lookup2 r g0 s) by (unfold lookup2; by rewrite Hsubs). by apply up_to_eviction_snoc.
    + rewrite (bool_decide_false (g = g0 /\ _)) by (intuition congruence). by apply up_to_eviction_snoc.
  - intros s. rewrite reverse_snoc. cbn [member_spec]. case_bool_decide as Hg; [|by apply up_to_eviction_snoc].
    destruct Hg as [-> ->]. left. unfold lookup2. destruct (entries r !! g0) eqn:E; [|done].
    destruct Hin. apply H3. by rewrite E.
Qed.

Lemma simulates_step subscribed dflt ops r o :
  simulates subscribed dflt ops r -> simulates subscribed dflt (ops ++ [o]) (apply_op r o).
Proof.
  destruct o as [now g0 s0 ttl|g0 s0|now]; [apply simulates_Add|apply simulates_Remove|].
  intros [H1 H2 H3 H4]. cbn [apply_op]. split; auto; intros g.
  - cbn [entries Evict]. rewrite lookup_fmap, fmap_is_Some. auto.
  - intros s. rewrite reverse_snoc, lookup2_Evict. cbn [member_spec].
    assert (Hold := up_to_eviction_snoc ops (OpEvict now) _ _ (H4 g s)).
    destruct (lookup2 r g s) as [x|] eqn:El; [|done]. destruct (after now x) eqn:Ha; [|done].
    right. split; [done|]. exists x, now. destruct (H4 g s) as [Hs|[Hs _]]; [|congruence].
    split; [congruence|]. split; [apply elem_of_app; right; by left|]. by apply Z.ltb_lt.
Qed.

Lemma simulates_run subscribed dflt ops :
  simulates subscribed dflt ops (fold_left apply_op ops (New subscribed dflt)).
Proof.
  induction ops as [|o ops IH] using rev_ind.
  - split; [done|done| |].
    + intros g. cbn [fold_left]. rewrite New_entries. case_bool_decide; [by split|]. split; [by intros []|done].
    + intros g s. left. cbn [fold_left]. unfold lookup2. rewrite New_entries. by case_bool_decide.
  - rewrite fold_left_app. by apply simulates_step.
Qed.

(** ** Theorem *)

(** The registry answers like one that keeps every membership for ever: for
    any sequence of additions, removals and evictions, a query whose clock is not
    behind the evictions finds a subtree exactly when the latest addition to some
    subscribed group, not removed since, has not expired.  Announcements for
    other groups have no effect, and evictions are invisible. *)
Theorem membership_spec (subscribed : list bytes) (dflt : Z) (ops : list Op) (now : bytes -> Z) (s : bytes) :
  (forall te g, OpEvict te ∈ ops -> te <= now g) ->
  Contains now s (fold_left apply_op ops (New subscribed dflt)) = true <->
  exists g x, g ∈ subscribed /\ member_spec subscribed dflt (reverse ops) g s = Some x /\ now g < x.
Proof.
  intros Hclk. pose proof (simulates_run subscribed dflt ops) as [_ _ H3 H4].
  set (r := fold_left _ _ _) in *. rewrite Contains_spec. unfold before. split.
  - intros (g & x & Hl & Hb%Z.ltb_lt). exists g, x. split; [|split; [|done]].
    + apply H3. unfold lookup2 in Hl. by destruct (entries r !! g).
    + destruct (H4 g s) as [Hs|[Hs _]]; congruence.
  - intros (g & x & _ & Hm & Hb). exists g, x. split; [|by apply Z.ltb_lt].
    destruct (H4 g s) as [Hs|(Hs & y & te & Hy & Hin & Hlt)]; [congruence|].
    specialize (Hclk te g Hin). simplify_eq. lia.
Qed.

Lemma membership_spec_witness :
  Contains (fun _ => 50) [7] (fold_left apply_op [OpAdd 0 [1] [7] 100; OpAdd 0 [9] [7] 0; OpEvict 40] (New [[1]] 10)) = true.
Proof.
  apply (membership_spec [[1]] 10 [OpAdd 0 [1] [7] 100; OpAdd 0 [9] [7] 0; OpEvict 40] (fun _ => 50) [7]).
  - intros te g Hin. rewrite !elem_of_cons, elem_of_nil in Hin. destruct Hin as [|[|[|]]]; [discriminate|discriminate| |done].
    simplify_eq. lia.
  - exists [1], 100. split; [by left|]. split; [vm_compute; reflexivity|lia].
Defined.

End SubtreeGroup.
