(* ===== verification/Filter.v ===== *)
(** * Frame and sender filters (filter/filter.go, filter/sender.go) and the
    subtree-group announcements (discovery/subtree_group_announce.go)

    Allow and deny lists for shards and subtrees, the CIDR access list on
    sources, and the handler that feeds the subtree-group registry. *)

From S2P Require Import Prelude Discovery SubtreeGroup.

(** ** The frame filter *)

(** A nil map is [None]. *)
Record Filter := mkFilter {
  shardInclude : option (gset Z);
  subtreeInclude : option (gset bytes);
  subtreeExclude : option (gset bytes);
  groupReg : option SubtreeGroup.Registry
}.

Definition set_of {A} `{Countable A} (l : list A) : option (gset A) :=
  match l with [] => None | _ => Some (list_to_set l) end.

Definition NewFilter (shards : list Z) (include exclude : list bytes)
    (reg : option SubtreeGroup.Registry) : Filter :=
  mkFilter (set_of shards) (set_of include) (set_of exclude) reg.

(** Membership in a possibly nil map. *)
Definition in_map {A} `{Countable A} (x : A) (m : option (gset A)) : bool :=
  match m with Some s => bool_decide (x ∈ s) | None => false end.

Definition in_group (now : bytes -> Z) (subtreeID : bytes) (reg : option SubtreeGroup.Registry) : bool :=
  match reg with Some r => SubtreeGroup.Contains now subtreeID r | None => false end.

(** [Filter.Allow]; [subtreeID] is the frame's. *)
Definition Allow (now : bytes -> Z) (f : Filter) (groupIdx : Z) (subtreeID : bytes) : bool * string :=
  if is_set (shardInclude f) && negb (in_map groupIdx (shardInclude f)) then (false, "shard_filter"%string)
  else if is_set (subtreeExclude f) && in_map subtreeID (subtreeExclude f) then (false, "subtree_exclude"%string)
  else if (is_set (subtreeInclude f) || is_set (groupReg f)) &&
          negb (in_map subtreeID (subtreeInclude f)) && negb (in_group now subtreeID (groupReg f))
  then (false, "subtree_include_miss"%string)
  else (true, ""%string).

(** ** The sender access list *)

(** [net.IP.To4]: the 4-byte form of an IPv4 or IPv4-mapped address. *)
Definition To4 (ip : bytes) : option bytes :=
  if (length ip =? 4)%nat then Some ip
  else if (length ip =? 16)%nat && bool_decide (take 12 ip = repeat 0 10 ++ [255; 255])
  then Some (drop 12 ip) else None.

Record IPNet := mkIPNet { net_IP : bytes; net_Mask : bytes }.

(** [networkNumberAndMask] of the standard library. *)
Definition networkNumberAndMask (n : IPNet) : bytes * bytes :=
  match (match To4 (net_IP n) with
         | Some ip => Some ip
         | None => if (length (net_IP n) =? 16)%nat then Some (net_IP n) else None
         end) with
  | None => ([], [])
  | Some ip =>
      let m := net_Mask n in
      if (length m =? 4)%nat then (if (length ip =? 4)%nat then (ip, m) else ([], []))
      else if (length m =? 16)%nat then (ip, if (length ip =? 4)%nat then drop 12 m else m)
      else ([], [])
  end.

(** [net.IPNet.Contains]. *)
Definition cidr_contains (n : IPNet) (ip : bytes) : bool :=
  let '(nn, m) := networkNumberAndMask n in
  let ip := match To4 ip with Some x => x | None => ip end in
  (length ip =? length nn)%nat &&
  forallb (fun p => Z.land p.1.1 p.2 =? Z.land p.1.2 p.2) (zip (zip nn ip) m).

(** A nil pointer is [None]. *)
Record SenderACL := mkSenderACL { Include : list IPNet; Exclude : list IPNet }.

Definition NewSenderACL (include exclude : list IPNet) : option SenderACL :=
  match include, exclude with
  | [], [] => None
  | _, _ => Some (mkSenderACL include exclude)
  end.

Definition AllowSender (a : option SenderACL) (ip : bytes) : bool :=
  match a with
  | None => true
  | Some a =>
      if existsb (fun cidr => cidr_contains cidr ip) (Exclude a) then false
      else match Include a with
           | [] => true
           | _ => existsb (fun cidr => cidr_contains cidr ip) (Include a)
           end
  end.

(** ** Announcements *)

Record SubtreeGroupAnnounceListener := mkAnnounceListener {
  DefaultTTL : Z;
  SenderInclude : list IPNet;
  SenderExclude : list IPNet
}.

Record Announce := mkAnnounce { ann_GroupID : bytes; ann_SubtreeID : bytes; ann_TTL : Z }.

Section Announce.

(** The frame library's size constant and decoder. *)
Variable SubtreeGroupAnnounceSize : nat.
Variable DecodeSubtreeGroupAnnounce : bytes -> option Announce.

Definition senderAllowed (sl : SubtreeGroupAnnounceListener) (src : bytes) : bool :=
  AllowSender (Some (mkSenderACL (SenderInclude sl) (SenderExclude sl))) src.

(** One datagram of the receive loop; the string is the rejection's label. *)
Definition handleAnnounce (sl : SubtreeGroupAnnounceListener) (now : Z) (buf src : bytes)
    (r : SubtreeGroup.Registry) : SubtreeGroup.Registry * option string :=
  if (length buf <? SubtreeGroupAnnounceSize)%nat then (r, Some "too_short"%string)
  else if negb (senderAllowed sl src) then (r, Some "sender_filter"%string)
  else match DecodeSubtreeGroupAnnounce buf with
       | None => (r, Some "decode_error"%string)
       | Some ann =>
           let ttl := if 0 <? ann_TTL ann then i64 (ann_TTL ann * ns_per_s) else DefaultTTL sl in
           (SubtreeGroup.Add now (ann_GroupID ann) (ann_SubtreeID ann) ttl r, None)
       end.

End Announce.

(** ** Lemmas *)

Lemma in_set_of {A} `{Countable A} (x : A) (l : list A) : in_map x (set_of l) = bool_decide (x ∈ l).
Proof.
  destruct l as [|y l]; [done|]. cbn [set_of in_map]. apply bool_decide_ext. apply elem_of_list_to_set.
Qed.

Lemma set_of_is_set {A} `{Countable A} (l : list A) : is_set (set_of l) = negb (bool_decide (l = [])).
Proof. by destruct l. Qed.

Lemma existsb_elem {A} (f : A -> bool) (l : list A) : existsb f l = true <-> exists x, x ∈ l /\ f x = true.
Proof.
  rewrite existsb_exists. split; intros (x & Hin & Hf); exists x; by (split; [apply list_elem_of_In|]).
Qed.

Lemma existsb_pointwise {A} (f g : A -> bool) (l : list A) : (forall x, f x = g x) -> existsb f l = existsb g l.
Proof. intros H. induction l as [|x l IH]; cbn; [done|]. by rewrite H, IH. Qed.

(** ** Theorems *)

(** A frame passes exactly under the package's three conditions: its shard is
    included or no shards are listed, its subtree is not excluded, and its
    subtree is statically included, or in a subscribed group, or neither kind of
    inclusion is configured.  The refusal names the first condition that fails. *)
Theorem filter_spec (now : bytes -> Z) (shards : list Z) (include exclude : list bytes)
    (reg : option SubtreeGroup.Registry) (g : Z) (sid : bytes) :
  let shard_ok := shards = [] \/ g ∈ shards in
  let subtree_ok := sid ∈ include \/ in_group now sid reg = true \/ include = [] /\ reg = None in
  match Allow now (NewFilter shards include exclude reg) g sid with
  | (true, reason) => reason = ""%string /\ shard_ok /\ (sid ∉ exclude) /\ subtree_ok
  | (false, reason) =>
      reason = "shard_filter"%string /\ ~ shard_ok \/
      reason = "subtree_exclude"%string /\ shard_ok /\ sid ∈ exclude \/
      reason = "subtree_include_miss"%string /\ shard_ok /\ (sid ∉ exclude) /\ ~ subtree_ok
  end.
Proof.
  intros shard_ok subtree_ok. unfold Allow; cbn [NewFilter shardInclude subtreeInclude subtreeExclude groupReg].
  rewrite !in_set_of, !set_of_is_set.
  destruct (negb (bool_decide (shards = [])) && negb (bool_decide (g ∈ shards))) eqn:E1.
  { left. unfold shard_ok. bool_to_prop. split; [done|]. by intros [?|?]. }
  assert shard_ok as Hs by (unfold shard_ok; split_bool; auto).
  destruct (negb (bool_decide (exclude = [])) && bool_decide (sid ∈ exclude)) eqn:E2.
  { right; left. bool_to_prop. auto. }
  assert (sid ∉ exclude) as He by (clear E1; split_bool; [subst; by intros ?%elem_of_nil|done]).
  destruct ((negb (bool_decide (include = [])) || is_set reg) && _ && _) eqn:E3.
  - right; right. split; [done|]. split; [done|]. split; [done|]. unfold subtree_ok.
    bool_to_prop. intros [?|[?|[? ->]]]; [done|congruence|]. subst. by destruct H as [H|H]; bool_to_prop.
  - split; [done|]. split; [done|]. split; [done|]. unfold subtree_ok. clear E1 E2. split_bool; auto.
    right; right. split; [done|]. by destruct reg.
Qed.

(** The sender list admits a source exactly when no excluded network holds it
    and the include list is empty or one of its networks holds it; the nil list
    the constructor returns for two empty lists behaves like that list; and an
    IPv4 source is judged the same in its 4-byte and its IPv6-mapped form. *)
Theorem sender_spec (include exclude : list IPNet) (ip : bytes) :
  let holds l := exists cidr, cidr ∈ l /\ cidr_contains cidr ip = true in
  (AllowSender (NewSenderACL include exclude) ip = true <->
     ~ holds exclude /\ (include = [] \/ holds include)) /\
  AllowSender (NewSenderACL include exclude) ip = AllowSender (Some (mkSenderACL include exclude)) ip /\
  (length ip = 4%nat ->
     AllowSender (NewSenderACL include exclude) (To16 ip) = AllowSender (NewSenderACL include exclude) ip).
Proof.
  intros holds.
  assert (forall x, AllowSender (NewSenderACL include exclude) x = AllowSender (Some (mkSenderACL include exclude)) x) as Hn
    by (intros x; by destruct include, exclude).
  rewrite !Hn. split; [|split; [done|]].
  - cbn. destruct (existsb _ exclude) eqn:Ee.
    + split; [done|]. intros [H _]. destruct H. by apply existsb_elem.
    + assert (~ holds exclude) as Hx by (intros H%existsb_elem; congruence).
      destruct include as [|c l]; [split; [split; [done|by left]|done]|]. rewrite existsb_elem. split; [auto|]. intros [_ [?|?]]; done.
  - intros Hl. assert (forall cidr, cidr_contains cidr (To16 ip) = cidr_contains cidr ip) as Hc.
    { intros cidr. unfold cidr_contains. do 5 (destruct ip as [|? ip]; try done). }
    cbn. rewrite (existsb_pointwise _ (fun cidr => cidr_contains cidr ip)) by auto.
    destruct (existsb _ exclude); [done|]. destruct include as [|c l]; [done|].
    by apply existsb_pointwise.
Qed.
