(* ===== verification/Reassembly.v ===== *)
(** * Fragment reassembly (reassembly/reassembly.go)

    The slots of objects in flight, the placement of fragments, completion and
    its memory, expiry with the repair wait, and capacity eviction.

    The recovery hooks are an interface: [RepairHooks S] gives the two calls the
    buffer makes on the gap tracker, whose state [S] they change or read while
    the buffer holds its lock.  Hooks and completion callbacks are events in the
    order the code calls them; an unset metrics hook is an event nobody reads,
    an unset completion callback delivers nothing. *)

From S2P Require Import Prelude.

(** ** Interfaces *)

(** What the buffer uses of the frame and object libraries and of the hash. *)
Class FrameLib := mkFrameLib {
  FrameVerV4 : Z;
  FrameVerV5 : Z;
  FrameVerV9 : Z;
  HeaderSize : nat;
  BEEFRecordMaxEnvelope : Z;
  Sum256 : bytes -> bytes;
  TxSize : bytes -> option Z;
  TxID : bytes -> option bytes
}.

(** The gap tracker as the buffer sees it. *)
Class RepairHooks (S : Type) := mkRepairHooks {
  onIncomplete : Z -> Z -> bytes -> list Z -> S -> S;
  repairPending : Z -> list Z -> S -> bool
}.

(** ** Data *)

Record FragFrame := mkFrag {
  ff_TxID : bytes;
  ff_SubtreeID : bytes;
  ff_HashKey : Z;
  ff_SeqNum : Z;
  ff_OrigPayloadLen : Z;
  ff_FragTotal : Z;
  ff_FragIndex : Z;
  ff_OrigFrameVer : Z;
  ff_MsgType : Z;
  ff_FragData : bytes
}.

(** [sl_whole] is the object's buffer after promotion; [payload] is the part of
    it behind the header room. *)
Record slot := mkSlot {
  sl_key : bytes;
  sl_txID : bytes;
  sl_subtreeID : bytes;
  sl_hashKey : Z;
  sl_seqNum : Z;
  sl_origPayloadLen : Z;
  sl_fragTotal : Z;
  sl_fragSize : Z;
  sl_received : Z;
  sl_have : list bool;
  sl_early : list (Z * bytes);
  sl_whole : option bytes;
  sl_fragSeq : list Z;
  sl_groupIdx : Z;
  sl_deadline : Z;
  sl_born : Z;
  sl_requested : bool;
  sl_extended : bool;
  sl_origFrameVer : Z;
  sl_msgType : Z
}.

(** Events: metrics hooks and deliveries. *)
Inductive REvent :=
| EvStarted
| EvAbandoned
| EvAbandonedReason (reason : string)
| EvExtended
| EvLateDone
| EvLateFragment
| EvBadFragment
| EvOversize
| EvHashMismatch
| EvBlock (payload : bytes) (contentID : bytes) (hashKey seqNum msgType : Z)
| EvSubtree (payload : bytes) (subtreeID : bytes) (hashKey seqNum msgType : Z)
| EvBEEFFrame (whole payload : bytes) (contentID topicID : bytes) (hashKey seqNum deliverCount : Z)
| EvBEEF (payload : bytes) (contentID topicID : bytes) (hashKey seqNum deliverCount : Z)
| EvTx (payload : bytes) (txID subtreeID : bytes) (hashKey seqNum : Z).

(** [b_cb*] say which callbacks are set. *)
Record Buffer := mkBuffer {
  b_slots : gmap bytes slot;
  b_lastEvict : Z;
  b_evictEvery : Z;
  b_insertOrder : list bytes;
  b_maxSlots : Z;
  b_ttl : Z;
  b_verifyHash : bool;
  b_cbTx : bool;
  b_cbBlock : bool;
  b_cbSubtree : bool;
  b_cbBEEF : bool;
  b_cbBEEFFrame : bool;
  b_repairWait : bool;
  b_maxAge : Z;
  b_hookIncomplete : bool;
  b_maxObject : Z;
  b_maxObjectV9 : Z;
  b_done : gmap bytes Z;
  b_doneOrder : list bytes;
  b_completionTTL : Z
}.

Definition AbandonExpired : string := "expired".

Definition AbandonRepairTimeout : string := "repair_timeout".

Definition AbandonCapacity : string := "capacity".

Definition DefaultMaxSlots : Z := 4096.

Definition DefaultTTL : Z := 10 * ns_per_s.

Definition DefaultMaxAge : Z := 120 * ns_per_s.

Definition DefaultEvictEvery : Z := 50 * ns_per_ms.

Definition DefaultCompletionTTL : Z := 60 * ns_per_s.

Definition DefaultMaxObjectBytes : Z := Z.shiftl 64 20.

Definition New (maxSlots ttl : Z) (verifyHash cb : bool) : Buffer :=
  let maxSlots := if maxSlots <=? 0 then DefaultMaxSlots else maxSlots in
  let ttl := if ttl <=? 0 then DefaultTTL else ttl in
  mkBuffer ∅ zero_time DefaultEvictEvery [] maxSlots ttl verifyHash cb false false false false
    false DefaultMaxAge false DefaultMaxObjectBytes 0 ∅ [] DefaultCompletionTTL.

(** ** Field updates *)

Definition with_slots (slots : gmap bytes slot) (b : Buffer) : Buffer :=
  mkBuffer slots (b_lastEvict b) (b_evictEvery b) (b_insertOrder b) (b_maxSlots b) (b_ttl b)
    (b_verifyHash b) (b_cbTx b) (b_cbBlock b) (b_cbSubtree b) (b_cbBEEF b) (b_cbBEEFFrame b)
    (b_repairWait b) (b_maxAge b) (b_hookIncomplete b) (b_maxObject b) (b_maxObjectV9 b)
    (b_done b) (b_doneOrder b) (b_completionTTL b).

Definition with_order (order : list bytes) (b : Buffer) : Buffer :=
  mkBuffer (b_slots b) (b_lastEvict b) (b_evictEvery b) order (b_maxSlots b) (b_ttl b)
    (b_verifyHash b) (b_cbTx b) (b_cbBlock b) (b_cbSubtree b) (b_cbBEEF b) (b_cbBEEFFrame b)
    (b_repairWait b) (b_maxAge b) (b_hookIncomplete b) (b_maxObject b) (b_maxObjectV9 b)
    (b_done b) (b_doneOrder b) (b_completionTTL b).

Definition with_done (done : gmap bytes Z) (order : list bytes) (b : Buffer) : Buffer :=
  mkBuffer (b_slots b) (b_lastEvict b) (b_evictEvery b) (b_insertOrder b) (b_maxSlots b) (b_ttl b)
    (b_verifyHash b) (b_cbTx b) (b_cbBlock b) (b_cbSubtree b) (b_cbBEEF b) (b_cbBEEFFrame b)
    (b_repairWait b) (b_maxAge b) (b_hookIncomplete b) (b_maxObject b) (b_maxObjectV9 b)
    done order (b_completionTTL b).

Definition with_lastEvict (now : Z) (b : Buffer) : Buffer :=
  mkBuffer (b_slots b) now (b_evictEvery b) (b_insertOrder b) (b_maxSlots b) (b_ttl b)
    (b_verifyHash b) (b_cbTx b) (b_cbBlock b) (b_cbSubtree b) (b_cbBEEF b) (b_cbBEEFFrame b)
    (b_repairWait b) (b_maxAge b) (b_hookIncomplete b) (b_maxObject b) (b_maxObjectV9 b)
    (b_done b) (b_doneOrder b) (b_completionTTL b).

(** The fields [Observe] sets on a slot. *)
Definition set_store (fragSize received : Z) (have : list bool) (early : list (Z * bytes))
    (whole : option bytes) (fragSeq : list Z) (s : slot) : slot :=
  mkSlot (sl_key s) (sl_txID s) (sl_subtreeID s) (sl_hashKey s) (sl_seqNum s) (sl_origPayloadLen s)
    (sl_fragTotal s) fragSize received have early whole fragSeq (sl_groupIdx s)
    (sl_deadline s) (sl_born s) (sl_requested s) (sl_extended s) (sl_origFrameVer s) (sl_msgType s).

(** The fields the repair wait sets. *)
Definition set_wait (deadline : Z) (requested extended : bool) (s : slot) : slot :=
  mkSlot (sl_key s) (sl_txID s) (sl_subtreeID s) (sl_hashKey s) (sl_seqNum s) (sl_origPayloadLen s)
    (sl_fragTotal s) (sl_fragSize s) (sl_received s) (sl_have s) (sl_early s) (sl_whole s)
    (sl_fragSeq s) (sl_groupIdx s) deadline (sl_born s) requested extended
    (sl_origFrameVer s) (sl_msgType s).

(** ** Placement of fragments *)

(** Go's [copy(dst[off:], src)]. *)
Definition copy_at (dst : bytes) (off : nat) (src : bytes) : bytes :=
  take off dst ++ take (length dst - off) src ++ drop (off + length src) dst.

Definition promoteAfter (total : Z) : Z := Z.min total (Z.max 8 (total / 16)).

Section Lib.
Context `{FrameLib}.

(** The header room in front of the payload. *)
Definition room (s : slot) : nat := if sl_origFrameVer s =? FrameVerV9 then HeaderSize else 0.

(** Copies one fragment into the object's buffer at [index × fragSize]. *)
Definition place (s : slot) (w : bytes) (f : Z * bytes) : bytes :=
  copy_at w (room s + Z.to_nat (f.1 * sl_fragSize s)) f.2.

Definition promote (s : slot) : slot :=
  let whole := zeros (room s + Z.to_nat (sl_origPayloadLen s)) in
  set_store (sl_fragSize s) (sl_received s) (sl_have s) [] (Some (fold_left (place s) (sl_early s) whole))
    (sl_fragSeq s) s.

Definition store (index : Z) (data : bytes) (s : slot) : slot :=
  match sl_whole s with
  | Some w =>
      set_store (sl_fragSize s) (sl_received s) (sl_have s) (sl_early s) (Some (place s w (index, data)))
        (sl_fragSeq s) s
  | None =>
      let s := set_store (sl_fragSize s) (sl_received s) (sl_have s) (sl_early s ++ [(index, data)]) None
                 (sl_fragSeq s) s in
      if promoteAfter (sl_fragTotal s) <=? u16 (Z.of_nat (length (sl_early s))) then promote s else s
  end.

(** [None] is the failed check. *)
Definition checkFragLen (s : slot) (ff : FragFrame) : option Z :=
  let n := Z.of_nat (length (ff_FragData ff)) in
  let total := sl_fragTotal s in
  let objLen := sl_origPayloadLen s in
  if n <=? 0 then None else
  let implied :=
    if total =? 1 then if n =? objLen then Some n else None
    else if ff_FragIndex ff =? total - 1 then
      let rem := objLen - n in
      if (rem <=? 0) || negb (Z.rem rem (total - 1) =? 0) then None else Some (Z.quot rem (total - 1))
    else if objLen <=? n * (total - 1) then None else Some n in
  match implied with
  | None => None
  | Some fragSize =>
      if negb (sl_fragSize s =? 0) && negb (sl_fragSize s =? fragSize) then None else Some fragSize
  end.

Definition payloadTxID (p : bytes) : option bytes :=
  match TxSize p with
  | Some sz => if sz =? Z.of_nat (length p) then TxID p else None
  | None => None
  end.

Definition slotKey (ff : FragFrame) : bytes :=
  if negb (ff_OrigFrameVer ff =? FrameVerV9) then ff_TxID ff
  else Sum256 (ff_TxID ff ++ ff_SubtreeID ff).

(** ** Missing fragments *)

Definition has (s : slot) (i : Z) : bool :=
  (0 <=? i) && match sl_have s !! Z.to_nat i with Some h => h | None => false end.

(** The nearest received neighbour of [i], the lower one first; [ds] are the
    distances still to try. *)
Fixpoint nearest (s : slot) (i : Z) (ds : list Z) : option Z :=
  match ds with
  | [] => None
  | d :: ds =>
      if (0 <=? i - d) && has s (i - d) then Some (i - d)
      else if (i + d <? sl_fragTotal s) && has s (i + d) then Some (i + d)
      else nearest s i ds
  end.

(** The SeqNum extrapolated for the missing fragment [i]. *)
Definition missing_seq (s : slot) (i : Z) : option Z :=
  if has s i then None else
  match nearest s i (seqZ 1 (sl_fragTotal s - 1)) with
  | None => None
  | Some best =>
      let base := sl_fragSeq s !!! Z.to_nat best in
      let v := i64 (i64 base + (i - best)) in
      if v <? 0 then None else Some (u64 v)
  end.

Definition missingSeqNums (s : slot) : list Z :=
  if sl_received s =? 0 then [] else omap (missing_seq s) (seqZ 0 (sl_fragTotal s)).

(** ** Completion *)

(** [now] is this call's own reading of the clock. *)
Definition markDone (now : Z) (key : bytes) (b : Buffer) : Buffer :=
  let '(done, order) :=
    match b_done b !! key with
    | Some _ => (b_done b, b_doneOrder b)
    | None =>
        let '(done, order) :=
          match b_doneOrder b with
          | oldest :: rest =>
              if b_maxSlots b <=? Z.of_nat (size (b_done b)) then (delete oldest (b_done b), rest)
              else (b_done b, b_doneOrder b)
          | [] => (b_done b, [])
          end in
        (done, order ++ [key])
    end in
  with_done (<[key := time_add now (b_completionTTL b)]> done) order b.

Definition removeSlot (key : bytes) (b : Buffer) : Buffer := with_slots (delete key (b_slots b)) b.

(** What a complete slot hands on: the switch on [origFrameVer]. *)
Definition deliver (b : Buffer) (s : slot) (whole : bytes) : list REvent :=
  let payload := drop (room s) whole in
  if sl_origFrameVer s =? FrameVerV4 then
    if b_cbBlock b then [EvBlock payload (sl_txID s) (sl_hashKey s) (sl_seqNum s) (sl_msgType s)] else []
  else if sl_origFrameVer s =? FrameVerV5 then
    if b_cbSubtree b then [EvSubtree payload (sl_txID s) (sl_hashKey s) (sl_seqNum s) (sl_msgType s)] else []
  else if sl_origFrameVer s =? FrameVerV9 then
    if b_verifyHash b && negb (bool_decide (Sum256 (Sum256 payload) = sl_txID s)) then [EvHashMismatch]
    else if b_cbBEEFFrame b then
      [EvBEEFFrame whole payload (sl_txID s) (sl_subtreeID s) (sl_hashKey s) (sl_seqNum s) (sl_msgType s)]
    else if b_cbBEEF b then
      [EvBEEF payload (sl_txID s) (sl_subtreeID s) (sl_hashKey s) (sl_seqNum s) (sl_msgType s)]
    else []
  else
    if b_verifyHash b && negb (bool_decide (payloadTxID payload = Some (sl_txID s))) then [EvHashMismatch]
    else if b_cbTx b then [EvTx payload (sl_txID s) (sl_subtreeID s) (sl_hashKey s) (sl_seqNum s)] else [].

Definition complete (now : Z) (s : slot) (b : Buffer) : Buffer * list REvent :=
  let b := markDone now (sl_key s) b in
  let late := if sl_extended s then [EvLateDone] else [] in
  let s := match sl_whole s with None => promote s | Some _ => s end in
  let whole := match sl_whole s with Some w => w | None => [] end in
  (removeSlot (sl_key s) b, late ++ deliver b s whole).

(** ** Expiry *)

Definition sweepDone (now : Z) (b : Buffer) : Buffer :=
  if decide (b_done b = ∅) then b else
  let '(done, live) :=
    fold_left (fun (acc : gmap bytes Z * list bytes) key =>
      let '(done, live) := acc in
      match done !! key with
      | None => (done, live)
      | Some exp => if after now exp then (delete key done, live) else (done, live ++ [key])
      end) (b_doneOrder b) (b_done b, []) in
  with_done done live b.

Definition abandon (key : bytes) (reason : string) (b : Buffer) : Buffer * list REvent :=
  (removeSlot key b, [EvAbandoned; EvAbandonedReason reason]).

Section Hooks.
Context {S : Type} `{RepairHooks S}.

Definition notifyIncomplete (b : Buffer) (s : slot) (st : S) : S :=
  if negb (b_hookIncomplete b) then st else
  match missingSeqNums s with
  | [] => st
  | missing => onIncomplete (sl_hashKey s) (sl_groupIdx s) (sl_subtreeID s) missing st
  end.

(** The reason to abandon, or the slot to keep. *)
Definition holdForRepair (now : Z) (b : Buffer) (s : slot) (st : S) : (string + slot) * S * list REvent :=
  match missingSeqNums s with
  | [] => (inl AbandonExpired, st, [])
  | missing =>
      let limit := time_add (sl_born s) (b_maxAge b) in
      let ask := negb (sl_requested s) && before now limit in
      let requested := sl_requested s || ask in
      let st := if ask && b_hookIncomplete b
                then onIncomplete (sl_hashKey s) (sl_groupIdx s) (sl_subtreeID s) missing st else st in
      let pending := repairPending (sl_hashKey s) missing st in
      if negb (before now limit) && pending then (inl AbandonRepairTimeout, st, [])
      else if negb pending then (inl AbandonExpired, st, [])
      else
        let deadline := time_add now (b_ttl b) in
        let deadline := if after deadline limit then limit else deadline in
        (inr (set_wait deadline requested true s), st, if sl_extended s then [] else [EvExtended])
  end.

(** The body of the expiry loop for one key of the insertion order. *)
Definition evict_one (now : Z) (acc : Buffer * S * list REvent) (key : bytes) : Buffer * S * list REvent :=
  let '(b, st, evs) := acc in
  match b_slots b !! key with
  | None => (b, st, evs)
  | Some s =>
      if negb (after now (sl_deadline s)) then (b, st, evs)
      else if negb (b_repairWait b) then
        let st := notifyIncomplete b s st in
        let '(b, ev) := abandon key AbandonExpired b in
        (b, st, evs ++ ev)
      else
        let '(r, st, ev) := holdForRepair now b s st in
        match r with
        | inl reason =>
            let '(b, ev') := abandon key reason b in (b, st, evs ++ ev ++ ev')
        | inr s => (with_slots (<[key := s]> (b_slots b)) b, st, evs ++ ev)
        end
  end.

Definition evictExpired (now : Z) (b : Buffer) (st : S) : Buffer * S * list REvent :=
  let b := sweepDone now b in
  let '(b, st, evs) := fold_left (evict_one now) (b_insertOrder b) (b, st, []) in
  (with_order (filter (fun key => is_Some (b_slots b !! key)) (b_insertOrder b)) b, st, evs).

(** The first live key of the insertion order goes, with that one position. *)
Fixpoint evict_first (pre order : list bytes) (b : Buffer) : Buffer * list REvent :=
  match order with
  | [] => (b, [])
  | key :: rest =>
      match b_slots b !! key with
      | Some _ =>
          let '(b, ev) := abandon key AbandonCapacity b in (with_order (pre ++ rest) b, ev)
      | None => evict_first (pre ++ [key]) rest b
      end
  end.

Definition evictOldest (b : Buffer) : Buffer * list REvent := evict_first [] (b_insertOrder b) b.

(** ** Observing a fragment *)

Variable groupIdxFn : option (FragFrame -> Z).

Definition groupIdxOf (ff : FragFrame) : Z := match groupIdxFn with Some fn => fn ff | None => 0 end.

Definition maxObj (b : Buffer) (ff : FragFrame) : Z :=
  if (ff_OrigFrameVer ff =? FrameVerV9) && (0 <? b_maxObjectV9 b)
  then b_maxObjectV9 b + BEEFRecordMaxEnvelope else b_maxObject b.

Definition newSlot (now : Z) (b : Buffer) (ff : FragFrame) : slot :=
  mkSlot (slotKey ff) (ff_TxID ff) (ff_SubtreeID ff) (ff_HashKey ff) (ff_SeqNum ff)
    (ff_OrigPayloadLen ff) (ff_FragTotal ff) 0 0 (replicate (Z.to_nat (ff_FragTotal ff)) false) [] None
    (replicate (Z.to_nat (ff_FragTotal ff)) 0) (groupIdxOf ff) (time_add now (b_ttl b)) now false false
    (ff_OrigFrameVer ff) (ff_MsgType ff).

(** The branch for a key without a slot; [None] drops the fragment. *)
Definition open_slot (now : Z) (ff : FragFrame) (b : Buffer) : option (slot * Buffer) * list REvent :=
  let key := slotKey ff in
  if is_set (b_done b !! key) then (None, [EvLateFragment])
  else if (ff_FragTotal ff =? 0) || (ff_FragTotal ff <=? ff_FragIndex ff) then (None, [])
  else if (ff_OrigPayloadLen ff =? 0) || (u32 (ff_OrigPayloadLen ff + 1) <? ff_FragTotal ff) then (None, [])
  else if (0 <? maxObj b ff) && (maxObj b ff <? ff_OrigPayloadLen ff) then (None, [EvOversize])
  else
    let '(b, ev) := if b_maxSlots b <=? Z.of_nat (size (b_slots b)) then evictOldest b else (b, []) in
    let s := newSlot now b ff in
    (Some (s, with_order (b_insertOrder b ++ [key]) (with_slots (<[key := s]> (b_slots b)) b)),
     ev ++ [EvStarted]).

(** The slot with one more fragment. *)
Definition add_fragment (fragSize : Z) (ff : FragFrame) (s : slot) : slot :=
  let s := set_store fragSize (sl_received s) (sl_have s) (sl_early s) (sl_whole s) (sl_fragSeq s) s in
  let s := store (ff_FragIndex ff) (ff_FragData ff) s in
  set_store (sl_fragSize s) (u16 (sl_received s + 1)) (<[Z.to_nat (ff_FragIndex ff) := true]> (sl_have s))
    (sl_early s) (sl_whole s) (<[Z.to_nat (ff_FragIndex ff) := ff_SeqNum ff]> (sl_fragSeq s)) s.

(** The rest of [Observe], with the slot at hand; [later] is the clock reading
    of a completion. *)
Definition take_fragment (later : Z) (ff : FragFrame) (s : slot) (b : Buffer) : Buffer * list REvent :=
  if negb (ff_FragTotal ff =? sl_fragTotal s) || (sl_fragTotal s <=? ff_FragIndex ff) then (b, [])
  else if has s (ff_FragIndex ff) then (b, [])
  else
    match checkFragLen s ff with
    | None => (removeSlot (sl_key s) b, [EvBadFragment])
    | Some fragSize =>
        let s := add_fragment fragSize ff s in
        let b := with_slots (<[sl_key s := s]> (b_slots b)) b in
        if sl_received s <? sl_fragTotal s then (b, []) else complete later s b
    end.

(** How often [Observe] sweeps. *)
Definition sweep_every (b : Buffer) : Z :=
  if (0 <? b_ttl b) && (Z.quot (b_ttl b) 2 <? b_evictEvery b) then Z.quot (b_ttl b) 2 else b_evictEvery b.

Definition Observe (now later : Z) (ff : FragFrame) (b : Buffer) (st : S) : Buffer * S * list REvent :=
  let '(b, st, ev0) :=
    if sweep_every b <=? time_sub now (b_lastEvict b) then
      let '(b, st, ev) := evictExpired now b st in (with_lastEvict now b, st, ev)
    else (b, st, []) in
  match b_slots b !! slotKey ff with
  | Some s => let '(b, ev) := take_fragment later ff s b in (b, st, ev0 ++ ev)
  | None =>
      let '(r, ev1) := open_slot now ff b in
      match r with
      | None => (b, st, ev0 ++ ev1)
      | Some (s, b) => let '(b, ev) := take_fragment later ff s b in (b, st, ev0 ++ ev1 ++ ev)
      end
  end.

Definition Tick (now : Z) (b : Buffer) (st : S) : Buffer * S * list REvent := evictExpired now b st.

Definition Len (b : Buffer) : Z := Z.of_nat (size (b_slots b)).

Definition Purge (b : Buffer) : Buffer * list REvent :=
  (with_done ∅ [] (with_order [] (with_slots ∅ b)), repeat EvAbandoned (size (b_slots b))).

End Hooks.
End Lib.

(** ** Configuration calls *)

Definition SetRepairWait (maxAge : Z) (b : Buffer) : Buffer :=
  mkBuffer (b_slots b) (b_lastEvict b) (b_evictEvery b) (b_insertOrder b) (b_maxSlots b) (b_ttl b)
    (b_verifyHash b) (b_cbTx b) (b_cbBlock b) (b_cbSubtree b) (b_cbBEEF b) (b_cbBEEFFrame b)
    true (if 0 <? maxAge then maxAge else b_maxAge b) (b_hookIncomplete b) (b_maxObject b) (b_maxObjectV9 b)
    (b_done b) (b_doneOrder b) (b_completionTTL b).

Definition SetIncompleteHook (b : Buffer) : Buffer :=
  mkBuffer (b_slots b) (b_lastEvict b) (b_evictEvery b) (b_insertOrder b) (b_maxSlots b) (b_ttl b)
    (b_verifyHash b) (b_cbTx b) (b_cbBlock b) (b_cbSubtree b) (b_cbBEEF b) (b_cbBEEFFrame b)
    (b_repairWait b) (b_maxAge b) true (b_maxObject b) (b_maxObjectV9 b)
    (b_done b) (b_doneOrder b) (b_completionTTL b).

Definition SetMaxObjectBytes (n : Z) (b : Buffer) : Buffer :=
  mkBuffer (b_slots b) (b_lastEvict b) (b_evictEvery b) (b_insertOrder b) (b_maxSlots b) (b_ttl b)
    (b_verifyHash b) (b_cbTx b) (b_cbBlock b) (b_cbSubtree b) (b_cbBEEF b) (b_cbBEEFFrame b)
    (b_repairWait b) (b_maxAge b) (b_hookIncomplete b) (if 0 <? n then n else b_maxObject b) (b_maxObjectV9 b)
    (b_done b) (b_doneOrder b) (b_completionTTL b).

Definition SetMaxObjectBytesV9 (n : Z) (b : Buffer) : Buffer :=
  mkBuffer (b_slots b) (b_lastEvict b) (b_evictEvery b) (b_insertOrder b) (b_maxSlots b) (b_ttl b)
    (b_verifyHash b) (b_cbTx b) (b_cbBlock b) (b_cbSubtree b) (b_cbBEEF b) (b_cbBEEFFrame b)
    (b_repairWait b) (b_maxAge b) (b_hookIncomplete b) (b_maxObject b) n
    (b_done b) (b_doneOrder b) (b_completionTTL b).

Definition SetCompletionTTL (d : Z) (b : Buffer) : Buffer :=
  mkBuffer (b_slots b) (b_lastEvict b) (b_evictEvery b) (b_insertOrder b) (b_maxSlots b) (b_ttl b)
    (b_verifyHash b) (b_cbTx b) (b_cbBlock b) (b_cbSubtree b) (b_cbBEEF b) (b_cbBEEFFrame b)
    (b_repairWait b) (b_maxAge b) (b_hookIncomplete b) (b_maxObject b) (b_maxObjectV9 b)
    (b_done b) (b_doneOrder b) (if 0 <? d then d else b_completionTTL b).
