(* ===== verification/ReassemblySlot.v ===== *)
(** * Fragment reassembly: one slot

    The contents of a slot as a map from fragment index to accepted bytes, the
    shape every accepted fragment must have, and the proof that adding fragments
    in any order builds their concatenation. *)

From S2P Require Import Prelude Reassembly.

Section Slot.
Context `{FrameLib}.

(** ** The shape of an object *)

(** [total] fragments, all but the last of [fs] bytes, the last with the rest. *)
Definition shape_ok (total objLen fs : Z) : Prop :=
  1 <= total /\ 0 < fs /\ (total = 1 /\ fs = objLen \/ 1 < total /\ fs * (total - 1) < objLen).

Definition frag_len (total objLen fs i : Z) : Z :=
  if total =? 1 then objLen else if i =? total - 1 then objLen - fs * (total - 1) else fs.

Lemma frag_len_bounds total objLen fs i :
  shape_ok total objLen fs -> 0 <= i < total ->
  0 < frag_len total objLen fs i /\ i * fs + frag_len total objLen fs i <= objLen.
Proof. intros (H1 & H2 & H3) Hi. unfold frag_len. repeat case_test; bool_to_prop; nia. Qed.

(** Two fragments never overlap. *)
Lemma frag_disjoint total objLen fs i j :
  shape_ok total objLen fs -> 0 <= i -> i < j < total -> i * fs + frag_len total objLen fs i <= j * fs.
Proof. intros (H1 & H2 & H3) Hi Hj. unfold frag_len. repeat case_test; bool_to_prop; nia. Qed.

(** [checkFragLen] accepts exactly the shape. *)
Lemma checkFragLen_sound s ff fs :
  1 <= sl_fragTotal s -> 0 <= ff_FragIndex ff < sl_fragTotal s -> checkFragLen s ff = Some fs ->
  shape_ok (sl_fragTotal s) (sl_origPayloadLen s) fs /\
  Z.of_nat (length (ff_FragData ff)) = frag_len (sl_fragTotal s) (sl_origPayloadLen s) fs (ff_FragIndex ff) /\
  (sl_fragSize s = 0 \/ sl_fragSize s = fs).
Proof.
  intros Ht Hi. unfold checkFragLen, shape_ok, frag_len.
  set (n := Z.of_nat (length (ff_FragData ff))). set (total := sl_fragTotal s) in *.
  destruct (n <=? 0) eqn:Hn; [done|]. intros Hc.
  destruct (if total =? 1 then _ else _) as [f|] eqn:Himp; [|done].
  assert (f = fs /\ (sl_fragSize s = 0 \/ sl_fragSize s = fs)) as [-> Hsz].
  { destruct (negb _ && negb _) eqn:E; simplify_eq. split; [done|]. split_bool; auto. }
  clear Hc. bool_to_prop. destruct (total =? 1) eqn:E1.
  { destruct (n =? _) eqn:E2; simplify_eq. bool_to_prop. split; [lia|]. auto. }
  destruct (ff_FragIndex ff =? total - 1) eqn:E2.
  - destruct ((_ <=? 0) || _) eqn:E3; simplify_eq. bool_to_prop.
    set (rem := sl_origPayloadLen s - n) in *.
    assert (rem = (total - 1) * Z.quot rem (total - 1)) as Hq by (apply Z.quot_exact; lia).
    set (q := Z.quot rem (total - 1)) in *. split; [|split; [nia|done]]. split; [lia|]. split; [nia|]. right. nia.
  - destruct (_ <=? n * (total - 1)) eqn:E3; simplify_eq. bool_to_prop. split; [|auto]. split; [lia|]. split; [lia|]. right. lia.
Qed.

(** A fragment with the right shape is accepted. *)
Lemma checkFragLen_complete s ff fs :
  shape_ok (sl_fragTotal s) (sl_origPayloadLen s) fs -> 0 <= ff_FragIndex ff < sl_fragTotal s ->
  Z.of_nat (length (ff_FragData ff)) = frag_len (sl_fragTotal s) (sl_origPayloadLen s) fs (ff_FragIndex ff) ->
  sl_fragSize s = 0 \/ sl_fragSize s = fs -> checkFragLen s ff = Some fs.
Proof.
  intros Hs Hi Hl Hz. pose proof (frag_len_bounds _ _ _ _ Hs Hi) as [Hpos _].
  unfold checkFragLen. rewrite Hl. rewrite (proj2 (Z.leb_gt _ 0)) by lia.
  set (total := sl_fragTotal s) in *. set (L := sl_origPayloadLen s) in *.
  assert ((if negb (sl_fragSize s =? 0) && negb (sl_fragSize s =? fs) then None else Some fs) = Some fs) as Hfin
    by (destruct Hz as [-> | ->]; [done|]; by rewrite Z.eqb_refl, andb_false_r).
  destruct Hs as (H1 & H2 & H3). unfold frag_len. destruct (total =? 1) eqn:E1; bool_to_prop.
  { rewrite Z.eqb_refl. replace L with fs by lia. exact Hfin. }
  destruct (ff_FragIndex ff =? total - 1) eqn:E2; bool_to_prop.
  - replace (L - (L - fs * (total - 1))) with (fs * (total - 1)) by lia.
    rewrite Z.rem_mul, Z.quot_mul, (proj2 (Z.leb_gt _ 0)) by nia. exact Hfin.
  - rewrite (proj2 (Z.leb_gt _ _)) by nia. exact Hfin.
Qed.

(** ** Contents *)

Definition fits (s : slot) (i : Z) (d : bytes) : Prop :=
  0 <= i < sl_fragTotal s /\
  Z.of_nat (length d) = frag_len (sl_fragTotal s) (sl_origPayloadLen s) (sl_fragSize s) i.

(** The bytes of fragment [i] in the object's buffer. *)
Definition place_of (s : slot) (w : bytes) (i : Z) (n : nat) : bytes :=
  slice w (room s + Z.to_nat (i * sl_fragSize s)) n.

Definition whole_len (s : slot) : nat := (room s + Z.to_nat (sl_origPayloadLen s))%nat.

(** What the slot stores: the fragments in [content], kept aside or in place. *)
Definition stores (s : slot) (content : gmap Z bytes) : Prop :=
  match sl_whole s with
  | None => NoDup (sl_early s).*1 /\ forall i d, (i, d) ∈ sl_early s <-> content !! i = Some d
  | Some w =>
      sl_early s = [] /\ length w = whole_len s /\
      forall i d, content !! i = Some d -> place_of s w i (length d) = d
  end.

Record slot_ok (key : bytes) (s : slot) (content : gmap Z bytes) : Prop := mkSlotOk {
  so_key : sl_key s = key;
  so_total : 1 <= sl_fragTotal s < 2 ^ 16;
  so_len : 0 < sl_origPayloadLen s;
  so_have : length (sl_have s) = Z.to_nat (sl_fragTotal s);
  so_seq : length (sl_fragSeq s) = Z.to_nat (sl_fragTotal s);
  so_dom : forall i, has s i = true <-> is_Some (content !! i);
  so_fits : map_Forall (fits s) content;
  so_received : sl_received s = Z.of_nat (size content);
  so_shape : content <> ∅ -> shape_ok (sl_fragTotal s) (sl_origPayloadLen s) (sl_fragSize s);
  so_fresh : content = ∅ -> sl_fragSize s = 0;
  so_stores : stores s content
}.

Lemma copy_at_write dst off src :
  (off + length src <= length dst)%nat -> copy_at dst off src = write dst off src.
Proof. intros Hl. unfold copy_at, write. by rewrite (take_ge src) by lia. Qed.

(** A fragment's range lies in the buffer. *)
Lemma fits_range s i d :
  shape_ok (sl_fragTotal s) (sl_origPayloadLen s) (sl_fragSize s) -> fits s i d ->
  (room s + Z.to_nat (i * sl_fragSize s) + length d <= whole_len s)%nat.
Proof.
  intros Hs [Hi Hd]. pose proof (frag_len_bounds _ _ _ _ Hs Hi) as [H1 H2]. destruct Hs as (_ & Hf & _).
  unfold whole_len. nia.
Qed.

Lemma length_place s w i d :
  shape_ok (sl_fragTotal s) (sl_origPayloadLen s) (sl_fragSize s) -> fits s i d ->
  length w = whole_len s -> length (place s w (i, d)) = whole_len s.
Proof.
  intros Hs Hf Hw. pose proof (fits_range s i d Hs Hf). unfold place; cbn [fst snd].
  rewrite copy_at_write, length_write by lia. done.
Qed.

(** Placing a fragment stores it and leaves the others alone. *)
Lemma place_same s w i d :
  shape_ok (sl_fragTotal s) (sl_origPayloadLen s) (sl_fragSize s) -> fits s i d ->
  length w = whole_len s -> place_of s (place s w (i, d)) i (length d) = d.
Proof.
  intros Hs Hf Hw. pose proof (fits_range s i d Hs Hf). unfold place, place_of; cbn [fst snd].
  rewrite copy_at_write by lia. apply slice_write_eq. lia.
Qed.

Lemma place_other s w i d j e :
  shape_ok (sl_fragTotal s) (sl_origPayloadLen s) (sl_fragSize s) -> fits s i d -> fits s j e -> i <> j ->
  length w = whole_len s -> place_of s (place s w (i, d)) j (length e) = place_of s w j (length e).
Proof.
  intros Hs Hi Hj Hne Hw. pose proof (fits_range s i d Hs Hi). pose proof (fits_range s j e Hs Hj).
  unfold place, place_of; cbn [fst snd]. rewrite copy_at_write by lia.
  destruct Hi as [Hi Hdi], Hj as [Hj Hdj]. destruct (Z.lt_ge_cases i j).
  - pose proof (frag_disjoint _ _ _ i j Hs ltac:(lia) ltac:(lia)). apply slice_write_gt; [|lia].
    destruct Hs as (_ & Hf & _). nia.
  - pose proof (frag_disjoint _ _ _ j i Hs ltac:(lia) ltac:(lia)). apply slice_write_lt; [|lia].
    destruct Hs as (_ & Hf & _). nia.
Qed.

(** Promotion moves the fragments kept aside to their places. *)
Lemma promote_stores s content :
  shape_ok (sl_fragTotal s) (sl_origPayloadLen s) (sl_fragSize s) -> map_Forall (fits s) content ->
  sl_whole s = None -> stores s content -> stores (promote s) content.
Proof.
  intros Hs Hfit Hw Hst. unfold stores in Hst. rewrite Hw in Hst. destruct Hst as [Hnd Hin].
  pose (I := fun (w : bytes) (rest : list (Z * bytes)) =>
    NoDup rest.*1 /\ (forall i d, (i, d) ∈ rest -> content !! i = Some d) /\ length w = whole_len s /\
    forall i d, content !! i = Some d -> i ∉ rest.*1 -> place_of s w i (length d) = d).
  assert (I (fold_left (place s) (sl_early s) (zeros (whole_len s))) []) as (_ & _ & Hl & Hp).
  { apply (fold_left_rest (place s) I).
    - split; [done|]. split; [apply Hin|]. split; [apply repeat_length|].
      intros i d Hd Hout. destruct Hout. apply list_elem_of_fmap. exists (i, d). split; [done|]. by apply Hin.
    - clear Hnd Hin. intros w [j e] rest (Hnd & Hin & Hl & Hp). cbn [fmap list_fmap fst] in Hnd.
      apply NoDup_cons in Hnd as [Hj Hnd]. pose proof (Hin j e ltac:(left)) as He.
      pose proof (Hfit j e He) as Hfj. split; [done|]. split; [intros; apply Hin; by right|].
      split; [by apply length_place|]. intros i d Hd Hout. destruct (decide (i = j)) as [->|Hne].
      + simplify_eq. by apply place_same.
      + rewrite place_other; [|done|done|by apply (Hfit i d)|done|done]. apply Hp; [done|].
        cbn [fmap list_fmap fst]. by apply not_elem_of_cons. }
  unfold stores, promote. cbn. split; [done|]. split; [exact Hl|]. intros i d Hd.
  apply Hp; [done|]. by intros ?%elem_of_nil.
Qed.

(** The indices stored are among the object's. *)
Lemma content_keys key s content :
  slot_ok key s content -> (map_to_list content).*1 ⊆+ seqZ 0 (sl_fragTotal s).
Proof.
  intros Hok. apply NoDup_submseteq; [apply NoDup_fst_map_to_list|].
  intros k [[k' d] [-> Hk%elem_of_map_to_list]]%list_elem_of_fmap.
  apply elem_of_seqZ. destruct (so_fits _ _ _ Hok _ _ Hk) as [Hr _]. cbn. lia.
Qed.

Lemma length_keys (content : gmap Z bytes) : length ((map_to_list content).*1) = size content.
Proof. by rewrite length_fmap, length_map_to_list. Qed.

Lemma content_bound key s content : slot_ok key s content -> Z.of_nat (size content) <= sl_fragTotal s.
Proof.
  intros Hok. pose proof (so_total _ _ _ Hok). pose proof (submseteq_length _ _ (content_keys _ _ _ Hok)) as Hl.
  rewrite length_keys, length_seqZ in Hl. lia.
Qed.

(** A slot whose fragments are all there has every index. *)
Lemma content_full key s content i :
  slot_ok key s content -> sl_received s = sl_fragTotal s -> 0 <= i < sl_fragTotal s -> is_Some (content !! i).
Proof.
  intros Hok Hr Hi. rewrite (so_received _ _ _ Hok) in Hr.
  assert ((map_to_list content).*1 ≡ₚ seqZ 0 (sl_fragTotal s)) as Hp.
  { apply submseteq_length_Permutation; [by eapply content_keys|]. rewrite length_keys, length_seqZ. lia. }
  assert (i ∈ (map_to_list content).*1) as Hin by (rewrite Hp; apply elem_of_seqZ; lia).
  apply list_elem_of_fmap in Hin as [[k d] [-> Hk%elem_of_map_to_list]]. by exists d.
Qed.

Lemma has_insert s i j fs rec have early whole seqs :
  0 <= i -> length have = Z.to_nat (sl_fragTotal s) -> i < sl_fragTotal s ->
  has (set_store fs rec (<[Z.to_nat i := true]> have) early whole seqs s) j =
  if j =? i then true else has (set_store fs rec have early whole seqs s) j.
Proof.
  intros Hi Hl Hlt. unfold has; cbn [set_store sl_have]. destruct (j =? i) eqn:E; bool_to_prop.
  - subst j. rewrite (proj2 (Z.leb_le _ _) Hi), list_lookup_insert_eq by lia. done.
  - destruct (0 <=? j) eqn:Ej; [|done]. bool_to_prop. by rewrite list_lookup_insert_ne by lia.
Qed.

Lemma store_frame i d s :
  let s' := store i d s in
  sl_key s' = sl_key s /\ sl_fragTotal s' = sl_fragTotal s /\ sl_origPayloadLen s' = sl_origPayloadLen s /\
  sl_fragSize s' = sl_fragSize s /\ sl_received s' = sl_received s /\ sl_have s' = sl_have s /\
  sl_fragSeq s' = sl_fragSeq s /\ sl_origFrameVer s' = sl_origFrameVer s.
Proof. unfold store, promote. destruct (sl_whole s); cbn; [done|]. by case_test. Qed.

(** [stores] only depends on the shape and the stored bytes. *)
Lemma stores_ext s s' content :
  sl_whole s' = sl_whole s -> sl_early s' = sl_early s -> sl_fragSize s' = sl_fragSize s ->
  sl_origPayloadLen s' = sl_origPayloadLen s -> sl_origFrameVer s' = sl_origFrameVer s ->
  stores s content -> stores s' content.
Proof.
  intros H1 H2 H3 H4 H5. unfold stores, whole_len, place_of, room. by rewrite H1, H2, H3, H4, H5.
Qed.

Lemma store_stores s content i d :
  shape_ok (sl_fragTotal s) (sl_origPayloadLen s) (sl_fragSize s) -> map_Forall (fits s) content ->
  fits s i d -> content !! i = None -> stores s content -> stores (store i d s) (<[i := d]> content).
Proof.
  intros Hs Hfit Hf Hi Hst. unfold store.
  destruct (sl_whole s) as [w|] eqn:Hw.
  - unfold stores in Hst. rewrite Hw in Hst. destruct Hst as (He & Hl & Hp).
    unfold stores. cbn. split; [done|]. split; [exact (length_place s w i d Hs Hf Hl)|].
    intros j e Hj. change (place_of s (place s w (i, d)) j (length e) = e).
    destruct (decide (j = i)) as [->|Hne].
    + rewrite lookup_insert_eq in Hj. simplify_eq. by apply place_same.
    + rewrite lookup_insert_ne in Hj by done. rewrite place_other; [by apply Hp|done|done|by apply Hfit|done|done].
  - set (s1 := set_store _ _ _ _ _ _ _).
    assert (stores s1 (<[i := d]> content)) as Hs1.
    { unfold stores in Hst |- *. rewrite Hw in Hst. destruct Hst as [Hnd Hin]. cbn. split.
      - rewrite fmap_app. apply NoDup_app. split; [done|]. split; [|apply NoDup_singleton].
        intros j [[k e] [-> Hk%Hin]]%list_elem_of_fmap Hj%list_elem_of_singleton. cbn in Hj. congruence.
      - intros j e. rewrite elem_of_app, list_elem_of_singleton, Hin. destruct (decide (j = i)) as [->|Hne].
        + rewrite lookup_insert_eq, Hi. split; [intros [?|?]; congruence|]. intros [= ->]. by right.
        + rewrite lookup_insert_ne by done. split; [intros [?|?]; congruence|by left]. }
    case_test; [|done]. apply promote_stores; [done| |done|done].
    apply map_Forall_insert_2; [exact Hf|exact Hfit].
Qed.

(** Adding an accepted fragment. *)
Lemma add_fragment_ok key s content ff fs :
  slot_ok key s content -> 0 <= ff_FragIndex ff < sl_fragTotal s -> has s (ff_FragIndex ff) = false ->
  checkFragLen s ff = Some fs ->
  slot_ok key (add_fragment fs ff s) (<[ff_FragIndex ff := ff_FragData ff]> content).
Proof.
  intros Hok Hi Hnew Hchk. set (i := ff_FragIndex ff) in *. set (d := ff_FragData ff).
  pose proof Hok as [K1 K2 K3 K4 K5 K6 K7 K8 K9 K10 K11].
  destruct (checkFragLen_sound s ff fs ltac:(lia) Hi Hchk) as (Hs & Hd & Hz).
  assert (content !! i = None) as Hni.
  { destruct (content !! i) eqn:E; [|done]. rewrite (proj2 (K6 i)) in Hnew; [done|by eexists]. }
  assert (content <> ∅ -> sl_fragSize s = fs) as Hsame.
  { intros Hne. destruct (K9 Hne) as (_ & ? & _). lia. }
  set (s1 := set_store fs (sl_received s) (sl_have s) (sl_early s) (sl_whole s) (sl_fragSeq s) s).
  assert (map_Forall (fits s1) content /\ stores s1 content) as [Hf1 Hst1].
  { destruct (decide (content = ∅)) as [He|Hne].
    - split; [rewrite He; apply map_Forall_empty|]. rewrite He in *. revert K11. unfold stores; cbn.
      destruct (sl_whole s); [|done]. intros (? & ? & _). split; [done|]. split; [done|].
      intros ? ? Hl. by rewrite lookup_empty in Hl.
    - specialize (Hsame Hne). assert (fits s1 = fits s) as -> by (unfold fits; cbn; by rewrite Hsame).
      split; [done|]. apply (stores_ext s); cbn; auto. }
  assert (fits s1 i d) as Hfi by (split; [exact Hi|exact Hd]).
  pose proof (store_stores s1 content i d Hs Hf1 Hfi Hni Hst1) as Hst2.
  assert (sl_received s < sl_fragTotal s) as Hb.
  { pose proof (content_bound _ _ _ Hok). rewrite K8. destruct (decide (Z.of_nat (size content) = sl_fragTotal s)) as [E|]; [|lia].
    destruct (content_full key s content i Hok ltac:(lia) Hi). congruence. }
  assert (Z.of_nat (size (<[i := d]> content)) = sl_received s + 1) as Hsz
    by (rewrite map_size_insert, Hni, K8; cbn; lia).
  destruct (store_frame i d s1) as (F1 & F2 & F3 & F4 & F5 & F6 & F7 & F8). cbn in F1, F2, F3, F4, F5, F6, F7, F8.
  unfold add_fragment. fold s1 i d. set (s2 := store i d s1) in *.
  split; cbn [set_store sl_key sl_fragTotal sl_origPayloadLen sl_have sl_fragSeq sl_received sl_fragSize];
    rewrite ?F1, ?F2, ?F3, ?F4, ?F5, ?F6, ?F7; auto.
  - by rewrite length_insert.
  - by rewrite length_insert.
  - intros j. rewrite has_insert by (rewrite ?F2; lia). destruct (j =? i) eqn:Ej; bool_to_prop.
    + subst j. rewrite lookup_insert_eq. done.
    + rewrite lookup_insert_ne by done. rewrite <- K6. unfold has; cbn. done.
  - apply map_Forall_insert_2.
    + unfold fits in *; cbn in *. by rewrite ?F2, ?F3, ?F4.
    + intros j e Hj. specialize (Hf1 j e Hj). unfold fits in *; cbn in *. by rewrite ?F2, ?F3, ?F4.
  - rewrite Hsz. unfold u16. apply Z.mod_small. lia.
  - intros He. by apply insert_non_empty in He.
  - apply (stores_ext s2); cbn; auto.
Qed.

(** ** The assembled object *)

(** The fragments in index order. *)
Definition assemble (total : Z) (content : gmap Z bytes) : bytes :=
  concat ((fun i => default [] (content !! i)) <$> seqZ 0 total).

(** The whole buffer of a slot that has its fragments, promoting it if needed. *)
Definition whole_of (s : slot) : bytes :=
  match sl_whole (match sl_whole s with None => promote s | Some _ => s end) with Some w => w | None => [] end.

Lemma seqZ_snoc n : 0 <= n -> seqZ 0 (n + 1) = seqZ 0 n ++ [n].
Proof. intros Hn. rewrite seqZ_app by lia. f_equal. Qed.

Lemma assemble_snoc n content d :
  0 <= n -> content !! n = Some d -> assemble (n + 1) content = assemble n content ++ d.
Proof.
  intros Hn Hd. unfold assemble. rewrite seqZ_snoc by done. rewrite fmap_app, concat_app. cbn.
  by rewrite Hd, app_nil_r.
Qed.

(** The first [n] fragments of a slot that has them all are the first bytes. *)
Lemma assembled_prefix key s content w n :
  slot_ok key s content -> sl_received s = sl_fragTotal s -> sl_whole s = Some w ->
  0 <= n < sl_fragTotal s ->
  assemble n content = take (Z.to_nat (n * sl_fragSize s)) (drop (room s) w).
Proof.
  intros Hok Hr Hw. pose proof Hok as [K1 K2 K3 K4 K5 K6 K7 K8 K9 K10 K11].
  unfold stores in K11. rewrite Hw in K11. destruct K11 as (_ & Hl & Hp).
  assert (content <> ∅) as Hne.
  { intros ->. destruct (content_full key s ∅ 0 Hok Hr ltac:(lia)) as [? Hx]. by rewrite lookup_empty in Hx. }
  pose proof (K9 Hne) as (_ & Hfs & Hshape).
  intros Hn. assert (exists k, n = Z.of_nat k) as [k ->] by (exists (Z.to_nat n); lia).
  induction k as [|k IH]; [done|].
  replace (Z.of_nat (S k)) with (Z.of_nat k + 1) in * by lia.
  destruct (content_full key s content (Z.of_nat k) Hok Hr ltac:(lia)) as [d Hd].
  rewrite (assemble_snoc _ _ d), IH by (done || lia). specialize (Hp _ _ Hd).
  destruct (K7 _ _ Hd) as [_ Hlen]. unfold frag_len in Hlen.
  rewrite (proj2 (Z.eqb_neq (sl_fragTotal s) 1)), (proj2 (Z.eqb_neq (Z.of_nat k) _)) in Hlen by lia.
  rewrite <- Hp at 1. unfold place_of, slice. rewrite <- drop_drop.
  replace (Z.to_nat ((Z.of_nat k + 1) * sl_fragSize s))
    with (Z.to_nat (Z.of_nat k * sl_fragSize s) + length d)%nat by nia.
  generalize (drop (room s) w) as p. intros p.
  rewrite <- (take_take_drop p). done.
Qed.

(** A complete slot's buffer holds exactly the fragments in index order. *)
Lemma assembled key s content w :
  slot_ok key s content -> sl_received s = sl_fragTotal s -> sl_whole s = Some w ->
  drop (room s) w = assemble (sl_fragTotal s) content /\ length (drop (room s) w) = Z.to_nat (sl_origPayloadLen s).
Proof.
  intros Hok Hr Hw. pose proof Hok as [K1 K2 K3 K4 K5 K6 K7 K8 K9 K10 K11].
  pose proof (assembled_prefix key s content w (sl_fragTotal s - 1) Hok Hr Hw ltac:(lia)) as Hpre.
  unfold stores in K11. rewrite Hw in K11. destruct K11 as (_ & Hl & Hp).
  destruct (content_full key s content (sl_fragTotal s - 1) Hok Hr ltac:(lia)) as [d Hd].
  assert (length (drop (room s) w) = Z.to_nat (sl_origPayloadLen s)) as Hlen by (rewrite length_drop, Hl; unfold whole_len; lia).
  split; [|done]. replace (sl_fragTotal s) with (sl_fragTotal s - 1 + 1) at 1 by lia.
  rewrite (assemble_snoc _ _ d), Hpre by (done || lia). specialize (Hp _ _ Hd).
  rewrite <- Hp at 1. unfold place_of, slice. rewrite <- drop_drop.
  set (p := drop (room s) w) in *. set (o := Z.to_nat ((sl_fragTotal s - 1) * sl_fragSize s)).
  assert (content <> ∅) as Hne by (intros ->; by rewrite lookup_empty in Hd).
  destruct (K9 Hne) as (_ & Hfs & Hshape). destruct (K7 _ _ Hd) as [_ Hdl]. unfold frag_len in Hdl.
  assert (length d = length p - o)%nat as Hdn.
  { rewrite Hlen. unfold o. destruct (sl_fragTotal s =? 1) eqn:E; bool_to_prop.
    - rewrite E. replace ((1 - 1) * sl_fragSize s) with 0 by lia. lia.
    - rewrite Z.eqb_refl in Hdl. nia. }
  rewrite (take_ge (drop o p)) by (rewrite length_drop; lia). by rewrite take_drop.
Qed.

Lemma promote_frame s :
  let s' := promote s in
  sl_key s' = sl_key s /\ sl_fragTotal s' = sl_fragTotal s /\ sl_received s' = sl_received s /\
  sl_origPayloadLen s' = sl_origPayloadLen s /\ room s' = room s /\ is_Some (sl_whole s').
Proof. unfold promote, room; cbn. by eauto 10. Qed.

Lemma promote_ok key s content :
  content <> ∅ -> sl_whole s = None -> slot_ok key s content -> slot_ok key (promote s) content.
Proof.
  intros Hne Hw Hok. pose proof Hok as [K1 K2 K3 K4 K5 K6 K7 K8 K9 K10 K11].
  pose proof (promote_stores s content (K9 Hne) K7 Hw K11) as Hst.
  split; cbn [promote set_store sl_key sl_fragTotal sl_origPayloadLen sl_have sl_fragSeq sl_received sl_fragSize]; auto.
Qed.

(** What completion hands on. *)
Lemma whole_of_complete key s content :
  slot_ok key s content -> sl_received s = sl_fragTotal s ->
  drop (room s) (whole_of s) = assemble (sl_fragTotal s) content /\
  length (drop (room s) (whole_of s)) = Z.to_nat (sl_origPayloadLen s).
Proof.
  intros Hok Hr. unfold whole_of. destruct (sl_whole s) as [w|] eqn:Hw.
  - rewrite Hw. by apply (assembled key s content w).
  - assert (content <> ∅) as Hne.
    { intros ->. pose proof (so_total _ _ _ Hok).
      destruct (content_full key s ∅ 0 Hok Hr ltac:(lia)) as [? Hx]. by rewrite lookup_empty in Hx. }
    pose proof (promote_ok key s content Hne Hw Hok) as Hok'.
    destruct (promote_frame s) as (_ & Ft & Fr & Fl & Froom & [w Hw']).
    rewrite Hw'. rewrite <- Froom, <- Ft, <- Fl. apply (assembled key (promote s) content w Hok'); [|done].
    by rewrite Fr, Ft.
Qed.

(** The new slot of a first fragment. *)
Lemma newSlot_ok gfn now b ff :
  1 <= ff_FragTotal ff < 2 ^ 16 -> 0 < ff_OrigPayloadLen ff -> slot_ok (slotKey ff) (newSlot gfn now b ff) ∅.
Proof.
  intros Ht Hl. split; cbn; auto; try done.
  - by rewrite length_replicate.
  - by rewrite length_replicate.
  - intros i. rewrite lookup_empty. unfold has; cbn. split; [|by intros []].
    destruct (0 <=? i); [cbn|done]. destruct (replicate _ false !! _) eqn:E; [|done].
    apply lookup_replicate in E as [-> _]. done.
  - split; [apply NoDup_nil_2|]. intros i d. rewrite lookup_empty. split; [by intros ?%elem_of_nil|done].
Qed.

End Slot.
