(* ===== verification/ReassemblyInv.v ===== *)
(** * Fragment reassembly: the buffer's invariant

    What every run of the buffer keeps true, whatever fragments arrive: bounded
    tables, slots whose stored bytes come from received fragments, and a
    completion memory disjoint from the open slots. *)

From S2P Require Import Prelude Reassembly ReassemblySlot.

Section Inv.
Context `{FrameLib}.

(** The widths of the header fields. *)
Record frag_ok (ff : FragFrame) : Prop := mkFragOk {
  fo_total : 0 <= ff_FragTotal ff < 2 ^ 16;
  fo_index : 0 <= ff_FragIndex ff < 2 ^ 16;
  fo_len : 0 <= ff_OrigPayloadLen ff < 2 ^ 32
}.

(** ** Where bytes come from *)

(** [d] is the data of a received fragment [i] of [total] for [key]. *)
Definition sent (hist : list FragFrame) (key : bytes) (total i : Z) (d : bytes) : Prop :=
  exists ff, ff ∈ hist /\ slotKey ff = key /\ ff_FragTotal ff = total /\ ff_FragIndex ff = i /\ ff_FragData ff = d.

(** The slot was opened by a received fragment. *)
Definition opened (hist : list FragFrame) (key : bytes) (s : slot) : Prop :=
  exists ff, ff ∈ hist /\ slotKey ff = key /\ ff_FragTotal ff = sl_fragTotal s /\
    ff_OrigPayloadLen ff = sl_origPayloadLen s /\ ff_TxID ff = sl_txID s /\
    ff_OrigFrameVer ff = sl_origFrameVer s.

Definition slot_from (hist : list FragFrame) (key : bytes) (s : slot) : Prop :=
  opened hist key s /\ exists content, slot_ok key s content /\
    map_Forall (sent hist key (sl_fragTotal s)) content.

Definition open_from (hist : list FragFrame) (key : bytes) (s : slot) : Prop :=
  slot_from hist key s /\ sl_received s < sl_fragTotal s.

Record buf_inv (hist : list FragFrame) (b : Buffer) : Prop := mkBufInv {
  bi_max : 1 <= b_maxSlots b;
  bi_slots : map_Forall (open_from hist) (b_slots b);
  bi_size : Z.of_nat (size (b_slots b)) <= b_maxSlots b;
  bi_order : forall key, is_Some (b_slots b !! key) -> key ∈ b_insertOrder b;
  bi_done_order : forall key, key ∈ b_doneOrder b <-> is_Some (b_done b !! key);
  bi_done_nodup : NoDup (b_doneOrder b);
  bi_done_size : Z.of_nat (size (b_done b)) <= b_maxSlots b;
  bi_disjoint : forall key, is_Some (b_slots b !! key) -> b_done b !! key = None
}.

(** The payload an event delivers. *)
Definition payload_of (ev : REvent) : option bytes :=
  match ev with
  | EvBlock p _ _ _ _ | EvSubtree p _ _ _ _ | EvBEEFFrame _ p _ _ _ _ _ | EvBEEF p _ _ _ _ _ | EvTx p _ _ _ _ => Some p
  | _ => None
  end.

(** A delivered payload is the concatenation of received fragments 0 to K-1 of
    one key, and has the length one of that key's fragments declared. *)
Definition delivery_ok (hist : list FragFrame) (ev : REvent) : Prop :=
  forall p, payload_of ev = Some p ->
    exists key total content ff,
      1 <= total /\ p = assemble total content /\
      (forall i, 0 <= i < total -> exists d, content !! i = Some d /\ sent hist key total i d) /\
      ff ∈ hist /\ slotKey ff = key /\ ff_FragTotal ff = total /\ Z.of_nat (length p) = ff_OrigPayloadLen ff.

Lemma sent_mono h1 h2 key total i d : h1 ⊆ h2 -> sent h1 key total i d -> sent h2 key total i d.
Proof. intros Hs (ff & Hin & ?). exists ff. split; [by apply Hs|done]. Qed.

Lemma open_from_mono h1 h2 key s : h1 ⊆ h2 -> open_from h1 key s -> open_from h2 key s.
Proof.
  intros Hs [[(ff & Hin & Ho) (content & Hok & Hsent)] Hr]. split; [|done].
  split; [exists ff; split; [by apply Hs|done]|]. exists content. split; [done|].
  intros i d Hd. eapply sent_mono; [exact Hs|]. by apply Hsent.
Qed.

Lemma buf_inv_mono h1 h2 b : h1 ⊆ h2 -> buf_inv h1 b -> buf_inv h2 b.
Proof.
  intros Hs [I1 I2 I3 I4 I5 I6 I7 I8]. split; auto. intros k s Hk. eapply open_from_mono; [exact Hs|]. by apply I2.
Qed.

(** ** Removing slots *)

Lemma removeSlot_inv hist key b : buf_inv hist b -> buf_inv hist (removeSlot key b).
Proof.
  intros [I1 I2 I3 I4 I5 I6 I7 I8].
  assert (forall k, is_Some (delete key (b_slots b) !! k) -> is_Some (b_slots b !! k)) as Hd
    by (intros k [_ ?]%lookup_delete_is_Some; done).
  split; cbn; auto.
  - by apply map_Forall_delete.
  - rewrite map_size_delete. case_match; unfold id; lia.
Qed.

Lemma with_lastEvict_inv hist now b : buf_inv hist b -> buf_inv hist (with_lastEvict now b).
Proof. by intros [I1 I2 I3 I4 I5 I6 I7 I8]. Qed.

Lemma set_wait_from hist key s dl req ext : open_from hist key s -> open_from hist key (set_wait dl req ext s).
Proof.
  intros [[Ho (content & Hok & Hsent)] Hr]. split; [|done]. split; [done|]. exists content. split; [|done].
  destruct Hok. by split.
Qed.

(** Replacing an open slot by another open slot of the same key. *)
Lemma put_slot_inv hist key s s' b :
  b_slots b !! key = Some s -> open_from hist key s' -> buf_inv hist b ->
  buf_inv hist (with_slots (<[key := s']> (b_slots b)) b).
Proof.
  intros Hk Hs' [I1 I2 I3 I4 I5 I6 I7 I8].
  assert (forall k, is_Some (<[key := s']> (b_slots b) !! k) -> is_Some (b_slots b !! k)) as Hd.
  { intros k. destruct (decide (k = key)) as [->|Hne]; [by rewrite Hk|by rewrite lookup_insert_ne]. }
  split; cbn; auto.
  - by apply map_Forall_insert_2.
  - rewrite map_size_insert, Hk. done.
Qed.

(** ** The completion memory *)

Definition done_ok (done : gmap bytes Z) (order : list bytes) : Prop :=
  NoDup order /\ forall key, key ∈ order <-> is_Some (done !! key).

Definition sweep_done_one (now : Z) (acc : gmap bytes Z * list bytes) (key : bytes) : gmap bytes Z * list bytes :=
  let '(done, live) := acc in
  match done !! key with
  | None => (done, live)
  | Some exp => if after now exp then (delete key done, live) else (done, live ++ [key])
  end.

Lemma sweepDone_fold now done order :
  done_ok done order ->
  let '(done', order') := fold_left (sweep_done_one now) order (done, []) in
  done_ok done' order' /\ (size done' <= size done)%nat /\
  forall key, done' !! key = match done !! key with Some exp => if after now exp then None else Some exp | None => None end.
Proof.
  intros [Hnd Hin].
  pose (I := fun (acc : gmap bytes Z * list bytes) (rest : list bytes) =>
    NoDup (acc.2 ++ rest) /\ (forall key, key ∈ acc.2 ++ rest <-> is_Some (acc.1 !! key)) /\
    (size acc.1 <= size done)%nat /\
    forall key, (key ∈ rest -> acc.1 !! key = done !! key) /\
      (key ∉ rest -> acc.1 !! key = match done !! key with Some exp => if after now exp then None else Some exp | None => None end)).
  pose proof (fold_left_rest (sweep_done_one now) I order (done, [])) as HI.
  destruct (fold_left _ _ _) as [done' order'].
  destruct HI as (H1 & H2 & H3 & H4); cbn [fst snd] in *.
  - split; [done|]. split; [done|]. split; [done|]. intros key. split; [done|]. cbn. intros Hout.
    destruct (done !! key) eqn:E; [|done]. destruct Hout. apply Hin. by rewrite E.
  - clear H. intros [d live] key rest (I1 & I2 & I3 & I4). cbn [fst snd] in *. unfold sweep_done_one.
    destruct (I4 key) as [Hk _]. specialize (Hk ltac:(left)).
    destruct (proj1 (I2 key)) as [exp Hexp]; [apply elem_of_app; right; by left|].
    rewrite Hexp. apply NoDup_app in I1 as (N1 & N2 & [N3 N4]%NoDup_cons).
    assert (forall k, k ∈ rest -> k <> key) as Hne by (intros k Hk' ->; done).
    destruct (after now exp) eqn:Ha; unfold I; cbn [fst snd].
    + split; [apply NoDup_app; split; [done|]; split; [|done]; intros k Hk' ?; by apply (N2 k Hk'); right|].
      split; [|split].
      * intros k. rewrite lookup_delete_is_Some, <- I2, !elem_of_app, elem_of_cons.
        split; [|intuition congruence]. intros [Hl|Hr]; (split; [|tauto]).
        { intros <-. apply (N2 key Hl). by left. }
        { intros <-. done. }
      * rewrite map_size_delete, Hexp. lia.
      * intros k. split.
        { intros Hk'. rewrite lookup_delete_ne by (symmetry; auto). apply (I4 k). by right. }
        { intros Hk'. destruct (decide (k = key)) as [->|Hd]; [by rewrite lookup_delete_eq, <- Hk, Hexp, Ha|].
          rewrite lookup_delete_ne by done. apply (I4 k). by apply not_elem_of_cons. }
    + rewrite <- (app_assoc live [key] rest). cbn [app].
      split; [apply NoDup_app; split; [done|]; split; [done|by apply NoDup_cons]|]. split; [done|]. split; [done|].
      intros k. split; [intros Hk'; apply (I4 k); by right|]. intros Hk'.
      destruct (decide (k = key)) as [->|Hd]; [by rewrite Hexp, <- Hk, Hexp, Ha|].
      apply (I4 k). by apply not_elem_of_cons.
  - rewrite app_nil_r in H1, H2. split; [by split|]. split; [done|]. intros key. apply (H4 key).
    by intros ?%elem_of_nil.
Qed.

Lemma sweepDone_inv hist now b :
  buf_inv hist b ->
  buf_inv hist (sweepDone now b) /\ b_slots (sweepDone now b) = b_slots b /\
  b_insertOrder (sweepDone now b) = b_insertOrder b.
Proof.
  intros Hb. pose proof Hb as [I1 I2 I3 I4 I5 I6 I7 I8]. unfold sweepDone. case_decide; [done|].
  pose proof (sweepDone_fold now (b_done b) (b_doneOrder b) (conj I6 I5)) as Hf.
  change (fold_left _ (b_doneOrder b) (b_done b, []))
    with (fold_left (sweep_done_one now) (b_doneOrder b) (b_done b, [])).
  destruct (fold_left _ _ _) as [done' order']. destruct Hf as ([F1 F2] & F3 & F4).
  split; [|done]. split; cbn; auto; [lia|]. intros key Hk. rewrite F4, (I8 key Hk). done.
Qed.

(** [markDone] keeps the order list the list of the remembered keys, within the
    bound, and remembers no key but the new one. *)
Lemma markDone_memory hist now key b :
  buf_inv hist b ->
  exists done order, markDone now key b = with_done (<[key := time_add now (b_completionTTL b)]> done) order b /\
    NoDup order /\ (forall k, k ∈ order <-> k = key \/ is_Some (done !! k)) /\
    Z.of_nat (size (<[key := time_add now (b_completionTTL b)]> done)) <= b_maxSlots b /\
    forall k, is_Some (done !! k) -> is_Some (b_done b !! k).
Proof.
  intros [I1 I2 I3 I4 I5 I6 I7 I8]. unfold markDone. destruct (b_done b !! key) as [x|] eqn:E.
    - exists (b_done b), (b_doneOrder b). split; [done|]. split; [done|]. split; [|split].
      + intros k. rewrite I5. split; [auto|]. intros [->|]; [by rewrite E|done].
      + rewrite map_size_insert, E. done.
      + done.
    - assert (key ∉ b_doneOrder b) as Hout by (rewrite I5, E; by intros []).
      destruct (b_doneOrder b) as [|oldest rest] eqn:Eo.
      + assert (b_done b = ∅) as Hempty.
        { apply map_eq. intros k. rewrite lookup_empty. destruct (b_done b !! k) eqn:Ek; [|done].
          assert (k ∈ []) as Hk by (apply I5; by rewrite Ek). by apply elem_of_nil in Hk. }
        exists (b_done b), [key]. split; [done|]. split; [apply NoDup_singleton|]. split; [|split; [|done]].
        * intros k. rewrite list_elem_of_singleton, Hempty, lookup_empty. split; [auto|]. by intros [?|[]].
        * rewrite map_size_insert, E, Hempty, map_size_empty. lia.
      + apply NoDup_cons in I6 as [N1 N2]. apply not_elem_of_cons in Hout as [Ho1 Ho2].
        assert (is_Some (b_done b !! oldest)) as [y Hy] by (apply I5; by left).
        destruct (b_maxSlots b <=? Z.of_nat (size (b_done b))) eqn:Ec; bool_to_prop.
        * exists (delete oldest (b_done b)), (rest ++ [key]). split; [done|]. split; [|split; [|split]].
          { apply NoDup_app. split; [done|]. split; [|apply NoDup_singleton]. intros k Hk ->%list_elem_of_singleton. done. }
          { intros k. rewrite elem_of_app, list_elem_of_singleton, lookup_delete_is_Some, <- I5, elem_of_cons.
            split; [|intuition congruence]. intros [Hr| ->]; [|by left]. right. split; [|by right]. by intros <-. }
          { rewrite map_size_insert, lookup_delete_ne, E, map_size_delete, Hy by done.
            assert (size (b_done b) <> 0%nat) by (intros Hz%map_size_empty_inv; by rewrite Hz, lookup_empty in Hy). lia. }
          { by intros k [_ ?]%lookup_delete_is_Some. }
        * exists (b_done b), ((oldest :: rest) ++ [key]). split; [done|]. split; [|split; [|split; [|done]]].
          { apply NoDup_app. split; [by apply NoDup_cons|]. split; [|apply NoDup_singleton].
            intros k Hk ->%list_elem_of_singleton. apply elem_of_cons in Hk as [|]; done. }
          { intros k. rewrite elem_of_app, list_elem_of_singleton, <- I5. tauto. }
          { rewrite map_size_insert, E. lia. }
Qed.

Lemma markDone_inv hist now key b :
  buf_inv hist b ->
  buf_inv hist (removeSlot key (markDone now key b)) /\ is_Some (b_done (markDone now key b) !! key).
Proof.
  intros Hb. destruct (markDone_memory hist now key b Hb) as (done & order & -> & N & O & Sz & Sub).
  destruct Hb as [I1 I2 I3 I4 I5 I6 I7 I8].
  split; [|cbn; rewrite lookup_insert_eq; done].
  assert (forall k, is_Some (delete key (b_slots b) !! k) -> k <> key /\ is_Some (b_slots b !! k)) as Hd
    by (intros k [? ?]%lookup_delete_is_Some; auto).
  split; cbn; auto.
  - by apply map_Forall_delete.
  - rewrite map_size_delete. case_match; unfold id; lia.
  - intros k [_ Hk]%Hd. auto.
  - intros k. rewrite O. destruct (decide (k = key)) as [->|Hne].
    + rewrite lookup_insert_eq. split; [done|by left].
    + rewrite lookup_insert_ne by done. split; [by intros [?|?]|by right].
  - intros k [Hne Hk]%Hd. rewrite lookup_insert_ne by done.
    destruct (done !! k) eqn:E; [|done]. specialize (I8 k Hk). destruct (Sub k); [by rewrite E|congruence].
Qed.

Section Sweep.
Context {S : Type} `{RepairHooks S}.

Definition no_delivery (evs : list REvent) : Prop := Forall (fun ev => payload_of ev = None) evs.

Lemma evict_one_inv hist now (acc : Buffer * S * list REvent) key :
  buf_inv hist acc.1.1 -> no_delivery acc.2 ->
  let acc' := evict_one now acc key in
  buf_inv hist acc'.1.1 /\ no_delivery acc'.2 /\ b_insertOrder acc'.1.1 = b_insertOrder acc.1.1.
Proof.
  destruct acc as [[b st] evs]; cbn [fst snd]. intros Hb He. unfold evict_one.
  destruct (b_slots b !! key) as [s|] eqn:Hk; [|done].
  case_test; [done|]. unfold no_delivery in *.
  assert (forall reason, Forall (fun ev => payload_of ev = None) [EvAbandoned; EvAbandonedReason reason]) as Hab
    by (intros; by repeat constructor).
  case_test.
  { cbn. split; [by apply removeSlot_inv|]. split; [|done]. apply Forall_app. auto. }
  unfold holdForRepair. destruct (missingSeqNums s) as [|m missing].
  { cbn. split; [by apply removeSlot_inv|]. split; [|done]. apply Forall_app. auto. }
  repeat case_test; cbn; (split; [try by apply removeSlot_inv|split; [|done]]); rewrite ?app_nil_r; try (apply Forall_app; auto); auto.
  all: try (eapply put_slot_inv; [exact Hk| |done]; apply set_wait_from; by apply (bi_slots _ _ Hb)).
  all: split; [done|by repeat constructor].
Qed.

Lemma evictExpired_inv hist now b (st : S) :
  buf_inv hist b ->
  let '(b', st', evs) := evictExpired now b st in buf_inv hist b' /\ no_delivery evs.
Proof.
  intros Hb. unfold evictExpired. destruct (sweepDone_inv hist now b Hb) as (H1 & _ & _).
  set (b1 := sweepDone now b) in *.
  pose proof (fold_left_inv (evict_one now)
    (fun acc : Buffer * S * list REvent => buf_inv hist acc.1.1 /\ no_delivery acc.2)
    (b_insertOrder b1) (b1, st, [])) as Hf.
  destruct (fold_left _ _ _) as [[b2 st2] evs].
  destruct Hf as [H2 H3]; [split; [done|by constructor]| |].
  { intros acc key _ [Ha He]. by destruct (evict_one_inv hist now acc key Ha He) as (? & ? & _). }
  cbn [fst snd] in *. split; [|done]. destruct H2 as [I1 I2 I3 I4 I5 I6 I7 I8]. split; auto.
  intros key Hk. apply list_elem_of_filter. auto.
Qed.

End Sweep.

(** ** Capacity *)

(** With every slot in the insertion order, eviction finds one. *)
Lemma evict_first_inv hist pre order b :
  buf_inv hist b -> b_insertOrder b = pre ++ order ->
  (forall key, key ∈ pre -> b_slots b !! key = None) ->
  let '(b', evs) := evict_first pre order b in
  buf_inv hist b' /\ no_delivery evs /\ b_done b' = b_done b /\ b_maxSlots b' = b_maxSlots b /\
  (forall k, is_Some (b_slots b' !! k) -> is_Some (b_slots b !! k)) /\
  (b_slots b <> ∅ -> (size (b_slots b') < size (b_slots b))%nat).
Proof.
  intros Hb. pose proof Hb as [I1 I2 I3 I4 I5 I6 I7 I8].
  revert pre. induction order as [|key rest IH]; intros pre Ho Hpre; cbn [evict_first].
  { split; [done|]. split; [by constructor|]. do 3 (split; [done|]). intros Hne.
    apply map_choose in Hne as (k & s & Hk). rewrite app_nil_r in Ho.
    rewrite Hpre in Hk; [done|]. rewrite <- Ho. apply I4. by rewrite Hk. }
  destruct (b_slots b !! key) as [s|] eqn:Hk.
  - cbn. pose proof (removeSlot_inv hist key b Hb) as [J1 J2 J3 J4 J5 J6 J7 J8]. split; [|split; [by repeat constructor|]].
    + split; auto. intros k Hs. cbn. specialize (J4 k Hs). cbn in J4, Hs. rewrite Ho in J4.
      apply lookup_delete_is_Some in Hs as [Hne _].
      rewrite elem_of_app, elem_of_cons in J4. rewrite elem_of_app. intuition congruence.
    + do 2 (split; [done|]). split; [by intros k [_ ?]%lookup_delete_is_Some|].
      intros Hne. rewrite map_size_delete, Hk.
      assert (size (b_slots b) <> 0%nat) by (intros Hz%map_size_empty_inv; done). lia.
  - apply IH; [by rewrite <- app_assoc|]. intros k [Hin| ->%list_elem_of_singleton]%elem_of_app; auto.
Qed.

Variable groupIdxFn : option (FragFrame -> Z).

Lemma open_slot_inv hist now ff b :
  frag_ok ff -> buf_inv hist b -> b_slots b !! slotKey ff = None ->
  let '(r, evs) := open_slot groupIdxFn now ff b in
  no_delivery evs /\
  match r with
  | None => True
  | Some (s, b') =>
      buf_inv (hist ++ [ff]) b' /\ b_slots b' !! slotKey ff = Some s /\ s = newSlot groupIdxFn now b' ff /\
      ff_FragIndex ff < ff_FragTotal ff /\ b_done b' !! slotKey ff = None
  end.
Proof.
  intros [Ft Fi Fl] Hb Hk. unfold open_slot. case_test; [split; [by repeat constructor|done]|].
  case_test; [split; [by constructor|done]|]. case_test; [split; [by constructor|done]|].
  case_test; [split; [by repeat constructor|done]|]. bool_to_prop.
  assert (let '(b1, ev) := if b_maxSlots b <=? Z.of_nat (size (b_slots b)) then evictOldest b else (b, []) in
    buf_inv hist b1 /\ no_delivery ev /\ b_done b1 = b_done b /\ b_maxSlots b1 = b_maxSlots b /\
    b_slots b1 !! slotKey ff = None /\ Z.of_nat (size (b_slots b1)) < b_maxSlots b1) as Hev.
  { pose proof Hb as [I1 I2 I3 I4 I5 I6 I7 I8]. case_test; bool_to_prop.
    - pose proof (evict_first_inv hist [] (b_insertOrder b) b Hb eq_refl) as He. unfold evictOldest.
      destruct (evict_first _ _ _) as [b1 ev]. destruct He as (E1 & E2 & E3 & E4 & E5 & E6).
      { by intros k ?%elem_of_nil. }
      do 4 (split; [done|]). split.
      + destruct (b_slots b1 !! slotKey ff) eqn:E; [|done]. destruct (E5 (slotKey ff)); [by rewrite E|congruence].
      + rewrite E4. assert (b_slots b <> ∅) as Hne by (intros Hz; rewrite Hz, map_size_empty in *; lia).
        specialize (E6 Hne). lia.
    - split; [done|]. split; [by constructor|]. do 2 (split; [done|]). split; [done|]. lia. }
  destruct (if b_maxSlots b <=? _ then _ else _) as [b1 ev]. destruct Hev as (E1 & E2 & E3 & E4 & E5 & E6).
  split; [apply Forall_app; split; [done|by repeat constructor]|].
  apply (buf_inv_mono hist (hist ++ [ff])) in E1; [|intros x Hx; apply elem_of_app; by left].
  pose proof E1 as [I1 I2 I3 I4 I5 I6 I7 I8].
  assert (b_done b1 !! slotKey ff = None) as Hnd by (rewrite E3; by destruct (b_done b !! slotKey ff)).
  cbn [b_slots with_order with_slots]. rewrite lookup_insert_eq.
  split; [|split; [done|split; [done|split; [lia|done]]]].
  split; cbn; auto.
  - apply map_Forall_insert_2; [|done]. split; [|cbn; lia]. split.
    + exists ff. split; [apply elem_of_app; right; by left|]. by cbn.
    + exists ∅. split; [apply newSlot_ok; lia|apply map_Forall_empty].
  - rewrite map_size_insert, E5. lia.
  - intros k. destruct (decide (k = slotKey ff)) as [->|Hne].
    + intros _. apply elem_of_app. right. by left.
    + rewrite lookup_insert_ne by done. intros Hs. apply elem_of_app. left. auto.
  - intros k. destruct (decide (k = slotKey ff)) as [->|Hne]; [done|]. rewrite lookup_insert_ne by done. auto.
Qed.

(** ** Taking a fragment *)

Lemma add_fragment_frame fs ff s :
  let s' := add_fragment fs ff s in
  sl_key s' = sl_key s /\ sl_fragTotal s' = sl_fragTotal s /\ sl_origPayloadLen s' = sl_origPayloadLen s /\
  sl_txID s' = sl_txID s /\ sl_origFrameVer s' = sl_origFrameVer s /\ sl_subtreeID s' = sl_subtreeID s.
Proof. unfold add_fragment, store, promote. destruct (sl_whole s); cbn; [done|]. by case_test. Qed.

Lemma add_fragment_from hist key s ff fs :
  ff ∈ hist -> slotKey ff = key -> frag_ok ff -> ff_FragTotal ff = sl_fragTotal s ->
  ff_FragIndex ff < sl_fragTotal s -> has s (ff_FragIndex ff) = false -> checkFragLen s ff = Some fs ->
  slot_from hist key s -> slot_from hist key (add_fragment fs ff s).
Proof.
  intros Hin Hkey [Ft Fi Fl] Ht Hlt Hh Hc [(ff0 & Ho) (content & Hok & Hsent)].
  destruct (add_fragment_frame fs ff s) as (F1 & F2 & F3 & F4 & F5 & F6). split.
  - exists ff0. by rewrite F2, F3, F4, F5.
  - exists (<[ff_FragIndex ff := ff_FragData ff]> content). split; [by apply add_fragment_ok; [|lia| |]|].
    rewrite F2. apply map_Forall_insert_2; [|done]. by exists ff.
Qed.

Lemma deliver_payload b s w ev p : ev ∈ deliver b s w -> payload_of ev = Some p -> p = drop (room s) w.
Proof.
  unfold deliver. repeat case_test; intros Hin Hp; rewrite ?list_elem_of_singleton, ?elem_of_nil in Hin;
    subst; try done; cbn in Hp; congruence.
Qed.

Lemma complete_event key s content hist b now ev :
  slot_ok key s content -> sl_received s = sl_fragTotal s -> opened hist key s ->
  map_Forall (sent hist key (sl_fragTotal s)) content ->
  ev ∈ snd (complete now s b) -> delivery_ok hist ev.
Proof.
  intros Hok Hr (ff & Hin & Hk & Ht & Hl & _) Hsent Hev p Hp.
  unfold complete in Hev. cbn [snd] in Hev. apply elem_of_app in Hev as [Hev|Hev].
  { destruct (sl_extended s); [|by apply elem_of_nil in Hev]. apply list_elem_of_singleton in Hev. by subst. }
  set (s' := match sl_whole s with None => promote s | Some _ => s end) in *.
  apply (deliver_payload _ _ _ _ p) in Hev; [|done].
  assert (room s' = room s) as Hroom by (unfold s'; destruct (sl_whole s); [done|apply promote_frame]).
  rewrite Hroom in Hev. change (match sl_whole s' with Some w => w | None => [] end) with (whole_of s) in Hev.
  destruct (whole_of_complete key s content Hok Hr) as [Ha Hlen]. rewrite Ha in Hev, Hlen.
  exists key, (sl_fragTotal s), content, ff. pose proof (so_total _ _ _ Hok). pose proof (so_len _ _ _ Hok).
  split; [lia|]. split; [done|]. split.
  - intros i Hi. destruct (content_full key s content i Hok Hr Hi) as [d Hd]. exists d. split; [done|]. by apply Hsent.
  - do 3 (split; [done|]). rewrite Hev, Hlen, Hl. lia.
Qed.

(** Storing the complete slot before removing it changes nothing. *)
Lemma complete_buffer key s' now b :
  removeSlot key (markDone now key (with_slots (<[key := s']> (b_slots b)) b)) = removeSlot key (markDone now key b).
Proof.
  unfold removeSlot, markDone. cbn. destruct (b_done b !! key); [cbn; by rewrite delete_insert_eq|].
  destruct (b_doneOrder b); [cbn; by rewrite delete_insert_eq|].
  case_test; cbn; by rewrite delete_insert_eq.
Qed.

Lemma take_fragment_inv hist later ff s b :
  frag_ok ff -> ff ∈ hist -> buf_inv hist b -> b_slots b !! slotKey ff = Some s ->
  let '(b', evs) := take_fragment later ff s b in
  buf_inv hist b' /\ Forall (delivery_ok hist) evs.
Proof.
  intros Hff Hin Hb Hs. pose proof (bi_slots _ _ Hb _ _ Hs) as [[Ho (content & Hok & Hsent)] Hr].
  unfold take_fragment. case_test; [split; [done|by constructor]|].
  case_test; [split; [done|by constructor]|]. bool_to_prop.
  pose proof (so_key _ _ _ Hok) as Hkey.
  destruct (checkFragLen s ff) as [fs|] eqn:Hc.
  2: { split; [by apply removeSlot_inv|]. constructor; [by intros p|constructor]. }
  pose proof (add_fragment_from hist (slotKey ff) s ff fs Hin eq_refl Hff ltac:(done) ltac:(lia) ltac:(done) Hc
    (conj Ho (ex_intro _ content (conj Hok Hsent)))) as Hfrom.
  destruct (add_fragment_frame fs ff s) as (F1 & F2 & _).
  set (s' := add_fragment fs ff s) in *. rewrite F1, Hkey. case_test; bool_to_prop.
  - split; [by eapply put_slot_inv|by constructor].
  - destruct Hfrom as [Ho' (content' & Hok' & Hsent')].
    assert (sl_received s' = sl_fragTotal s') as Hfull.
    { pose proof (content_bound _ _ _ Hok'). pose proof (so_received _ _ _ Hok'). lia. }
    pose proof (complete_event (slotKey ff) s' content' hist
      (with_slots (<[slotKey ff := s']> (b_slots b)) b) later) as Hev.
    unfold complete in *. cbn [snd] in Hev.
    assert (sl_key (match sl_whole s' with None => promote s' | Some _ => s' end) = slotKey ff) as ->.
    { destruct (sl_whole s'); [congruence|]. destruct (promote_frame s') as (-> & _). congruence. }
    rewrite F1, Hkey in *. rewrite complete_buffer. split; [by apply markDone_inv|].
    apply Forall_forall. intros ev He. by apply (Hev ev).
Qed.

(** ** Runs *)

Context {S : Type} `{RepairHooks S}.

Lemma no_delivery_ok hist evs : no_delivery evs -> Forall (delivery_ok hist) evs.
Proof. intros Hn. eapply Forall_impl; [exact Hn|]. intros ev He p Hp. cbn in He. congruence. Qed.

Lemma Observe_inv hist now later ff b (st : S) :
  frag_ok ff -> buf_inv hist b ->
  let '(b', st', evs) := Observe groupIdxFn now later ff b st in
  buf_inv (hist ++ [ff]) b' /\ Forall (delivery_ok (hist ++ [ff])) evs.
Proof.
  intros Hff Hb. unfold Observe.
  assert (let '(b1, st1, ev0) :=
    if sweep_every b <=? time_sub now (b_lastEvict b)
    then let '(b, st, ev) := evictExpired now b st in (with_lastEvict now b, st, ev) else (b, st, []) in
    buf_inv hist b1 /\ no_delivery ev0) as Hsw.
  { case_test; [|split; [done|by constructor]]. pose proof (evictExpired_inv hist now b st Hb) as He.
    destruct (evictExpired now b st) as [[b1 st1] ev]. destruct He. split; [by apply with_lastEvict_inv|done]. }
  destruct (if sweep_every b <=? _ then _ else _) as [[b1 st1] ev0]. destruct Hsw as [H1 Hn0].
  assert (buf_inv (hist ++ [ff]) b1) as H1'.
  { eapply buf_inv_mono; [|exact H1]. intros x Hx. apply elem_of_app. by left. }
  assert (ff ∈ hist ++ [ff]) as Hin by (apply elem_of_app; right; by left).
  apply (no_delivery_ok (hist ++ [ff])) in Hn0.
  destruct (b_slots b1 !! slotKey ff) as [s|] eqn:Hk.
  - pose proof (take_fragment_inv (hist ++ [ff]) later ff s b1 Hff Hin H1' Hk) as Ht.
    destruct (take_fragment later ff s b1) as [b2 ev]. destruct Ht. split; [done|]. by apply Forall_app.
  - pose proof (open_slot_inv hist now ff b1 Hff H1 Hk) as Hop.
    destruct (open_slot groupIdxFn now ff b1) as [[[s b2]|] ev1]; destruct Hop as [Hn Hop].
    + destruct Hop as (H2 & Hs & _).
      pose proof (take_fragment_inv (hist ++ [ff]) later ff s b2 Hff Hin H2 Hs) as Ht.
      destruct (take_fragment later ff s b2) as [b3 ev]. destruct Ht. split; [done|].
      apply Forall_app. split; [done|]. apply Forall_app. split; [by apply no_delivery_ok|done].
    + split; [done|]. apply Forall_app. split; [done|by apply no_delivery_ok].
Qed.

End Inv.
