(* ===== verification/ReassemblyProps.v ===== *)
(** * Fragment reassembly: theorems about runs

    Deliveries of arbitrary traffic are built from received fragments only, and
    the tables stay bounded. *)

From S2P Require Import Prelude Reassembly ReassemblySlot ReassemblyInv.

Section Runs.
Context `{FrameLib} {S : Type} `{RepairHooks S}.
Variable groupIdxFn : option (FragFrame -> Z).

(** A buffer as configured, before traffic. *)
Record fresh (b : Buffer) : Prop := mkFresh {
  fr_slots : b_slots b = ∅;
  fr_order : b_insertOrder b = [];
  fr_done : b_done b = ∅;
  fr_doneOrder : b_doneOrder b = [];
  fr_max : 1 <= b_maxSlots b
}.

(** A run: the fragments offered and the events, in order.  The tracker's state
    is whatever it is at each call. *)
Inductive rrun (b0 : Buffer) : list FragFrame -> Buffer -> list REvent -> Prop :=
| RRStart : rrun b0 [] b0 []
| RRObserve hist b evs now later ff (st st' : S) b' evs' :
    rrun b0 hist b evs -> frag_ok ff -> Observe groupIdxFn now later ff b st = (b', st', evs') ->
    rrun b0 (hist ++ [ff]) b' (evs ++ evs')
| RRTick hist b evs now (st st' : S) b' evs' :
    rrun b0 hist b evs -> Tick now b st = (b', st', evs') -> rrun b0 hist b' (evs ++ evs')
| RRPurge hist b evs b' evs' :
    rrun b0 hist b evs -> Purge b = (b', evs') -> rrun b0 hist b' (evs ++ evs').

Lemma fresh_inv b : fresh b -> buf_inv [] b.
Proof.
  intros [F1 F2 F3 F4 F5]. split; rewrite ?F1, ?F2, ?F3, ?F4, ?map_size_empty; auto; try lia.
  - apply map_Forall_empty.
  - intros k Hk. by apply lookup_empty_is_Some in Hk.
  - intros k. rewrite lookup_empty, elem_of_nil. split; [done|by intros []].
  - apply NoDup_nil_2.
Qed.

Lemma delivery_mono h1 h2 ev : h1 ⊆ h2 -> delivery_ok h1 ev -> delivery_ok h2 ev.
Proof.
  intros Hs Hd p Hp. destruct (Hd p Hp) as (key & total & content & ff & H1 & H2 & H3 & H4 & H5).
  exists key, total, content, ff. do 2 (split; [done|]). split; [|split; [by apply Hs|done]].
  intros i Hi. destruct (H3 i Hi) as (d & ? & ?). exists d. split; [done|]. by eapply sent_mono.
Qed.

Lemma rrun_inv b0 hist b evs :
  fresh b0 -> rrun b0 hist b evs -> buf_inv hist b /\ Forall (delivery_ok hist) evs.
Proof.
  intros Hf. induction 1 as [|hist b evs now later ff st st' b' evs' Hr [IH1 IH2] Hff Ho
    |hist b evs now st st' b' evs' Hr [IH1 IH2] Ho|hist b evs b' evs' Hr [IH1 IH2] Ho].
  - split; [by apply fresh_inv|constructor].
  - pose proof (Observe_inv groupIdxFn hist now later ff b st Hff IH1) as Hi. rewrite Ho in Hi. destruct Hi as [Hi1 Hi2].
    split; [done|]. apply Forall_app. split; [|done]. eapply Forall_impl; [exact IH2|].
    intros ev. apply delivery_mono. intros x Hx. apply elem_of_app. by left.
  - pose proof (evictExpired_inv hist now b st IH1) as Hi. unfold Tick in Ho. rewrite Ho in Hi. destruct Hi as [Hi1 Hi2].
    split; [done|]. apply Forall_app. split; [done|by apply no_delivery_ok].
  - unfold Purge in Ho. simplify_eq. split.
    + destruct IH1 as [I1 I2 I3 I4 I5 I6 I7 I8]. split; cbn; rewrite ?map_size_empty; auto; try lia.
      * apply map_Forall_empty.
      * intros k Hk. by apply lookup_empty_is_Some in Hk.
      * intros k. rewrite lookup_empty, elem_of_nil. split; [done|by intros []].
      * apply NoDup_nil_2.
    + apply Forall_app. split; [done|]. apply Forall_forall. intros ev Hev%list_elem_of_In%repeat_spec p Hp. by subst.
Qed.

(** C2: Whatever arrives, a delivered payload is exactly the concatenation, in
    index order, of fragments 0 to K-1 that were received for one reassembly key
    with one FragTotal K, and its length is an OrigPayloadLen declared for that
    key: no bytes are invented, shifted, or mixed between objects. *)
Theorem reassembly_safe (b0 : Buffer) (hist : list FragFrame) (b : Buffer) (evs : list REvent) :
  fresh b0 -> rrun b0 hist b evs -> Forall (delivery_ok hist) evs.
Proof. intros Hf Hr. by apply (rrun_inv b0 hist b evs). Qed.

(** C36: Hostile traffic cannot grow the tables: in every run the open slots and
    the remembered completions stay within MaxSlots each, every open slot is in
    the insertion order (so expiry and eviction reach it), and no remembered
    completion has an open slot, so a completed object is not being collected
    again while it is remembered. *)
Theorem reassembly_bounded (b0 : Buffer) (hist : list FragFrame) (b : Buffer) (evs : list REvent) :
  fresh b0 -> rrun b0 hist b evs ->
  Len b <= b_maxSlots b /\ Z.of_nat (size (b_done b)) <= b_maxSlots b /\
  (forall key, is_Some (b_slots b !! key) -> key ∈ b_insertOrder b /\ b_done b !! key = None).
Proof.
  intros Hf Hr. destruct (rrun_inv b0 hist b evs Hf Hr) as [[I1 I2 I3 I4 I5 I6 I7 I8] _]. auto.
Qed.

End Runs.

(** ** Concrete inputs *)

(** A frame library with the documented version bytes and a toy hash. *)
Definition lib0 : FrameLib :=
  mkFrameLib 4 5 9 92 64 (fun p => take 32 (p ++ zeros 32)) (fun p => Some (Z.of_nat (length p)))
    (fun p => Some (take 32 (p ++ zeros 32))).

Definition hooks0 : RepairHooks unit := mkRepairHooks unit (fun _ _ _ _ st => st) (fun _ _ _ => false).

Definition frag0 (i : Z) (d : bytes) : FragFrame := mkFrag (zeros 32) (zeros 32) 7 (100 + i) 5 3 i 2 0 d.

Definition buffer0 : Buffer := New 16 0 false true.

Lemma buffer0_fresh : fresh buffer0.
Proof. split; done || (vm_compute; done). Qed.

Definition three : list FragFrame := [frag0 2 [5]; frag0 0 [1; 2]; frag0 1 [3; 4]].

(** The buffer and events after offering fragments one by one. *)
Definition offer (fs : list FragFrame) : Buffer * list REvent :=
  fold_left (fun acc ff =>
    let '(b, _, ev) := @Observe lib0 unit hooks0 None 1000 1000 ff acc.1 tt in (b, acc.2 ++ ev))
    fs (buffer0, []).

Lemma offer_run fs :
  Forall frag_ok fs -> @rrun lib0 unit hooks0 None buffer0 fs (offer fs).1 (offer fs).2.
Proof.
  induction fs as [|ff fs IH] using rev_ind; intros Hok; [constructor|].
  apply Forall_app in Hok as [Hok Hff]. apply Forall_cons in Hff as [Hff _]. specialize (IH Hok).
  unfold offer in *. rewrite fold_left_app. cbn [fold_left].
  destruct (fold_left _ fs _) as [b evs]. cbn [fst snd] in *.
  destruct (@Observe lib0 unit hooks0 None 1000 1000 ff b tt) as [[b' st'] ev] eqn:E. cbn [fst snd].
  eapply (@RRObserve lib0 unit hooks0 None); [exact IH|exact Hff|exact E].
Qed.

Lemma three_ok : Forall frag_ok three.
Proof. by repeat constructor. Qed.

Lemma reassembly_safe_witness : Forall (@delivery_ok lib0 three) (offer three).2.
Proof. exact (@reassembly_safe lib0 unit hooks0 None buffer0 three _ _ buffer0_fresh (offer_run three three_ok)). Defined.

Lemma reassembly_bounded_witness : Len (offer three).1 <= b_maxSlots (offer three).1.
Proof. exact (proj1 (@reassembly_bounded lib0 unit hooks0 None buffer0 three _ _ buffer0_fresh (offer_run three three_ok))). Defined.
