(* ===== verification/ReassemblyRepair.v ===== *)
(** * Fragment reassembly: repair of incomplete objects

    Which SeqNums an incomplete slot asks for, when a slot past its TTL waits for
    repair, how long it can live, and the buffer on top of the gap tracker: the
    tracker provides the interface the buffer's theorems are stated against. *)

From S2P Require Import Prelude Wire Discovery Tracker TrackerInv TrackerProps TrackerRepair Reassembly ReassemblySlot ReassemblyInv ReassemblyProps.

(** ** The contract between the buffer and the tracker *)

(** A flow the tracker follows: fragments asked for are then pending, and no
    other request takes that away. *)
Class RepairLaws (S : Type) `{RepairHooks S} := mkRepairLaws {
  tracks : Z -> S -> Prop;
  asked_pending : forall hk g sid missing st,
    missing <> [] -> tracks hk st -> repairPending hk missing (onIncomplete hk g sid missing st) = true;
  tracks_kept : forall hk hk' g sid missing st, tracks hk st -> tracks hk (onIncomplete hk' g sid missing st);
  pending_kept : forall hk seqs hk' g sid missing st,
    repairPending hk seqs st = true -> repairPending hk seqs (onIncomplete hk' g sid missing st) = true
}.

(** The tracker's side, for a call of worker [owner] that reads [env]. *)
Definition tracker_hooks (env : Env) (owner : Z) : RepairHooks Tracker :=
  mkRepairHooks Tracker
    (fun hk g sid missing t => RequestGapsFrom env owner hk g sid missing t)
    (fun hk missing t => Pending t hk missing).

Lemma Pending_some t hk seqs s : s ∈ seqs -> Pending t hk [s] = true -> Pending t hk seqs = true.
Proof.
  unfold Pending. destruct (t_flows t !! hk) as [fs|]; [|done]. intros Hin Hs. cbn in Hs. rewrite orb_false_r in Hs.
  apply existsb_exists. exists s. split; [by apply list_elem_of_In|done].
Qed.

Lemma Pending_one t hk seqs : Pending t hk seqs = true -> exists s, s ∈ seqs /\ Pending t hk [s] = true.
Proof.
  unfold Pending. destruct (t_flows t !! hk) as [fs|]; [|done].
  intros (s & Hin & Hs)%existsb_exists. exists s. split; [by apply list_elem_of_In|]. cbn. by rewrite Hs.
Qed.

(** A request drops no flow. *)
Lemma request_keeps_flow env owner hk' g sid seqs t hk :
  is_Some (t_flows t !! hk) -> is_Some (t_flows (RequestGapsFrom env owner hk' g sid seqs t) !! hk).
Proof.
  intros Hf. unfold RequestGapsFrom. destruct seqs as [|x seqs]; [done|].
  assert (forall fs' q evs, is_Some (t_flows (with_flows (<[hk' := fs']> (t_flows t)) q evs t) !! hk)) as Hins.
  { intros fs' q evs. cbn. destruct (decide (hk = hk')) as [->|Hne]; [by rewrite lookup_insert_eq|by rewrite lookup_insert_ne]. }
  destruct (t_flows t !! hk'); [by destruct (fold_left _ _ _) as [[??]?]|].
  destruct (at_cap t); [done|by destruct (fold_left _ _ _) as [[??]?]].
Qed.

Lemma request_keeps_pending env owner hk' g sid seqs' t hk seqs :
  Pending t hk seqs = true -> Pending (RequestGapsFrom env owner hk' g sid seqs' t) hk seqs = true.
Proof.
  intros (s & Hin & Hs)%Pending_one. apply (Pending_some _ _ _ s Hin).
  destruct (decide (is_Some (t_flows t !! hk') \/ at_cap t = false)) as [Hok|Hno].
  - destruct (request_gaps_pending t env owner hk' g sid seqs' Hok) as (_ & Hkeep & Hother).
    destruct (decide (hk = hk')) as [->|Hne]; [by apply Hkeep|]. rewrite Hother; [done|by left].
  - unfold RequestGapsFrom. destruct seqs' as [|x seqs']; [done|].
    destruct (t_flows t !! hk'); [destruct Hno; left; by eexists|]. destruct (at_cap t); [done|destruct Hno; by right].
Qed.

Definition tracker_laws (env : Env) (owner : Z) : @RepairLaws Tracker (tracker_hooks env owner).
Proof.
  refine (@mkRepairLaws Tracker (tracker_hooks env owner) (fun hk t => is_Some (t_flows t !! hk)) _ _ _).
  - intros hk g sid missing t Hne Hok. cbn. destruct missing as [|m ms]; [done|].
    destruct (request_gaps_pending t env owner hk g sid (m :: ms) (or_introl Hok)) as [Hp _].
    apply (Pending_some _ _ _ m); [left|]. apply Hp. left.
  - intros hk hk' g sid missing t. apply request_keeps_flow.
  - intros hk seqs hk' g sid missing t. apply request_keeps_pending.
Defined.

Section Repair.
Context `{FrameLib} {S : Type} `{RepairHooks S}.

(** ** Missing SeqNums *)

Lemma nearest_sound s i ds best : nearest s i ds = Some best -> has s best = true.
Proof.
  induction ds as [|d ds IH]; [done|]. cbn. repeat case_test; intros; simplify_eq; auto;
    by repeat match goal with Hb : _ && _ = true |- _ => apply andb_prop in Hb as [_ Hb] end.
Qed.

Lemma nearest_complete s i ds j :
  has s j = true -> 0 <= j < sl_fragTotal s -> Z.abs (i - j) ∈ ds -> is_Some (nearest s i ds).
Proof.
  intros Hj Hr. induction ds as [|d ds IH]; [by intros ?%elem_of_nil|]. intros [Hd|Hd]%elem_of_cons; cbn.
  - case_test; [by eexists|]. case_test; [by eexists|]. exfalso.
    destruct (Z.le_ge_cases j i).
    + replace (i - d) with j in * by lia. rewrite Hj, (proj2 (Z.leb_le 0 j)) in * by lia. done.
    + replace (i + d) with j in * by lia. rewrite Hj, (proj2 (Z.ltb_lt j _)) in * by lia. done.
  - repeat (case_test; [by eexists|]). auto.
Qed.

Lemma has_range key s content j : slot_ok key s content -> has s j = true -> 0 <= j < sl_fragTotal s.
Proof.
  intros Hok Hj. apply (so_dom _ _ _ Hok) in Hj as [d Hd]. by apply (so_fits _ _ _ Hok) in Hd as [? _].
Qed.

(** When an object's fragments carry consecutive SeqNums, an incomplete slot
    that received at least one of them names exactly the SeqNums of the missing
    ones, in index order, whichever fragments arrived. *)
Theorem missing_exact (key : bytes) (s : slot) (content : gmap Z bytes) (base : Z) :
  slot_ok key s content -> content <> ∅ ->
  (forall i, has s i = true -> sl_fragSeq s !!! Z.to_nat i = base + i) ->
  0 <= base -> base + sl_fragTotal s < 2 ^ 63 ->
  missingSeqNums s = (fun i => base + i) <$> filter (fun i => has s i = false) (seqZ 0 (sl_fragTotal s)).
Proof.
  intros Hok Hne Hseq Hb Hmax. pose proof Hok as [K1 K2 K3 K4 K5 K6 K7 K8 K9 K10 K11].
  apply map_choose in Hne as (j & d & Hd). assert (has s j = true) as Hj by (apply K6; by eexists).
  pose proof (has_range _ _ _ _ Hok Hj) as Hjr.
  unfold missingSeqNums. rewrite (proj2 (Z.eqb_neq _ _)).
  2: { rewrite K8. assert (size content <> 0%nat); [|lia]. intros Hz%map_size_empty_inv. subst. by rewrite lookup_empty in Hd. }
  assert (forall i, 0 <= i < sl_fragTotal s -> missing_seq s i = if has s i then None else Some (base + i)) as Hm.
  { intros i Hi. unfold missing_seq. destruct (has s i) eqn:Hh; [done|].
    destruct (nearest_complete s i (seqZ 1 (sl_fragTotal s - 1)) j Hj Hjr) as [best Hbest].
    { apply elem_of_seqZ. assert (i <> j) by congruence. lia. }
    rewrite Hbest. pose proof (nearest_sound _ _ _ _ Hbest) as Hhb. pose proof (has_range _ _ _ _ Hok Hhb).
    rewrite (Hseq best Hhb), (i64_small (base + best)) by (unfold min_i64, max_i64; lia).
    replace (base + best + (i - best)) with (base + i) by lia.
    rewrite i64_small by (unfold min_i64, max_i64; lia). rewrite (proj2 (Z.ltb_ge _ 0)) by lia.
    by rewrite u64_small by (unfold is_u64; lia). }
  assert (forall i, i ∈ seqZ 0 (sl_fragTotal s) -> 0 <= i < sl_fragTotal s) as Hin by (intros i Hi%elem_of_seqZ; lia).
  clear K4 K5. induction (seqZ 0 (sl_fragTotal s)) as [|i l IH]; [done|].
  rewrite filter_cons. cbn [omap list_omap]. rewrite (Hm i) by (apply Hin; left).
  rewrite IH by (intros k Hk; apply Hin; by right). destruct (has s i); by case_decide.
Qed.

(** ** The repair wait *)

(** What happens to a slot whose TTL has passed, under a repair wait: it is
    kept exactly when it can name missing fragments, its age limit has not come
    and, after the first-expiry request, one of them is still being repaired; it
    then has asked for its fragments and its deadline is at most one TTL ahead and
    never past the age limit.  Abandoned with repair still pending it is a repair
    timeout, otherwise it is loss. *)
Theorem hold_spec (now : Z) (b : Buffer) (s : slot) (st : S) :
  let '(r, st', evs) := holdForRepair now b s st in
  let limit := sl_born s + b_maxAge b in
  let pending := repairPending (sl_hashKey s) (missingSeqNums s) st' in
  st' = (if bool_decide (missingSeqNums s <> [] /\ sl_requested s = false /\ now < limit /\ b_hookIncomplete b = true)
         then onIncomplete (sl_hashKey s) (sl_groupIdx s) (sl_subtreeID s) (missingSeqNums s) st else st) /\
  match r with
  | inr s' =>
      missingSeqNums s <> [] /\ pending = true /\ now < limit /\
      s' = set_wait (Z.min (now + b_ttl b) limit) true true s
  | inl reason =>
      missingSeqNums s = [] /\ reason = AbandonExpired \/
      missingSeqNums s <> [] /\ pending = false /\ reason = AbandonExpired \/
      missingSeqNums s <> [] /\ pending = true /\ limit <= now /\ reason = AbandonRepairTimeout
  end.
Proof.
  unfold holdForRepair. destruct (missingSeqNums s) as [|m ms] eqn:Hm.
  { split; [rewrite bool_decide_false; [done|by intros [? _]]|]. by left. }
  unfold before, time_add. set (limit := sl_born s + b_maxAge b).
  assert ((negb (sl_requested s) && (now <? limit) && b_hookIncomplete b) =
    bool_decide (m :: ms <> [] /\ sl_requested s = false /\ now < limit /\ b_hookIncomplete b = true)) as Hask.
  { destruct (sl_requested s), (b_hookIncomplete b), (Z.ltb_spec now limit); cbn; symmetry;
      first [apply bool_decide_eq_true; split; [done|]; split; [done|]; split; [lia|done]
            |apply bool_decide_eq_false; intros (_ & ? & ? & ?); first [done|lia]]. }
  rewrite Hask. set (st' := if bool_decide _ then _ else _).
  destruct (repairPending (sl_hashKey s) (m :: ms) st') eqn:Hp; destruct (now <? limit) eqn:Hl; cbn [negb andb];
    (split; [done|]); bool_to_prop.
  - split; [done|]. split; [done|]. split; [done|]. f_equal.
    + unfold after. case_test; bool_to_prop; lia.
    + rewrite andb_true_r. by destruct (sl_requested s).
  - right; right. by repeat split.
  - right; left. by repeat split.
  - right; left. by repeat split.
Qed.

(** ** Lifetime *)

(** No slot outlives the TTL or the age limit, whichever is longer. *)
Definition age_ok (ttl maxAge : Z) (s : slot) : Prop := sl_deadline s <= sl_born s + Z.max ttl maxAge.

Definition aged (ttl maxAge : Z) (b : Buffer) : Prop :=
  b_ttl b = ttl /\ b_maxAge b = maxAge /\ map_Forall (fun _ s => age_ok ttl maxAge s) (b_slots b).

Lemma aged_slots ttl maxAge b slots :
  aged ttl maxAge b -> map_Forall (fun _ s => age_ok ttl maxAge s) slots -> aged ttl maxAge (with_slots slots b).
Proof. by intros (? & ? & _). Qed.

Lemma aged_delete ttl maxAge key b : aged ttl maxAge b -> aged ttl maxAge (removeSlot key b).
Proof. intros Ha. apply aged_slots; [done|]. apply map_Forall_delete, Ha. Qed.

(** The buffer of a step is the old one up to its slots. *)
Lemma aged_same ttl maxAge b b' :
  b_ttl b' = b_ttl b -> b_maxAge b' = b_maxAge b -> b_slots b' = b_slots b -> aged ttl maxAge b -> aged ttl maxAge b'.
Proof. intros H1' H2' H3' (? & ? & ?). split; [congruence|split; [congruence|by rewrite H3']]. Qed.

Lemma evict_one_aged ttl maxAge now (acc : Buffer * S * list REvent) key :
  aged ttl maxAge acc.1.1 -> 0 < ttl ->
  let acc' := evict_one now acc key in
  aged ttl maxAge acc'.1.1 /\
  (forall k s, b_slots acc'.1.1 !! k = Some s -> k <> key -> b_slots acc.1.1 !! k = Some s) /\
  (forall s, b_slots acc'.1.1 !! key = Some s -> now <= sl_deadline s) /\
  (forall k, is_Some (b_slots acc'.1.1 !! k) -> is_Some (b_slots acc.1.1 !! k)).
Proof.
  destruct acc as [[b st] evs]; cbn [fst snd]. intros Ha Ht. unfold evict_one.
  destruct (b_slots b !! key) as [s|] eqn:Hk; [|cbn; rewrite Hk; done].
  assert (forall b', b' = removeSlot key b ->
    aged ttl maxAge b' /\ (forall k s0, b_slots b' !! k = Some s0 -> k <> key -> b_slots b !! k = Some s0) /\
    (forall s0, b_slots b' !! key = Some s0 -> now <= sl_deadline s0) /\
    (forall k, is_Some (b_slots b' !! k) -> is_Some (b_slots b !! k))) as Hrm.
  { intros b' ->. split; [by apply aged_delete|]. cbn. split; [|split].
    - intros k s0 Hs Hne. by rewrite lookup_delete_ne in Hs.
    - intros s0 Hs. by rewrite lookup_delete_eq in Hs.
    - by intros k [_ ?]%lookup_delete_is_Some. }
  unfold after. destruct (sl_deadline s <? now) eqn:Hd; cbn [negb]; bool_to_prop.
  2: { cbn. split; [done|]. split; [done|]. split; [|done]. intros s0 Hs. simplify_eq. lia. }
  case_test; [by apply Hrm|].
  pose proof (hold_spec now b s st) as Hh. destruct (holdForRepair now b s st) as [[r st'] ev].
  destruct Hh as [_ Hh]. destruct r as [reason|s']; [by apply Hrm|]. cbn.
  destruct Hh as (_ & _ & Hl & ->). destruct Ha as (A1 & A2 & A3). split; [split; [done|]; split; [done|]|split; [|split]].
  - apply map_Forall_insert_2; [|done]. unfold age_ok; cbn. lia.
  - intros k s0 Hs Hne. by rewrite lookup_insert_ne in Hs.
  - intros s0. rewrite lookup_insert_eq. intros [= <-]. cbn. lia.
  - intros k. destruct (decide (k = key)) as [->|Hne]; [by rewrite Hk|by rewrite lookup_insert_ne].
Qed.

Lemma sweepDone_frame now b :
  b_slots (sweepDone now b) = b_slots b /\ b_insertOrder (sweepDone now b) = b_insertOrder b /\
  b_ttl (sweepDone now b) = b_ttl b /\ b_maxAge (sweepDone now b) = b_maxAge b.
Proof. unfold sweepDone. case_decide; [done|]. by destruct (fold_left _ _ _). Qed.

(** After a sweep every slot's deadline lies ahead. *)
Lemma evictExpired_aged ttl maxAge now b (st : S) :
  aged ttl maxAge b -> 0 < ttl ->
  let '(b', st', evs) := evictExpired now b st in
  aged ttl maxAge b' /\
  (forall k s, b_slots b' !! k = Some s -> k ∈ b_insertOrder b -> now <= sl_deadline s) /\
  (forall k, is_Some (b_slots b' !! k) -> is_Some (b_slots b !! k)).
Proof.
  intros Ha Ht. unfold evictExpired. destruct (sweepDone_frame now b) as (D1 & D2 & D3 & D4).
  set (b1 := sweepDone now b) in *. rewrite D2.
  pose (I := fun (acc : Buffer * S * list REvent) (rest : list bytes) =>
    aged ttl maxAge acc.1.1 /\
    (forall k s, b_slots acc.1.1 !! k = Some s -> k ∈ b_insertOrder b -> k ∈ rest \/ now <= sl_deadline s) /\
    (forall k, is_Some (b_slots acc.1.1 !! k) -> is_Some (b_slots b !! k))).
  pose proof (fold_left_rest (evict_one now) I (b_insertOrder b) (b1, st, [])) as Hf.
  destruct (fold_left _ _ _) as [[b2 st2] evs]. destruct Hf as (H1' & H2' & H3'); cbn [fst snd] in *.
  - split; [by eapply (aged_same ttl maxAge b)|]. split; [auto|]. cbn. by rewrite D1.
  - intros acc key rest (Ia & Ib & Ic). destruct (evict_one_aged ttl maxAge now acc key Ia Ht) as (E1 & E2 & E3 & E4).
    split; [done|]. split; [|auto]. intros k s Hs Hin. destruct (decide (k = key)) as [->|Hne]; [right; auto|].
    destruct (Ib k s (E2 k s Hs Hne) Hin) as [[?|?]%elem_of_cons|?]; auto. done.
  - split; [by eapply (aged_same ttl maxAge b2)|]. split; [|done]. intros k s Hs Hin. destruct (H2' k s Hs Hin) as [?%elem_of_nil|?]; done.
Qed.

Lemma add_fragment_times fs ff s :
  sl_deadline (add_fragment fs ff s) = sl_deadline s /\ sl_born (add_fragment fs ff s) = sl_born s.
Proof. unfold add_fragment, store, promote. destruct (sl_whole s); cbn; [done|]. by case_test. Qed.

Lemma markDone_frame now k b :
  b_ttl (markDone now k b) = b_ttl b /\ b_maxAge (markDone now k b) = b_maxAge b /\ b_slots (markDone now k b) = b_slots b.
Proof. unfold markDone. destruct (b_done b !! k); [done|]. destruct (b_doneOrder b); [done|]. by case_test. Qed.

Lemma take_fragment_aged ttl maxAge later ff s b :
  aged ttl maxAge b -> age_ok ttl maxAge s -> aged ttl maxAge (take_fragment later ff s b).1.
Proof.
  intros Ha Hs. unfold take_fragment. case_test; [done|]. case_test; [done|].
  destruct (checkFragLen s ff) as [fs|]; [|by apply aged_delete].
  set (b1 := with_slots _ b).
  assert (aged ttl maxAge b1) as H1'.
  { apply aged_slots; [done|]. apply map_Forall_insert_2; [|apply Ha].
    destruct (add_fragment_times fs ff s) as [Hd Hb]. unfold age_ok. by rewrite Hd, Hb. }
  case_test; [done|]. cbn. apply aged_delete.
  destruct (markDone_frame later (sl_key (add_fragment fs ff s)) b1) as (? & ? & ?). by eapply aged_same.
Qed.

Lemma evict_first_aged ttl maxAge pre order b :
  aged ttl maxAge b -> aged ttl maxAge (evict_first pre order b).1.
Proof.
  intros Ha. revert pre. induction order as [|k rest IH]; intros pre; cbn [evict_first]; [done|].
  destruct (b_slots b !! k); [|apply IH]. cbn. eapply aged_same; [| | |by apply (aged_delete ttl maxAge k b)]; done.
Qed.

Variable groupIdxFn : option (FragFrame -> Z).

Lemma Observe_aged ttl maxAge now later ff b (st : S) :
  aged ttl maxAge b -> 0 < ttl -> aged ttl maxAge (Observe groupIdxFn now later ff b st).1.1.
Proof.
  intros Ha Ht. unfold Observe.
  assert (aged ttl maxAge (if sweep_every b <=? time_sub now (b_lastEvict b)
    then let '(b, st, ev) := evictExpired now b st in (with_lastEvict now b, st, ev) else (b, st, [])).1.1) as H1'.
  { case_test; [|done]. pose proof (evictExpired_aged ttl maxAge now b st Ha Ht) as He.
    destruct (evictExpired now b st) as [[b1 ?] ?]. destruct He as [He _]. cbn. by eapply (aged_same ttl maxAge b1). }
  destruct (if sweep_every b <=? _ then _ else _) as [[b1 st1] ev0]. cbn [fst] in H1'.
  destruct (b_slots b1 !! slotKey ff) as [s|] eqn:Hs.
  - pose proof (take_fragment_aged ttl maxAge later ff s b1 H1') as Htk.
    destruct (take_fragment later ff s b1). apply Htk. destruct H1' as (_ & _ & Hall). by apply (Hall _ _ Hs).
  - unfold open_slot. do 4 (case_test; [done|]).
    assert (aged ttl maxAge (if b_maxSlots b1 <=? Z.of_nat (size (b_slots b1)) then evictOldest b1 else (b1, [])).1) as H2'
      by (case_test; [by apply evict_first_aged|done]).
    destruct (if b_maxSlots b1 <=? _ then _ else _) as [b2 ev]. cbn [fst] in H2'.
    assert (age_ok ttl maxAge (newSlot groupIdxFn now b2 ff)) as Hn.
    { destruct H2' as (E & _ & _). unfold age_ok; cbn. unfold time_add. rewrite E. lia. }
    match goal with |- context [take_fragment later ff ?s ?b] =>
      pose proof (take_fragment_aged ttl maxAge later ff s b) as Htk; destruct (take_fragment later ff s b) end.
    apply Htk; [|done]. eapply (aged_same ttl maxAge (with_slots _ b2)); [done..|].
    apply aged_slots; [done|]. apply map_Forall_insert_2; [done|apply H2'].
Qed.

Lemma rrun_aged b0 hist b evs :
  fresh b0 -> 0 < b_ttl b0 -> rrun groupIdxFn b0 hist b evs -> aged (b_ttl b0) (b_maxAge b0) b.
Proof.
  intros Hf Ht Hr. induction Hr as [|hist b evs now later ff st st' b' evs' Hr IH Hff Ho
    |hist b evs now st st' b' evs' Hr IH Ho|hist b evs b' evs' Hr IH Ho].
  - split; [done|]. split; [done|]. rewrite (fr_slots _ Hf). apply map_Forall_empty.
  - pose proof (Observe_aged _ _ now later ff b st IH Ht) as Hobs. by rewrite Ho in Hobs.
  - pose proof (evictExpired_aged _ _ now b st IH Ht) as Hobs. unfold Tick in Ho. rewrite Ho in Hobs. apply Hobs.
  - unfold Purge in Ho. simplify_eq. destruct IH as (? & ? & _). split; [done|]. split; [done|]. apply map_Forall_empty.
Qed.

(** C37: Incomplete objects do not linger: in every run of a buffer, a sweep at
    time [now] leaves no slot that was opened longer before [now] than the longer
    of the TTL and the age limit of the repair wait, whatever the tracker says. *)
Theorem reassembly_lifetime (b0 : Buffer) (hist : list FragFrame) (b : Buffer) (evs : list REvent) (now : Z) (st : S) :
  fresh b0 -> 0 < b_ttl b0 -> rrun groupIdxFn b0 hist b evs ->
  forall key s, b_slots (Tick now b st).1.1 !! key = Some s ->
  now <= sl_born s + Z.max (b_ttl b0) (b_maxAge b0).
Proof.
  intros Hf Ht Hr. pose proof (rrun_aged b0 hist b evs Hf Ht Hr) as Ha.
  destruct (rrun_inv groupIdxFn b0 hist b evs Hf Hr) as [Hinv _].
  pose proof (evictExpired_aged _ _ now b st Ha Ht) as He.
  unfold Tick.
  intros key s. destruct (evictExpired now b st) as [[b' st'] ev] eqn:E. cbn. intros Hs.
  destruct He as ((_ & _ & Hage) & Hdl & Hsub). specialize (Hage key s Hs). unfold age_ok in Hage.
  enough (now <= sl_deadline s) by lia. apply (Hdl key s Hs).
  apply (bi_order _ _ Hinv), Hsub. by eexists.
Qed.

(** ** The first expiry *)

Lemma evict_one_config now (acc : Buffer * S * list REvent) k :
  b_ttl (evict_one now acc k).1.1 = b_ttl acc.1.1 /\ b_maxAge (evict_one now acc k).1.1 = b_maxAge acc.1.1 /\
  b_repairWait (evict_one now acc k).1.1 = b_repairWait acc.1.1 /\
  b_hookIncomplete (evict_one now acc k).1.1 = b_hookIncomplete acc.1.1.
Proof.
  destruct acc as [[b st] evs]. unfold evict_one. destruct (b_slots b !! k); [|done]. repeat (case_test; [done|]).
  destruct (holdForRepair _ _ _ _) as [[[?|?] ?] ?]; done.
Qed.

Lemma evict_one_other now (acc : Buffer * S * list REvent) k key :
  k <> key -> b_slots (evict_one now acc k).1.1 !! key = b_slots acc.1.1 !! key.
Proof.
  intros Hne. destruct acc as [[b st] evs]. unfold evict_one. destruct (b_slots b !! k); [|done].
  case_test; [done|]. case_test; [cbn; by rewrite lookup_delete_ne|].
  destruct (holdForRepair _ _ _ _) as [[[?|?] ?] ?]; cbn; [by rewrite lookup_delete_ne|by rewrite lookup_insert_ne].
Qed.

Lemma holdForRepair_state now b s (st : S) :
  (holdForRepair now b s st).1.2 = st \/
  (holdForRepair now b s st).1.2 = onIncomplete (sl_hashKey s) (sl_groupIdx s) (sl_subtreeID s) (missingSeqNums s) st.
Proof.
  pose proof (hold_spec now b s st) as Hh. destruct (holdForRepair now b s st) as [[r st'] ev]. destruct Hh as [-> _].
  cbn. case_bool_decide; auto.
Qed.

(** The tracker hears of at most one request per key. *)
Lemma evict_one_state now (acc : Buffer * S * list REvent) k :
  (evict_one now acc k).1.2 = acc.1.2 \/
  exists hk g sid missing, (evict_one now acc k).1.2 = onIncomplete hk g sid missing acc.1.2.
Proof.
  destruct acc as [[b st] evs]. unfold evict_one. destruct (b_slots b !! k) as [s|]; [|by left].
  case_test; [by left|]. case_test.
  - cbn. unfold notifyIncomplete. case_test; [by left|]. destruct (missingSeqNums s); [by left|right; by repeat eexists].
  - pose proof (holdForRepair_state now b s st) as Hh. destruct (holdForRepair now b s st) as [[[?|?] st'] ?];
      cbn in *; destruct Hh as [->|Hh]; eauto 6.
Qed.

Lemma hold_first `{!RepairLaws S} now b s (st : S) :
  b_hookIncomplete b = true -> sl_requested s = false -> missingSeqNums s <> [] ->
  now < sl_born s + b_maxAge b -> tracks (sl_hashKey s) st ->
  exists st' ev, holdForRepair now b s st =
      (inr (set_wait (Z.min (now + b_ttl b) (sl_born s + b_maxAge b)) true true s), st', ev) /\
    repairPending (sl_hashKey s) (missingSeqNums s) st' = true.
Proof.
  intros Hh Hreq Hm Hl Ht. pose proof (hold_spec now b s st) as Hs.
  destruct (holdForRepair now b s st) as [[r st'] ev]. destruct Hs as [Hst Hr].
  rewrite bool_decide_true in Hst by done.
  assert (repairPending (sl_hashKey s) (missingSeqNums s) st' = true) as Hp by (rewrite Hst; by apply asked_pending).
  exists st', ev. split; [|done]. destruct r as [reason|s'].
  - exfalso. destruct Hr as [[? _]|[(_ & ? & _)|(_ & _ & ? & _)]]; [done|congruence|lia].
  - by destruct Hr as (_ & _ & _ & ->).
Qed.

(** C18: The sweep at an object's first expiry.  In every run of a buffer, when a
    sweep finds an incomplete object past its deadline that has not asked for repair
    yet, and the repair wait is on, the repair hook is set, the object's age limit
    has not come, it can name missing fragments and the tracker follows its flow,
    then the sweep keeps the object: it is waiting, has asked, its deadline is one TTL ahead
    but not past the age limit, and after the whole sweep the tracker is repairing
    one of its missing fragments. *)
Theorem first_expiry_waits `{!RepairLaws S} (b0 : Buffer) (hist : list FragFrame) (b : Buffer) (evs : list REvent)
    (now : Z) (st : S) (key : bytes) (s : slot) :
  fresh b0 -> 0 < b_ttl b0 -> rrun groupIdxFn b0 hist b evs ->
  b_repairWait b = true -> b_hookIncomplete b = true ->
  b_slots b !! key = Some s -> sl_deadline s < now -> sl_requested s = false -> missingSeqNums s <> [] ->
  now < sl_born s + b_maxAge b -> tracks (sl_hashKey s) st ->
  let '(b', st', _) := Tick now b st in
  b_slots b' !! key = Some (set_wait (Z.min (now + b_ttl b) (sl_born s + b_maxAge b)) true true s) /\
    repairPending (sl_hashKey s) (missingSeqNums s) st' = true.
Proof.
  intros Hf Ht Hr Hw Hh Hs Hd Hreq Hm Hl Htr.
  destruct (rrun_inv groupIdxFn b0 hist b evs Hf Hr) as [Hinv _].
  pose proof (rrun_aged b0 hist b evs Hf Ht Hr) as (Httl & _ & _).
  assert (Hin : key ∈ b_insertOrder b) by (apply (bi_order _ _ Hinv); by eexists).
  unfold Tick, evictExpired. destruct (sweepDone_frame now b) as (D1 & D2 & D3 & D4). rewrite D2.
  set (s' := set_wait _ true true s).
  pose (I := fun (acc : Buffer * S * list REvent) (rest : list bytes) =>
    (b_ttl acc.1.1 = b_ttl b /\ b_maxAge acc.1.1 = b_maxAge b /\ b_repairWait acc.1.1 = true /\ b_hookIncomplete acc.1.1 = true) /\
    tracks (sl_hashKey s) acc.1.2 /\
    (b_slots acc.1.1 !! key = Some s /\ key ∈ rest \/
     b_slots acc.1.1 !! key = Some s' /\ repairPending (sl_hashKey s) (missingSeqNums s) acc.1.2 = true)).
  pose proof (fold_left_rest (evict_one now) I (b_insertOrder b) (sweepDone now b, st, [])) as Hfold.
  destruct (fold_left _ _ _) as [[b2 st2] evs2]. destruct Hfold as (_ & _ & [[_ []%elem_of_nil]|Hend]); [| |done].
  - split; [|split; [done|left; cbn; by rewrite D1]]. cbn. rewrite D3, D4. split_and!; try done; unfold sweepDone; case_decide;
      [done|by destruct (fold_left _ _ _)|done|by destruct (fold_left _ _ _)].
  - intros acc k rest (Hc & Ia & Ib). destruct (evict_one_config now acc k) as (C1 & C2 & C3 & C4).
    split; [rewrite C1, C2, C3, C4; apply Hc|]. split.
    { destruct (evict_one_state now acc k) as [->|(hk & g & sid & ms & ->)]; [done|by apply tracks_kept]. }
    destruct (decide (k = key)) as [->|Hne].
    + right. destruct acc as [[ba sta] ea]; cbn [fst snd] in *. destruct Hc as (E1 & E2 & E3 & E4). unfold evict_one.
      destruct Ib as [[Hk _]|[Hk Hp]]; rewrite Hk; unfold after.
      * rewrite (proj2 (Z.ltb_lt _ _) Hd), E3. cbn [negb].
        destruct (hold_first now ba s sta E4 Hreq Hm) as (st' & ev & -> & Hp); [by rewrite E2|done|].
        cbn. rewrite lookup_insert_eq, E1, E2. done.
      * rewrite (proj2 (Z.ltb_ge _ _)); [done|]. unfold s'. cbn. lia.
    + rewrite evict_one_other by done. destruct Ib as [[Hk [?|?]%elem_of_cons]|[Hk Hp]]; [done|by left|right].
      split; [done|]. destruct (evict_one_state now acc k) as [->|(hk & g & sid & ms & ->)]; [done|by apply pending_kept].
Qed.

End Repair.

(** ** Concrete inputs *)

(** The slot of an object of three fragments that received only the middle one. *)
Definition partial : slot :=
  @add_fragment lib0 2 (frag0 1 [3; 4]) (@newSlot lib0 None 1000 buffer0 (frag0 1 [3; 4])).

Lemma partial_ok : @slot_ok lib0 (zeros 32) partial {[1 := [3; 4]]}.
Proof.
  apply (@add_fragment_ok lib0 (zeros 32) _ ∅ (frag0 1 [3; 4]) 2); [|cbn; lia|reflexivity|reflexivity].
  apply (@newSlot_ok lib0 None 1000 buffer0 (frag0 1 [3; 4])); cbn; lia.
Qed.

Lemma missing_exact_witness : missingSeqNums partial = [100; 102].
Proof.
  rewrite (@missing_exact lib0 (zeros 32) partial {[1 := [3; 4]]} 100 partial_ok).
  - vm_compute. reflexivity.
  - apply map_non_empty_singleton.
  - intros i Hi. pose proof (@has_range lib0 _ _ _ i partial_ok Hi) as Hr.
    change (sl_fragTotal partial) with 3 in Hr.
    assert (i = 0 \/ i = 1 \/ i = 2) as [-> |[-> | ->]] by lia; [discriminate Hi|reflexivity|discriminate Hi].
  - lia.
  - change (sl_fragTotal partial) with 3. lia.
Defined.

Definition two : list FragFrame := [frag0 1 [3; 4]].

Lemma two_ok : Forall frag_ok two.
Proof. by repeat constructor. Qed.

Lemma reassembly_lifetime_witness :
  exists s, b_slots (@Tick unit hooks0 (8 * ns_per_s) (offer two).1 tt).1.1 !! zeros 32 = Some s /\
  8 * ns_per_s <= sl_born s + 120 * ns_per_s.
Proof.
  destruct (b_slots (@Tick unit hooks0 (8 * ns_per_s) (offer two).1 tt).1.1 !! zeros 32) as [s|] eqn:E;
    [|vm_compute in E; discriminate].
  exists s. split; [reflexivity|]. revert E.
  exact (@reassembly_lifetime lib0 unit hooks0 None buffer0 two (offer two).1 (offer two).2 (8 * ns_per_s) tt
    buffer0_fresh ltac:(vm_compute; reflexivity) (offer_run two two_ok) (zeros 32) s).
Defined.

(** The buffer of a node with a repair wait, holding the partial object, over the
    tracker of a flow with a gap: a sweep past the TTL keeps it. *)
Definition waiting0 : Buffer := SetIncompleteHook (SetRepairWait 0 buffer0).

Definition one_fragment : Buffer * Tracker * list REvent :=
  @Observe lib0 Tracker (tracker_hooks (env0 (12 * ns_per_s)) 0) None 1000 1000 (frag0 1 [3; 4]) waiting0 run0.

Lemma first_expiry_waits_witness :
  let '(b', st', _) := @Tick Tracker (tracker_hooks (env0 (12 * ns_per_s)) 0) (12 * ns_per_s) one_fragment.1.1 run0 in
  b_slots b' !! zeros 32 = Some (set_wait (22 * ns_per_s) true true partial) /\
  Pending st' 7 [100; 102] = true.
Proof.
  assert (Hs : b_slots one_fragment.1.1 !! zeros 32 = Some partial) by (vm_compute; reflexivity).
  assert (Hr : @rrun lib0 Tracker (tracker_hooks (env0 (12 * ns_per_s)) 0) None waiting0
    [frag0 1 [3; 4]] one_fragment.1.1 ([] ++ one_fragment.2)).
  { apply (@RRObserve lib0 Tracker (tracker_hooks (env0 (12 * ns_per_s)) 0) None waiting0 [] waiting0 []
      1000 1000 (frag0 1 [3; 4]) run0 one_fragment.1.2); [constructor|by repeat constructor|].
    unfold one_fragment. by destruct (Observe _ _ _ _ _ _) as [[??]?]. }
  exact (@first_expiry_waits lib0 Tracker (tracker_hooks (env0 (12 * ns_per_s)) 0) None
    (tracker_laws (env0 (12 * ns_per_s)) 0) waiting0 _ one_fragment.1.1 _ (12 * ns_per_s) run0 (zeros 32) partial
    ltac:(split; done || (vm_compute; done)) ltac:(vm_compute; reflexivity) Hr
    ltac:(vm_compute; reflexivity) ltac:(vm_compute; reflexivity) Hs ltac:(vm_compute; reflexivity)
    ltac:(vm_compute; reflexivity) ltac:(vm_compute; discriminate) ltac:(vm_compute; reflexivity)
    ltac:(vm_compute; eexists; reflexivity)).
Defined.
