(* ===== verification/ReassemblyHonest.v ===== *)
(** * Fragment reassembly: an honest object gets through

    The fragments of one object, offered in any order and any number of times among
    sweeps and the fragments of other objects, lead to exactly one delivery of the
    object, at the moment its last missing fragment arrives. *)

From S2P Require Import Prelude Reassembly ReassemblySlot ReassemblyInv ReassemblyProps ReassemblyRepair.

(** ** Deliveries *)

Inductive ObjectClass := ClassTx | ClassBlock | ClassSubtree | ClassBEEF.

(** What a delivery hands on: the class, the identity, for a transaction its subtree
    and for a BEEF object its topic, and the bytes. *)
Record Object := mkObject { ob_class : ObjectClass; ob_id : bytes; ob_sub : option bytes; ob_bytes : bytes }.

Definition object_of (ev : REvent) : option Object :=
  match ev with
  | EvBlock p id _ _ _ => Some (mkObject ClassBlock id None p)
  | EvSubtree p id _ _ _ => Some (mkObject ClassSubtree id None p)
  | EvBEEFFrame _ p id sub _ _ _ | EvBEEF p id sub _ _ _ => Some (mkObject ClassBEEF id (Some sub) p)
  | EvTx p id sub _ _ => Some (mkObject ClassTx id (Some sub) p)
  | _ => None
  end.

Section Honest.
Context `{FrameLib} {S : Type} `{RepairHooks S}.
Variable groupIdxFn : option (FragFrame -> Z).

(** ** The object *)

Context (object : bytes) (total fragSize : Z) (key txID sub : bytes) (ver : Z).
Local Abbreviation objLen := (Z.of_nat (length object)).

(** Fragment [i] of the object. *)
Definition piece (i : Z) : bytes :=
  slice object (Z.to_nat (i * fragSize)) (Z.to_nat (frag_len total objLen fragSize i)).

(** The frame carries fragment [i] of the object. *)
Definition carries (ff : FragFrame) : Prop :=
  frag_ok ff /\ slotKey ff = key /\ (ff_TxID ff = txID /\ ff_SubtreeID ff = sub) /\ ff_OrigFrameVer ff = ver /\
  ff_FragTotal ff = total /\ ff_OrigPayloadLen ff = objLen /\
  0 <= ff_FragIndex ff < total /\ ff_FragData ff = piece (ff_FragIndex ff).

Hypothesis Hshape : shape_ok total objLen fragSize.
Hypothesis Htotal : total < 2 ^ 16.

Lemma length_piece i : 0 <= i < total -> Z.of_nat (length (piece i)) = frag_len total objLen fragSize i.
Proof.
  intros Hi. destruct (frag_len_bounds _ _ _ _ Hshape Hi) as [H1 H2].
  pose proof Hshape as (_ & Hf & _). unfold piece, slice. rewrite length_take, length_drop. nia.
Qed.

(** The pieces in order are the object. *)
Lemma assemble_pieces (content : gmap Z bytes) :
  (forall i, 0 <= i < total -> content !! i = Some (piece i)) -> assemble total content = object.
Proof.
  intros Hc. pose proof Hshape as (Ht & Hf & Hs).
  assert (forall k, Z.of_nat k < total ->
    assemble (Z.of_nat k) content = take (Z.to_nat (Z.of_nat k * fragSize)) object) as Hpre.
  { induction k as [|k IH]; [done|]. intros Hk. replace (Z.of_nat (Datatypes.S k)) with (Z.of_nat k + 1) in * by lia.
    rewrite (assemble_snoc _ _ (piece (Z.of_nat k))), IH by (try apply Hc; lia).
    unfold piece, frag_len, slice. rewrite (proj2 (Z.eqb_neq total 1)), (proj2 (Z.eqb_neq (Z.of_nat k) _)) by lia.
    replace (Z.to_nat ((Z.of_nat k + 1) * fragSize)) with (Z.to_nat (Z.of_nat k * fragSize) + Z.to_nat fragSize)%nat by nia.
    by rewrite take_take_drop. }
  specialize (Hpre (Z.to_nat (total - 1)) ltac:(lia)). rewrite Z2Nat.id in Hpre by lia.
  replace total with (total - 1 + 1) at 1 by lia.
  rewrite (assemble_snoc _ _ (piece (total - 1))), Hpre by (try apply Hc; lia).
  unfold piece, slice. rewrite (take_ge (drop _ object)); [apply take_drop|].
  rewrite length_drop. unfold frag_len. destruct (total =? 1) eqn:E; bool_to_prop.
  - rewrite E. cbn. lia.
  - rewrite Z.eqb_refl. nia.
Qed.

(** ** The slot *)

(** The slot holds exactly the pieces with an index in [seen]. *)
Definition holds (seen : list Z) (s : slot) : Prop :=
  sl_fragTotal s = total /\ sl_origPayloadLen s = objLen /\ (sl_txID s = txID /\ sl_subtreeID s = sub) /\ sl_origFrameVer s = ver /\
  exists content, slot_ok key s content /\
    forall i, content !! i = if bool_decide (i ∈ seen) then Some (piece i) else None.

Lemma holds_size seen s :
  holds seen s -> fragSize = sl_fragSize s \/ sl_fragSize s = 0.
Proof.
  intros (Ht & Hl & _ & _ & content & Hok & Hc). destruct (decide (content = ∅)) as [He|Hne].
  { right. by apply (so_fresh _ _ _ Hok). }
  left. pose proof (so_shape _ _ _ Hok Hne) as Hs. rewrite Ht, Hl in Hs.
  apply map_choose in Hne as (i & d & Hd). pose proof (so_fits _ _ _ Hok _ _ Hd) as [Hi Hlen].
  rewrite Hc in Hd. case_bool_decide; simplify_eq. rewrite Ht, Hl, length_piece in Hlen by (rewrite Ht in Hi; lia).
  rewrite Ht in Hi. destruct Hs as (_ & Hf' & Hs), Hshape as (_ & Hf & Hs'). unfold frag_len in Hlen.
  revert Hlen. repeat case_test; bool_to_prop; intros Hlen; nia.
Qed.

(** All pieces are there exactly when the count says so. *)
Lemma holds_complete seen s :
  holds seen s -> (forall i, i ∈ seen -> 0 <= i < total) ->
  (sl_received s <? sl_fragTotal s) = negb (bool_decide (seqZ 0 total ⊆ seen)).
Proof.
  intros (Ht & Hl & _ & _ & content & Hok & Hc) Hr. rewrite Ht.
  pose proof (content_bound _ _ _ Hok) as Hb. rewrite Ht in Hb. pose proof (so_received _ _ _ Hok) as Hrec.
  case_bool_decide as Hall; cbn; [apply Z.ltb_ge|apply Z.ltb_lt].
  - assert (seqZ 0 total ⊆+ (map_to_list content).*1) as Hsub.
    { apply NoDup_submseteq; [apply NoDup_seqZ|]. intros i Hi. apply list_elem_of_fmap. exists (i, piece i).
      split; [done|]. apply elem_of_map_to_list. rewrite Hc, bool_decide_true by auto. done. }
    apply submseteq_length in Hsub. rewrite length_keys, length_seqZ in Hsub. lia.
  - destruct (decide (sl_received s = total)) as [E|]; [|lia]. destruct Hall. intros i Hi%elem_of_seqZ.
    destruct (content_full key s content i Hok) as [d Hd]; [congruence|rewrite Ht; lia|].
    rewrite Hc in Hd. by case_bool_decide.
Qed.

Lemma add_holds seen s ff :
  holds seen s -> carries ff -> has s (ff_FragIndex ff) = false ->
  checkFragLen s ff = Some fragSize /\ holds (seen ++ [ff_FragIndex ff]) (add_fragment fragSize ff s).
Proof.
  intros Hh (_ & Hk & _ & _ & Hft & Hfl & Hi & Hd) Hnew.
  pose proof (holds_size _ _ Hh) as Hsz. pose proof Hh as (Ht & Hl & Htx & Hv & content & Hok & Hc).
  assert (checkFragLen s ff = Some fragSize) as Hchk.
  { apply checkFragLen_complete; rewrite ?Ht, ?Hl; auto; [|lia]. rewrite Hd. by apply length_piece. }
  split; [done|]. destruct (add_fragment_frame fragSize ff s) as (F1 & F2 & F3 & F4 & F5 & F6).
  unfold holds. rewrite F2, F3, F4, F5, F6. do 4 (split; [done|]).
  exists (<[ff_FragIndex ff := ff_FragData ff]> content). split; [apply add_fragment_ok; auto; by rewrite Ht|].
  intros i. destruct (decide (i = ff_FragIndex ff)) as [->|Hne].
  - rewrite lookup_insert_eq, bool_decide_true, Hd by (apply elem_of_app; right; by left). done.
  - rewrite lookup_insert_ne, Hc by done. erewrite bool_decide_ext; [done|].
    rewrite elem_of_app, list_elem_of_singleton. tauto.
Qed.

(** A slot the object's fragment opens holds nothing yet. *)
Lemma new_holds now b ff : carries ff -> holds [] (newSlot groupIdxFn now b ff).
Proof.
  intros ([Ft Fi Fl] & Hk & Htx & Hv & Hft & Hfl & Hi & Hd). unfold holds; cbn. do 4 (split; [done|]).
  exists ∅. split; [rewrite <- Hk; apply newSlot_ok; pose proof Hshape as (? & ? & ?); nia|].
  intros i. rewrite lookup_empty, bool_decide_false; [done|]. by intros ?%elem_of_nil.
Qed.

(** A complete slot delivers the object. *)
Lemma whole_object seen s :
  holds seen s -> (forall i, i ∈ seen -> 0 <= i < total) -> seqZ 0 total ⊆ seen ->
  drop (room s) (whole_of s) = object.
Proof.
  intros Hh Hr Hall. pose proof (holds_complete _ _ Hh Hr) as Hc. rewrite bool_decide_true in Hc by done.
  pose proof Hh as (Ht & Hl & _ & _ & content & Hok & Hct). cbn in Hc. apply Z.ltb_ge in Hc.
  assert (sl_received s = sl_fragTotal s) as Hfull.
  { pose proof (content_bound _ _ _ Hok). rewrite (so_received _ _ _ Hok) in *. lia. }
  destruct (whole_of_complete key s content Hok Hfull) as [-> _]. rewrite Ht. apply assemble_pieces.
  intros i Hi. rewrite Hct, bool_decide_true; [done|]. apply Hall, elem_of_seqZ. lia.
Qed.

(** ** The buffer *)

(** The class an object of version [ver] is delivered as. *)
Definition class_of (ver : Z) : ObjectClass :=
  if ver =? FrameVerV4 then ClassBlock
  else if ver =? FrameVerV5 then ClassSubtree
  else if ver =? FrameVerV9 then ClassBEEF else ClassTx.

(** The object as it is delivered. *)
Definition delivered : Object :=
  mkObject (class_of ver) txID (match class_of ver with ClassTx | ClassBEEF => Some sub | _ => None end) object.

(** The objects some events deliver. *)
Definition objects (evs : list REvent) : list Object := omap object_of evs.

(** The buffer has a callback for the object's version and, when it verifies,
    the object has the identity its fragments name. *)
Definition accepts (b : Buffer) : Prop :=
  if ver =? FrameVerV4 then b_cbBlock b = true
  else if ver =? FrameVerV5 then b_cbSubtree b = true
  else if ver =? FrameVerV9 then
    (b_verifyHash b = true -> Sum256 (Sum256 object) = txID) /\ (b_cbBEEFFrame b = true \/ b_cbBEEF b = true)
  else (b_verifyHash b = true -> payloadTxID object = Some txID) /\ b_cbTx b = true.

(** The settings a fragment's way depends on. *)
Definition settings (b : Buffer) :=
  (b_ttl b, b_completionTTL b, b_maxSlots b, b_verifyHash b, b_cbTx b, b_cbBlock b, b_cbSubtree b, b_cbBEEF b,
   b_cbBEEFFrame b, b_maxObject b, b_maxObjectV9 b).

Lemma accepts_settings b b' : settings b' = settings b -> accepts b -> accepts b'.
Proof. unfold settings, accepts. by intros [= _ _ _ -> -> -> -> -> -> _ _]. Qed.

Lemma deliver_object b s w :
  accepts b -> sl_origFrameVer s = ver -> sl_txID s = txID -> sl_subtreeID s = sub -> drop (room s) w = object ->
  objects (deliver b s w) = [delivered].
Proof.
  intros Ha Hv Ht Hs Ho. unfold deliver, accepts, delivered, class_of in *. rewrite Hv, Ht, Hs, Ho.
  destruct (ver =? FrameVerV4); [by rewrite Ha|]. destruct (ver =? FrameVerV5); [by rewrite Ha|].
  destruct (ver =? FrameVerV9); destruct Ha as [Hh Hcb].
  - destruct (b_verifyHash b); [rewrite (bool_decide_true _ (Hh eq_refl))|]; cbn [negb andb];
      destruct Hcb as [-> | ->]; [done|by case_test|done|by case_test].
  - rewrite Hcb. destruct (b_verifyHash b); [by rewrite (bool_decide_true _ (Hh eq_refl))|done].
Qed.

Definition covered (seen : list Z) : bool := bool_decide (seqZ 0 total ⊆ seen).

(** ** The circumstances *)

(** The keys around: of the objects being collected or remembered and of all
    fragments that arrive; and the time of the first operation. *)
Context (keys : gset bytes) (t0 : Z).

Definition among (b : Buffer) : Prop :=
  forall k, is_Some (b_slots b !! k) \/ is_Some (b_done b !! k) -> k ∈ keys.

(** The clock has moved on by no more than a slot or a completion record lives. *)
Definition in_window (b : Buffer) (now : Z) : Prop :=
  t0 <= now <= t0 + b_ttl b /\ now <= t0 + b_completionTTL b.

(** Some indices of the object were seen: it is remembered as complete, or a slot
    holds exactly those pieces; neither runs out in the window. *)
Record progress (b0 : Buffer) (seen : list Z) (b : Buffer) : Prop := mkProgress {
  pg_settings : settings b = settings b0;
  pg_range : forall i, i ∈ seen -> 0 <= i < total;
  pg_among : among b;
  pg_state :
    if covered seen
    then b_slots b !! key = None /\ exists x, b_done b !! key = Some x /\ t0 + b_completionTTL b0 <= x
    else b_done b !! key = None /\
         match b_slots b !! key with
         | Some s => holds seen s /\ t0 + b_ttl b0 <= sl_deadline s
         | None => seen = []
         end
}.

Hypothesis Hkey : key ∈ keys.

Lemma holds_ext seen seen' s : (forall i, i ∈ seen <-> i ∈ seen') -> holds seen s -> holds seen' s.
Proof.
  intros He (? & ? & ? & ? & content & ? & Hc). do 4 (split; [done|]). exists content. split; [done|].
  intros i. rewrite Hc. by rewrite (bool_decide_ext _ _ (He i)).
Qed.

(** What leaves the object's entries alone keeps its progress. *)
Lemma progress_frame b0 seen b b' :
  settings b' = settings b -> b_slots b' !! key = b_slots b !! key -> b_done b' !! key = b_done b !! key ->
  among b' -> progress b0 seen b -> progress b0 seen b'.
Proof. intros Hs Hk Hd Ha [P1 P2 P3 P4]. split; [congruence|done|done|]. by rewrite Hk, Hd. Qed.

(** A table whose keys are around has room for one more of them. *)
Lemma room_for {A} (m : gmap bytes A) (max : Z) k :
  (forall k, is_Some (m !! k) -> k ∈ keys) -> k ∈ keys -> m !! k = None -> Z.of_nat (size keys) <= max ->
  Z.of_nat (size m) < max.
Proof.
  intros Hm Hk Hn Hmax. enough (size (dom m) < size keys)%nat by (rewrite size_dom in *; lia).
  apply subset_size. split.
  - intros k' Hk'. apply Hm. by apply elem_of_dom.
  - intros Hsub. specialize (Hsub k Hk). by apply elem_of_dom in Hsub as [? ?]; simplify_eq.
Qed.

Lemma markDone_room later k b :
  among b -> k ∈ keys -> Z.of_nat (size keys) <= b_maxSlots b ->
  settings (markDone later k b) = settings b /\ b_slots (markDone later k b) = b_slots b /\
  b_done (markDone later k b) = <[k := later + b_completionTTL b]> (b_done b).
Proof.
  intros Ha Hk Hmax. unfold markDone. destruct (b_done b !! k) eqn:E; [done|].
  destruct (b_doneOrder b); [done|].
  pose proof (room_for (b_done b) (b_maxSlots b) k ltac:(intros; apply Ha; by right) Hk E Hmax) as Hr.
  by rewrite (proj2 (Z.leb_gt _ _) Hr).
Qed.

Lemma among_slots b k s : among b -> k ∈ keys -> among (with_slots (<[k := s]> (b_slots b)) b).
Proof.
  intros Ha Hk k'. cbn. destruct (decide (k' = k)) as [->|Hne]; [done|]. rewrite lookup_insert_ne by done. apply Ha.
Qed.

Lemma among_removed b b' k :
  among b -> k ∈ keys -> (forall k', is_Some (b_slots b' !! k') -> is_Some (b_slots b !! k')) ->
  (forall k', k' <> k -> b_done b' !! k' = b_done b !! k') -> among b'.
Proof.
  intros Ha Hk Hs Hd k' Hin. destruct (decide (k' = k)) as [->|Hne]; [done|]. apply Ha.
  rewrite Hd in Hin by done. destruct Hin; auto.
Qed.

(** ** A sweep *)

Lemma no_delivery_objects evs : no_delivery evs -> objects evs = [].
Proof.
  unfold no_delivery, objects. induction 1 as [|ev evs Hev _ IH]; [done|]. cbn. rewrite IH.
  by destruct ev.
Qed.

Lemma evict_one_sub now (acc : Buffer * S * list REvent) k k' :
  is_Some (b_slots (evict_one now acc k).1.1 !! k') -> is_Some (b_slots acc.1.1 !! k').
Proof.
  destruct (decide (k' = k)) as [->|Hne]; [|by rewrite evict_one_other by done].
  destruct acc as [[b st] evs]. unfold evict_one. cbn [fst snd]. destruct (b_slots b !! k) eqn:E; [by intros _|cbn; by rewrite E].
Qed.

Lemma evict_one_frame now (acc : Buffer * S * list REvent) k :
  settings (evict_one now acc k).1.1 = settings acc.1.1 /\ b_done (evict_one now acc k).1.1 = b_done acc.1.1.
Proof.
  destruct acc as [[b st] evs]. unfold evict_one. destruct (b_slots b !! k); [|done]. repeat (case_test; [done|]).
  destruct (holdForRepair _ _ _ _) as [[[?|?] ?] ?]; done.
Qed.

Lemma evict_one_alive now (acc : Buffer * S * list REvent) k k' s :
  b_slots acc.1.1 !! k' = Some s -> now <= sl_deadline s -> b_slots (evict_one now acc k).1.1 !! k' = Some s.
Proof.
  intros Hs Hd. destruct (decide (k = k')) as [->|Hne]; [|by rewrite evict_one_other by done].
  destruct acc as [[b st] evs]; cbn [fst snd] in *. unfold evict_one, after. rewrite Hs.
  by rewrite (proj2 (Z.ltb_ge _ _) Hd).
Qed.

Lemma sweepDone_lookup hist now b k :
  buf_inv hist b ->
  settings (sweepDone now b) = settings b /\ b_slots (sweepDone now b) = b_slots b /\
  b_done (sweepDone now b) !! k =
    match b_done b !! k with Some exp => if after now exp then None else Some exp | None => None end.
Proof.
  intros Hb. unfold sweepDone. case_decide as Hd; [rewrite Hd, lookup_empty; done|].
  pose proof (sweepDone_fold now (b_done b) (b_doneOrder b) (conj (bi_done_nodup _ _ Hb) (bi_done_order _ _ Hb))) as Hf.
  change (fold_left _ (b_doneOrder b) (b_done b, []))
    with (fold_left (sweep_done_one now) (b_doneOrder b) (b_done b, [])).
  destruct (fold_left _ _ _) as [done' order']. destruct Hf as (_ & _ & F4). by rewrite F4.
Qed.

(** What a sweep does to the buffer. *)
Lemma evictExpired_frame hist now b (st : S) :
  buf_inv hist b ->
  let '(b', st', evs) := evictExpired now b st in
  settings b' = settings b /\ objects evs = [] /\ (among b -> among b') /\
  (forall k, b_slots b !! k = None -> b_slots b' !! k = None) /\
  (forall k s, b_slots b !! k = Some s -> now <= sl_deadline s -> b_slots b' !! k = Some s) /\
  (forall k, b_done b' !! k = match b_done b !! k with Some exp => if after now exp then None else Some exp | None => None end).
Proof.
  intros Hb. pose proof (evictExpired_inv hist now b st Hb) as Hinv. unfold evictExpired in *.
  pose proof (fun k => sweepDone_lookup hist now b k Hb) as Hd. destruct (Hd []) as (D1 & D2 & _).
  set (b1 := sweepDone now b) in *.
  pose proof (fold_left_inv (evict_one now) (fun acc : Buffer * S * list REvent =>
    settings acc.1.1 = settings b /\ b_done acc.1.1 = b_done b1 /\
    (forall k, is_Some (b_slots acc.1.1 !! k) -> is_Some (b_slots b !! k)) /\
    (forall k s, b_slots b !! k = Some s -> now <= sl_deadline s -> b_slots acc.1.1 !! k = Some s))
    (b_insertOrder b1) (b1, st, [])) as Hf.
  destruct (fold_left _ _ _) as [[b2 st2] evs]. destruct Hf as (F1 & F2 & F3 & F4).
  { cbn. rewrite D2. done. }
  { intros acc k _ (A1 & A2 & A3 & A4). destruct (evict_one_frame now acc k) as [G1 G2].
    split; [congruence|]. split; [congruence|]. split; [intros k' Hk'; by eapply A3, evict_one_sub|].
    intros k' s Hs Hdl. apply evict_one_alive; auto. }
  cbn [fst snd] in *. destruct Hinv as [_ Hno].
  assert (forall k, b_done b2 !! k = match b_done b !! k with Some exp => if after now exp then None else Some exp | None => None end) as Hdone
    by (intros k; rewrite F2; apply Hd).
  split; [done|]. split; [by apply no_delivery_objects|]. split; [|split; [|split; [done|done]]].
  - intros Ha k [Hs|Hx]; apply Ha; [left; by apply F3|right]. cbn in Hx. rewrite Hdone in Hx.
    destruct (b_done b !! k); [by eexists|by destruct Hx].
  - intros k Hk. cbn. destruct (b_slots b2 !! k) eqn:E; [|done]. destruct (F3 k) as [? ?]; [by rewrite E|congruence].
Qed.

Lemma evictExpired_progress hist b0 seen now b (st : S) :
  buf_inv hist b -> progress b0 seen b -> in_window b0 now ->
  let '(b', st', evs) := evictExpired now b st in
  progress b0 seen b' /\ buf_inv hist b' /\ objects evs = [].
Proof.
  intros Hb [P1 P2 P3 P4] [Hw1 Hw2]. pose proof (evictExpired_frame hist now b st Hb) as Hf.
  pose proof (evictExpired_inv hist now b st Hb) as Hinv.
  destruct (evictExpired now b st) as [[b' st'] evs]. destruct Hf as (F1 & F2 & F3 & F4 & F5 & F6), Hinv as [Hinv _].
  split; [|done]. split; [congruence|done|auto|]. rewrite F6. destruct (covered seen).
  - destruct P4 as [Hs (x & Hx & Hle)]. split; [auto|]. exists x. rewrite Hx. unfold after.
    by rewrite (proj2 (Z.ltb_ge _ _)) by lia.
  - destruct P4 as [Hd P4]. rewrite Hd. split; [done|]. destruct (b_slots b !! key) as [s|] eqn:E.
    + rewrite (F5 key s E) by lia. done.
    + by rewrite F4.
Qed.

(** ** A fragment of the object *)

Lemma take_progress b0 seen later ff s b :
  accepts b0 -> Z.of_nat (size keys) <= b_maxSlots b0 -> t0 <= later ->
  progress b0 seen b -> carries ff -> covered seen = false ->
  b_slots b !! key = Some s -> holds seen s -> t0 + b_ttl b0 <= sl_deadline s ->
  let '(b', evs) := take_fragment later ff s b in
  progress b0 (seen ++ [ff_FragIndex ff]) b' /\
  objects evs = if covered (seen ++ [ff_FragIndex ff]) then [delivered] else [].
Proof.
  intros Hacc Hmax Hlater [P1 P2 Pk P3] Hff Hcov Hs Hh Hdl. pose proof Hff as (Hfok & Hk & Htx & Hv & Hft & Hfl & Hi & Hd).
  rewrite Hcov in P3. destruct P3 as [Hdone _].
  pose proof Hh as (Ht & Hl & _ & _ & content & Hok & Hc). set (i := ff_FragIndex ff) in *.
  assert (forall j, j ∈ seen ++ [i] -> 0 <= j < total) as Hrange.
  { intros j [Hj| ->%list_elem_of_singleton]%elem_of_app; auto. }
  unfold take_fragment. fold i. rewrite Hft, Ht, Z.eqb_refl, (proj2 (Z.leb_gt total i)) by lia. cbn [negb orb].
  destruct (has s i) eqn:Hhas.
  { assert (i ∈ seen) as Hin.
    { apply (so_dom _ _ _ Hok) in Hhas as [d Hd']. rewrite Hc in Hd'. by case_bool_decide. }
    assert (forall j, j ∈ seen <-> j ∈ seen ++ [i]) as Heq.
    { intros j. rewrite elem_of_app, list_elem_of_singleton. split; [auto|]. by intros [?| ->]. }
    assert (covered (seen ++ [i]) = false) as Hcov'.
    { rewrite <- Hcov. apply bool_decide_ext. unfold subseteq, list_subseteq. by setoid_rewrite <- Heq. }
    rewrite Hcov'. split; [|done]. split; [done|done|done|]. rewrite Hcov', Hs.
    split; [done|]. split; [by eapply holds_ext|done]. }
  destruct (add_holds seen s ff Hh Hff Hhas) as [-> Hh']. fold i in Hh'.
  set (s' := add_fragment fragSize ff s) in *. destruct (add_fragment_frame fragSize ff s) as (F1 & F2 & F3 & F4 & F5 & _).
  assert (sl_key s' = key) as Hsk by (unfold s'; rewrite F1; apply (so_key _ _ _ Hok)).
  rewrite (holds_complete _ _ Hh' Hrange). change (bool_decide (seqZ 0 total ⊆ seen ++ [i])) with (covered (seen ++ [i])).
  rewrite Hsk. destruct (covered (seen ++ [i])) eqn:Hcov'; cbn [negb].
  - unfold complete. set (b1 := with_slots _ b). rewrite Hsk.
    set (s2 := match sl_whole s' with None => promote s' | Some _ => s' end).
    assert (sl_key s2 = key /\ room s2 = room s' /\ sl_origFrameVer s2 = ver /\ sl_txID s2 = txID /\ sl_subtreeID s2 = sub) as (G1 & G2 & G3 & G4 & G5).
    { destruct Hh' as (_ & _ & [Hx Hz] & Hy & _). unfold s2. destruct (sl_whole s'); [done|].
      destruct (promote_frame s') as (E1 & _ & _ & _ & E5 & _). rewrite E1, E5.
      split; [done|]. split; [done|]. split; [exact Hy|]. split; [exact Hx|exact Hz]. }
    assert (settings b1 = settings b0) as S1 by (rewrite <- P1; done). pose proof S1 as [= T1 T2 T3 _ _ _ _ _ _ _ _].
    destruct (markDone_room later key b1) as (M1 & M2 & M3); [by apply among_slots|done|cbn; rewrite <- T3 in Hmax; exact Hmax|]. rewrite G1. split.
    + split; [transitivity (settings (markDone later key b1)); [done|]; congruence|done| |].
      * apply (among_removed b _ key Pk Hkey); cbn.
        { intros k' [Hne Hk']%lookup_delete_is_Some. rewrite M2 in Hk'. cbn in Hk'. by rewrite lookup_insert_ne in Hk'. }
        { intros k' Hne. rewrite M3. by rewrite lookup_insert_ne. }
      * rewrite Hcov'. cbn. split; [apply lookup_delete_eq|]. rewrite M3, lookup_insert_eq. change (b_completionTTL b1) with (b_completionTTL b). rewrite T2. eexists. split; [done|lia].
    + unfold objects. rewrite omap_app.
      assert (omap object_of (if sl_extended s' then [EvLateDone] else []) = []) as -> by (by case_test). cbn [app].
      apply deliver_object; [|done|done|done|].
      * eapply accepts_settings; [|exact Hacc]. congruence.
      * rewrite G2. change (match sl_whole s2 with Some w => w | None => [] end) with (whole_of s').
        eapply whole_object; [exact Hh'|done|]. by apply bool_decide_eq_true in Hcov'.
  - split; [|done]. split; [done|done|by apply among_slots|]. rewrite Hcov'. cbn. split; [done|]. rewrite lookup_insert_eq.
    split; [done|]. unfold s'. by rewrite (proj1 (add_fragment_times fragSize ff s)).
Qed.

(** The object passes the buffer's declared-length bound. *)
Definition within_bound (b : Buffer) : Prop :=
  let bound := if (ver =? FrameVerV9) && (0 <? b_maxObjectV9 b)
               then b_maxObjectV9 b + BEEFRecordMaxEnvelope else b_maxObject b in
  0 < bound -> objLen <= bound.

(** With room for it, a slot is opened without evicting another. *)
Lemma open_slot_room now ff b :
  among b -> slotKey ff ∈ keys -> b_slots b !! slotKey ff = None -> Z.of_nat (size keys) <= b_maxSlots b ->
  let '(r, evs) := open_slot groupIdxFn now ff b in
  objects evs = [] /\
  match r with
  | None => True
  | Some (s, b') => s = newSlot groupIdxFn now b ff /\
      b' = with_order (b_insertOrder b ++ [slotKey ff]) (with_slots (<[slotKey ff := s]> (b_slots b)) b)
  end.
Proof.
  intros Ha Hk Hn Hmax. unfold open_slot. do 4 (case_test; [done|]).
  pose proof (room_for (b_slots b) (b_maxSlots b) _ ltac:(intros; apply Ha; by left) Hk Hn Hmax) as Hr.
  by rewrite (proj2 (Z.leb_gt _ _) Hr).
Qed.

(** The part of [Observe] after its sweep. *)
Definition observe_rest (now later : Z) (ff : FragFrame) (b : Buffer) : Buffer * list REvent :=
  match b_slots b !! slotKey ff with
  | Some s => take_fragment later ff s b
  | None =>
      let '(r, ev1) := open_slot groupIdxFn now ff b in
      match r with
      | None => (b, ev1)
      | Some (s, b) => let '(b, ev) := take_fragment later ff s b in (b, ev1 ++ ev)
      end
  end.

Lemma Observe_rest now later ff b (st : S) :
  Observe groupIdxFn now later ff b st =
  let '(b, st, ev0) :=
    if sweep_every b <=? time_sub now (b_lastEvict b) then
      let '(b, st, ev) := evictExpired now b st in (with_lastEvict now b, st, ev)
    else (b, st, []) in
  let '(b, ev) := observe_rest now later ff b in (b, st, ev0 ++ ev).
Proof.
  unfold Observe, observe_rest. destruct (if sweep_every b <=? _ then _ else _) as [[b1 st1] ev0].
  destruct (b_slots b1 !! slotKey ff); [done|]. destruct (open_slot groupIdxFn now ff b1) as [[[s b2]|] ev1]; [|done].
  by destruct (take_fragment later ff s b2).
Qed.

(** A fragment of the object. *)
Lemma own_progress b0 seen now later ff b :
  accepts b0 -> within_bound b0 -> objLen + 1 < 2 ^ 32 -> Z.of_nat (size keys) <= b_maxSlots b0 ->
  t0 <= now -> t0 <= later -> progress b0 seen b -> carries ff ->
  let '(b', evs) := observe_rest now later ff b in
  progress b0 (seen ++ [ff_FragIndex ff]) b' /\
  objects evs = if negb (covered seen) && covered (seen ++ [ff_FragIndex ff]) then [delivered] else [].
Proof.
  intros Hacc Hbound Hlen Hmax Hnow Hlater Hp Hff. pose proof Hp as [P1 P2 Pk P3].
  pose proof Hff as (Hfok & Hk & Htx & Hv & Hft & Hfl & Hi & Hd).
  pose proof P1 as [= L1 L2 L3 L4 L5 L6 L7 L8 L9 L10 L11]. unfold observe_rest. rewrite Hk.
  destruct (covered seen) eqn:Hcov; cbn [negb andb].
  { destruct P3 as [Hs (x & Hx & Hle)]. rewrite Hs. unfold open_slot. rewrite Hk, Hx. cbn. split; [|done].
    split; [done| |done|].
    - intros j [Hj| ->%list_elem_of_singleton]%elem_of_app; auto.
    - assert (covered (seen ++ [ff_FragIndex ff]) = true) as ->.
      { apply bool_decide_eq_true in Hcov. apply bool_decide_eq_true. intros j Hj. apply elem_of_app. left. by apply Hcov. }
      split; [done|]. by exists x. }
  destruct P3 as [Hdone P3]. destruct (b_slots b !! key) as [s|] eqn:Hs.
  - destruct P3 as [Hh Hdl]. by apply (take_progress b0 seen later ff s b).
  - subst seen. pose proof (open_slot_room now ff b Pk ltac:(by rewrite Hk) ltac:(by rewrite Hk) ltac:(lia)) as Hopen.
    assert (exists r ev, open_slot groupIdxFn now ff b = (Some r, ev)) as (r & ev & Eo).
    { unfold open_slot. rewrite Hk, Hdone. cbn [is_set]. pose proof Hshape as (S1 & S2 & S3).
      rewrite Hft, Hfl, (proj2 (Z.eqb_neq total 0)), (proj2 (Z.leb_gt total _)), (proj2 (Z.eqb_neq objLen 0)) by nia. cbn [orb].
      assert ((u32 (objLen + 1) <? total) = false) as -> by (apply Z.ltb_ge; unfold u32; rewrite Z.mod_small; nia).
      assert ((0 <? maxObj b ff) && (maxObj b ff <? objLen) = false) as ->.
      { apply andb_false_iff. unfold within_bound, maxObj in *. rewrite Hv, L10, L11.
        cbn zeta in Hbound. set (bd := if (ver =? FrameVerV9) && _ then _ else _) in *. clearbody bd.
        destruct (0 <? bd) eqn:E; [right; bool_to_prop; apply Z.ltb_ge; auto|by left]. }
      destruct (if b_maxSlots b <=? _ then _ else _). by eexists _, _. }
    rewrite Eo in *. destruct r as [s b2]. destruct Hopen as (E3 & -> & ->). rewrite Hk in *.
    set (s := newSlot groupIdxFn now b ff). set (b2 := with_order _ _).
    assert (b_slots b2 !! key = Some s) as Hs2 by (unfold b2; cbn; by rewrite lookup_insert_eq).
    assert (t0 + b_ttl b0 <= sl_deadline s) as Hdl by (cbn; unfold time_add; lia).
    assert (progress b0 [] b2) as Hp2.
    { split; [done|by intros j ?%elem_of_nil|by apply (among_slots b key s)|]. rewrite Hcov, Hs2. split; [done|].
      split; [by apply new_holds|done]. }
    pose proof (take_progress b0 [] later ff s b2 Hacc Hmax Hlater Hp2 Hff Hcov Hs2 (new_holds now b ff Hff) Hdl) as Ht.
    destruct (take_fragment later ff s b2) as [b' ev2]. destruct Ht as [Ht1 Ht2]. split; [done|].
    unfold objects in *. rewrite omap_app, E3. exact Ht2.
Qed.

(** ** A fragment of another object *)

Lemma take_other b0 seen hist later ff s b :
  Z.of_nat (size keys) <= b_maxSlots b0 -> progress b0 seen b -> slotKey ff <> key -> slotKey ff ∈ keys ->
  buf_inv hist b -> b_slots b !! slotKey ff = Some s ->
  progress b0 seen (take_fragment later ff s b).1.
Proof.
  intros Hmax Hp Hne Hin Hb Hs. pose proof Hp as [P1 P2 Pk P3]. pose proof P1 as [= _ _ L3 _ _ _ _ _ _ _ _].
  pose proof (bi_slots _ _ Hb _ _ Hs) as [[_ (content & Hok & _)] _]. pose proof (so_key _ _ _ Hok) as Hsk.
  unfold take_fragment. case_test; [done|]. case_test; [done|]. destruct (checkFragLen s ff) as [fs|].
  2: { rewrite Hsk. apply (progress_frame b0 seen b); [done|by cbn; rewrite lookup_delete_ne|done| |done].
       apply (among_removed b _ (slotKey ff) Pk Hin); [|done]. cbn. by intros k' [_ ?]%lookup_delete_is_Some. }
  destruct (add_fragment_frame fs ff s) as (F1 & _). set (s' := add_fragment fs ff s) in *. rewrite F1, Hsk.
  set (b1 := with_slots _ b).
  assert (progress b0 seen b1) as Hp1.
  { apply (progress_frame b0 seen b); [done|by unfold b1; cbn; rewrite lookup_insert_ne|done|by apply among_slots|done]. }
  case_test; [done|]. unfold complete. cbn [fst]. rewrite F1, Hsk.
  assert (sl_key (match sl_whole s' with None => promote s' | Some _ => s' end) = slotKey ff) as ->.
  { destruct (sl_whole s'); [by rewrite F1|]. destruct (promote_frame s') as (-> & _). by rewrite F1. }
  destruct (markDone_room later (slotKey ff) b1) as (M1 & M2 & M3); [by apply Hp1|done|cbn; lia|].
  apply (progress_frame b0 seen b1); [exact M1| | | |done].
  - cbn. rewrite lookup_delete_ne by done. by rewrite M2.
  - cbn. by rewrite M3, lookup_insert_ne.
  - apply (among_removed b1 _ (slotKey ff) (pg_among _ _ _ Hp1) Hin); cbn.
    + intros k' [_ Hs']%lookup_delete_is_Some. rewrite M2 in Hs'. exact Hs'.
    + intros k' Hk'. by rewrite M3, lookup_insert_ne.
Qed.

Lemma other_progress b0 seen hist now later ff b :
  Z.of_nat (size keys) <= b_maxSlots b0 -> progress b0 seen b -> slotKey ff <> key -> slotKey ff ∈ keys ->
  frag_ok ff -> buf_inv hist b -> progress b0 seen (observe_rest now later ff b).1.
Proof.
  intros Hmax Hp Hne Hin Hff Hb. unfold observe_rest. destruct (b_slots b !! slotKey ff) as [s|] eqn:Hs.
  { by eapply take_other. }
  pose proof Hp as [P1 P2 Pk P3]. pose proof P1 as [= _ _ L3 _ _ _ _ _ _ _ _].
  pose proof (open_slot_room now ff b Pk Hin Hs ltac:(lia)) as Ho.
  pose proof (open_slot_inv groupIdxFn hist now ff b Hff Hb Hs) as Hi.
  destruct (open_slot groupIdxFn now ff b) as [[[s b2]|] ev1]; [|done]. destruct Ho as (_ & _ & E), Hi as (_ & Hi & Hs2 & _ & _ & _).
  pose proof (take_other b0 seen (hist ++ [ff]) later ff s b2 Hmax) as Ht. destruct (take_fragment later ff s b2) as [b' ev].
  apply Ht; [|done|done|done|done]. rewrite E.
  apply (progress_frame b0 seen b); [done|by cbn; rewrite lookup_insert_ne|done|by apply (among_slots b)|done].
Qed.

(** ** One operation *)

(** The buffer's operations: a fragment of any object arrives, or the ticker sweeps. *)
Inductive BOp := Arrives (now later : Z) (st : S) (ff : FragFrame) | Sweeps (now : Z) (st : S).

Definition apply_bop (op : BOp) (b : Buffer) : Buffer * list REvent :=
  match op with
  | Arrives now later st ff => let '(b, _, evs) := Observe groupIdxFn now later ff b st in (b, evs)
  | Sweeps now st => let '(b, _, evs) := Tick now b st in (b, evs)
  end.

(** The index of the object's fragment the operation brings. *)
Definition own (op : BOp) : option Z :=
  match op with
  | Arrives _ _ _ ff => if bool_decide (slotKey ff = key) then Some (ff_FragIndex ff) else None
  | Sweeps _ _ => None
  end.

(** In the window; the fragments of the object's key are the object's. *)
Definition op_ok (b : Buffer) (op : BOp) : Prop :=
  match op with
  | Arrives now later _ ff =>
      in_window b now /\ t0 <= later /\ frag_ok ff /\ slotKey ff ∈ keys /\ (slotKey ff = key -> carries ff)
  | Sweeps now _ => in_window b now
  end.

Definition seen_after (seen : list Z) (op : BOp) : list Z := seen ++ option_list (own op).

Lemma Observe_progress b0 seen hist now later ff b (st : S) :
  accepts b0 -> within_bound b0 -> objLen + 1 < 2 ^ 32 -> Z.of_nat (size keys) <= b_maxSlots b0 ->
  op_ok b0 (Arrives now later st ff) -> buf_inv hist b -> progress b0 seen b ->
  let '(b', st', evs) := Observe groupIdxFn now later ff b st in
  progress b0 (seen_after seen (Arrives now later st ff)) b' /\
  (slotKey ff = key ->
   objects evs = if negb (covered seen) && covered (seen ++ [ff_FragIndex ff]) then [delivered] else []).
Proof.
  intros Hacc Hbound Hlen Hmax (Hw & Hlater & Hff & Hin & Hca) Hb Hp. rewrite Observe_rest.
  assert (let '(b1, st1, ev0) := if sweep_every b <=? time_sub now (b_lastEvict b) then
      let '(b, st, ev) := evictExpired now b st in (with_lastEvict now b, st, ev) else (b, st, []) in
    progress b0 seen b1 /\ buf_inv hist b1 /\ objects ev0 = []) as Hsweep.
  { case_test; [|done]. pose proof (evictExpired_progress hist b0 seen now b st Hb Hp Hw) as He.
    destruct (evictExpired now b st) as [[b1 st1] ev0]. destruct He as (E1 & E2 & E3). split; [|split; [|done]].
    - by apply (progress_frame b0 seen b1); [done..|apply E1|].
    - by apply with_lastEvict_inv. }
  destruct (if sweep_every b <=? _ then _ else _) as [[b1 st1] ev0]. destruct Hsweep as (Hp1 & Hb1 & Hev0).
  unfold seen_after, own. case_bool_decide as Hk; cbn [option_list].
  - pose proof (own_progress b0 seen now later ff b1 Hacc Hbound Hlen Hmax ltac:(by apply Hw) Hlater Hp1 (Hca Hk)) as Ho.
    destruct (observe_rest now later ff b1) as [b' ev]. destruct Ho as [Ho1 Ho2]. split; [done|]. intros _.
    unfold objects in *. by rewrite omap_app, Hev0.
  - rewrite app_nil_r. pose proof (other_progress b0 seen hist now later ff b1 Hmax Hp1 Hk Hin Hff Hb1) as Ho.
    by destruct (observe_rest now later ff b1) as [b' ev].
Qed.

Lemma apply_bop_progress b0 seen hist op b :
  accepts b0 -> within_bound b0 -> objLen + 1 < 2 ^ 32 -> Z.of_nat (size keys) <= b_maxSlots b0 ->
  op_ok b0 op -> buf_inv hist b -> progress b0 seen b ->
  progress b0 (seen_after seen op) (apply_bop op b).1 /\
  (exists hist', buf_inv hist' (apply_bop op b).1) /\
  (is_Some (own op) -> objects (apply_bop op b).2 =
     if negb (covered seen) && covered (seen_after seen op) then [delivered] else []).
Proof.
  intros Hacc Hbound Hlen Hmax Hop Hb Hp. destruct op as [now later st ff|now st]; cbn [apply_bop].
  - pose proof (Observe_progress b0 seen hist now later ff b st Hacc Hbound Hlen Hmax Hop Hb Hp) as Ho.
    destruct Hop as (_ & _ & Hff & _). pose proof (Observe_inv groupIdxFn hist now later ff b st Hff Hb) as Hi.
    destruct (Observe groupIdxFn now later ff b st) as [[b' st'] evs]. destruct Ho as [Ho1 Ho2], Hi as [Hi _].
    split; [done|]. split; [by eexists|]. unfold seen_after in *. cbn [own] in *.
    case_bool_decide as Hk; [|by intros []]. intros _. by apply Ho2.
  - pose proof (evictExpired_progress hist b0 seen now b st Hb Hp Hop) as Ho. unfold Tick.
    destruct (evictExpired now b st) as [[b' st'] evs]. destruct Ho as (Ho1 & Ho2 & _). unfold seen_after. cbn [own option_list].
    rewrite app_nil_r. split; [done|]. split; [by eexists|]. by intros [].
Qed.

(** Each operation with the events it leads to. *)
Fixpoint feed (b : Buffer) (ops : list BOp) : list (BOp * list REvent) :=
  match ops with
  | [] => []
  | op :: ops => let '(b, evs) := apply_bop op b in (op, evs) :: feed b ops
  end.

(** What is delivered when a fragment of the object's key arrives. *)
Definition own_deliveries (l : list (BOp * list REvent)) : list Object :=
  l ≫= fun x => match own x.1 with Some _ => objects x.2 | None => [] end.

(** Coverage comes with one fragment and then stays. *)
Lemma covered_once {A} (x : A) seen l rest :
  (if negb (covered seen) && covered (seen ++ l) then [x] else []) ++
  (if negb (covered (seen ++ l)) && covered (seen ++ l ++ rest) then [x] else []) =
  if negb (covered seen) && covered (seen ++ l ++ rest) then [x] else [].
Proof.
  assert (forall l l', l ⊆ l' -> covered l = true -> covered l' = true) as Hmono.
  { intros l1 l2 Hl Hc. apply bool_decide_eq_true in Hc. apply bool_decide_eq_true. intros j Hj. by apply Hl, Hc. }
  destruct (covered seen) eqn:E1; cbn [negb andb].
  - by rewrite (Hmono seen (seen ++ l)) by (try done; intros j Hj; apply elem_of_app; by left).
  - destruct (covered (seen ++ l)) eqn:E2; cbn [negb andb]; [|done].
    rewrite (Hmono (seen ++ l) (seen ++ l ++ rest)); [done| |done].
    intros j. rewrite !elem_of_app. tauto.
Qed.

Lemma feed_progress b0 hist ops seen b :
  accepts b0 -> within_bound b0 -> objLen + 1 < 2 ^ 32 -> Z.of_nat (size keys) <= b_maxSlots b0 ->
  Forall (op_ok b0) ops -> buf_inv hist b -> progress b0 seen b ->
  own_deliveries (feed b ops) =
  if negb (covered seen) && covered (seen ++ omap own ops) then [delivered] else [].
Proof.
  intros Ha Hb Hlen Hmax Hops. revert hist seen b. induction Hops as [|op ops Hop _ IH]; intros hist seen b Hinv Hp.
  { cbn. rewrite app_nil_r. by destruct (covered seen). }
  destruct (apply_bop_progress b0 seen hist op b Ha Hb Hlen Hmax Hop Hinv Hp) as (Hp' & [hist' Hinv'] & Hev).
  cbn [feed]. destruct (apply_bop op b) as [b' evs]. cbn [fst snd] in *. unfold own_deliveries in *. cbn [mbind list_bind fst snd].
  rewrite (IH hist' _ _ Hinv' Hp').
  replace (omap own (op :: ops)) with (option_list (own op) ++ omap own ops) by (cbn; by destruct (own op)).
  unfold seen_after in *. rewrite <- !app_assoc. destruct (own op) as [i|]; cbn [option_list app] in *.
  - rewrite Hev by done. exact (covered_once _ seen [i] (omap own ops)).
  - by rewrite app_nil_r.
Qed.

(** C1: An honest object is delivered exactly once.  Take any state a buffer reaches,
    with no slot and no completion record for the object's key, and let fragments of
    any objects arrive and sweeps happen in any order: within one slot lifetime and
    one completion lifetime of the first, with no more keys around than the buffer
    has slots, and no fragment of the object's key but the object's own.  If the
    object passes the length bound, its class has a callback and its identity passes
    the check (when on), what is delivered on its fragments is exactly the object,
    once, under its identity and subtree and as the class its version names, if every
    fragment was among them, in any order and any number of times, and nothing otherwise. *)
Theorem honest_object_delivered (b0 : Buffer) (hist : list FragFrame) (b : Buffer) (evs : list REvent) (ops : list BOp) :
  fresh b0 -> rrun groupIdxFn b0 hist b evs ->
  accepts b -> within_bound b -> objLen + 1 < 2 ^ 32 ->
  b_slots b !! key = None -> b_done b !! key = None ->
  among b -> Z.of_nat (size keys) <= b_maxSlots b ->
  Forall (op_ok b) ops ->
  own_deliveries (feed b ops) =
  if bool_decide (seqZ 0 total ⊆ omap own ops) then [delivered] else [].
Proof.
  intros Hf Hr Ha Hb Hlen Hs Hd Hk Hmax Hops. destruct (rrun_inv groupIdxFn b0 hist b evs Hf Hr) as [Hinv _].
  pose proof Hshape as (S1 & _ & _).
  assert (covered [] = false) as Hc.
  { apply bool_decide_eq_false. intros Hsub. assert (0 ∈ @nil Z) as Hin by (apply Hsub, elem_of_seqZ; lia).
    by apply elem_of_nil in Hin. }
  rewrite (feed_progress b hist ops [] b Ha Hb Hlen Hmax Hops Hinv); [by rewrite Hc|].
  split; [done|by intros j ?%elem_of_nil|done|]. by rewrite Hc, Hs.
Qed.

End Honest.

(** The object 1,2,3,4,5 in three fragments of two bytes, the middle one twice and the
    first once more after completion, around sweeps and a fragment of another object. *)
Definition ops0 : list (@BOp unit) :=
  [Arrives 1000 1000 tt (frag0 1 [3; 4]);
   Arrives 1001 1001 tt (mkFrag (repeat 9 32) (zeros 32) 7 100 5 2 0 2 0 [8; 8]);
   Sweeps (4 * ns_per_s) tt;
   Arrives (5 * ns_per_s) (5 * ns_per_s) tt (frag0 2 [5]);
   Arrives (5 * ns_per_s) (5 * ns_per_s) tt (frag0 1 [3; 4]);
   Arrives (9 * ns_per_s) (9 * ns_per_s) tt (frag0 0 [1; 2]);
   Sweeps (10 * ns_per_s) tt;
   Arrives (10 * ns_per_s) (10 * ns_per_s) tt (frag0 0 [1; 2])].

Lemma honest_object_delivered_witness :
  @own_deliveries lib0 unit (zeros 32) (@feed lib0 unit hooks0 None buffer0 ops0) =
    [mkObject ClassTx (zeros 32) (Some (zeros 32)) [1; 2; 3; 4; 5]].
Proof.
  rewrite (@honest_object_delivered lib0 unit hooks0 None [1; 2; 3; 4; 5] 3 2 (zeros 32) (zeros 32) (zeros 32) 2
    ltac:(split; [lia|]; split; [lia|]; right; cbn; lia) ltac:(lia) {[zeros 32; repeat 9 32]} 1000 ltac:(set_solver)
    buffer0 [] buffer0 [] ops0).
  - rewrite bool_decide_true; [reflexivity|]. intros i Hi. apply elem_of_seqZ in Hi.
    assert (omap (@own lib0 unit (zeros 32)) ops0 = [1; 2; 1; 0; 0]) as -> by (vm_compute; reflexivity).
    rewrite !elem_of_cons. lia.
  - apply buffer0_fresh.
  - constructor.
  - cbn. split; [discriminate|reflexivity].
  - intros _. vm_compute. discriminate.
  - cbn. lia.
  - reflexivity.
  - reflexivity.
  - intros k. cbn. rewrite !lookup_empty. by intros [[]|[]].
  - rewrite size_union by (apply disjoint_singleton_l, not_elem_of_singleton; discriminate). rewrite !size_singleton. vm_compute. discriminate.
  - repeat (apply Forall_cons; split); [..|by apply Forall_nil].
    all: try (vm_compute; repeat split; discriminate).
    all: split; [vm_compute; repeat split; discriminate|]; split; [vm_compute; discriminate|]; split; [by split|].
    all: split; [cbn; set_solver|]; intros Hk; try discriminate Hk.
    all: (split; [by split|]); repeat (split; [reflexivity|]); (split; [cbn; lia|reflexivity]).
Defined.
