(* ===== verification/RetryTee.v ===== *)
(** * The receive-side retry tee (listener/retrytee.go)

    Received datagrams are copied into a bounded queue without blocking, and a
    sender goroutine writes them in batches.  The datagrams a batch writes, the
    ones it loses to a failed write, and the ones dropped at the queue are events
    in the order they happen. *)

From S2P Require Import Prelude.

(** ** Eligibility *)

(** The constants the eligibility test uses of the frame library. *)
Class TeeLib := mkTeeLib {
  MagicBSV : Z;
  teeVerV1 : Z;
  teeVerV7 : Z;
  teeVerV9 : Z;
  AppendEncap : bytes -> Z -> bytes -> bytes
}.

Section Lib.
Context `{TeeLib}.

Definition teeEligible (raw : bytes) : bool :=
  if (length raw <? 7)%nat || negb (be_get (slice raw 0 4) =? MagicBSV) then false
  else
    let v := byte_at raw 6 in
    (teeVerV1 <=? v) && (v <=? teeVerV9) && negb (v =? teeVerV7).

End Lib.

(** ** The sender *)

Definition teeQueueDepth : nat := 4096.

Definition teeBatch : nat := 32.

(** [TeeQueued] marks a datagram the queue took; the others are the counters the
    code bumps for it. *)
Inductive TeeEvent :=
| TeeQueued (buf : bytes)
| RetryTeeDropped (buf : bytes)
| RetryTeeFrame (buf : bytes)
| RetryTeeError (buf : bytes).

(** [tee_batch] is what the sender goroutine has taken off the queue. *)
Record Tee := mkTee {
  tee_depth : nat;
  tee_closed : bool;
  tee_started : bool;
  tee_q : list bytes;
  tee_batch : list bytes;
  tee_dropped : Z;
  tee_loggedDrop : bool;
  tee_loggedErr : bool;
  tee_log : list TeeEvent
}.

Definition newRetryTeeSender (depth : nat) : Tee := mkTee depth false false [] [] 0 false false [].

Definition start (t : Tee) : Tee :=
  if tee_started t || tee_closed t then t
  else mkTee (tee_depth t) (tee_closed t) true (tee_q t) (tee_batch t) (tee_dropped t)
         (tee_loggedDrop t) (tee_loggedErr t) (tee_log t).

(** [mirror]; [buf] is the enveloped copy. *)
Definition mirror (buf : bytes) (t : Tee) : Tee :=
  if negb (tee_closed t) && (length (tee_q t) <? tee_depth t)%nat then
    mkTee (tee_depth t) (tee_closed t) (tee_started t) (tee_q t ++ [buf]) (tee_batch t) (tee_dropped t)
      (tee_loggedDrop t) (tee_loggedErr t) (tee_log t ++ [TeeQueued buf])
  else
    mkTee (tee_depth t) (tee_closed t) (tee_started t) (tee_q t) (tee_batch t) (u64 (tee_dropped t + 1))
      true (tee_loggedErr t) (tee_log t ++ [RetryTeeDropped buf]).

(** One receive of [run], the blocking one or one of the fill loop. *)
Definition recv (t : Tee) : Tee :=
  match tee_q t with
  | m :: q =>
      if (length (tee_batch t) <? teeBatch)%nat then
        mkTee (tee_depth t) (tee_closed t) (tee_started t) q (tee_batch t ++ [m]) (tee_dropped t)
          (tee_loggedDrop t) (tee_loggedErr t) (tee_log t)
      else t
  | [] => t
  end.

(** The write loop over a batch.  [wb k] is what the [k]-th call of [WriteBatch]
    answers when it is handed the datagrams left: [None] is an error, [Some n]
    the datagrams sent.  Every round advances, so the batch's length bounds the
    rounds. *)
Fixpoint write_loop (fuel : nat) (wb : nat -> list bytes -> option nat) (k : nat) (batch : list bytes) :
    list TeeEvent :=
  match fuel, batch with
  | O, _ => []
  | _, [] => []
  | S fuel, m :: rest =>
      match wb k batch with
      | Some (S n) => map RetryTeeFrame (take (S n) batch) ++ write_loop fuel wb (S k) (drop (S n) batch)
      | _ => RetryTeeError m :: write_loop fuel wb (S k) rest
      end
  end.

Definition is_error (ev : TeeEvent) : bool := match ev with RetryTeeError _ => true | _ => false end.

(** [writeBatch] on the batch at hand, which it releases. *)
Definition writeBatch (wb : nat -> list bytes -> option nat) (t : Tee) : Tee :=
  let evs := write_loop (length (tee_batch t)) wb 0 (tee_batch t) in
  mkTee (tee_depth t) (tee_closed t) (tee_started t) (tee_q t) [] (tee_dropped t)
    (tee_loggedDrop t) (tee_loggedErr t || existsb is_error evs) (tee_log t ++ evs).

(** [close] up to the point where it waits for the sender. *)
Definition close (t : Tee) : Tee :=
  mkTee (tee_depth t) true (tee_started t) (tee_q t) (tee_batch t) (tee_dropped t)
    (tee_loggedDrop t) (tee_loggedErr t) (tee_log t).

(** One round of [run]: a batch of what is queued, then its write. *)
Definition run_round (wb : nat -> list bytes -> option nat) (t : Tee) : Tee :=
  writeBatch wb (Nat.iter (Nat.min teeBatch (length (tee_q t))) recv t).

(** [run] on a closed queue, which ends when the queue is empty. *)
Fixpoint run (fuel : nat) (wbs : nat -> nat -> list bytes -> option nat) (t : Tee) : Tee :=
  match fuel with
  | O => t
  | S fuel => match tee_q t with [] => t | _ => run fuel wbs (run_round (wbs fuel) t) end
  end.

(** ** Runs *)

(** The worker mirrors, the sender receives and writes, in any interleaving. *)
Inductive tee_step : Tee -> Tee -> Prop :=
| tee_mirror buf t : tee_step t (mirror buf t)
| tee_start t : tee_step t (start t)
| tee_recv t : tee_step t (recv t)
| tee_write wb t : tee_step t (writeBatch wb t)
| tee_close t : tee_step t (close t).

(** What the queue took, what the sender disposed of, what was dropped. *)
Definition queued (ev : TeeEvent) : option bytes := match ev with TeeQueued m => Some m | _ => None end.

Definition settled (ev : TeeEvent) : option bytes :=
  match ev with RetryTeeFrame m | RetryTeeError m => Some m | _ => None end.

Definition is_drop (ev : TeeEvent) : bool := match ev with RetryTeeDropped _ => true | _ => false end.

(** ** Lemmas *)

Lemma omap_settled_frames (l : list bytes) : omap settled (map RetryTeeFrame l) = l.
Proof. induction l as [|m l IH]; [done|]. cbn. by rewrite IH. Qed.

(** Every datagram of a batch is written or lost exactly once, in order. *)
Lemma write_loop_settles fuel wb k batch :
  (length batch <= fuel)%nat -> omap settled (write_loop fuel wb k batch) = batch.
Proof.
  revert k batch. induction fuel as [|fuel IH]; intros k batch Hlen.
  { by destruct batch; [|cbn in Hlen; lia]. }
  destruct batch as [|m rest]; [done|]. cbn in Hlen.
  cbn [write_loop]. destruct (wb k (m :: rest)) as [[|n]|].
  - cbn. rewrite IH by lia. done.
  - rewrite omap_app, omap_settled_frames, IH by (rewrite length_drop; cbn; lia). apply take_drop.
  - cbn. rewrite IH by lia. done.
Qed.

Lemma write_loop_queued fuel wb k batch : omap queued (write_loop fuel wb k batch) = [].
Proof.
  revert k batch. induction fuel as [|fuel IH]; intros k batch; [by destruct batch|].
  destruct batch as [|m rest]; [done|]. cbn [write_loop].
  assert (Hf : forall l, omap queued (map RetryTeeFrame l) = []) by (intros l; induction l; [done|by cbn]).
  destruct (wb k (m :: rest)) as [[|n]|]; rewrite ?omap_app, ?Hf; cbn; apply IH.
Qed.

Lemma write_loop_drops fuel wb k batch : count is_drop (write_loop fuel wb k batch) = 0%nat.
Proof.
  revert k batch. induction fuel as [|fuel IH]; intros k batch; [by destruct batch|].
  destruct batch as [|m rest]; [done|]. cbn [write_loop].
  assert (Hf : forall l, count is_drop (map RetryTeeFrame l) = 0%nat) by (intros l; induction l; [done|by cbn]).
  destruct (wb k (m :: rest)) as [[|n]|]; rewrite ?count_app, ?Hf; cbn; apply IH.
Qed.

(** The books balance: what the queue took is what the sender settled, then
    what it holds, then what is queued; the drop counter counts the drops. *)
Record tee_inv (t : Tee) : Prop := mkTeeInv {
  inv_flow : omap queued (tee_log t) = omap settled (tee_log t) ++ tee_batch t ++ tee_q t;
  inv_depth : (length (tee_q t) <= tee_depth t)%nat;
  inv_batch : (length (tee_batch t) <= teeBatch)%nat;
  inv_drops : tee_dropped t = u64 (Z.of_nat (count is_drop (tee_log t)))
}.

Lemma tee_inv_new depth : tee_inv (newRetryTeeSender depth).
Proof. by constructor; cbn; try lia. Qed.

Lemma mirror_inv buf t : tee_inv t -> tee_inv (mirror buf t).
Proof.
  intros [Hf Hd Hb Hc]. unfold mirror. case_test.
  - bool_to_prop. match goal with Hl : (_ <? _)%nat = true |- _ => apply Nat.ltb_lt in Hl end.
    constructor; cbn; rewrite ?omap_app, ?length_app, ?count_app; cbn; try lia.
    + by rewrite Hf, app_nil_r, <- !app_assoc.
    + rewrite Hc. f_equal. unfold count. rewrite List.filter_app, length_app. cbn. lia.
  - constructor; cbn; rewrite ?omap_app, ?count_app; cbn; try lia.
    + by rewrite Hf, !app_nil_r.
    + rewrite Hc, u64_succ. f_equal. unfold count. rewrite List.filter_app, length_app. cbn. lia.
Qed.

Lemma recv_inv t : tee_inv t -> tee_inv (recv t).
Proof.
  intros [Hf Hd Hb Hc]. unfold recv. destruct (tee_q t) as [|m q] eqn:Hq; [by constructor; rewrite ?Hq|].
  cbn in Hd. case_test; [|by constructor; rewrite ?Hq; cbn].
  match goal with Hl : (_ <? _)%nat = true |- _ => apply Nat.ltb_lt in Hl end.
  constructor; cbn; rewrite ?length_app; cbn; try lia.
  - by rewrite Hf, <- !app_assoc.
  - done.
Qed.

Lemma writeBatch_inv wb t : tee_inv t -> tee_inv (writeBatch wb t).
Proof.
  intros [Hf Hd Hb Hc]. constructor; cbn; rewrite ?omap_app, ?count_app; cbn; try lia.
  - rewrite write_loop_settles, write_loop_queued by done. by rewrite Hf, app_nil_r, <- app_assoc.
  - rewrite Hc. f_equal. fold (count is_drop (tee_log t ++ write_loop (length (tee_batch t)) wb 0 (tee_batch t))).
    rewrite count_app, write_loop_drops. lia.
Qed.

Lemma tee_step_inv t t' : tee_step t t' -> tee_inv t -> tee_inv t'.
Proof.
  intros [buf|u|u|wb u|u]; intros Hi; auto using mirror_inv, recv_inv, writeBatch_inv.
  - unfold start. case_test; [done|]. by destruct Hi; constructor.
  - by destruct Hi; constructor.
Qed.

Lemma tee_steps_inv t t' : rtc tee_step t t' -> tee_inv t -> tee_inv t'.
Proof. induction 1 as [|x y z Hs _ IH]; [done|]. intros Hi. apply IH. by apply (tee_step_inv _ _ Hs). Qed.

(** ** Draining *)

Lemma recv_iter k t :
  (length (tee_batch t) + k <= teeBatch)%nat -> (k <= length (tee_q t))%nat ->
  tee_q (Nat.iter k recv t) = drop k (tee_q t) /\
  tee_batch (Nat.iter k recv t) = tee_batch t ++ take k (tee_q t).
Proof.
  induction k as [|k IH]; intros Hb Hq; [by rewrite app_nil_r|].
  destruct IH as [IHq IHb]; [lia..|]. rewrite Nat.iter_succ.
  assert (Hlt : (k < length (tee_q t))%nat) by lia. apply lookup_lt_is_Some in Hlt as [m Hm].
  rewrite (drop_S _ m) in IHq by done. generalize dependent (Nat.iter k recv t). intros u IHq IHb.
  unfold recv. rewrite IHq, IHb, length_app, length_take, (proj2 (Nat.ltb_lt _ _)) by lia.
  cbn. by rewrite (take_S_r _ _ m), app_assoc.
Qed.

Lemma run_round_q wb t :
  tee_batch t = [] ->
  tee_q (run_round wb t) = drop (Nat.min teeBatch (length (tee_q t))) (tee_q t) /\
  tee_batch (run_round wb t) = [].
Proof.
  intros Hb. unfold run_round. split; [|done]. cbn [writeBatch tee_q].
  apply recv_iter; rewrite ?Hb; cbn [length]; lia.
Qed.

Lemma iter_recv_steps k t : rtc tee_step t (Nat.iter k recv t).
Proof. induction k as [|k IH]; [done|]. eapply rtc_r; [apply IH|]. constructor. Qed.

Lemma run_round_steps wb t : rtc tee_step t (run_round wb t).
Proof. unfold run_round. eapply rtc_r; [apply iter_recv_steps|constructor]. Qed.

Lemma run_drains fuel wbs t :
  tee_batch t = [] -> (length (tee_q t) <= fuel)%nat ->
  rtc tee_step t (run fuel wbs t) /\ tee_q (run fuel wbs t) = [] /\ tee_batch (run fuel wbs t) = [].
Proof.
  revert t. induction fuel as [|fuel IH]; intros t Hb Hlen.
  { cbn. destruct (tee_q t); [done|cbn in Hlen; lia]. }
  cbn [run]. destruct (tee_q t) as [|m q] eqn:Hq; [done|].
  destruct (run_round_q (wbs fuel) t Hb) as [Hq' Hb'].
  destruct (IH (run_round (wbs fuel) t)) as (Hs & Hq2 & Hb2); [done| |].
  { rewrite Hq', Hq, length_drop. cbn [length] in *. unfold teeBatch. lia. }
  split; [|done]. etrans; [apply run_round_steps|done].
Qed.

(** A closed tee settles everything it took. *)
Lemma tee_close_drains (depth : nat) (t : Tee) (wbs : nat -> nat -> list bytes -> option nat) (buf : bytes) :
  rtc tee_step (newRetryTeeSender depth) t -> tee_batch t = [] ->
  let t' := run (length (tee_q t)) wbs (close t) in
  tee_q t' = [] /\ omap settled (tee_log t') = omap queued (tee_log t') /\
  tee_log (mirror buf (close t)) = tee_log t ++ [RetryTeeDropped buf].
Proof.
  intros Hs Hb t'. destruct (run_drains (length (tee_q t)) wbs (close t)) as (Hr & Hq & Hb'); [done..|].
  split; [done|]. split; [|done].
  assert (Hi : tee_inv t').
  { apply (tee_steps_inv (newRetryTeeSender depth)); [|apply tee_inv_new].
    transitivity (close t); [|done]. apply (rtc_r _ t); [done|apply tee_close]. }
  rewrite (inv_flow _ Hi). unfold t'. by rewrite Hq, Hb', !app_nil_r.
Qed.

(** ** Theorems *)

(** through any interleaving of mirrored datagrams, sender receives, batch
    writes and the close, no datagram the queue took is lost, repeated or
    reordered: what was taken is exactly what was written or counted as a write
    error, then the sender's batch, then the queue, in that order; the queue and
    the batch keep to their bounds, and the drop counter counts the datagrams
    turned away (modulo its 64 bits).  From there a closed tee settles everything:
    with no batch in hand, draining the queue after [close] ends with nothing
    queued and every datagram ever taken written or counted as an error, and
    everything offered later is dropped. *)
Theorem tee_conservation (depth : nat) (t : Tee) :
  rtc tee_step (newRetryTeeSender depth) t ->
  omap queued (tee_log t) = omap settled (tee_log t) ++ tee_batch t ++ tee_q t /\
  (length (tee_q t) <= tee_depth t)%nat /\ (length (tee_batch t) <= teeBatch)%nat /\
  tee_dropped t = u64 (Z.of_nat (count is_drop (tee_log t))) /\
  (tee_batch t = [] -> forall wbs buf,
     let t' := run (length (tee_q t)) wbs (close t) in
     tee_q t' = [] /\ omap settled (tee_log t') = omap queued (tee_log t') /\
     tee_log (mirror buf (close t)) = tee_log t ++ [RetryTeeDropped buf]).
Proof.
  intros Hs. destruct (tee_steps_inv _ _ Hs (tee_inv_new depth)). split_and!; [done..|].
  intros Hb wbs buf t'. by apply (tee_close_drains depth).
Qed.

Lemma tee_conservation_witness :
  let t := mirror [2] (mirror [1] (newRetryTeeSender 1)) in
  let t' := run 1 (fun _ _ _ => Some 1%nat) (close t) in
  omap queued (tee_log t) = [[1]] /\ tee_dropped t = 1 /\ tee_q t' = [] /\ omap settled (tee_log t') = [[1]].
Proof.
  assert (Hs : rtc tee_step (newRetryTeeSender 1) (mirror [2] (mirror [1] (newRetryTeeSender 1)))).
  { eapply rtc_l; [apply (tee_mirror [1])|]. eapply rtc_l; [apply (tee_mirror [2])|]. apply rtc_refl. }
  destruct (tee_conservation 1 _ Hs) as (Hf & _ & _ & Hd & Hc). cbn zeta in *.
  destruct (Hc eq_refl (fun _ _ _ => Some 1%nat) []) as (Hq & Hset & _).
  split_and!; [by rewrite Hf|by rewrite Hd|exact Hq|]. etrans; [exact Hset|]. reflexivity.
Defined.
