(* ===== verification/TeePool.v ===== *)
(** * The buffers of the retry tee (listener/retrytee.go)

    [mirror] copies a datagram into a buffer taken from a pool and queues the
    slice; the sender goroutine writes what the slices hold when it gets to them
    and puts the buffers back.  Here the buffers are cells of a heap and the pool,
    the queue, the batch and the mirroring goroutine hold pointers, so that a
    buffer reused too early would show.  The tee of [RetryTee] is what one sees
    when the pointers are read. *)

From S2P Require Import Prelude RetryTee.

(** ** Data *)

Definition teeBufSize : nat := Z.to_nat (Z.shiftl 16 10).

(** [teeMsg]: a slice of a pooled buffer, by its length, or of a buffer of its
    own. *)
Inductive teeMsg := Pooled (p : positive) (len : nat) | Own (buf : bytes).

Definition pooled (m : teeMsg) : option positive := match m with Pooled p _ => Some p | Own _ => None end.

(** The goroutine in [mirror]: between calls, with a buffer from the pool for the
    enveloped datagram [buf], with the message to queue for it. *)
Inductive Hand := HIdle | HGot (p : positive) (buf : bytes) | HFilled (m : teeMsg) (buf : bytes).

(** [ps_spent] are the messages of a batch whose datagrams are written and whose
    buffers are still to be put back. *)
Record PTee := mkPTee {
  ps_heap : gmap positive bytes;
  ps_pool : list positive;
  ps_hand : Hand;
  ps_q : list teeMsg;
  ps_batch : list teeMsg;
  ps_spent : list teeMsg;
  ps_depth : nat;
  ps_closed : bool;
  ps_started : bool;
  ps_dropped : Z;
  ps_loggedDrop : bool;
  ps_loggedErr : bool;
  ps_log : list TeeEvent
}.

Definition new_ptee (depth : nat) : PTee := mkPTee ∅ [] HIdle [] [] [] depth false false 0 false false [].

(** What a slice holds. *)
Definition contents (heap : gmap positive bytes) (m : teeMsg) : bytes :=
  match m with Pooled p len => take len (default [] (heap !! p)) | Own buf => buf end.

(** [AppendEncap] into the front of a buffer that has the room. *)
Definition overwrite (buf old : bytes) : bytes := buf ++ drop (length buf) old.

(** ** Steps *)

(** [t.pool.Put], for a message in a pooled buffer. *)
Definition put_back (m : teeMsg) (pool : list positive) : list positive :=
  match pooled m with Some p => p :: pool | None => pool end.

Inductive ptee_step : PTee -> PTee -> Prop :=
(** [mirror] takes a new buffer or one of the pool, or makes one of its own. *)
| ps_get_new heap pool q ba sp d c st dr ld le lg p buf :
    (length buf <= teeBufSize)%nat -> heap !! p = None ->
    ptee_step (mkPTee heap pool HIdle q ba sp d c st dr ld le lg)
      (mkPTee (<[p := zeros teeBufSize]> heap) pool (HGot p buf) q ba sp d c st dr ld le lg)
| ps_get_pool heap pool pool' q ba sp d c st dr ld le lg p buf :
    (length buf <= teeBufSize)%nat -> pool ≡ₚ p :: pool' ->
    ptee_step (mkPTee heap pool HIdle q ba sp d c st dr ld le lg)
      (mkPTee heap pool' (HGot p buf) q ba sp d c st dr ld le lg)
| ps_get_own heap pool q ba sp d c st dr ld le lg buf :
    (teeBufSize < length buf)%nat ->
    ptee_step (mkPTee heap pool HIdle q ba sp d c st dr ld le lg)
      (mkPTee heap pool (HFilled (Own buf) buf) q ba sp d c st dr ld le lg)
| ps_fill heap pool q ba sp d c st dr ld le lg p buf old :
    heap !! p = Some old ->
    ptee_step (mkPTee heap pool (HGot p buf) q ba sp d c st dr ld le lg)
      (mkPTee (<[p := overwrite buf old]> heap) pool (HFilled (Pooled p (length buf)) buf) q ba sp d c st dr ld le lg)
(** Under the lock it queues the message, or else puts the buffer back. *)
| ps_queue heap pool q ba sp d st dr ld le lg m buf :
    (length q < d)%nat ->
    ptee_step (mkPTee heap pool (HFilled m buf) q ba sp d false st dr ld le lg)
      (mkPTee heap pool HIdle (q ++ [m]) ba sp d false st dr ld le (lg ++ [TeeQueued buf]))
| ps_drop heap pool q ba sp d c st dr ld le lg m buf :
    c = true \/ (d <= length q)%nat ->
    ptee_step (mkPTee heap pool (HFilled m buf) q ba sp d c st dr ld le lg)
      (mkPTee heap (put_back m pool) HIdle q ba sp d c st (u64 (dr + 1)) true le (lg ++ [RetryTeeDropped buf]))
(** The pool may drop a buffer at any time. *)
| ps_pool_drop heap pool pool' h q ba sp d c st dr ld le lg p :
    pool ≡ₚ p :: pool' ->
    ptee_step (mkPTee heap pool h q ba sp d c st dr ld le lg) (mkPTee heap pool' h q ba sp d c st dr ld le lg)
| ps_start heap pool h q ba sp d c dr ld le lg st :
    st || c = false ->
    ptee_step (mkPTee heap pool h q ba sp d c st dr ld le lg) (mkPTee heap pool h q ba sp d c true dr ld le lg)
(** [run]: a batch fills only once the last one's buffers are back. *)
| ps_recv heap pool h q ba d c st dr ld le lg m :
    (length ba < teeBatch)%nat ->
    ptee_step (mkPTee heap pool h (m :: q) ba [] d c st dr ld le lg) (mkPTee heap pool h q (ba ++ [m]) [] d c st dr ld le lg)
| ps_write wb heap pool h q ba d c st dr ld le lg :
    let evs := write_loop (length ba) wb 0 (contents heap <$> ba) in
    ptee_step (mkPTee heap pool h q ba [] d c st dr ld le lg)
      (mkPTee heap pool h q [] ba d c st dr ld (le || existsb is_error evs) (lg ++ evs))
| ps_release heap pool h q ba sp d c st dr ld le lg m :
    ptee_step (mkPTee heap pool h q ba (m :: sp) d c st dr ld le lg)
      (mkPTee heap (put_back m pool) h q ba sp d c st dr ld le lg)
| ps_close heap pool h q ba sp d c st dr ld le lg :
    ptee_step (mkPTee heap pool h q ba sp d c st dr ld le lg) (mkPTee heap pool h q ba sp d true st dr ld le lg).

(** ** The abstraction *)

Definition tee_of (s : PTee) : Tee :=
  mkTee (ps_depth s) (ps_closed s) (ps_started s) (contents (ps_heap s) <$> ps_q s) (contents (ps_heap s) <$> ps_batch s)
    (ps_dropped s) (ps_loggedDrop s) (ps_loggedErr s) (ps_log s).

(** What the hand holds. *)
Definition hand_msgs (h : Hand) : list teeMsg :=
  match h with HIdle => [] | HGot p _ => [Pooled p 0] | HFilled m _ => [m] end.

(** The datagram fits the buffer, and then sits in it. *)
Definition hand_ok (heap : gmap positive bytes) (h : Hand) : Prop :=
  match h with
  | HIdle => True
  | HGot _ buf => (length buf <= teeBufSize)%nat
  | HFilled m buf => contents heap m = buf
  end.

Definition holders (s : PTee) : list teeMsg := hand_msgs (ps_hand s) ++ ps_q s ++ ps_batch s ++ ps_spent s.

(** Every buffer is in one place, and has the size of a pooled buffer. *)
Record exclusive (s : PTee) : Prop := mkExclusive {
  ex_once : NoDup (ps_pool s ++ omap pooled (holders s));
  ex_heap : forall p, p ∈ ps_pool s ++ omap pooled (holders s) -> exists b, ps_heap s !! p = Some b /\ length b = teeBufSize;
  ex_hand : hand_ok (ps_heap s) (ps_hand s)
}.

(** ** Lemmas *)

Lemma contents_other heap p b m : pooled m <> Some p -> contents (<[p := b]> heap) m = contents heap m.
Proof. destruct m as [q len|buf]; [|done]. cbn. intros Hq. rewrite lookup_insert_ne; [done|]. congruence. Qed.

(** Writing a buffer that none of the messages is in. *)
Lemma contents_others heap p b (ms : list teeMsg) :
  p ∉ omap pooled ms -> contents (<[p := b]> heap) <$> ms = contents heap <$> ms.
Proof.
  intros Hp. apply list_fmap_ext. intros i m Hm. apply contents_other. intros Hq. apply Hp.
  apply list_elem_of_omap. exists m. split; [by eapply list_elem_of_lookup_2|done].
Qed.

Lemma omap_pooled_cons m ms : omap pooled (m :: ms) = option_list (pooled m) ++ omap pooled ms.
Proof. cbn. by destruct (pooled m). Qed.

Lemma omap_put_back m pool : put_back m pool = option_list (pooled m) ++ pool.
Proof. unfold put_back. by destruct (pooled m). Qed.

(** The buffers of the tee, up to their order. *)
Definition buffers (s : PTee) : list positive := ps_pool s ++ omap pooled (holders s).

Lemma exclusive_perm s s' :
  ps_heap s' = ps_heap s -> buffers s' ≡ₚ buffers s -> hand_ok (ps_heap s') (ps_hand s') -> exclusive s -> exclusive s'.
Proof.
  intros Hh Hp Hf [H1 H2 H3]. unfold buffers in *. split; [by rewrite Hp| |done]. intros p Hin. rewrite Hh. apply H2. by rewrite <- Hp.
Qed.

Lemma exclusive_sub s s' p :
  ps_heap s' = ps_heap s -> buffers s ≡ₚ p :: buffers s' -> hand_ok (ps_heap s') (ps_hand s') -> exclusive s -> exclusive s'.
Proof.
  intros Hh Hp Hf [H1 H2 H3]. unfold buffers in *. rewrite Hp in H1. apply NoDup_cons in H1 as [_ H1]. split; [done| |done].
  intros p' Hin. rewrite Hh. apply H2. rewrite Hp. by right.
Qed.

(** Every permutation at hand is one of appended lists. *)
Ltac buffers_perm :=
  unfold buffers, holders; cbn [ps_pool ps_hand ps_q ps_batch ps_spent hand_msgs];
  match goal with Hp : _ ≡ₚ _ |- _ => rewrite Hp | _ => idtac end;
  rewrite ?omap_put_back, ?omap_app, ?omap_pooled_cons; cbn [omap list_omap pooled option_list app]; rewrite ?app_nil_r; solve_Permutation.

Lemma ptee_step_exclusive s s' : ptee_step s s' -> exclusive s -> exclusive s'.
Proof.
  intros Hs He. pose proof He as [H1 H2 H3]. destruct Hs; cbn [ps_heap ps_hand hand_ok] in *.
  (* A new buffer. *)
  1: { assert (Hnew : p ∉ buffers (mkPTee heap pool HIdle q ba sp d c st dr ld le lg))
         by (intros Hin; destruct (H2 p Hin) as (b & Hb & _); cbn in Hb; congruence).
       unfold buffers, holders in Hnew. cbn in Hnew. split; [| |done]; unfold holders in *; cbn in *.
       - rewrite <- Permutation_middle. by constructor.
       - intros p' Hin. rewrite <- Permutation_middle in Hin. apply elem_of_cons in Hin as [->|Hin].
         + exists (zeros teeBufSize). rewrite lookup_insert_eq. split; [done|apply repeat_length].
         + rewrite lookup_insert_ne by (intros ->; by apply Hnew). by apply H2. }
  (* One of the pool. *)
  1: { refine (exclusive_perm _ _ _ _ _ He); [done| |done]. buffers_perm. }
  (* One of its own. *)
  1: { refine (exclusive_perm _ _ _ _ _ He); [done| |done]. buffers_perm. }
  (* The copy. *)
  1: { destruct (H2 p) as (b & Hb & Hlen); [unfold holders; cbn; set_solver|]. cbn in Hb. simplify_eq.
       split; unfold holders in *; cbn in *; [done| |].
       - intros p' Hin. destruct (decide (p' = p)) as [->|Hne].
         + exists (overwrite buf old). rewrite lookup_insert_eq. split; [done|]. unfold overwrite. rewrite length_app, length_drop. lia.
         + rewrite lookup_insert_ne by done. by apply H2.
       - rewrite lookup_insert_eq. cbn. unfold overwrite. by rewrite take_app_length. }
  all: try (refine (exclusive_perm _ _ _ _ _ He); [done| |done]; buffers_perm).
  (* The pool drops a buffer. *)
  refine (exclusive_sub _ _ p _ _ _ He); [done| |done]. buffers_perm.
Qed.

(** ** Refinement *)

(** A buffer in the hand is not in the queue or the batch. *)
Lemma hand_apart s p m :
  exclusive s -> m ∈ hand_msgs (ps_hand s) -> pooled m = Some p ->
  (p ∉ omap pooled (ps_q s)) /\ (p ∉ omap pooled (ps_batch s)).
Proof.
  intros [Hn _ _] Hm Hp. unfold holders in Hn. rewrite !omap_app in Hn. apply NoDup_app in Hn as (_ & _ & Hn).
  apply NoDup_app in Hn as (_ & Hd & _).
  assert (Hin : p ∈ omap pooled (hand_msgs (ps_hand s))) by (apply list_elem_of_omap; eauto).
  specialize (Hd p Hin). split; intros Hx; apply Hd; rewrite !elem_of_app; auto.
Qed.

Ltac tee_fields_in Hm :=
  cbn [tee_depth tee_closed tee_started tee_q tee_batch tee_dropped tee_loggedDrop tee_loggedErr tee_log negb andb] in Hm.
Tactic Notation "tee_fields" "in" hyp(Hm) := tee_fields_in Hm.

(** Every step is one of the tee's, or not visible in it. *)
Lemma ptee_step_refines s s' : ptee_step s s' -> exclusive s -> rtc tee_step (tee_of s) (tee_of s').
Proof.
  intros Hs He. destruct Hs; unfold tee_of; cbn [ps_heap ps_pool ps_hand ps_q ps_batch ps_spent ps_depth ps_closed
    ps_started ps_dropped ps_loggedDrop ps_loggedErr ps_log]; try reflexivity.
  - assert (Hnew : forall ms : list teeMsg, (forall p', p' ∈ omap pooled ms -> is_Some (heap !! p')) ->
      contents (<[p := zeros teeBufSize]> heap) <$> ms = contents heap <$> ms).
    { intros ms Hms. apply contents_others. intros Hin. apply Hms in Hin as [b Hb]. congruence. }
    assert (Hall : forall p', p' ∈ omap pooled (q ++ ba) -> is_Some (heap !! p')).
    { intros p' Hin. destruct (ex_heap _ He p') as (b & Hb & _); [|by exists b]. unfold holders. cbn.
      rewrite omap_app, elem_of_app in Hin. rewrite !omap_app, !elem_of_app. tauto. }
    rewrite !Hnew; [reflexivity|..]; intros p' Hin; apply Hall; rewrite omap_app, elem_of_app; auto.
  - destruct (hand_apart _ p (Pooled p 0) He) as [Hq Hb]; [by left|done|]. cbn in Hq, Hb.
    by rewrite !contents_others.
  - rewrite fmap_app. cbn. pose proof (ex_hand _ He) as Hh. cbn in Hh. rewrite Hh. apply rtc_once.
    match goal with |- tee_step ?t _ => pose proof (tee_mirror buf t) as Hm end. unfold mirror in Hm. tee_fields in Hm.
    rewrite length_fmap, (proj2 (Nat.ltb_lt _ _)) in Hm by done. exact Hm.
  - apply rtc_once. match goal with |- tee_step ?t _ => pose proof (tee_mirror buf t) as Hm end. unfold mirror in Hm. tee_fields in Hm.
    rewrite length_fmap in Hm. destruct (negb c && _) eqn:Hc; [|exact Hm].
    apply andb_prop in Hc as [Hc Hl%Nat.ltb_lt]. apply negb_true_iff in Hc. destruct H; [congruence|lia].
  - apply rtc_once. match goal with |- tee_step ?t _ => pose proof (tee_start t) as Hm end. unfold start in Hm. tee_fields in Hm.
    by rewrite H in Hm.
  - apply rtc_once. match goal with |- tee_step ?t _ => pose proof (tee_recv t) as Hm end. unfold recv in Hm. tee_fields in Hm.
    rewrite length_fmap, (proj2 (Nat.ltb_lt _ _)) in Hm by done. by rewrite fmap_app.
  - apply rtc_once. match goal with |- tee_step ?t _ => pose proof (tee_write wb t) as Hm end. unfold writeBatch in Hm. tee_fields in Hm.
    rewrite length_fmap in Hm. exact Hm.
  - apply rtc_once. match goal with |- tee_step ?t _ => exact (tee_close t) end.
Qed.

Lemma ptee_exclusive depth : exclusive (new_ptee depth).
Proof. split; cbn; [constructor|set_solver|done]. Qed.

Lemma ptee_steps s s' :
  rtc ptee_step s s' -> exclusive s -> exclusive s' /\ rtc tee_step (tee_of s) (tee_of s').
Proof.
  induction 1 as [s|s s1 s2 Hs _ IH]; intros He; [done|].
  destruct (IH (ptee_step_exclusive _ _ Hs He)) as [He' Ht]. split; [done|]. etrans; [|done]. by apply ptee_step_refines.
Qed.

(** C25: The tee keeps its datagrams apart.  Through any interleaving of the mirroring
    goroutine, the sender and the close, no pooled buffer is in two places (the
    pool, the hand, the queue, the batch, the batch being released), so the tee with
    its buffers behaves as the queue of datagrams it stands for: what the queue
    took, byte for byte as [mirror] enveloped it, is exactly what was written or
    counted as a write error, then what the sender's slices hold, then what the
    queued slices hold, in that order; queue and batch keep to their bounds, and the
    drop counter counts the datagrams turned away (modulo its 64 bits). *)
Theorem tee_buffers (depth : nat) (s : PTee) :
  rtc ptee_step (new_ptee depth) s ->
  NoDup (buffers s) /\
  rtc tee_step (newRetryTeeSender depth) (tee_of s) /\
  omap queued (ps_log s) = omap settled (ps_log s) ++ (contents (ps_heap s) <$> ps_batch s) ++ (contents (ps_heap s) <$> ps_q s) /\
  (length (ps_q s) <= ps_depth s)%nat /\ (length (ps_batch s) <= teeBatch)%nat /\
  ps_dropped s = u64 (Z.of_nat (count is_drop (ps_log s))).
Proof.
  intros Hs. destruct (ptee_steps _ _ Hs (ptee_exclusive depth)) as [He Ht]. change (tee_of (new_ptee depth)) with (newRetryTeeSender depth) in Ht.
  destruct (tee_steps_inv _ _ Ht (tee_inv_new depth)) as [F1 F2 F3 F4]. cbn in F1, F2, F3, F4. rewrite length_fmap in F2, F3.
  split; [apply He|]. done.
Qed.

(** A buffer that went through the queue, the batch and the pool serves the next
    datagram; the first one was written as it was. *)
Lemma tee_buffers_witness :
  exists s, rtc ptee_step (new_ptee 1) s /\ omap queued (ps_log s) = [[1; 2]; [3]] /\
    omap settled (ps_log s) = [[1; 2]] /\ contents (ps_heap s) <$> ps_q s = [[3]] /\ NoDup (buffers s).
Proof.
  eassert (Hs : rtc ptee_step (new_ptee 1) _).
  { unfold new_ptee.
    eapply rtc_l; [apply (ps_get_new _ _ _ _ _ _ _ _ _ _ _ _ 1%positive [1; 2]); [apply Nat.leb_le; vm_compute; reflexivity|done]|].
    eapply rtc_l; [eapply ps_fill, lookup_insert_eq|]. eapply rtc_l; [apply ps_queue; cbn; lia|].
    eapply rtc_l; [apply ps_recv; unfold teeBatch; cbn; lia|]. eapply rtc_l; [apply (ps_write (fun _ _ => Some 1%nat))|].
    eapply rtc_l; [apply ps_release|].
    eapply rtc_l; [apply (ps_get_pool _ _ [] _ _ _ _ _ _ _ _ _ _ 1%positive [3]); [apply Nat.leb_le; vm_compute; reflexivity|done]|].
    eapply rtc_l; [eapply ps_fill, lookup_insert_eq|]. eapply rtc_l; [apply ps_queue; cbn; lia|]. apply rtc_refl. }
  destruct (tee_buffers 1 _ Hs) as (Hn & _ & Hf & _). eexists. split; [exact Hs|].
  split; [cbn; reflexivity|]. split; [cbn; reflexivity|]. split; [|exact Hn]. cbn. by rewrite lookup_insert_eq.
Defined.
