(* ===== verification/Listener.v ===== *)
(** * The receive worker (listener/listener.go, listener/beef.go,
    listener/blockgate.go)

    One datagram from the socket, or one frame recovered by the gap tracker, is
    run through the sender filter, the retry tee, the dispatch on the frame
    version and the per-class pipelines: verification, filters, dedup, egress and
    gap tracking.  The worker's state is threaded by a state monad; what it sends
    and counts is an event log.

    The answers of the outside world (clock readings, results of sends, results
    of egress claims) come from an oracle, one answer per question, so the
    theorems hold for all of them. *)

From S2P Require Import Prelude Discovery Tracker TrackerRepair Dedup SubtreeGroup Filter Reassembly ReassemblyRepair RetryTee.

(** ** Data *)

(** [frame.Frame], with the fields the worker uses. *)
Record Frame := mkFrame {
  f_Version : Z;
  f_TxID : bytes;
  f_HashKey : Z;
  f_SeqNum : Z;
  f_SubtreeID : bytes;
  f_Payload : bytes
}.

Record BlockFrame := mkBlockFrame {
  bf_MsgType : Z;
  bf_ContentID : bytes;
  bf_HashKey : Z;
  bf_SeqNum : Z;
  bf_Payload : bytes
}.

Record SubtreeDataFrame := mkSubtreeDataFrame {
  sf_MsgType : Z;
  sf_SubtreeID : bytes;
  sf_HashKey : Z;
  sf_SeqNum : Z;
  sf_Payload : bytes
}.

Record BEEFFrame := mkBEEFFrame {
  be_ContentID : bytes;
  be_TopicID : bytes;
  be_HashKey : Z;
  be_SeqNum : Z;
  be_DeliverCount : Z;
  be_Payload : bytes
}.

(** [shard.Engine]. *)
Record Engine := mkEngine { en_GroupIndex : bytes -> Z; en_ShardBits : Z }.

(** The frame, bundle, object and proof-of-work libraries as the worker uses
    them.  An encoder gets the buffer it fills and returns the length written
    and the buffer. *)
Class WireLib := mkWireLib {
  FrameVerV2 : Z;
  FrameVerV6 : Z;
  BlockMsgAnnounce : Z;
  BlockMsgCoinbase : Z;
  BlockHeaderSize : nat;
  BlockHeaderFrameSize : nat;
  powHeaderSize : nat;
  GroupBlockBroadcast : Z;
  GroupSubtreeDataAnnounce : Z;
  GroupCoinbaseFlow : Z;
  GroupBlockHeader : Z;
  IsBlockFrame : bytes -> bool;
  IsSubtreeDataFrame : bytes -> bool;
  IsAnchorFrame : bytes -> bool;
  IsFragment : bytes -> bool;
  IsBundle : bytes -> bool;
  IsBEEFFrame : bytes -> bool;
  DecodeFrame : bytes -> option Frame;
  DecodeAnchor : bytes -> option Frame;
  DecodeBlock : bytes -> option BlockFrame;
  DecodeSubtreeData : bytes -> option SubtreeDataFrame;
  DecodeFragment : bytes -> option FragFrame;
  DecodeBEEF : bytes -> option BEEFFrame;
  DecodeBlockHeader : bytes -> option Frame;
  EncodeFrame : Frame -> bytes -> option (nat * bytes);
  EncodeBlock : BlockFrame -> bytes -> option (nat * bytes);
  EncodeSubtreeData : SubtreeDataFrame -> bytes -> option (nat * bytes);
  EncodeBEEF : BEEFFrame -> bytes -> option (nat * bytes);
  EncodeBlockHeader : bytes -> Z -> Z -> bytes -> bytes -> option (nat * bytes);
  Bundle : Type;
  bu_ShardBits : Bundle -> Z;
  bu_GroupIdx : Bundle -> Z;
  bu_SubtreeID : Bundle -> bytes;
  bu_HashKey : Bundle -> Z;
  bu_SeqNum : Bundle -> Z;
  DecodeBundle : bytes -> option Bundle;
  EncodeBundle : Bundle -> option bytes;
  Decoalesce : Bundle -> list Frame;
  Rebucketer : Type;
  NewRebucketer : Engine -> Z -> Z -> bool -> Rebucketer;
  Rebucket : Rebucketer -> bytes -> Bundle -> list Bundle * Rebucketer;
  CheckHeader : bytes -> option Z -> bool;
  CompactToTarget : Z -> Z;
  BEEFDeliverableTopicIDs : BEEFFrame -> list bytes;
  SplitBEEFPayload : bytes -> option bytes;
  BEEFVersionWord : bytes -> option Z
}.

Definition rebucketPathMTU : Z := 1500.

Definition ipv6UDPHeaderSize : Z := 40 + 8.

Definition rebucketMaxBytes : Z := rebucketPathMTU - ipv6UDPHeaderSize.

(** The virtual flow of BRC-134 anchor frames. *)
Definition anchorGroupIdx : Z := 0xFFF9.

(** [unix.Sockaddr] as [Recvfrom] returns it. *)
Inductive Sockaddr :=
| SockaddrInet6 (addr : bytes) (port : Z)
| SockaddrOther.

Definition sockaddrIP (sa : Sockaddr) : option bytes :=
  match sa with SockaddrInet6 addr _ => Some addr | SockaddrOther => None end.

(** The answers of the egress claim. *)
Inductive ClaimResult := ClaimWon | ClaimLost | ClaimError.

(** One answer of the outside: clock readings, the environment of a tracker
    call, the result of a send, the consumers a header reached, a claim. *)
Record Answer := mkAnswer {
  an_env : Env;
  an_now : Z;
  an_later : Z;
  an_seen : bytes -> Z;
  an_sent : bool;
  an_count : nat;
  an_claim : ClaimResult
}.

Section Worker.
Context `{FrameLib} `{TeeLib} `{WireLib}.

(** Sends and claims, then counters. *)
Inductive WEvent :=
| WSend (raw : bytes) (f : Frame)
| WMcast (raw : bytes) (f : Frame) (groupIdx : Z)
| WSendBlock (raw : bytes) (bf : BlockFrame)
| WSendSubtree (raw : bytes) (sf : SubtreeDataFrame)
| WSendBeef (raw : bytes) (bf : BEEFFrame)
| WSendBundle (raw : bytes) (b : Bundle)
| WHeader (buf : bytes)
| WHeaderMcast (buf : bytes) (group : Z)
| WHeaderFanout (buf : bytes) (hf : Frame)
| WClaim (key : bytes) (r : ClaimResult)
| WMark (key : bytes)
| FrameReceived (ver : string)
| FrameDropped (reason : string)
| FrameInvalidPayload
| FrameTxDeduped
| FrameDeduped
| TxDedupError
| FrameForwarded
| EgressError
| MCForwarded
| MCEgressError
| HeaderForwarded
| HeaderEgressError
| ReassemblyCompleted
| ReassemblyEvent (ev : REvent)
| BundleRebucketed
| RebucketUnguarded.

(** What [New] and the setters fix.  [c_txDedup] is [None] without a store and
    otherwise says whether the ingress mark is configured; [c_headerFanout] is
    [None] without a header lane and otherwise says whether the sink counts the
    consumers it reached. *)
Record Conf := mkConf {
  c_id : Z;
  c_rec : bool;
  c_engine : Engine;
  c_filt : Filter;
  c_verifyPayloadHash : bool;
  c_senderACL : option SenderACL;
  c_txDedup : option bool;
  c_mcastEgr : bool;
  c_bundleAware : bool;
  c_headerEgr : bool;
  c_headerMCastEgr : bool;
  c_headerFanout : option bool;
  c_headerHashKey : Z;
  c_beefEngine : option (bytes -> Z);
  c_beefTopics : gset bytes;
  c_beefVersions : gset Z;
  c_beefVerifyContent : bool;
  c_requireBlockPoW : bool;
  c_powFloor : option Z;
  c_relay : bool
}.

(** [w_asked] counts the questions put to the outside. *)
Record Worker := mkWorker {
  w_conf : Conf;
  w_tracker : option Tracker;
  w_dedup : option DSet;
  w_reassem : option Buffer;
  w_tee : option Tee;
  w_headerSeqNum : Z;
  w_egressSeq : gmap Z Z;
  w_rebucketer : option Rebucketer;
  w_warnedRebucket : bool;
  w_curSource : option bytes;
  w_asked : nat;
  w_log : list WEvent
}.

(** [New], with what the setters add before [Run]. *)
Definition NewWorker (c : Conf) (tracker : option Tracker) (dedup : option DSet) (buf : option Buffer)
    (tee : option Tee) : Worker :=
  mkWorker c tracker dedup buf tee 0 ∅ None false None 0 [].

Definition SetBlockPoW (require : bool) (floorBits : Z) (c : Conf) : Conf :=
  mkConf (c_id c) (c_rec c) (c_engine c) (c_filt c) (c_verifyPayloadHash c) (c_senderACL c) (c_txDedup c)
    (c_mcastEgr c) (c_bundleAware c) (c_headerEgr c) (c_headerMCastEgr c) (c_headerFanout c) (c_headerHashKey c)
    (c_beefEngine c) (c_beefTopics c) (c_beefVersions c) (c_beefVerifyContent c) require
    (if require && negb (floorBits =? 0) then Some (CompactToTarget floorBits) else None) (c_relay c).

Definition SetBEEF (pe : option (bytes -> Z)) (topics : gset bytes) (versions : gset Z) (verifyContent : bool)
    (c : Conf) : Conf :=
  mkConf (c_id c) (c_rec c) (c_engine c) (c_filt c) (c_verifyPayloadHash c) (c_senderACL c) (c_txDedup c)
    (c_mcastEgr c) (c_bundleAware c) (c_headerEgr c) (c_headerMCastEgr c) (c_headerFanout c) (c_headerHashKey c)
    pe topics versions verifyContent (c_requireBlockPoW c) (c_powFloor c) (c_relay c).

(** ** The worker monad *)

Definition M (A : Type) : Type := Worker -> A * Worker.

#[export] Instance M_ret : MRet M := fun A a w => (a, w).
#[export] Instance M_bind : MBind M := fun A B k m w => let '(a, w) := m w in k a w.

Definition gets {A} (f : Worker -> A) : M A := fun w => (f w, w).

Definition modify (f : Worker -> Worker) : M unit := fun w => (tt, f w).

Definition set_tracker (t : option Tracker) (w : Worker) : Worker :=
  mkWorker (w_conf w) t (w_dedup w) (w_reassem w) (w_tee w) (w_headerSeqNum w) (w_egressSeq w)
    (w_rebucketer w) (w_warnedRebucket w) (w_curSource w) (w_asked w) (w_log w).

Definition set_dedup (s : option DSet) (w : Worker) : Worker :=
  mkWorker (w_conf w) (w_tracker w) s (w_reassem w) (w_tee w) (w_headerSeqNum w) (w_egressSeq w)
    (w_rebucketer w) (w_warnedRebucket w) (w_curSource w) (w_asked w) (w_log w).

Definition set_reassem (b : option Buffer) (w : Worker) : Worker :=
  mkWorker (w_conf w) (w_tracker w) (w_dedup w) b (w_tee w) (w_headerSeqNum w) (w_egressSeq w)
    (w_rebucketer w) (w_warnedRebucket w) (w_curSource w) (w_asked w) (w_log w).

Definition set_tee (t : option Tee) (w : Worker) : Worker :=
  mkWorker (w_conf w) (w_tracker w) (w_dedup w) (w_reassem w) t (w_headerSeqNum w) (w_egressSeq w)
    (w_rebucketer w) (w_warnedRebucket w) (w_curSource w) (w_asked w) (w_log w).

Definition set_headerSeqNum (n : Z) (w : Worker) : Worker :=
  mkWorker (w_conf w) (w_tracker w) (w_dedup w) (w_reassem w) (w_tee w) n (w_egressSeq w)
    (w_rebucketer w) (w_warnedRebucket w) (w_curSource w) (w_asked w) (w_log w).

Definition set_egressSeq (m : gmap Z Z) (w : Worker) : Worker :=
  mkWorker (w_conf w) (w_tracker w) (w_dedup w) (w_reassem w) (w_tee w) (w_headerSeqNum w) m
    (w_rebucketer w) (w_warnedRebucket w) (w_curSource w) (w_asked w) (w_log w).

Definition set_rebucket (r : option Rebucketer) (warned : bool) (w : Worker) : Worker :=
  mkWorker (w_conf w) (w_tracker w) (w_dedup w) (w_reassem w) (w_tee w) (w_headerSeqNum w) (w_egressSeq w)
    r warned (w_curSource w) (w_asked w) (w_log w).

Definition set_curSource (src : option bytes) (w : Worker) : Worker :=
  mkWorker (w_conf w) (w_tracker w) (w_dedup w) (w_reassem w) (w_tee w) (w_headerSeqNum w) (w_egressSeq w)
    (w_rebucketer w) (w_warnedRebucket w) src (w_asked w) (w_log w).

Definition set_asked (n : nat) (w : Worker) : Worker :=
  mkWorker (w_conf w) (w_tracker w) (w_dedup w) (w_reassem w) (w_tee w) (w_headerSeqNum w) (w_egressSeq w)
    (w_rebucketer w) (w_warnedRebucket w) (w_curSource w) n (w_log w).

Definition add_log (evs : list WEvent) (w : Worker) : Worker :=
  mkWorker (w_conf w) (w_tracker w) (w_dedup w) (w_reassem w) (w_tee w) (w_headerSeqNum w) (w_egressSeq w)
    (w_rebucketer w) (w_warnedRebucket w) (w_curSource w) (w_asked w) (w_log w ++ evs).

(** The emitter identity; its SeqNum counter restarts. *)
Definition SetHeaderEmitterIdentity (hashKey : Z) (w : Worker) : Worker :=
  let c := w_conf w in
  let c := mkConf (c_id c) (c_rec c) (c_engine c) (c_filt c) (c_verifyPayloadHash c) (c_senderACL c) (c_txDedup c)
    (c_mcastEgr c) (c_bundleAware c) (c_headerEgr c) (c_headerMCastEgr c) (c_headerFanout c) hashKey
    (c_beefEngine c) (c_beefTopics c) (c_beefVersions c) (c_beefVerifyContent c) (c_requireBlockPoW c)
    (c_powFloor c) (c_relay c) in
  mkWorker c (w_tracker w) (w_dedup w) (w_reassem w) (w_tee w) 0 (w_egressSeq w)
    (w_rebucketer w) (w_warnedRebucket w) (w_curSource w) (w_asked w) (w_log w).

Variable oracle : nat -> Answer.

(** The next answer of the outside. *)
Definition ask : M Answer := fun w => (oracle (w_asked w), set_asked (S (w_asked w)) w).

Definition emit (ev : WEvent) : M unit := modify (add_log [ev]).

(** A counter, bumped only with a recorder. *)
Definition metric (ev : WEvent) : M unit := modify (fun w => add_log (if c_rec (w_conf w) then [ev] else []) w).

Definition when (b : bool) (m : M unit) : M unit := if b then m else mret tt.

Fixpoint for_each {A} (f : A -> M unit) (l : list A) : M unit :=
  match l with [] => mret tt | x :: l => f x ;; for_each f l end.

(** ** Shared steps *)

(** A non-nil tracker observes a stamped frame. *)
Definition observe_as (owner groupIdx : Z) (subtreeID : bytes) (hashKey seqNum : Z) (txid : bytes) : M unit :=
  t ← gets w_tracker;
  match t with
  | Some t =>
      if seqNum =? 0 then mret tt else
      a ← ask;
      modify (fun w => set_tracker
        (Some (Tracker.ObserveFrom (an_env a) owner groupIdx subtreeID hashKey seqNum txid (w_curSource w) t)) w)
  | None => mret tt
  end.

(** [ObserveFrom] with the worker's own index. *)
Definition observe (groupIdx : Z) (subtreeID : bytes) (hashKey seqNum : Z) (txid : bytes) : M unit :=
  c ← gets w_conf;
  observe_as (c_id c) groupIdx subtreeID hashKey seqNum txid.

(** A send on the egress sink and its counter. *)
Definition egr_send (ev : WEvent) : M unit :=
  emit ev ;;
  a ← ask;
  metric (if an_sent a then FrameForwarded else EgressError).

(** A send on the multicast egress, when there is one. *)
Definition mcast_send (ev : WEvent) : M unit :=
  c ← gets w_conf;
  when (c_mcastEgr c) (emit ev ;; a ← ask; metric (if an_sent a then MCForwarded else MCEgressError)).

(** The courtesy mark of the ingress set. *)
Definition mark (key : bytes) : M unit :=
  c ← gets w_conf;
  when (match c_txDedup c with Some ingress => ingress | None => false end) (emit (WMark key)).

(** The cross-listener claim; the answer is whether the claim was lost.  An
    error fails open. *)
Definition claim_lost (key : bytes) : M bool :=
  c ← gets w_conf;
  if negb (is_set (c_txDedup c)) then mret false else
  a ← ask;
  emit (WClaim key (an_claim a)) ;;
  match an_claim a with
  | ClaimError => metric TxDedupError ;; mret false
  | ClaimWon => mret false
  | ClaimLost => metric FrameTxDeduped ;; mret true
  end.

(** The local duplicate set; the answer is whether the key was seen. *)
Definition seen (key : Key) : M bool :=
  s ← gets w_dedup;
  match s with
  | None => mret false
  | Some s =>
      a ← ask;
      let '(dup, s) := SeenAndAdd (an_now a) key s in
      modify (set_dedup (Some s)) ;;
      when dup (metric FrameDeduped) ;;
      mret dup
  end.

(** The shard and subtree filter; a refusal is counted. *)
Definition allowed (groupIdx : Z) (subtreeID : bytes) : M bool :=
  c ← gets w_conf;
  a ← ask;
  let '(ok, reason) := Filter.Allow (an_seen a) (c_filt c) groupIdx subtreeID in
  when (negb ok) (metric (FrameDropped reason)) ;;
  mret ok.

Definition payloadTxID (p : bytes) : option bytes :=
  match TxSize p with
  | Some sz => if sz =? Z.of_nat (length p) then TxID p else None
  | None => None
  end.

(** ** Block control frames *)

Definition blockFlowIdx (msgType : Z) : Z :=
  if msgType =? BlockMsgCoinbase then GroupCoinbaseFlow else GroupBlockBroadcast.

(** The verdict of the gate and the reason it counts. *)
Definition block_gate (c : Conf) (msgType : Z) (payload : bytes) : bool * string :=
  if negb (c_requireBlockPoW c) then (true, ""%string)
  else if msgType =? BlockMsgAnnounce then
    if (length payload <? powHeaderSize)%nat || negb (CheckHeader (take powHeaderSize payload) (c_powFloor c))
    then (false, "block_pow"%string) else (true, ""%string)
  else if msgType =? BlockMsgCoinbase then (false, "coinbase_legacy"%string)
  else (true, ""%string).

Definition blockGateAllows (bf : BlockFrame) (payload : bytes) : M bool :=
  c ← gets w_conf;
  let '(ok, reason) := block_gate c (bf_MsgType bf) payload in
  when (negb ok) (metric (FrameDropped reason)) ;;
  mret ok.

(** The part of [emitBlockHeader] that hands an encoded header to the lanes. *)
Definition header_lanes (buf : bytes) : M unit :=
  c ← gets w_conf;
  when (c_headerEgr c)
    (emit (WHeader buf) ;; a ← ask; metric (if an_sent a then HeaderForwarded else HeaderEgressError)) ;;
  when (c_headerMCastEgr c)
    (emit (WHeaderMcast buf (u16 GroupBlockHeader)) ;;
     a ← ask; metric (if an_sent a then HeaderForwarded else HeaderEgressError)) ;;
  match c_headerFanout c with
  | None => mret tt
  | Some counts =>
      match DecodeBlockHeader buf with
      | None => mret tt
      | Some hf =>
          emit (WHeaderFanout buf hf) ;;
          a ← ask;
          when (negb (an_sent a)) (metric HeaderEgressError) ;;
          let delivered := if (counts : bool) then an_count a else if an_sent a then 1%nat else 0%nat in
          for_each (fun _ => metric HeaderForwarded) (repeat tt delivered)
      end
  end.

Definition emitBlockHeader (bf : BlockFrame) : M unit :=
  if negb (bf_MsgType bf =? BlockMsgAnnounce) then mret tt else
  if (length (bf_Payload bf) <? BlockHeaderSize)%nat then mret tt else
  seqNum ← gets (fun w => u64 (w_headerSeqNum w + 1));
  modify (set_headerSeqNum seqNum) ;;
  c ← gets w_conf;
  match EncodeBlockHeader (bf_ContentID bf) (c_headerHashKey c) seqNum
          (take BlockHeaderSize (bf_Payload bf)) (zeros BlockHeaderFrameSize) with
  | None => mret tt
  | Some (_, buf) => header_lanes buf
  end.

(** Egress, header lanes and gap tracking of an admitted block frame. *)
Definition forward_block (raw : bytes) (bf : BlockFrame) : M unit :=
  egr_send (WSendBlock raw bf) ;;
  c ← gets w_conf;
  when (c_headerEgr c || c_headerMCastEgr c || is_set (c_headerFanout c)) (emitBlockHeader bf) ;;
  observe (blockFlowIdx (bf_MsgType bf)) (zeros 32) (bf_HashKey bf) (bf_SeqNum bf) (bf_ContentID bf).

Definition processBlockFrame (raw : bytes) : M bool :=
  match DecodeBlock raw with
  | None => metric (FrameDropped "decode_error") ;; mret false
  | Some bf =>
      metric (FrameReceived "brc131") ;;
      ok ← blockGateAllows bf (bf_Payload bf);
      if negb ok then mret false else
      forward_block raw bf ;; mret true
  end.

Definition DeliverReassembledBlock (payload : bytes) (bf : BlockFrame) : M unit :=
  metric ReassemblyCompleted ;;
  match EncodeBlock bf (zeros (HeaderSize + length payload)) with
  | None => mret tt
  | Some (_, raw) =>
      metric (FrameReceived "brc131_reassembled") ;;
      ok ← blockGateAllows bf payload;
      if negb ok then mret tt else forward_block raw bf
  end.

(** ** Subtree data frames *)

Definition forward_subtree (raw : bytes) (sf : SubtreeDataFrame) : M unit :=
  egr_send (WSendSubtree raw sf) ;;
  observe GroupSubtreeDataAnnounce (sf_SubtreeID sf) (sf_HashKey sf) (sf_SeqNum sf) (sf_SubtreeID sf).

Definition processSubtreeDataFrame (raw : bytes) : M unit :=
  match DecodeSubtreeData raw with
  | None => metric (FrameDropped "decode_error")
  | Some sf => metric (FrameReceived "brc132") ;; forward_subtree raw sf
  end.

Definition DeliverReassembledSubtreeData (payload : bytes) (sf : SubtreeDataFrame) : M unit :=
  metric ReassemblyCompleted ;;
  match EncodeSubtreeData sf (zeros (HeaderSize + length payload)) with
  | None => mret tt
  | Some (_, raw) => metric (FrameReceived "brc132_reassembled") ;; forward_subtree raw sf
  end.

(** ** Anchor frames *)

Definition processAnchorFrame (raw : bytes) : M unit :=
  match DecodeAnchor raw with
  | None => metric (FrameDropped "decode_error")
  | Some f =>
      metric (FrameReceived "brc134") ;;
      mark (f_TxID f) ;;
      lost ← claim_lost (f_TxID f);
      (if (lost : bool) then mret tt else egr_send (WSend raw f)) ;;
      observe anchorGroupIdx (zeros 32) (f_HashKey f) (f_SeqNum f) (f_TxID f)
  end.

(** ** BEEF objects *)

Definition beefPairKey (contentID topicID : bytes) : bytes := Sum256 (contentID ++ topicID).

(** The worker-level topic election and version filter: the reason of a
    refusal. *)
Definition beef_refused (c : Conf) (bf : BEEFFrame) : option string :=
  if negb (bool_decide (c_beefTopics c = ∅)) &&
     negb (existsb (fun id => bool_decide (id ∈ c_beefTopics c)) (BEEFDeliverableTopicIDs bf))
  then Some "topic_filter"%string
  else if negb (bool_decide (c_beefVersions c = ∅)) then
    let object := match SplitBEEFPayload (be_Payload bf) with Some o => o | None => be_Payload bf end in
    match BEEFVersionWord object with
    | None => Some "beef_version_filter"%string
    | Some word => if bool_decide (word ∈ c_beefVersions c) then None else Some "beef_version_filter"%string
    end
  else None.

Definition deliverBeef (raw : bytes) (bf : BEEFFrame) : M unit :=
  c ← gets w_conf;
  match c_beefEngine c with
  | None => metric (FrameDropped "beef_disabled")
  | Some groupIndex =>
      metric (FrameReceived "brc148") ;;
      mark (beefPairKey (be_ContentID bf) (be_TopicID bf)) ;;
      if c_beefVerifyContent c && negb (bool_decide (Sum256 (Sum256 (be_Payload bf)) = be_ContentID bf))
      then metric FrameInvalidPayload else
      let groupIdx := groupIndex (be_TopicID bf) in
      match beef_refused c bf with
      | Some reason => metric (FrameDropped reason)
      | None =>
          let obs := observe_as ownerUnknown groupIdx (zeros 32) (be_HashKey bf) (be_SeqNum bf) (be_ContentID bf) in
          lost ← claim_lost (beefPairKey (be_ContentID bf) (be_TopicID bf));
          if (lost : bool) then obs else
          dup ← (if be_SeqNum bf =? 0 then mret false
                 else seen (mkKey groupIdx (be_TopicID bf) (be_SeqNum bf)));
          if (dup : bool) then obs else
          egr_send (WSendBeef raw bf) ;; obs
      end
  end.

Definition processBeefFrame (raw : bytes) : M unit :=
  match DecodeBEEF raw with
  | None => metric (FrameDropped "decode_error")
  | Some bf => deliverBeef raw bf
  end.

Definition DeliverReassembledBeefFrame (buf : bytes) (bf : BEEFFrame) : M unit :=
  match EncodeBEEF bf buf with
  | None => metric (FrameDropped "beef_reencode_error")
  | Some (n, out) => metric ReassemblyCompleted ;; deliverBeef (take n out) bf
  end.

Definition DeliverReassembledBeef (bf : BEEFFrame) : M unit :=
  DeliverReassembledBeefFrame (zeros (HeaderSize + length (be_Payload bf))) bf.

(** ** Reassembled transactions *)

Definition DeliverReassembled (payload : bytes) (f : Frame) : M unit :=
  c ← gets w_conf;
  let groupIdx := en_GroupIndex (c_engine c) (f_TxID f) in
  let obs := observe groupIdx (f_SubtreeID f) (f_HashKey f) (f_SeqNum f) (f_TxID f) in
  metric ReassemblyCompleted ;;
  ok ← allowed groupIdx (f_SubtreeID f);
  if negb ok then mret tt else
  metric (FrameReceived "brc130") ;;
  lost ← claim_lost (f_TxID f);
  if (lost : bool) then obs else
  match EncodeFrame f (zeros (HeaderSize + length payload)) with
  | None => mret tt
  | Some (_, raw) =>
      egr_send (WSend raw f) ;;
      mcast_send (WMcast raw f groupIdx) ;;
      obs
  end.

(** ** Fragments *)

Definition fragGroupIdx (c : Conf) (ff : FragFrame) : Z :=
  if (ff_OrigFrameVer ff =? FrameVerV4) || (ff_OrigFrameVer ff =? FrameVerV6) then GroupBlockBroadcast
  else if ff_OrigFrameVer ff =? FrameVerV5 then GroupSubtreeDataAnnounce
  else if ff_OrigFrameVer ff =? FrameVerV9 then
    match c_beefEngine c with Some groupIndex => groupIndex (ff_SubtreeID ff) | None => 0x1000 end
  else en_GroupIndex (c_engine c) (ff_TxID ff).

(** The recovery hooks the worker's wiring gives its buffer: without a tracker
    nothing is asked for and nothing is pending. *)
Definition worker_hooks (env : Env) (owner : Z) : RepairHooks (option Tracker) :=
  mkRepairHooks (option Tracker)
    (fun hk g sid missing st => t ← st; Some (RequestGapsFrom env owner hk g sid missing t))
    (fun hk missing st => match st with Some t => Pending t hk missing | None => false end).

(** What the buffer's completion callbacks do; the other hooks only count. *)
Definition on_event (ev : REvent) : M unit :=
  match ev with
  | EvTx payload txID subtreeID hashKey seqNum =>
      DeliverReassembled payload (mkFrame FrameVerV2 txID hashKey seqNum subtreeID payload)
  | EvBlock payload contentID hashKey seqNum msgType =>
      DeliverReassembledBlock payload (mkBlockFrame msgType contentID hashKey seqNum payload)
  | EvSubtree payload subtreeID hashKey seqNum msgType =>
      DeliverReassembledSubtreeData payload (mkSubtreeDataFrame msgType subtreeID hashKey seqNum payload)
  | EvBEEFFrame whole payload contentID topicID hashKey seqNum deliverCount =>
      DeliverReassembledBeefFrame whole (mkBEEFFrame contentID topicID hashKey seqNum deliverCount payload)
  | EvBEEF payload contentID topicID hashKey seqNum deliverCount =>
      DeliverReassembledBeef (mkBEEFFrame contentID topicID hashKey seqNum deliverCount payload)
  | _ => emit (ReassemblyEvent ev)
  end.

(** [reassemBuf.Observe]: the sweep's requests go to the tracker first, then the
    fragment's completion runs its callback. *)
Definition observeFragment (b : Buffer) (ff : FragFrame) : M unit :=
  c ← gets w_conf;
  t ← gets w_tracker;
  a ← ask;
  let groupIdxFn := if is_set t then Some (fragGroupIdx c) else None in
  let '(b, t, evs) :=
    @Reassembly.Observe _ (option Tracker) (worker_hooks (an_env a) (c_id c)) groupIdxFn
      (an_now a) (an_later a) ff b t in
  modify (fun w => set_tracker t (set_reassem (Some b) w)) ;;
  for_each on_event evs.

Definition processFragment (raw : bytes) : M unit :=
  b ← gets w_reassem;
  match b with
  | None => metric (FrameDropped "no_reassembly_buffer")
  | Some b =>
      match DecodeFragment raw with
      | None => metric (FrameDropped "frag_decode_error")
      | Some ff =>
          observeFragment b ff ;;
          c ← gets w_conf;
          let sub := if ff_OrigFrameVer ff =? FrameVerV9 then zeros 32 else ff_SubtreeID ff in
          observe (fragGroupIdx c ff) sub (ff_HashKey ff) (ff_SeqNum ff) (ff_TxID ff)
      end
  end.

(** ** Bundles *)

(** One decoalesced member: a fresh SeqNum of the bundle's flow, then egress. *)
Definition send_member (b : Bundle) (mf : Frame) : M unit :=
  c ← gets w_conf;
  seqs ← gets w_egressSeq;
  let n := u64 (default 0 (seqs !! bu_HashKey b) + 1) in
  modify (set_egressSeq (<[bu_HashKey b := n]> seqs)) ;;
  let mf := mkFrame (f_Version mf) (f_TxID mf) (f_HashKey mf) n (f_SubtreeID mf) (f_Payload mf) in
  match EncodeFrame mf (zeros (HeaderSize + length (f_Payload mf))) with
  | None => metric EgressError
  | Some (len, buf) =>
      when (negb (c_bundleAware c)) (egr_send (WSend (take len buf) mf)) ;;
      mcast_send (WMcast (take len buf) mf (bu_GroupIdx b))
  end.

(** The whole bundle to a bundle-aware sink; a re-bucketed child is encoded. *)
Definition send_whole (b : Bundle) (raw : option bytes) : M unit :=
  match raw with
  | Some raw => egr_send (WSendBundle raw b)
  | None =>
      match EncodeBundle b with
      | None => metric EgressError
      | Some raw => egr_send (WSendBundle raw b)
      end
  end.

Definition deliverBundle (b : Bundle) (raw : option bytes) (track : bool) : M unit :=
  ok ← allowed (bu_GroupIdx b) (bu_SubtreeID b);
  if negb ok then mret tt else
  let obs := when track
    (observe (bu_GroupIdx b) (bu_SubtreeID b) (bu_HashKey b) (bu_SeqNum b) (zeros 32)) in
  lost ← (if bu_SeqNum b =? 0 then mret false
          else claim_lost (be_put 8 (bu_HashKey b) ++ be_put 8 (bu_SeqNum b) ++ zeros 16));
  if (lost : bool) then obs else
  dup ← (if bu_SeqNum b =? 0 then mret false
         else seen (mkKey (bu_GroupIdx b) (bu_SubtreeID b) (bu_SeqNum b)));
  if (dup : bool) then obs else
  obs ;;
  c ← gets w_conf;
  when (c_bundleAware c) (send_whole b raw) ;;
  when (negb (c_bundleAware c) || c_mcastEgr c) (for_each (send_member b) (Decoalesce b)).

Definition processBundle (raw : bytes) : M unit :=
  match DecodeBundle raw with
  | None => metric (FrameDropped "bundle_decode_error")
  | Some b =>
      metric (FrameReceived "brc142") ;;
      c ← gets w_conf;
      if negb (bu_ShardBits b =? 0) && negb (bu_ShardBits b =? en_ShardBits (c_engine c)) then
        r ← gets w_rebucketer;
        let r := match r with Some r => r | None => NewRebucketer (c_engine c) rebucketMaxBytes 0 true end in
        let '(children, r) := Rebucket r (be_put 8 (bu_HashKey b) ++ zeros 8) b in
        warned ← gets w_warnedRebucket;
        modify (set_rebucket (Some r) (warned || negb (c_relay c))) ;;
        metric BundleRebucketed ;;
        when (negb (c_relay c)) (metric RebucketUnguarded) ;;
        for_each (fun child => deliverBundle child None false) children ;;
        observe (bu_GroupIdx b) (bu_SubtreeID b) (bu_HashKey b) (bu_SeqNum b) (zeros 32)
      else deliverBundle b (Some raw) true
  end.

(** ** Transactions *)

(** The optional payload check of a V2 frame: the event of a refusal. *)
Definition payload_refused (c : Conf) (f : Frame) : option WEvent :=
  if c_verifyPayloadHash c && (f_Version f =? FrameVerV2) then
    match payloadTxID (f_Payload f) with
    | None => Some (FrameDropped "payload_not_one_tx")
    | Some computed => if bool_decide (computed = f_TxID f) then None else Some FrameInvalidPayload
    end
  else None.

Definition processTx (raw : bytes) (f : Frame) : M unit :=
  let v2 := f_Version f =? FrameVerV2 in
  metric (FrameReceived (if v2 then "brc124" else "brc12")) ;;
  when v2 (mark (f_TxID f)) ;;
  c ← gets w_conf;
  match payload_refused c f with
  | Some ev => metric ev
  | None =>
      let groupIdx := en_GroupIndex (c_engine c) (f_TxID f) in
      ok ← allowed groupIdx (f_SubtreeID f);
      if negb ok then mret tt else
      let obs := observe groupIdx (f_SubtreeID f) (f_HashKey f) (f_SeqNum f) (f_TxID f) in
      lost ← (if v2 then claim_lost (f_TxID f) else mret false);
      if (lost : bool) then obs else
      dup ← (if v2 && negb (f_SeqNum f =? 0)
             then seen (mkKey groupIdx (f_SubtreeID f) (f_SeqNum f)) else mret false);
      if (dup : bool) then obs else
      egr_send (WSend raw f) ;;
      mcast_send (WMcast raw f groupIdx) ;;
      when v2 obs
  end.

(** ** Dispatch *)

Definition processFrame (raw : bytes) : M bool :=
  if IsBlockFrame raw then processBlockFrame raw else
  if IsSubtreeDataFrame raw then processSubtreeDataFrame raw ;; mret true else
  if IsAnchorFrame raw then processAnchorFrame raw ;; mret true else
  if IsFragment raw then processFragment raw ;; mret true else
  if IsBundle raw then processBundle raw ;; mret true else
  if IsBEEFFrame raw then processBeefFrame raw ;; mret true else
  match DecodeFrame raw with
  | None => metric (FrameDropped "decode_error") ;; mret true
  | Some f => processTx raw f ;; mret true
  end.

Definition teeToRetry (raw : bytes) (from : Sockaddr) : M unit :=
  match from with
  | SockaddrInet6 addr port =>
      t ← gets w_tee;
      match t with
      | Some t => when (teeEligible raw) (modify (set_tee (Some (mirror (AppendEncap addr port raw) t))))
      | None => mret tt
      end
  | SockaddrOther => mret tt
  end.

Definition handleDatagram (raw : bytes) (from : Sockaddr) (tee : bool) : M unit :=
  c ← gets w_conf;
  t ← gets w_tracker;
  let src := if is_set (c_senderACL c) || is_set t then sockaddrIP from else None in
  if is_set (c_senderACL c) && negb (AllowSender (c_senderACL c) (default [] src))
  then metric (FrameDropped "sender_filter") else
  when tee (teeToRetry raw from) ;;
  modify (set_curSource src) ;;
  processFrame raw ;; mret tt.

Definition Reinject (raw : bytes) : M bool :=
  modify (set_curSource None) ;;
  processFrame raw.

End Worker.
