(* ===== verification/ListenerInv.v ===== *)
(** * The receive worker: a logic for its event log

    A unary program logic for the worker monad.  [emits c P m Q] says that [m],
    run by a worker configured as [c], keeps the configuration, appends only
    events satisfying [P] and returns a value satisfying [Q]. *)

From S2P Require Import Prelude Discovery Tracker TrackerRepair Dedup SubtreeGroup Filter Reassembly ReassemblyRepair RetryTee Listener.

Section Logic.
Context `{FrameLib} `{TeeLib} `{WireLib}.
Context (oracle : nat -> Answer).

Definition emits {A} (c : Conf) (P : WEvent -> Prop) (m : M A) (Q : A -> Prop) : Prop :=
  forall w, w_conf w = c ->
    w_conf (m w).2 = c /\ Q (m w).1 /\ exists evs, w_log (m w).2 = w_log w ++ evs /\ Forall P evs.

Section Rules.
Context (c : Conf) (P : WEvent -> Prop).

(** ** Structural rules *)

Lemma emits_ret {A} (a : A) (Q : A -> Prop) : Q a -> emits c P (mret a) Q.
Proof. intros HQ w Hw. split; [done|]. split; [done|]. exists []. by rewrite app_nil_r. Qed.

Lemma emits_bind {A B} (m : M A) (k : A -> M B) (Q : A -> Prop) (R : B -> Prop) :
  emits c P m Q -> (forall a, Q a -> emits c P (k a) R) -> emits c P (mbind k m) R.
Proof.
  intros Hm Hk w Hw. destruct (Hm w Hw) as (Hc & HQ & evs & Hl & HP). unfold mbind, M_bind.
  destruct (m w) as [a w1] eqn:E. cbn [fst snd] in *.
  destruct (Hk a HQ w1 Hc) as (Hc' & HR & evs' & Hl' & HP'). split; [done|]. split; [done|].
  exists (evs ++ evs'). rewrite Hl', Hl, app_assoc. split; [done|]. by apply Forall_app.
Qed.

Lemma emits_weaken {A} (m : M A) (Q R : A -> Prop) :
  emits c P m Q -> (forall a, Q a -> R a) -> emits c P m R.
Proof. intros Hm Hi w Hw. destruct (Hm w Hw) as (? & ? & ?). auto. Qed.

Lemma emits_gets {A} (f : Worker -> A) (Q : A -> Prop) :
  (forall w, w_conf w = c -> Q (f w)) -> emits c P (gets f) Q.
Proof. intros HQ w Hw. split; [done|]. split; [by apply HQ|]. exists []. by rewrite app_nil_r. Qed.

Lemma emits_conf : emits c P (gets w_conf) (fun c' => c' = c).
Proof. by apply emits_gets. Qed.

Lemma emits_any {A} (f : Worker -> A) : emits c P (gets f) (fun _ => True).
Proof. by apply emits_gets. Qed.

Lemma emits_ask : emits c P (ask oracle) (fun _ => True).
Proof. intros w Hw. split; [done|]. split; [done|]. exists []. by rewrite app_nil_r. Qed.

(** A change of the worker that touches neither its configuration nor its log. *)
Lemma emits_modify (f : Worker -> Worker) :
  (forall w, w_conf (f w) = w_conf w) -> (forall w, w_log (f w) = w_log w) ->
  emits c P (modify f) (fun _ => True).
Proof.
  intros Hf Hl w Hw. cbn. split; [by rewrite Hf|]. split; [done|]. exists []. by rewrite Hl, app_nil_r.
Qed.

Lemma emits_emit ev : P ev -> emits c P (emit ev) (fun _ => True).
Proof. intros HP w Hw. split; [done|]. split; [done|]. exists [ev]. by split; [|repeat constructor]. Qed.

Lemma emits_metric ev : P ev -> emits c P (metric ev) (fun _ => True).
Proof.
  intros HP w Hw. split; [done|]. split; [done|]. cbn. eexists. split; [done|].
  case_test; by repeat constructor.
Qed.

Lemma emits_when b m :
  (b = true -> emits c P m (fun _ => True)) -> emits c P (when b m) (fun _ => True).
Proof. destruct b; cbn; [auto|]. intros _. by apply emits_ret. Qed.

Lemma emits_for_each {A} (f : A -> M unit) l :
  (forall x, x ∈ l -> emits c P (f x) (fun _ => True)) -> emits c P (for_each f l) (fun _ => True).
Proof.
  induction l as [|x l IH]; intros Hf; [by apply emits_ret|]. cbn [for_each].
  eapply emits_bind; [apply Hf; left|]. intros _ _. apply IH. intros y Hy. apply Hf. by right.
Qed.

End Rules.
End Logic.

Create HintDb emits.
#[export] Hint Resolve emits_conf emits_any emits_ask emits_emit emits_metric : emits.

(** Walks through the code: sequencing first, then the branch at hand. *)
Ltac emits_bind_step :=
  lazymatch goal with
  | |- emits _ _ (mbind _ (gets w_conf)) _ =>
      eapply emits_bind; [apply emits_conf|cbn beta; intros ? ->]
  | |- emits _ _ (mbind _ _) _ =>
      apply (emits_bind _ _ _ _ (fun _ => True)); [|cbn beta; intros ? _]
  end.

Ltac emits_leaf :=
  lazymatch goal with
  | |- emits _ _ (mret _) _ => apply emits_ret
  | |- emits _ _ (gets _) _ => apply emits_any
  | |- emits _ _ (ask _) _ => apply emits_ask
  | |- emits _ _ (emit _) _ => apply emits_emit
  | |- emits _ _ (metric _) _ => apply emits_metric
  | |- emits _ _ (modify _) _ => apply emits_modify; intros ?; reflexivity
  | |- emits _ _ (when _ _) _ => apply emits_when; intros ?
  | |- emits _ _ (for_each _ _) _ => apply emits_for_each; intros ? ?
  | |- emits _ _ (if ?b then _ else _) _ => destruct b eqn:?
  | |- emits _ _ (match ?x with _ => _ end) _ => destruct x eqn:?
  end.

Ltac emits_auto := repeat first [emits_bind_step | emits_leaf | progress (eauto with emits)].

(** ** The shared steps *)

Section Steps.
Context `{FrameLib} `{TeeLib} `{WireLib}.
Context (oracle : nat -> Answer) (c : Conf) (P : WEvent -> Prop).

(** Events that are no sends: claims, marks, counters. *)
Definition is_send (ev : WEvent) : bool :=
  match ev with
  | WSend _ _ | WMcast _ _ _ | WSendBlock _ _ | WSendSubtree _ _ | WSendBeef _ _ | WSendBundle _ _
  | WHeader _ | WHeaderMcast _ _ | WHeaderFanout _ _ => true
  | _ => false
  end.

Hypothesis Hcount : forall ev, is_send ev = false -> P ev.

Lemma emits_observe_as owner g sid hk seq txid :
  emits c P (observe_as oracle owner g sid hk seq txid) (fun _ => True).
Proof. unfold observe_as. emits_auto; done. Qed.

Lemma emits_observe g sid hk seq txid : emits c P (observe oracle g sid hk seq txid) (fun _ => True).
Proof. unfold observe. emits_bind_step. apply emits_observe_as. Qed.

Lemma emits_egr_send ev : P ev -> emits c P (egr_send oracle ev) (fun _ => True).
Proof. intros Hev. unfold egr_send. emits_auto; auto. apply Hcount. by case_test. Qed.

Lemma emits_mcast_send ev : (c_mcastEgr c = true -> P ev) -> emits c P (mcast_send oracle ev) (fun _ => True).
Proof. intros Hev. unfold mcast_send. emits_auto; auto. apply Hcount. by case_test. Qed.

Lemma emits_mark key : emits c P (mark key) (fun _ => True).
Proof. unfold mark. emits_auto; auto. Qed.

Lemma emits_claim key : emits c P (claim_lost oracle key) (fun _ => True).
Proof. unfold claim_lost. emits_auto; auto. Qed.

Lemma emits_seen key : emits c P (seen oracle key) (fun _ => True).
Proof. unfold seen. emits_auto; auto. Qed.

(** The filter's answer is right for some reading of the clock. *)
Definition admits (g : Z) (sid : bytes) : Prop := exists now, fst (Filter.Allow now (c_filt c) g sid) = true.

Lemma emits_allowed g sid : emits c P (allowed oracle g sid) (fun ok => ok = true -> admits g sid).
Proof.
  unfold allowed. emits_bind_step. eapply emits_bind; [apply emits_ask|]. intros a _. cbn beta.
  destruct (Filter.Allow (an_seen a) (c_filt c) g sid) as [ok reason] eqn:E.
  eapply emits_bind; [emits_auto; auto|]. intros _ _. apply emits_ret. intros ->. exists (an_seen a). by rewrite E.
Qed.

Lemma emits_gate bf payload :
  emits c P (blockGateAllows bf payload) (fun ok => ok = fst (block_gate c (bf_MsgType bf) payload)).
Proof.
  unfold blockGateAllows. emits_bind_step. destruct (block_gate c (bf_MsgType bf) payload) as [ok reason].
  eapply emits_bind; [emits_auto; auto|]. intros _ _. by apply emits_ret.
Qed.

End Steps.

(** ** Running the shared steps

    What each step does to the worker, up to its counters and to the number of
    questions it asks. *)

Section Run.
Context `{FrameLib} `{TeeLib} `{WireLib}.
Context (oracle : nat -> Answer).

(** The sends among some events, and events without any. *)
Definition sends (evs : list WEvent) : list WEvent := List.filter is_send evs.

Definition quiet (evs : list WEvent) : Prop := sends evs = [].

Lemma sends_app evs evs' : sends (evs ++ evs') = sends evs ++ sends evs'.
Proof. apply List.filter_app. Qed.

Lemma sends_cons ev evs : is_send ev = true -> sends (ev :: evs) = ev :: sends evs.
Proof. intros He. unfold sends. cbn. by rewrite He. Qed.

Lemma quiet_app evs evs' : quiet evs -> quiet evs' -> quiet (evs ++ evs').
Proof. unfold quiet. rewrite sends_app. by intros -> ->. Qed.

Lemma quiet_counter (b : bool) ev : is_send ev = false -> quiet (if b then [ev] else []).
Proof. intros He. unfold quiet. destruct b; cbn; [by rewrite He|done]. Qed.

Lemma quiet_one ev : is_send ev = false -> quiet [ev].
Proof. intros He. unfold quiet. cbn. by rewrite He. Qed.

(** The worker after [m], with events [evs] and [n] more questions asked. *)
Definition later (evs : list WEvent) (n : nat) (w : Worker) : Worker := add_log evs (set_asked (n + w_asked w) w).

Lemma later_later evs n evs' n' w : later evs' n' (later evs n w) = later (evs ++ evs') (n' + n) w.
Proof. unfold later, add_log, set_asked. cbn. by rewrite app_assoc, Nat.add_assoc. Qed.

Lemma later_0 w : w = later [] 0 w.
Proof. destruct w. unfold later, add_log, set_asked. cbn. by rewrite app_nil_r. Qed.

Lemma later_conf evs n w : w_conf (later evs n w) = w_conf w.
Proof. done. Qed.

Lemma later_asked evs n w : w_asked (later evs n w) = (n + w_asked w)%nat.
Proof. done. Qed.

Lemma run_bind {A B} (m : M A) (k : A -> M B) w : mbind k m w = k (m w).1 (m w).2.
Proof. unfold mbind, M_bind. by destruct (m w). Qed.

Ltac run_simpl := rewrite ?run_bind; cbn; unfold metric, emit, modify, later, add_log, set_asked, set_tracker, set_dedup; cbn.

Lemma run_metric ev w :
  is_send ev = false -> exists cnt, metric ev w = (tt, later cnt 0 w) /\ quiet cnt.
Proof. intros He. eexists. split; [done|by apply quiet_counter]. Qed.

Lemma run_egr_send ev w :
  exists cnt, egr_send oracle ev w = (tt, later (ev :: cnt) 1 w) /\ quiet cnt.
Proof.
  unfold egr_send. rewrite !run_bind. run_simpl.
  eexists. rewrite <- app_assoc. split; [done|]. apply quiet_counter. by case_test.
Qed.

Lemma run_mcast_send ev w :
  exists cnt n, mcast_send oracle ev w = (tt, later ((if c_mcastEgr (w_conf w) then [ev] else []) ++ cnt) n w) /\ quiet cnt.
Proof.
  unfold mcast_send. rewrite run_bind. cbn [gets fst snd]. destruct (c_mcastEgr (w_conf w)); cbn [when].
  - rewrite !run_bind. run_simpl. eexists _, 1%nat. rewrite <- app_assoc.
    split; [done|]. apply quiet_counter. by case_test.
  - exists [], 0%nat. split; [|done]. cbn [app]. by rewrite <- later_0.
Qed.

Lemma run_mark key w : exists cnt, mark key w = (tt, later cnt 0 w) /\ quiet cnt.
Proof.
  unfold mark. rewrite run_bind. cbn [gets fst snd].
  match goal with |- context [when ?b _] => destruct b end; cbn [when].
  - eexists. split; [done|]. by apply quiet_one.
  - exists []. split; [|done]. by rewrite <- later_0.
Qed.

(** A claim is lost only when there is a store and it says so: an error fails
    open. *)
Definition lost_claim (c : Conf) (a : Answer) : bool :=
  is_set (c_txDedup c) && match an_claim a with ClaimLost => true | _ => false end.

Lemma run_claim key w :
  exists lost cnt n, claim_lost oracle key w = (lost, later cnt n w) /\ quiet cnt /\
    lost = lost_claim (w_conf w) (oracle (w_asked w)).
Proof.
  unfold claim_lost, lost_claim. rewrite run_bind. cbn [gets fst snd]. destruct (c_txDedup (w_conf w)) as [ing|]; cbn [is_set negb].
  - rewrite !run_bind. cbn [ask fst snd]. destruct (an_claim (oracle (w_asked w))); run_simpl;
      eexists _, _, 1%nat; rewrite <- ?app_assoc; (split; [done|]); (split; [|done]).
    + by apply quiet_one.
    + apply (quiet_app [_]); [by apply quiet_one|by apply quiet_counter].
    + apply (quiet_app [_]); [by apply quiet_one|by apply quiet_counter].
  - exists false, [], 0%nat. split; [|done]. cbn. by rewrite <- later_0.
Qed.

(** The duplicate set's answer and its new state, at some reading of the clock. *)
Definition seen_at (now : Z) (key : Key) (s : option DSet) : bool * option DSet :=
  match s with
  | None => (false, None)
  | Some s => let '(dup, s) := SeenAndAdd now key s in (dup, Some s)
  end.

Lemma run_seen key w :
  exists now cnt n, quiet cnt /\
    seen oracle key w = (fst (seen_at now key (w_dedup w)),
                         later cnt n (set_dedup (snd (seen_at now key (w_dedup w))) w)).
Proof.
  unfold seen. rewrite run_bind. cbn [gets fst snd]. destruct (w_dedup w) as [s|] eqn:Hs; cbn [seen_at].
  - rewrite run_bind. cbn [ask fst snd]. exists (an_now (oracle (w_asked w))).
    destruct (SeenAndAdd _ key s) as [dup s']. rewrite !run_bind. cbn [modify fst snd].
    destruct dup; run_simpl.
    + eexists _, 1%nat. split; [|done]. by apply quiet_counter.
    + exists [], 1%nat. split; [done|]. by rewrite app_nil_r.
  - exists 0, [], 0%nat. split; [done|]. cbn. f_equal. destruct w; cbn in *; subst.
    unfold later, add_log, set_asked, set_dedup. cbn. by rewrite app_nil_r.
Qed.

Lemma run_allowed g sid w :
  let a := Filter.Allow (an_seen (oracle (w_asked w))) (c_filt (w_conf w)) g sid in
  exists cnt, allowed oracle g sid w = (fst a, later cnt 1 w) /\ quiet cnt.
Proof.
  unfold allowed. rewrite !run_bind. cbn [gets ask fst snd].
  destruct (Filter.Allow _ _ _ _) as [okb reason]. rewrite !run_bind. cbn [fst]. destruct okb; run_simpl.
  - exists []. split; [|done]. by rewrite app_nil_r.
  - eexists. split; [done|]. by apply quiet_counter.
Qed.

(** A stamped frame is observed exactly once, with the source at hand. *)
Lemma run_observe_as owner g sid hk seq txid w :
  exists n k, observe_as oracle owner g sid hk seq txid w =
    (tt, later [] n (set_tracker
      (t ← w_tracker w;
       if seq =? 0 then Some t
       else Some (ObserveFrom (an_env (oracle k)) owner g sid hk seq txid (w_curSource w) t)) w)).
Proof.
  unfold observe_as. rewrite run_bind. cbn [gets fst snd]. destruct (w_tracker w) as [t|] eqn:Ht.
  - destruct (seq =? 0) eqn:Hs.
    + exists 0%nat, 0%nat. cbn. rewrite ?Hs. f_equal. destruct w; cbn in *; subst.
      unfold later, add_log, set_asked, set_tracker. cbn. by rewrite app_nil_r.
    + exists 1%nat, (w_asked w). rewrite run_bind. cbn. rewrite ?Hs. unfold later, add_log, set_asked, set_tracker. cbn.
      by rewrite app_nil_r.
  - exists 0%nat, 0%nat. cbn. f_equal. destruct w; cbn in *; subst.
    unfold later, add_log, set_asked, set_tracker. cbn. by rewrite app_nil_r.
Qed.

Lemma run_observe g sid hk seq txid w :
  observe oracle g sid hk seq txid w = observe_as oracle (c_id (w_conf w)) g sid hk seq txid w.
Proof. done. Qed.

Lemma run_gate bf payload w :
  exists cnt, blockGateAllows bf payload w =
    (fst (block_gate (w_conf w) (bf_MsgType bf) payload), later cnt 0 w) /\ quiet cnt.
Proof.
  unfold blockGateAllows. rewrite run_bind. cbn [gets fst snd].
  destruct (block_gate _ _ _) as [[|] reason]; rewrite run_bind; cbn.
  - exists []. split; [by rewrite <- later_0|done].
  - eexists. split; [done|]. by apply quiet_counter.
Qed.

End Run.
