(* ===== verification/ListenerEgress.v ===== *)
(** * The receive worker: what may leave it

    Every datagram the worker hands to an egress sink passed the checks of its
    class: the shard and subtree filter, the payload check, the block gate, the
    BEEF election. *)

From S2P Require Import Prelude Discovery Tracker TrackerRepair Dedup SubtreeGroup Filter Reassembly ReassemblyRepair RetryTee Listener ListenerInv.

Section Egress.
Context `{FrameLib} `{TeeLib} `{WireLib}.

(** ** The specification *)

(** A frame with another SeqNum. *)
Definition restamp (n : Z) (f : Frame) : Frame :=
  mkFrame (f_Version f) (f_TxID f) (f_HashKey f) n (f_SubtreeID f) (f_Payload f).

(** The filter lets the frame's shard and subtree through. *)
Definition tx_admitted (c : Conf) (f : Frame) : Prop :=
  admits c (en_GroupIndex (c_engine c) (f_TxID f)) (f_SubtreeID f).

(** A transaction as received, checked and admitted. *)
Definition received_tx (c : Conf) (raw : bytes) (f : Frame) : Prop :=
  DecodeFrame raw = Some f /\ payload_refused c f = None /\ tx_admitted c f.

(** A reassembled transaction, encoded anew and admitted. *)
Definition rebuilt_tx (c : Conf) (raw : bytes) (f : Frame) : Prop :=
  (exists n, EncodeFrame f (zeros (HeaderSize + length (f_Payload f))) = Some (n, raw)) /\ tx_admitted c f.

(** A member of an admitted bundle, under a new SeqNum. *)
Definition member_tx (c : Conf) (raw : bytes) (f : Frame) (g : Z) : Prop :=
  exists b mf seq n buf, mf ∈ Decoalesce b /\ f = restamp seq mf /\
    EncodeFrame f (zeros (HeaderSize + length (f_Payload f))) = Some (n, buf) /\ raw = take n buf /\
    g = bu_GroupIdx b /\ admits c g (bu_SubtreeID b).

(** A block frame the gate lets through. *)
Definition gated (c : Conf) (bf : BlockFrame) : Prop :=
  fst (block_gate c (bf_MsgType bf) (bf_Payload bf)) = true.

(** The header of an announce the gate let through, under this emitter's key. *)
Definition announced_header (c : Conf) (buf : bytes) : Prop :=
  exists bf seq n, bf_MsgType bf = BlockMsgAnnounce /\ gated c bf /\
    EncodeBlockHeader (bf_ContentID bf) (c_headerHashKey c) seq
      (take BlockHeaderSize (bf_Payload bf)) (zeros BlockHeaderFrameSize) = Some (n, buf).

Definition egress_ok (c : Conf) (ev : WEvent) : Prop :=
  match ev with
  | WSend raw f =>
      received_tx c raw f \/ DecodeAnchor raw = Some f \/ rebuilt_tx c raw f \/
      (c_bundleAware c = false /\ exists g, member_tx c raw f g)
  | WMcast raw f g =>
      c_mcastEgr c = true /\
      ((received_tx c raw f \/ rebuilt_tx c raw f) /\ g = en_GroupIndex (c_engine c) (f_TxID f) \/
       member_tx c raw f g)
  | WSendBlock raw bf =>
      gated c bf /\
      (DecodeBlock raw = Some bf \/ exists n, EncodeBlock bf (zeros (HeaderSize + length (bf_Payload bf))) = Some (n, raw))
  | WSendSubtree raw sf =>
      DecodeSubtreeData raw = Some sf \/
      exists n, EncodeSubtreeData sf (zeros (HeaderSize + length (sf_Payload sf))) = Some (n, raw)
  | WSendBeef raw bf =>
      c_beefEngine c <> None /\ beef_refused c bf = None /\
      (c_beefVerifyContent c = true -> Sum256 (Sum256 (be_Payload bf)) = be_ContentID bf)
  | WSendBundle raw b => c_bundleAware c = true /\ admits c (bu_GroupIdx b) (bu_SubtreeID b)
  | WHeader buf => c_headerEgr c = true /\ announced_header c buf
  | WHeaderMcast buf g => c_headerMCastEgr c = true /\ g = u16 GroupBlockHeader /\ announced_header c buf
  | WHeaderFanout buf hf => DecodeBlockHeader buf = Some hf /\ announced_header c buf
  | _ => True
  end.

(** ** The handlers *)

Context (oracle : nat -> Answer) (c : Conf).
Local Abbreviation ok m := (emits c (egress_ok c) m (fun _ => True)).

Lemma counts_ok ev : is_send ev = false -> egress_ok c ev.
Proof. by destruct ev. Qed.

Hint Resolve counts_ok : emits.
Hint Resolve emits_observe_as emits_observe emits_egr_send emits_mcast_send emits_mark emits_claim emits_seen : emits.

Lemma header_lanes_ok buf : announced_header c buf -> ok (header_lanes oracle buf).
Proof.
  intros Hb. unfold header_lanes. emits_auto; cbn; auto; try (by apply counts_ok; case_test).
Qed.

Lemma emitBlockHeader_ok bf : gated c bf -> ok (emitBlockHeader oracle bf).
Proof.
  intros Hg. unfold emitBlockHeader. emits_auto; auto; try done.
  apply header_lanes_ok. do 3 eexists. bool_to_prop. eauto.
Qed.

Lemma forward_block_ok raw bf : gated c bf -> egress_ok c (WSendBlock raw bf) -> ok (forward_block oracle raw bf).
Proof.
  intros Hg Hs. unfold forward_block.
  emits_auto; auto using emits_observe, counts_ok, emitBlockHeader_ok, emits_egr_send.
Qed.

Lemma processBlockFrame_ok raw : ok (processBlockFrame oracle raw).
Proof.
  unfold processBlockFrame. destruct (DecodeBlock raw) as [bf|] eqn:E; [|by emits_auto].
  emits_bind_step; [by apply emits_metric|].
  eapply emits_bind; [apply emits_gate, counts_ok|]. intros b Hb. cbn beta in Hb.
  destruct b; cbn [negb]; [|by apply emits_ret].
  eapply emits_bind; [|by intros; apply emits_ret]. apply forward_block_ok; [done|]. cbn. split; [done|]. by left.
Qed.

Lemma DeliverReassembledBlock_ok bf : ok (DeliverReassembledBlock oracle (bf_Payload bf) bf).
Proof.
  unfold DeliverReassembledBlock. emits_bind_step; [by apply emits_metric|].
  destruct (EncodeBlock bf _) as [[n raw]|] eqn:E; [|by apply emits_ret].
  emits_bind_step; [by apply emits_metric|].
  eapply emits_bind; [apply emits_gate, counts_ok|]. intros b Hb. cbn beta in Hb.
  destruct b; cbn [negb]; [|by apply emits_ret]. apply forward_block_ok; [done|]. cbn. split; [done|]. right. by exists n.
Qed.

Lemma forward_subtree_ok raw sf : egress_ok c (WSendSubtree raw sf) -> ok (forward_subtree oracle raw sf).
Proof. intros Hs. unfold forward_subtree. emits_bind_step; auto with emits. Qed.

Lemma processSubtreeDataFrame_ok raw : ok (processSubtreeDataFrame oracle raw).
Proof.
  unfold processSubtreeDataFrame. destruct (DecodeSubtreeData raw) as [sf|] eqn:E; [|by emits_auto].
  emits_bind_step; [by apply emits_metric|]. apply forward_subtree_ok. by left.
Qed.

Lemma DeliverReassembledSubtreeData_ok sf : ok (DeliverReassembledSubtreeData oracle (sf_Payload sf) sf).
Proof.
  unfold DeliverReassembledSubtreeData. emits_bind_step; [by apply emits_metric|].
  destruct (EncodeSubtreeData sf _) as [[n raw]|] eqn:E; [|by apply emits_ret].
  emits_bind_step; [by apply emits_metric|]. apply forward_subtree_ok. right. by exists n.
Qed.

Lemma processAnchorFrame_ok raw : ok (processAnchorFrame oracle raw).
Proof.
  unfold processAnchorFrame. destruct (DecodeAnchor raw) as [f|] eqn:E; [|by emits_auto].
  emits_bind_step; [by apply emits_metric|]. emits_bind_step; [apply emits_mark, counts_ok|].
  emits_bind_step; [apply emits_claim, counts_ok|]. emits_bind_step; [|apply emits_observe].
  case_test; [by apply emits_ret|]. apply emits_egr_send; [apply counts_ok|]. right. by left.
Qed.

Lemma deliverBeef_ok raw bf : ok (deliverBeef oracle raw bf).
Proof.
  unfold deliverBeef. emits_bind_step. destruct (c_beefEngine c) as [gi|] eqn:Eg; [|by emits_auto].
  emits_bind_step; [by apply emits_metric|]. emits_bind_step; [apply emits_mark, counts_ok|].
  case_test; [by apply emits_metric|]. destruct (beef_refused c bf) as [r|] eqn:Er; [by apply emits_metric|].
  emits_bind_step; [apply emits_claim, counts_ok|]. case_test; [apply emits_observe_as|].
  emits_bind_step; [case_test; [by apply emits_ret|apply emits_seen, counts_ok]|].
  case_test; [apply emits_observe_as|]. emits_bind_step; [|apply emits_observe_as].
  apply emits_egr_send; [apply counts_ok|]. cbn. rewrite Eg. split; [done|]. split; [done|].
  intros Hv. rewrite Hv in *. cbn in *. by bool_to_prop.
Qed.

Lemma processBeefFrame_ok raw : ok (processBeefFrame oracle raw).
Proof. unfold processBeefFrame. case_test; [apply deliverBeef_ok|by apply emits_metric]. Qed.

Lemma DeliverReassembledBeefFrame_ok buf bf : ok (DeliverReassembledBeefFrame oracle buf bf).
Proof.
  unfold DeliverReassembledBeefFrame. destruct (EncodeBEEF bf buf) as [[n out]|]; [|by apply emits_metric].
  emits_bind_step; [by apply emits_metric|apply deliverBeef_ok].
Qed.

Lemma DeliverReassembled_ok f : ok (DeliverReassembled oracle (f_Payload f) f).
Proof.
  unfold DeliverReassembled. emits_bind_step. emits_bind_step; [by apply emits_metric|].
  eapply emits_bind; [apply emits_allowed, counts_ok|]. cbn beta. intros b Hb.
  destruct b; cbn [negb]; [|by apply emits_ret]. specialize (Hb eq_refl).
  emits_bind_step; [by apply emits_metric|]. emits_bind_step; [apply emits_claim, counts_ok|].
  case_test; [apply emits_observe|].
  destruct (EncodeFrame f _) as [[n raw]|] eqn:E; [|by apply emits_ret].
  assert (rebuilt_tx c raw f) by (split; [by exists n|done]).
  emits_bind_step; [apply emits_egr_send; [apply counts_ok|cbn; auto]|].
  emits_bind_step; [apply emits_mcast_send; [apply counts_ok|cbn; auto]|apply emits_observe].
Qed.

Lemma on_event_ok ev : ok (on_event oracle ev).
Proof.
  destruct ev; cbn [on_event]; try (by apply emits_emit).
  - apply (DeliverReassembledBlock_ok (mkBlockFrame _ _ _ _ payload)).
  - apply (DeliverReassembledSubtreeData_ok (mkSubtreeDataFrame _ _ _ _ payload)).
  - apply DeliverReassembledBeefFrame_ok.
  - apply DeliverReassembledBeefFrame_ok.
  - apply (DeliverReassembled_ok (mkFrame _ _ _ _ _ payload)).
Qed.

Lemma processFragment_ok raw : ok (processFragment oracle raw).
Proof.
  unfold processFragment. emits_bind_step; [apply emits_any|].
  case_test; [|by apply emits_metric]. case_test; [|by apply emits_metric].
  emits_bind_step; [|emits_bind_step; apply emits_observe].
  unfold observeFragment. emits_bind_step. emits_bind_step; [apply emits_any|]. emits_bind_step; [apply emits_ask|].
  destruct (Reassembly.Observe _ _ _ _ _ _) as [[b' t'] evs].
  emits_bind_step; [by apply emits_modify|]. apply emits_for_each. intros. apply on_event_ok.
Qed.

Lemma send_member_ok b mf :
  mf ∈ Decoalesce b -> admits c (bu_GroupIdx b) (bu_SubtreeID b) -> ok (send_member oracle b mf).
Proof.
  intros Hin Ha. unfold send_member. emits_bind_step. emits_bind_step; [apply emits_any|].
  emits_bind_step; [by apply emits_modify|].
  match goal with |- context [mkFrame _ _ _ ?n _ _] => fold (restamp n mf) end.
  destruct (EncodeFrame (restamp _ mf) _) as [[len buf]|] eqn:E; [|by apply emits_metric].
  assert (member_tx c (take len buf) (restamp (u64 (default 0 (a !! bu_HashKey b) + 1)) mf) (bu_GroupIdx b))
    by (do 5 eexists; eauto 10).
  emits_bind_step; [|apply emits_mcast_send; [apply counts_ok|cbn; auto]].
  apply emits_when. intros Hn. apply emits_egr_send; [apply counts_ok|].
  right. right. right. split; [by destruct (c_bundleAware c)|by eexists].
Qed.

Lemma deliverBundle_ok b raw track : ok (deliverBundle oracle b raw track).
Proof.
  unfold deliverBundle. eapply emits_bind; [apply emits_allowed, counts_ok|]. cbn beta. intros okb Hok.
  destruct okb; cbn [negb]; [|by apply emits_ret]. specialize (Hok eq_refl).
  assert (Hobs : ok (when track (observe oracle (bu_GroupIdx b) (bu_SubtreeID b) (bu_HashKey b) (bu_SeqNum b) (zeros 32))))
    by (apply emits_when; intros _; apply emits_observe).
  emits_bind_step; [case_test; [by apply emits_ret|apply emits_claim, counts_ok]|]. case_test; [done|].
  emits_bind_step; [case_test; [by apply emits_ret|apply emits_seen, counts_ok]|]. case_test; [done|].
  emits_bind_step; [done|]. emits_bind_step. emits_bind_step; apply emits_when; intros Hb.
  - unfold send_whole.
    repeat case_test; first [by apply emits_metric | by apply emits_egr_send; [apply counts_ok|]].
  - apply emits_for_each. intros mf Hin. by apply send_member_ok.
Qed.

Lemma processBundle_ok raw : ok (processBundle oracle raw).
Proof.
  unfold processBundle. destruct (DecodeBundle raw) as [b|]; [|by apply emits_metric].
  emits_bind_step; [by apply emits_metric|]. emits_bind_step. case_test; [|apply deliverBundle_ok].
  emits_bind_step; [apply emits_any|]. destruct (Rebucket _ _ _) as [children r].
  emits_bind_step; [apply emits_any|]. emits_bind_step; [by apply emits_modify|].
  emits_bind_step; [by apply emits_metric|].
  emits_bind_step; [by apply emits_when; intros _; apply emits_metric|].
  emits_bind_step; [|apply emits_observe]. apply emits_for_each. intros. apply deliverBundle_ok.
Qed.

Lemma processTx_ok raw f : DecodeFrame raw = Some f -> ok (processTx oracle raw f).
Proof.
  intros Hd. unfold processTx. emits_bind_step; [by apply emits_metric|].
  emits_bind_step; [apply emits_when; intros _; apply emits_mark, counts_ok|]. emits_bind_step.
  destruct (payload_refused c f) as [ev|] eqn:Ep.
  { apply emits_metric. unfold payload_refused in Ep. repeat case_match; simplify_eq; done. }
  eapply emits_bind; [apply emits_allowed, counts_ok|]. cbn beta. intros okb Hok.
  destruct okb; cbn [negb]; [|by apply emits_ret]. specialize (Hok eq_refl).
  emits_bind_step; [case_test; [apply emits_claim, counts_ok|by apply emits_ret]|].
  case_test; [apply emits_observe|].
  emits_bind_step; [case_test; [apply emits_seen, counts_ok|by apply emits_ret]|].
  case_test; [apply emits_observe|].
  assert (received_tx c raw f) by done.
  emits_bind_step; [apply emits_egr_send; [apply counts_ok|cbn; auto]|].
  emits_bind_step; [apply emits_mcast_send; [apply counts_ok|cbn; auto]|].
  apply emits_when. intros _. apply emits_observe.
Qed.

Lemma processFrame_ok raw : ok (processFrame oracle raw).
Proof.
  unfold processFrame. case_test; [apply processBlockFrame_ok|].
  repeat (case_test; [emits_bind_step; [|by apply emits_ret];
    first [apply processSubtreeDataFrame_ok | apply processAnchorFrame_ok | apply processFragment_ok
          | apply processBundle_ok | apply processBeefFrame_ok | by apply processTx_ok]|]).
  emits_bind_step; [by apply emits_metric|by apply emits_ret].
Qed.

Lemma handleDatagram_ok raw from tee : ok (handleDatagram oracle raw from tee).
Proof.
  unfold handleDatagram. emits_bind_step. emits_bind_step; [apply emits_any|].
  case_test; [by apply emits_metric|]. emits_bind_step.
  { apply emits_when. intros _. unfold teeToRetry. destruct from; [|by apply emits_ret].
    emits_bind_step; [apply emits_any|]. case_test; [|by apply emits_ret].
    apply emits_when. intros _. by apply emits_modify. }
  emits_bind_step; [by apply emits_modify|]. emits_bind_step; [apply processFrame_ok|by apply emits_ret].
Qed.

Lemma Reinject_ok raw : ok (Reinject oracle raw).
Proof. unfold Reinject. emits_bind_step; [by apply emits_modify|apply processFrame_ok]. Qed.

End Egress.
