(* ===== verification/ListenerExample.v ===== *)
(** * The receive worker: a concrete instance

    Small stand-ins for the frame, bundle and tee libraries and a worker built on
    them, on which the theorems about the worker are evaluated.  A datagram names
    its class in its first byte. *)

From S2P Require Import Prelude Discovery Tracker TrackerInv TrackerProps TrackerRepair Dedup SubtreeGroup Filter Reassembly ReassemblyProps ReassemblyRepair RetryTee Listener ListenerInv.

Definition tee0 : TeeLib := mkTeeLib 0 1 7 9 (fun _ _ raw => raw).

(** Class bytes: 4 block, 5 subtree data, 6 anchor, 3 fragment, 8 bundle, 9 BEEF;
    the second byte is the SeqNum or the fragment index. *)
Definition class_is (k : Z) (raw : bytes) : bool := byte_at raw 0 =? k.

Definition second (raw : bytes) : Z := u8 (byte_at raw 1).

Definition tx_of (raw : bytes) : Frame := mkFrame 2 (zeros 32) 7 (second raw) (zeros 32) (drop 2 raw).

Definition frag_of (raw : bytes) : FragFrame := frag0 (second raw) (drop 2 raw).

Definition wire0 : WireLib := {|
  FrameVerV2 := 2; FrameVerV6 := 6; BlockMsgAnnounce := 1; BlockMsgCoinbase := 3;
  BlockHeaderSize := 2; BlockHeaderFrameSize := 4; powHeaderSize := 2;
  GroupBlockBroadcast := 0xFFFE; GroupSubtreeDataAnnounce := 0xFFFB; GroupCoinbaseFlow := 0xFFF8;
  GroupBlockHeader := 0xFFFA;
  IsBlockFrame := class_is 4; IsSubtreeDataFrame := class_is 5; IsAnchorFrame := class_is 6;
  IsFragment := class_is 3; IsBundle := class_is 8; IsBEEFFrame := class_is 9;
  DecodeFrame := fun raw => Some (tx_of raw);
  DecodeAnchor := fun raw => Some (tx_of raw);
  DecodeBlock := fun raw => Some (mkBlockFrame 1 (zeros 32) 7 (second raw) (drop 2 raw));
  DecodeSubtreeData := fun raw => Some (mkSubtreeDataFrame 1 (zeros 32) 7 (second raw) (drop 2 raw));
  DecodeFragment := fun raw => Some (frag_of raw);
  DecodeBEEF := fun raw => Some (mkBEEFFrame (zeros 32) (zeros 32) 7 (second raw) 1 (drop 2 raw));
  DecodeBlockHeader := fun buf => Some (tx_of buf);
  EncodeFrame := fun f buf => Some (length buf, 2 :: f_SeqNum f :: f_Payload f);
  EncodeBlock := fun bf buf => Some (length buf, buf);
  EncodeSubtreeData := fun sf buf => Some (length buf, buf);
  EncodeBEEF := fun bf buf => Some (length buf, buf);
  EncodeBlockHeader := fun _ _ seq hdr buf => Some (length buf, 7 :: seq :: hdr);
  Bundle := bytes;
  bu_ShardBits := fun b => byte_at b 2; bu_GroupIdx := fun _ => 0; bu_SubtreeID := fun _ => zeros 32;
  bu_HashKey := fun _ => 7; bu_SeqNum := second;
  DecodeBundle := fun raw => Some raw; EncodeBundle := fun b => Some b;
  Decoalesce := fun b => (fun x => mkFrame 2 (zeros 32) 7 0 (zeros 32) [x]) <$> drop 3 b;
  Rebucketer := nat; NewRebucketer := fun _ _ _ _ => 0%nat;
  Rebucket := fun r _ b => ([8 :: Z.of_nat r + 1 :: 4 :: drop 3 b], S r);
  CheckHeader := fun hdr _ => byte_at hdr 0 =? 0;
  CompactToTarget := fun bits => bits;
  BEEFDeliverableTopicIDs := fun bf => [be_TopicID bf];
  SplitBEEFPayload := fun _ => None;
  BEEFVersionWord := fun p => Some (byte_at p 0)
|}.

(** A worker with a tracker, a duplicate set of two keys, a reassembly buffer and
    the proof-of-work gate; no claim store and an open filter. *)
Definition conf0 : Conf :=
  mkConf 0 true (mkEngine (fun _ => 0) 4) (mkFilter None None None None) false None None false false
    true false None 42 None ∅ ∅ false true None false.

Definition oracle0 (_ : nat) : Answer :=
  mkAnswer (env0 3000) 1000 1000 (fun _ => 0) true 1 ClaimWon.

#[local] Existing Instances lib0 tee0 wire0.

Definition worker0 : Worker :=
  NewWorker conf0 (Some run0) (Some (NewSet 2 0)) (Some (with_lastEvict 900 buffer0)) None.
