(* ===== verification/ListenerProps.v ===== *)
(** * The receive worker: theorems

    What may leave the worker, the verdict on a re-injected frame, the decision
    table of a transaction, and the bundle path. *)

From S2P Require Import Prelude Discovery Tracker TrackerInv TrackerProps TrackerRepair Dedup SubtreeGroup Filter Reassembly ReassemblyProps ReassemblyRepair RetryTee Listener ListenerInv ListenerEgress ListenerExample.

Section Props.
Context `{FrameLib} `{TeeLib} `{WireLib}.
Context (oracle : nat -> Answer).

(** ** Calls *)

(** What the worker's goroutines ask of it: a datagram off the socket, or a
    frame the tracker recovered. *)
Inductive WCall :=
| CallDatagram (raw : bytes) (from : Sockaddr) (tee : bool)
| CallReinject (raw : bytes).

Definition perform (call : WCall) (w : Worker) : Worker :=
  match call with
  | CallDatagram raw from tee => (handleDatagram oracle raw from tee w).2
  | CallReinject raw => (Reinject oracle raw w).2
  end.

(** The source address a call is judged by. *)
Definition refused_sender (call : WCall) (c : Conf) : bool :=
  match call with
  | CallDatagram _ from _ => is_set (c_senderACL c) && negb (AllowSender (c_senderACL c) (default [] (sockaddrIP from)))
  | CallReinject _ => false
  end.

Lemma perform_emits call w :
  w_conf (perform call w) = w_conf w /\
  exists evs, w_log (perform call w) = w_log w ++ evs /\ Forall (egress_ok (w_conf w)) evs.
Proof.
  destruct call as [raw from tee|raw]; cbn [perform].
  - destruct (handleDatagram_ok oracle (w_conf w) raw from tee w eq_refl) as (? & _ & ?). done.
  - destruct (Reinject_ok oracle (w_conf w) raw w eq_refl) as (? & _ & ?). done.
Qed.

Lemma perform_refused call w :
  refused_sender call (w_conf w) = true ->
  perform call w = add_log (if c_rec (w_conf w) then [FrameDropped "sender_filter"] else []) w.
Proof.
  destruct call as [raw from tee|raw]; cbn [refused_sender perform]; [|done]. intros Hr.
  destruct (is_set (c_senderACL (w_conf w))) eqn:Ha; [|done]. cbn [andb] in Hr.
  unfold handleDatagram, mbind, M_bind, gets. cbn [fst snd]. rewrite Ha. cbn [orb andb]. rewrite Hr. done.
Qed.

(** C3: nothing leaves the worker unchecked.  Whatever arrives, and whatever the
    clocks, claims and sockets answer, every send of a call satisfies the
    conditions of its class under the worker's configuration: a transaction was
    decoded from the very bytes sent (or rebuilt from fragments or a bundle),
    passed the payload check and the shard and subtree filter; a block frame and
    every header derived from it passed the proof-of-work gate; a BEEF object
    passed its election and content check; a whole bundle goes only to a
    bundle-aware sink.  A datagram the sender list refuses changes nothing but the
    drop counter. *)
Theorem egress_gated (call : WCall) (w : Worker) :
  w_conf (perform call w) = w_conf w /\
  (exists evs, w_log (perform call w) = w_log w ++ evs /\ Forall (egress_ok (w_conf w)) evs) /\
  (refused_sender call (w_conf w) = true ->
   perform call w = add_log (if c_rec (w_conf w) then [FrameDropped "sender_filter"] else []) w).
Proof.
  destruct (perform_emits call w) as [Hc Hl]. split; [done|]. split; [done|]. apply perform_refused.
Qed.

(** ** Re-injection *)

(** A block frame that can never be delivered. *)
Definition undeliverable (c : Conf) (raw : bytes) : bool :=
  IsBlockFrame raw &&
  match DecodeBlock raw with
  | None => true
  | Some bf => negb (fst (block_gate c (bf_MsgType bf) (bf_Payload bf)))
  end.

Lemma then_true {A} (m : M A) w : ((m ;; mret true) w).1 = true.
Proof. by rewrite run_bind. Qed.

(** The block handler up to its verdict. *)
Lemma processBlockFrame_run raw w :
  exists cnt w1, quiet cnt /\ w1 = later cnt 0 w /\
    processBlockFrame oracle raw w =
      match DecodeBlock raw with
      | None => (false, w1)
      | Some bf =>
          if fst (block_gate (w_conf w) (bf_MsgType bf) (bf_Payload bf))
          then (forward_block oracle raw bf ;; mret true) w1 else (false, w1)
      end.
Proof.
  unfold processBlockFrame. destruct (DecodeBlock raw) as [bf|]; rewrite run_bind.
  - destruct (run_metric (FrameReceived "brc131") w) as (cnt & -> & Hq); [done|]. cbn [fst snd]. rewrite run_bind.
    destruct (run_gate bf (bf_Payload bf) (later cnt 0 w)) as (cnt' & -> & Hq'). cbn [fst snd]. rewrite later_later.
    exists (cnt ++ cnt'), (later (cnt ++ cnt') 0 w). split; [by apply quiet_app|]. split; [done|].
    cbn [later w_conf add_log set_asked]. by destruct (fst _).
  - destruct (run_metric (FrameDropped "decode_error") w) as (cnt & -> & Hq); [done|]. by exists cnt, (later cnt 0 w).
Qed.

(** C19: the verdict that keeps a rejected repair from being booked: [Reinject]
    answers false exactly for a block control frame that does not decode or that
    the gate refuses, and then the frame had no effect at all: apart from counters
    and the cleared source the worker, its tracker included, is as before. *)
Theorem reinject_verdict (raw : bytes) (w : Worker) :
  (Reinject oracle raw w).1 = negb (undeliverable (w_conf w) raw) /\
  (undeliverable (w_conf w) raw = true ->
   exists cnt, (Reinject oracle raw w).2 = later cnt 0 (set_curSource None w) /\ quiet cnt).
Proof.
  unfold Reinject. rewrite run_bind. cbn [modify fst snd]. unfold processFrame.
  destruct (IsBlockFrame raw) eqn:Hb; [|split; [|unfold undeliverable; by rewrite Hb]].
  - destruct (processBlockFrame_run raw (set_curSource None w)) as (cnt & w1 & Hq & -> & ->).
    cbn [set_curSource w_conf]. unfold undeliverable. rewrite Hb. cbn [andb].
    destruct (DecodeBlock raw) as [bf|]; [|by split; [|exists cnt]].
    destruct (block_gate _ _ _) as [[|] reason]; cbn [fst negb]; [|by split; [|exists cnt]].
    split; [apply then_true|done].
  - unfold undeliverable. rewrite Hb. cbn [andb negb]. repeat (case_test; [apply then_true|]). apply then_true.
Qed.

(** ** Transactions *)

(** The payload check and the filter, asked with answer [a], let the frame on. *)
Definition tx_pass (c : Conf) (a : Answer) (f : Frame) : bool :=
  negb (is_set (payload_refused c f)) &&
  fst (Filter.Allow (an_seen a) (c_filt c) (en_GroupIndex (c_engine c) (f_TxID f)) (f_SubtreeID f)).

Lemma payload_refused_quiet c f ev : payload_refused c f = Some ev -> is_send ev = false.
Proof. unfold payload_refused. repeat case_match; intros; by simplify_eq. Qed.

(** The part of [processTx] behind the filter, for a stamped V2 frame. *)
Lemma processTx_front raw f w :
  f_Version f = FrameVerV2 -> f_SeqNum f <> 0 ->
  let c := w_conf w in
  let g := en_GroupIndex (c_engine c) (f_TxID f) in
  exists cnt n, quiet cnt /\ (tx_pass c (oracle (w_asked w)) f = true -> n = 1%nat) /\
    processTx oracle raw f w =
      if tx_pass c (oracle (w_asked w)) f then
        (lost ← claim_lost oracle (f_TxID f);
         if (lost : bool) then observe oracle g (f_SubtreeID f) (f_HashKey f) (f_SeqNum f) (f_TxID f) else
         dup ← seen oracle (mkKey g (f_SubtreeID f) (f_SeqNum f));
         if (dup : bool) then observe oracle g (f_SubtreeID f) (f_HashKey f) (f_SeqNum f) (f_TxID f) else
         egr_send oracle (WSend raw f) ;;
         mcast_send oracle (WMcast raw f g) ;;
         observe oracle g (f_SubtreeID f) (f_HashKey f) (f_SeqNum f) (f_TxID f)) (later cnt n w)
      else (tt, later cnt n w).
Proof.
  intros Hv Hs c g. unfold processTx. rewrite Hv, Z.eqb_refl, (proj2 (Z.eqb_neq _ _) Hs). cbn [when andb negb].
  rewrite run_bind. destruct (run_metric (FrameReceived "brc124") w) as (c1 & -> & Q1); [done|]. cbn [fst snd].
  rewrite run_bind. destruct (run_mark (f_TxID f) (later c1 0 w)) as (c2 & -> & Q2). rewrite later_later. cbn [fst snd Nat.add].
  rewrite run_bind. cbn [gets fst snd]. rewrite later_conf. fold c. unfold tx_pass.
  destruct (payload_refused c f) as [ev|] eqn:Ep; cbn [is_set negb andb].
  - destruct (run_metric ev (later (c1 ++ c2) 0 w)) as (c3 & -> & Q3); [by eapply payload_refused_quiet|].
    rewrite later_later. exists ((c1 ++ c2) ++ c3), 0%nat. split; [by repeat apply quiet_app|]. split; done.
  - rewrite run_bind. destruct (run_allowed oracle g (f_SubtreeID f) (later (c1 ++ c2) 0 w)) as (c3 & E & Q3).
    fold g. rewrite E, later_later, later_conf, later_asked. cbn [fst snd Nat.add]. fold c.
    exists ((c1 ++ c2) ++ c3), 1%nat. split; [by repeat apply quiet_app|]. split; [done|].
    by destruct (fst (Filter.Allow _ _ _ _)).
Qed.

(** The tracker after exactly one observation, if there is a tracker. *)
Definition observed (k : nat) (owner g : Z) (sid : bytes) (hk seq : Z) (txid : bytes) (w : Worker) : option Tracker :=
  t ← w_tracker w; Some (ObserveFrom (an_env (oracle k)) owner g sid hk seq txid (w_curSource w) t).

Lemma run_observe_stamped g sid hk seq txid w :
  seq <> 0 ->
  exists n k, observe oracle g sid hk seq txid w =
    (tt, later [] n (set_tracker (observed k (c_id (w_conf w)) g sid hk seq txid w) w)).
Proof.
  intros Hs. rewrite run_observe. destruct (run_observe_as oracle (c_id (w_conf w)) g sid hk seq txid w) as (n & k & ->).
  exists n, k. by rewrite (proj2 (Z.eqb_neq _ _) Hs).
Qed.

(** The run of [processTx] on a stamped V2 frame. *)
Lemma processTx_run (raw : bytes) (f : Frame) (w : Worker) :
  f_Version f = FrameVerV2 -> f_SeqNum f <> 0 ->
  let c := w_conf w in
  let g := en_GroupIndex (c_engine c) (f_TxID f) in
  let w' := (processTx oracle raw f w).2 in
  exists evs, w_log w' = w_log w ++ evs /\
    if tx_pass c (oracle (w_asked w)) f then
      (exists k, w_tracker w' = observed k (c_id c) g (f_SubtreeID f) (f_HashKey f) (f_SeqNum f) (f_TxID f) w) /\
      let lost := lost_claim c (oracle (S (w_asked w))) in
      exists now,
        let '(dup, s) := if lost then (false, w_dedup w)
                         else seen_at now (mkKey g (f_SubtreeID f) (f_SeqNum f)) (w_dedup w) in
        w_dedup w' = s /\
        sends evs = if lost || dup then [] else WSend raw f :: (if c_mcastEgr c then [WMcast raw f g] else [])
    else w_tracker w' = w_tracker w /\ w_dedup w' = w_dedup w /\ sends evs = [].
Proof.
  intros Hv Hs c g w'. unfold w'. destruct (processTx_front raw f w Hv Hs) as (c0 & n0 & Q0 & Hn & ->).
  fold c g. fold c in Hn. destruct (tx_pass c (oracle (w_asked w)) f); [|by exists c0]. rewrite (Hn eq_refl). clear n0 Hn.
  rewrite run_bind. destruct (run_claim oracle (f_TxID f) (later c0 1 w)) as (lost & c1 & n1 & -> & Q1 & Hl).
  rewrite later_conf, later_asked in Hl. fold c in Hl. cbn [Nat.add] in Hl. rewrite <- Hl.
  cbn [fst snd]. rewrite later_later. clear Hl. destruct lost.
  { destruct (run_observe_stamped g (f_SubtreeID f) (f_HashKey f) _ (f_TxID f) (later (c0 ++ c1) (n1 + 1) w) Hs) as (n2 & k & ->).
    exists ((c0 ++ c1) ++ []). cbn. rewrite !app_nil_r. split; [done|]. split; [by exists k|]. exists 0.
    split; [done|]. by apply quiet_app. }
  rewrite run_bind. destruct (run_seen oracle (mkKey g (f_SubtreeID f) (f_SeqNum f)) (later (c0 ++ c1) (n1 + 1) w))
    as (now & c2 & n2 & Q2 & ->). cbn [fst snd]. change (w_dedup (later _ _ w)) with (w_dedup w).
  destruct (seen_at now _ (w_dedup w)) as [dup s] eqn:Es. cbn [fst snd].
  set (w2 := later c2 n2 _). assert (Hq : quiet ((c0 ++ c1) ++ c2)) by (by repeat apply quiet_app).
  destruct dup.
  { destruct (run_observe_stamped g (f_SubtreeID f) (f_HashKey f) _ (f_TxID f) w2 Hs) as (n3 & k & ->).
    exists ((c0 ++ c1) ++ c2). cbn. rewrite app_nil_r, <- !app_assoc. split; [done|]. split; [by exists k|].
    exists now. rewrite Es. split; [done|]. by rewrite app_assoc. }
  rewrite run_bind. destruct (run_egr_send oracle (WSend raw f) w2) as (c3 & -> & Q3). cbn [fst snd].
  rewrite run_bind. destruct (run_mcast_send oracle (WMcast raw f g) (later (WSend raw f :: c3) 1 w2)) as (c4 & n4 & -> & Q4).
  cbn [fst snd]. rewrite later_later. change (w_conf (later _ _ w2)) with c.
  match goal with |- context [observe oracle _ _ _ _ _ ?w3] =>
    destruct (run_observe_stamped g (f_SubtreeID f) (f_HashKey f) _ (f_TxID f) w3 Hs) as (n5 & k & ->) end.
  exists (((c0 ++ c1) ++ c2) ++ (WSend raw f :: c3) ++ (if c_mcastEgr c then [WMcast raw f g] else []) ++ c4).
  split; [cbn; by rewrite app_nil_r, <- !app_assoc|]. split; [by exists k|].
  exists now. rewrite Es. split; [done|].
  unfold quiet in *. rewrite sends_app, Hq. cbn [app].
  rewrite sends_cons, !sends_app, Q3, Q4, app_nil_r by done. by case_test.
Qed.

(** *** The decision table *)

(** What becomes of a decoded transaction frame. *)
Inductive TxOutcome :=
| TxInvalid (why : WEvent)
| TxFiltered (reason : string)
| TxClaimed
| TxDuplicate
| TxForwarded.

(** A claim is asked for, and the duplicate set is. *)
Definition claims (c : Conf) (f : Frame) : bool := (f_Version f =? FrameVerV2) && is_set (c_txDedup c).

Definition keyed (f : Frame) : bool := (f_Version f =? FrameVerV2) && negb (f_SeqNum f =? 0).

(** The answers the questions get, counted from the filter's [k]: the claim is asked
    next, then the clock of the duplicate set, then the two sends. *)
Definition at_seen (c : Conf) (f : Frame) (k : nat) : nat := k + 1 + Nat.b2n (claims c f).

Definition at_send (c : Conf) (s : option DSet) (f : Frame) (k : nat) : nat :=
  at_seen c f k + Nat.b2n (keyed f && is_set s).

Definition tx_key (c : Conf) (f : Frame) : Key :=
  mkKey (en_GroupIndex (c_engine c) (f_TxID f)) (f_SubtreeID f) (f_SeqNum f).

Definition tx_outcome (c : Conf) (s : option DSet) (f : Frame) (k : nat) : TxOutcome :=
  match payload_refused c f with
  | Some why => TxInvalid why
  | None =>
      let '(ok, reason) :=
        Filter.Allow (an_seen (oracle k)) (c_filt c) (en_GroupIndex (c_engine c) (f_TxID f)) (f_SubtreeID f) in
      if negb ok then TxFiltered reason
      else if (f_Version f =? FrameVerV2) && lost_claim c (oracle (S k)) then TxClaimed
      else if keyed f && fst (seen_at (an_now (oracle (at_seen c f k))) (tx_key c f) s) then TxDuplicate
      else TxForwarded
  end.

(** Counters are there with a recorder only. *)
Definition count (c : Conf) (evs : list WEvent) : list WEvent := if c_rec c then evs else [].

(** The claim and its counter. *)
Definition claim_events (c : Conf) (f : Frame) (answer : ClaimResult) : list WEvent :=
  if claims c f then
    WClaim (f_TxID f) answer ::
    match answer with
    | ClaimWon => []
    | ClaimLost => count c [FrameTxDeduped]
    | ClaimError => count c [TxDedupError]
    end
  else [].

(** Everything the frame leads to, in order. *)
Definition tx_events (c : Conf) (raw : bytes) (f : Frame) (o : TxOutcome) (claim : ClaimResult) (sent mcast : bool) : list WEvent :=
  count c [FrameReceived (if f_Version f =? FrameVerV2 then "brc124" else "brc12")] ++
  (if (f_Version f =? FrameVerV2) && bool_decide (c_txDedup c = Some true) then [WMark (f_TxID f)] else []) ++
  match o with
  | TxInvalid why => count c [why]
  | TxFiltered reason => count c [FrameDropped reason]
  | TxClaimed => claim_events c f claim
  | TxDuplicate => claim_events c f claim ++ count c [FrameDeduped]
  | TxForwarded =>
      claim_events c f claim ++
      WSend raw f :: count c [if sent then FrameForwarded else EgressError] ++
      (if c_mcastEgr c
       then WMcast raw f (en_GroupIndex (c_engine c) (f_TxID f)) :: count c [if mcast then MCForwarded else MCEgressError]
       else [])
  end.

(** The duplicate set has the key of a frame that got as far as asking it. *)
Definition tx_dedup (c : Conf) (f : Frame) (o : TxOutcome) (k : nat) (s : option DSet) : option DSet :=
  match o with
  | TxDuplicate | TxForwarded =>
      if keyed f then snd (seen_at (an_now (oracle (at_seen c f k))) (tx_key c f) s) else s
  | _ => s
  end.

(** A V2 frame that passes payload check and filter is observed, forwarded or not,
    unless it carries no SeqNum. *)
Definition tx_tracker (f : Frame) (o : TxOutcome) (k : nat) (w : Worker) : option Tracker :=
  match o with
  | TxInvalid _ | TxFiltered _ => w_tracker w
  | _ =>
      if keyed f then
        observed k (c_id (w_conf w)) (en_GroupIndex (c_engine (w_conf w)) (f_TxID f)) (f_SubtreeID f) (f_HashKey f)
          (f_SeqNum f) (f_TxID f) w
      else w_tracker w
  end.

Definition at_observe (c : Conf) (s : option DSet) (f : Frame) (o : TxOutcome) (k : nat) : nat :=
  match o with
  | TxForwarded => at_send c s f k + 1 + Nat.b2n (c_mcastEgr c)
  | TxDuplicate => at_send c s f k
  | _ => at_seen c f k
  end.

(** *** The steps, exactly *)

Lemma step_mark key w :
  mark key w = (tt, later (if bool_decide (c_txDedup (w_conf w) = Some true) then [WMark key] else []) 0 w).
Proof.
  unfold mark. rewrite run_bind. cbn [gets fst snd]. destruct (c_txDedup (w_conf w)) as [[|]|]; cbn [when].
  - by rewrite bool_decide_true.
  - rewrite bool_decide_false by done. by rewrite <- later_0.
  - rewrite bool_decide_false by done. by rewrite <- later_0.
Qed.

Lemma step_allowed g sid w :
  let '(ok, reason) := Filter.Allow (an_seen (oracle (w_asked w))) (c_filt (w_conf w)) g sid in
  allowed oracle g sid w = (ok, later (if ok then [] else count (w_conf w) [FrameDropped reason]) 1 w).
Proof.
  unfold allowed. rewrite !run_bind. cbn [gets ask fst snd].
  destruct (Filter.Allow _ _ _ _) as [[|] reason]; [|done]. unfold later, add_log. cbn. by rewrite app_nil_r.
Qed.

Lemma step_claim f w :
  (if f_Version f =? FrameVerV2 then claim_lost oracle (f_TxID f) else mret false) w =
  ((f_Version f =? FrameVerV2) && lost_claim (w_conf w) (oracle (w_asked w)),
   later (claim_events (w_conf w) f (an_claim (oracle (w_asked w)))) (Nat.b2n (claims (w_conf w) f)) w).
Proof.
  unfold claim_events, claims, lost_claim, claim_lost. destruct (f_Version f =? FrameVerV2); cbn [andb]; [|cbn; by rewrite <- later_0].
  rewrite run_bind. cbn [gets fst snd]. destruct (is_set (c_txDedup (w_conf w))); cbn [negb andb]; [|cbn; by rewrite <- later_0].
  rewrite !run_bind. cbn [ask emit modify fst snd]. destruct (an_claim (oracle (w_asked w))); [done|..];
    rewrite run_bind; unfold metric, modify, later, add_log, set_asked, count; cbn; by rewrite <- app_assoc.
Qed.

Lemma step_seen f key w :
  (if keyed f then seen oracle key else mret false) w =
  let '(dup, s) := if keyed f then seen_at (an_now (oracle (w_asked w))) key (w_dedup w) else (false, w_dedup w) in
  (dup, later (if dup then count (w_conf w) [FrameDeduped] else []) (Nat.b2n (keyed f && is_set (w_dedup w))) (set_dedup s w)).
Proof.
  assert (Hid : w = set_dedup (w_dedup w) w) by (by destruct w).
  destruct (keyed f); cbn [andb]; [|cbn; f_equal; rewrite <- later_0; exact Hid].
  unfold seen, seen_at. rewrite run_bind. cbn [gets fst snd]. destruct (w_dedup w) as [s|] eqn:Es; cbn [is_set].
  - rewrite run_bind. cbn [ask fst snd]. destruct (SeenAndAdd _ key s) as [[|] s']; rewrite !run_bind; cbn; [done|].
    unfold later, add_log. cbn. by rewrite app_nil_r.
  - cbn. f_equal. rewrite <- later_0. exact Hid.
Qed.

Lemma step_sends raw f (m : M unit) w :
  let c := w_conf w in
  let g := en_GroupIndex (c_engine c) (f_TxID f) in
  (egr_send oracle (WSend raw f) ;; mcast_send oracle (WMcast raw f g) ;; m) w =
  m (later (WSend raw f :: count c [if an_sent (oracle (w_asked w)) then FrameForwarded else EgressError] ++
              (if c_mcastEgr c then WMcast raw f g :: count c [if an_sent (oracle (S (w_asked w))) then MCForwarded else MCEgressError] else []))
         (1 + Nat.b2n (c_mcastEgr c)) w).
Proof.
  intros c g. unfold egr_send, mcast_send. rewrite !run_bind. cbn [emit ask metric gets modify fst snd]. cbn. fold c.
  destruct (c_mcastEgr c); cbn [when].
  - rewrite !run_bind. unfold later, count, emit, metric, modify. cbn. unfold add_log, set_asked. cbn. by rewrite <- !app_assoc.
  - unfold later, add_log, set_asked, count. cbn. by rewrite app_nil_r, <- app_assoc.
Qed.

Lemma step_observe f o evs n s w :
  (match o with TxInvalid _ | TxFiltered _ => false | _ => true end) = true ->
  exists n', when (f_Version f =? FrameVerV2)
    (observe oracle (en_GroupIndex (c_engine (w_conf w)) (f_TxID f)) (f_SubtreeID f) (f_HashKey f) (f_SeqNum f) (f_TxID f))
    (later evs n (set_dedup s w)) =
    (tt, later evs n' (set_tracker (tx_tracker f o (n + w_asked w) w) (set_dedup s w))).
Proof.
  intros Ho. assert (Hid : set_dedup s w = set_tracker (w_tracker w) (set_dedup s w)) by (by destruct w).
  assert (tx_tracker f o (n + w_asked w) w = tx_tracker f TxForwarded (n + w_asked w) w) as -> by (by destruct o).
  unfold tx_tracker, keyed, observed. destruct (f_Version f =? FrameVerV2); cbn [when andb]; [|exists n; by rewrite <- Hid].
  rewrite run_observe. unfold observe_as. rewrite run_bind. cbn [gets fst snd].
  change (w_tracker (later evs n (set_dedup s w))) with (w_tracker w).
  destruct (w_tracker w) as [t|]; [|exists n; destruct (negb _); cbn; by rewrite <- Hid].
  destruct (f_SeqNum f =? 0); cbn [negb]; [exists n; by rewrite <- Hid|].
  exists (S n). rewrite run_bind. unfold later, add_log, set_tracker, ask, modify, set_asked. done.
Qed.

(** A decoded transaction frame: none of the other classes claims the datagram. *)
Definition tx_frame (raw : bytes) (f : Frame) : Prop :=
  IsBlockFrame raw = false /\ IsSubtreeDataFrame raw = false /\ IsAnchorFrame raw = false /\ IsFragment raw = false /\
  IsBundle raw = false /\ IsBEEFFrame raw = false /\ DecodeFrame raw = Some f.

(** The part behind the filter. *)
Lemma processTx_back raw f pre w :
  let c := w_conf w in
  let k := w_asked w in
  let s := w_dedup w in
  let g := en_GroupIndex (c_engine c) (f_TxID f) in
  let v2 := f_Version f =? FrameVerV2 in
  let obs := observe oracle g (f_SubtreeID f) (f_HashKey f) (f_SeqNum f) (f_TxID f) in
  let o := if v2 && lost_claim c (oracle (S k)) then TxClaimed
           else if keyed f && fst (seen_at (an_now (oracle (at_seen c f k))) (tx_key c f) s) then TxDuplicate
           else TxForwarded in
  exists n,
    (lost ← (if v2 then claim_lost oracle (f_TxID f) else mret false);
     if (lost : bool) then obs else
     dup ← (if keyed f then seen oracle (tx_key c f) else mret false);
     if (dup : bool) then obs else
     egr_send oracle (WSend raw f) ;; mcast_send oracle (WMcast raw f g) ;; when v2 obs) (later pre 1 w) =
    (tt, later (pre ++ match o with
                       | TxClaimed => claim_events c f (an_claim (oracle (S k)))
                       | TxDuplicate => claim_events c f (an_claim (oracle (S k))) ++ count c [FrameDeduped]
                       | _ => claim_events c f (an_claim (oracle (S k))) ++
                           WSend raw f :: count c [if an_sent (oracle (at_send c s f k)) then FrameForwarded else EgressError] ++
                           (if c_mcastEgr c
                            then WMcast raw f g :: count c [if an_sent (oracle (S (at_send c s f k))) then MCForwarded else MCEgressError]
                            else [])
                       end) n
           (set_tracker (tx_tracker f o (at_observe c s f o k) w) (set_dedup (tx_dedup c f o k s) w))).
Proof.
  intros c k s g v2 obs o. unfold o. clear o.
  assert (Hid : w = set_dedup s w) by (by destruct w).
  rewrite run_bind. pose proof (step_claim f (later pre 1 w)) as Hc. fold v2 in Hc. rewrite Hc. clear Hc.
  rewrite later_conf, later_asked. cbn [Nat.add fst snd]. fold c k. rewrite later_later.
  destruct (v2 && lost_claim c (oracle (S k))) eqn:El.
  { assert (v2 = true) as Hv by (by destruct v2).
    destruct (step_observe f TxClaimed (pre ++ claim_events c f (an_claim (oracle (S k)))) (Nat.b2n (claims c f) + 1) s w eq_refl) as (n & E).
    fold v2 c k g in E. rewrite Hv in E. cbn [when] in E. rewrite <- Hid in E. exists n. unfold obs. rewrite E.
    cbn [tx_dedup]. rewrite <- Hid. replace (at_observe c s f TxClaimed k) with (Nat.b2n (claims c f) + 1 + k)%nat; [done|].
    unfold at_observe, at_seen. lia. }
  rewrite run_bind, step_seen. rewrite later_conf, later_asked. change (w_dedup (later _ _ w)) with s. fold c k.
  replace (Nat.b2n (claims c f) + 1 + k)%nat with (at_seen c f k) by (unfold at_seen; lia).
  destruct (if keyed f then seen_at (an_now (oracle (at_seen c f k))) (tx_key c f) s else (false, s)) as [dup s'] eqn:Es.
  assert (keyed f && (seen_at (an_now (oracle (at_seen c f k))) (tx_key c f) s).1 = dup /\
    (if keyed f then (seen_at (an_now (oracle (at_seen c f k))) (tx_key c f) s).2 else s) = s') as [Ed Es'].
  { destruct (keyed f); [rewrite Es; done|by injection Es]. }
  rewrite Ed. cbn [fst snd].
  change (set_dedup s' (later ?e ?n w)) with (later e n (set_dedup s' w)). rewrite later_later.
  destruct dup.
  { assert (v2 = true) as Hv by (unfold keyed in Ed; fold v2 in Ed; by destruct v2).
    match goal with |- context [obs (later ?e ?n _)] => destruct (step_observe f TxDuplicate e n s' w eq_refl) as (n' & E) end.
    fold v2 c k g in E. rewrite Hv in E. cbn [when] in E. exists n'. unfold obs. rewrite E. cbn [tx_dedup]. rewrite Es', <- app_assoc.
    match goal with |- context [tx_tracker f _ ?i w] => replace (at_observe c s f TxDuplicate k) with i; [done|] end.
    unfold at_observe, at_send, at_seen. lia. }
  rewrite app_nil_r.
  match goal with |- context [mbind _ _ ?w1 = _] => pose proof (step_sends raw f (when v2 obs) w1) as Hsend end.
  cbn zeta in Hsend. rewrite later_conf in Hsend. change (w_conf (set_dedup s' w)) with c in Hsend. fold g in Hsend. rewrite Hsend. clear Hsend.
  rewrite later_asked, later_later. change (w_conf (set_dedup s' w)) with c.
  change (w_asked (set_dedup s' w)) with k. fold g.
  match goal with |- context [when v2 obs (later ?e ?n _)] => destruct (step_observe f TxForwarded e n s' w eq_refl) as (n' & E) end.
  fold v2 c k g in E. exists n'. unfold obs. rewrite E. cbn [tx_dedup]. rewrite Es', <- app_assoc.
  replace (Nat.b2n (keyed f && is_set s) + (Nat.b2n (claims c f) + 1) + k)%nat with (at_send c s f k) by (unfold at_send, at_seen; lia).
  match goal with |- context [tx_tracker f _ ?i w] => replace (at_observe c s f TxForwarded k) with i; [done|] end.
  unfold at_observe, at_send, at_seen. lia.
Qed.

(** What [processTx] does to the worker, whatever the frame. *)
Lemma processTx_exact raw f w :
  let c := w_conf w in
  let k := w_asked w in
  let s := w_dedup w in
  let o := tx_outcome c s f k in
  exists n, processTx oracle raw f w =
    (tt, later (tx_events c raw f o (an_claim (oracle (S k))) (an_sent (oracle (at_send c s f k)))
                  (an_sent (oracle (S (at_send c s f k))))) n
           (set_tracker (tx_tracker f o (at_observe c s f o k) w) (set_dedup (tx_dedup c f o k s) w))).
Proof.
  intros c k s o. unfold processTx. set (v2 := f_Version f =? FrameVerV2). set (g := en_GroupIndex (c_engine c) (f_TxID f)).
  assert (Hid : w = set_tracker (w_tracker w) (set_dedup s w)) by (by destruct w).
  set (pre := count c [FrameReceived (if v2 then "brc124" else "brc12")] ++
    (if v2 && bool_decide (c_txDedup c = Some true) then [WMark (f_TxID f)] else [])).
  assert (Hpre : forall A (m : M A), (metric (FrameReceived (if v2 then "brc124" else "brc12")) ;; when v2 (mark (f_TxID f)) ;; m) w = m (later pre 0 w)).
  { intros A m. rewrite run_bind. change (metric ?e w) with (tt, later (count c [e]) 0 w). cbn [fst snd]. rewrite run_bind.
    unfold pre. destruct v2; cbn [when andb]; [rewrite step_mark, later_later; done|]. by rewrite app_nil_r. }
  rewrite Hpre, run_bind. cbn [gets fst snd]. rewrite later_conf. fold c g.
  unfold o, tx_outcome, tx_events. fold v2. destruct (payload_refused c f) as [ev|].
  { exists 0%nat. change (metric ev ?w) with (tt, later (count c [ev]) 0 w). rewrite later_later. cbn [tx_tracker tx_dedup].
    rewrite app_assoc. fold pre. by rewrite <- Hid. }
  rewrite run_bind. pose proof (step_allowed g (f_SubtreeID f) (later pre 0 w)) as Ha. rewrite later_asked, later_conf in Ha.
  cbn [Nat.add] in Ha. fold c k g in Ha |- *. destruct (Filter.Allow (an_seen (oracle k)) (c_filt c) g (f_SubtreeID f)) as [[|] reason];
    rewrite Ha; cbn [fst snd negb]; rewrite later_later.
  2: { eexists. cbn [tx_tracker tx_dedup]. rewrite app_assoc. fold pre. by rewrite <- Hid. }
  rewrite app_nil_r. cbn [Nat.add]. destruct (processTx_back raw f pre w) as (n & E). fold c k s g in E. fold v2 in E.
  exists n. etrans; [exact E|]. rewrite app_assoc. fold pre. do 3 f_equal.
  destruct (v2 && lost_claim c (oracle (S k))); [done|]. by destruct (keyed f && fst _).
Qed.

(** C4: the decision table of a transaction frame, on every branch.  Refused by the
    payload check or by the filter, it is neither sent nor observed nor remembered.
    Otherwise a V2 frame claims its TxID when there is a store; an answer that
    the claim is lost, or, with a SeqNum, a duplicate set that has its key, keeps it
    from being sent, while an error of the store does not; everything else is sent
    once on each lane.  The tracker observes each V2 frame with a SeqNum that passed
    the filter exactly once, sent or not.  The events are exactly the sends, claims
    and marks with the counters of the branch in their order, and beside log, tracker
    and duplicate set the worker is unchanged. *)
Theorem tx_pipeline (raw : bytes) (f : Frame) (w : Worker) :
  tx_frame raw f ->
  let c := w_conf w in
  let k := w_asked w in
  let s := w_dedup w in
  let o := tx_outcome c s f k in
  exists n, processFrame oracle raw w =
    (true, later (tx_events c raw f o (an_claim (oracle (S k))) (an_sent (oracle (at_send c s f k)))
                    (an_sent (oracle (S (at_send c s f k))))) n
             (set_tracker (tx_tracker f o (at_observe c s f o k) w) (set_dedup (tx_dedup c f o k s) w))).
Proof.
  intros (B1 & B2 & B3 & B4 & B5 & B6 & Hd) c k s o. destruct (processTx_exact raw f w) as (n & E). exists n.
  unfold processFrame. rewrite B1, B2, B3, B4, B5, B6, Hd, run_bind, E. done.
Qed.

End Props.

#[local] Existing Instances lib0 tee0 wire0.

(** The repair of gap 2, offered twice: forwarded once, observed both times. *)
Lemma tx_pipeline_witness :
  let f := tx_of [2; 2; 77] in
  let w1 := (processFrame oracle0 [2; 2; 77] worker0).2 in
  let w2 := (processFrame oracle0 [2; 2; 77] w1).2 in
  w_log w1 = [FrameReceived "brc124"; WSend [2; 2; 77] f; FrameForwarded] /\
  w_log w2 = w_log w1 ++ [FrameReceived "brc124"; FrameDeduped] /\
  exists k, w_tracker w2 = observed oracle0 k 0 0 (zeros 32) 7 2 (zeros 32) w1.
Proof.
  intros f w1 w2.
  assert (Hf : tx_frame [2; 2; 77] f) by (by repeat split).
  destruct (tx_pipeline oracle0 [2; 2; 77] f worker0 Hf) as (n1 & E1).
  destruct (tx_pipeline oracle0 [2; 2; 77] f w1 Hf) as (n2 & E2).
  split; [unfold w1; rewrite E1; vm_compute; reflexivity|].
  split; [vm_compute; reflexivity|]. unfold w2. rewrite E2.
  assert (tx_outcome oracle0 (w_conf w1) (w_dedup w1) f (w_asked w1) = TxDuplicate) as -> by (vm_compute; reflexivity).
  assert (w_conf w1 = conf0) as Hc by (unfold w1; rewrite E1; reflexivity).
  cbn [snd]. eexists.
  change (w_tracker (later ?e ?n (set_tracker ?t ?w))) with t. unfold tx_tracker. rewrite Hc.
  change (keyed f) with true. reflexivity.
Defined.
