(* ===== verification/ListenerKeeps.v ===== *)
(** * The receive worker: a logic for its state

    A relational logic for the worker monad: [keeps R m] says that [m] relates the
    worker before to the worker after by the preorder [R].  The rules ask of [R]
    only what it makes of the elementary changes of a worker ([Elementary]), so
    one walk through the handlers serves every part of the state: the retry tee
    they never touch, and the tracker they only hand stamped frames. *)

From S2P Require Import Prelude Discovery Tracker TrackerInv Dedup SubtreeGroup Filter Reassembly RetryTee Listener ListenerInv.

Create HintDb keeps.

Section Keeps.
Context `{FrameLib} `{TeeLib} `{WireLib}.
Context (oracle : nat -> Answer).

Definition keeps {A} (R : relation Worker) (m : M A) : Prop := forall w, R w (m w).2.

(** [R] allows every elementary change; [ok] are the SeqNums and [env_ok] the
    environments it allows an observation with. *)
Class Elementary (R : relation Worker) (ok : Z -> Prop) (env_ok : Env -> Prop) : Prop := {
  el_preorder :: PreOrder R;
  el_asked n w : R w (set_asked n w);
  el_log evs w : R w (add_log evs w);
  el_dedup s w : R w (set_dedup s w);
  el_header n w : R w (set_headerSeqNum n w);
  el_egress m w : R w (set_egressSeq m w);
  el_rebucket r b w : R w (set_rebucket r b w);
  el_source src w : R w (set_curSource src w);
  el_observe env owner g sid hk seq txid t w :
    env_ok env -> ok seq -> w_tracker w = Some t ->
    R w (set_tracker (Some (ObserveFrom env owner g sid hk seq txid (w_curSource w) t)) w)
}.

Context {R : relation Worker} {ok : Z -> Prop} {env_ok : Env -> Prop} `{El : !Elementary R ok env_ok}.

(** ** Rules *)

Lemma keeps_ret {A} (a : A) : keeps R (mret a).
Proof. intros w. cbn. reflexivity. Qed.

Lemma keeps_bind {A B} (m : M A) (k : A -> M B) : keeps R m -> (forall a, keeps R (k a)) -> keeps R (mbind k m).
Proof. intros Hm Hk w. rewrite run_bind. etrans; [apply Hm|apply Hk]. Qed.

Lemma keeps_gets {A} (f : Worker -> A) : keeps R (gets f).
Proof. intros w. cbn. reflexivity. Qed.

Lemma keeps_ask : keeps R (ask oracle).
Proof. intros w. apply el_asked. Qed.

Lemma keeps_emit ev : keeps R (emit ev).
Proof. intros w. apply el_log. Qed.

Lemma keeps_metric ev : keeps R (metric ev).
Proof. intros w. apply el_log. Qed.

Lemma keeps_modify f : (forall w, R w (f w)) -> keeps R (modify f).
Proof. intros Hf w. apply Hf. Qed.

Lemma keeps_when b m : keeps R m -> keeps R (when b m).
Proof. destruct b; [done|]. intros _. apply keeps_ret. Qed.

Lemma keeps_for_each {A} (f : A -> M unit) l : (forall x, x ∈ l -> keeps R (f x)) -> keeps R (for_each f l).
Proof.
  induction l as [|x l IH]; intros Hf; [apply keeps_ret|]. cbn [for_each].
  apply keeps_bind; [apply Hf; left|]. intros _. apply IH. intros y Hy. apply Hf. by right.
Qed.

(** Walks through code whose leaves are covered by the rules or the context. *)
Ltac keeps_step :=
  lazymatch goal with
  | |- keeps _ (mbind _ _) => apply keeps_bind; [|cbn beta; intros ?]
  | |- keeps _ (mret _) => apply keeps_ret
  | |- keeps _ (gets _) => apply keeps_gets
  | |- keeps _ (ask _) => apply keeps_ask
  | |- keeps _ (emit _) => apply keeps_emit
  | |- keeps _ (metric _) => apply keeps_metric
  | |- keeps _ (modify _) =>
      apply keeps_modify; intros ?; first [apply el_dedup | apply el_header | apply el_egress | apply el_rebucket | apply el_source]
  | |- keeps _ (when _ _) => apply keeps_when
  | |- keeps _ (for_each _ _) => apply keeps_for_each; intros ? _
  | |- keeps _ (if ?b then _ else _) => destruct b
  | |- keeps _ (match ?x with _ => _ end) => destruct x eqn:?
  end.

Ltac keeps_auto := repeat first [keeps_step | progress (eauto with keeps)].

(** ** The shared steps *)

Hypothesis Henv : forall k, env_ok (an_env (oracle k)).

Lemma keeps_observe_as owner g sid hk seq txid : ok seq -> keeps R (observe_as oracle owner g sid hk seq txid).
Proof.
  intros Hs w. unfold observe_as. rewrite run_bind. cbn [gets fst snd].
  destruct (w_tracker w) as [t|] eqn:Ht; [|reflexivity]. case_test; [reflexivity|].
  rewrite run_bind. cbn [ask modify fst snd]. etrans; [apply (el_asked (S (w_asked w)))|].
  by apply (el_observe _ _ _ _ _ _ _ t (set_asked (S (w_asked w)) w)).
Qed.

Lemma keeps_observe g sid hk seq txid : ok seq -> keeps R (observe oracle g sid hk seq txid).
Proof. intros Hs. apply keeps_bind; [apply keeps_gets|]. intros c. by apply keeps_observe_as. Qed.

Lemma keeps_egr_send ev : keeps R (egr_send oracle ev).
Proof. unfold egr_send. keeps_auto. Qed.

Lemma keeps_mcast_send ev : keeps R (mcast_send oracle ev).
Proof. unfold mcast_send. keeps_auto. Qed.

Lemma keeps_mark key : keeps R (mark key).
Proof. unfold mark. keeps_auto. Qed.

Lemma keeps_claim key : keeps R (claim_lost oracle key).
Proof. unfold claim_lost. keeps_auto. Qed.

Lemma keeps_seen key : keeps R (seen oracle key).
Proof. unfold seen. keeps_auto. Qed.

Lemma keeps_allowed g sid : keeps R (allowed oracle g sid).
Proof. unfold allowed. keeps_auto. Qed.

Lemma keeps_gate bf payload : keeps R (blockGateAllows bf payload).
Proof. unfold blockGateAllows. keeps_auto. Qed.

Hint Resolve keeps_observe_as keeps_observe keeps_egr_send keeps_mcast_send keeps_mark keeps_claim keeps_seen
  keeps_allowed keeps_gate : keeps.

(** ** The handlers *)

Lemma keeps_header_lanes buf : keeps R (header_lanes oracle buf).
Proof. unfold header_lanes. keeps_auto. Qed.

Lemma keeps_emitBlockHeader bf : keeps R (emitBlockHeader oracle bf).
Proof. unfold emitBlockHeader. keeps_auto. apply keeps_header_lanes. Qed.

Lemma keeps_forward_block raw bf : ok (bf_SeqNum bf) -> keeps R (forward_block oracle raw bf).
Proof. intros Hs. unfold forward_block. keeps_auto. apply keeps_emitBlockHeader. Qed.

Lemma keeps_forward_subtree raw sf : ok (sf_SeqNum sf) -> keeps R (forward_subtree oracle raw sf).
Proof. intros Hs. unfold forward_subtree. keeps_auto. Qed.

Hint Resolve keeps_forward_block keeps_forward_subtree : keeps.

Lemma keeps_DeliverReassembledBlock payload bf : ok (bf_SeqNum bf) -> keeps R (DeliverReassembledBlock oracle payload bf).
Proof. intros Hs. unfold DeliverReassembledBlock. keeps_auto. Qed.

Lemma keeps_DeliverReassembledSubtreeData payload sf :
  ok (sf_SeqNum sf) -> keeps R (DeliverReassembledSubtreeData oracle payload sf).
Proof. intros Hs. unfold DeliverReassembledSubtreeData. keeps_auto. Qed.

Lemma keeps_deliverBeef raw bf : ok (be_SeqNum bf) -> keeps R (deliverBeef oracle raw bf).
Proof. intros Hs. unfold deliverBeef. keeps_auto. Qed.

Lemma keeps_DeliverReassembledBeefFrame buf bf : ok (be_SeqNum bf) -> keeps R (DeliverReassembledBeefFrame oracle buf bf).
Proof. intros Hs. unfold DeliverReassembledBeefFrame. keeps_auto. by apply keeps_deliverBeef. Qed.

Lemma keeps_DeliverReassembled payload f : ok (f_SeqNum f) -> keeps R (DeliverReassembled oracle payload f).
Proof. intros Hs. unfold DeliverReassembled. keeps_auto. Qed.

(** The SeqNum an event of the buffer carries into a delivery. *)
Definition event_ok (ev : REvent) : Prop :=
  match ev with
  | EvBlock _ _ _ seq _ | EvSubtree _ _ _ seq _ | EvBEEFFrame _ _ _ _ _ seq _ | EvBEEF _ _ _ _ seq _
  | EvTx _ _ _ _ seq => ok seq
  | _ => True
  end.

Lemma keeps_on_event ev : event_ok ev -> keeps R (on_event oracle ev).
Proof.
  destruct ev; cbn [on_event event_ok]; intros Hs; try apply keeps_emit.
  - by apply keeps_DeliverReassembledBlock.
  - by apply keeps_DeliverReassembledSubtreeData.
  - by apply keeps_DeliverReassembledBeefFrame.
  - by apply keeps_DeliverReassembledBeefFrame.
  - by apply keeps_DeliverReassembled.
Qed.

Lemma keeps_send_member b mf : keeps R (send_member oracle b mf).
Proof. unfold send_member. keeps_auto. Qed.

Lemma keeps_send_whole b raw : keeps R (send_whole oracle b raw).
Proof. unfold send_whole. keeps_auto. Qed.

Lemma keeps_deliverBundle b raw track : (track = true -> ok (bu_SeqNum b)) -> keeps R (deliverBundle oracle b raw track).
Proof.
  intros Ht. unfold deliverBundle.
  assert (Hobs : keeps R (when track (observe oracle (bu_GroupIdx b) (bu_SubtreeID b) (bu_HashKey b) (bu_SeqNum b) (zeros 32))))
    by (destruct track; [apply keeps_observe; auto|apply keeps_ret]).
  repeat first [exact Hobs | keeps_step | progress eauto using keeps_send_member, keeps_send_whole with keeps].
Qed.

(** ** Dispatch *)

(** The SeqNums decoders hand out. *)
Record decoders_ok : Prop := mkDecodersOk {
  do_frame raw f : DecodeFrame raw = Some f -> ok (f_SeqNum f);
  do_anchor raw f : DecodeAnchor raw = Some f -> ok (f_SeqNum f);
  do_block raw bf : DecodeBlock raw = Some bf -> ok (bf_SeqNum bf);
  do_subtree raw sf : DecodeSubtreeData raw = Some sf -> ok (sf_SeqNum sf);
  do_beef raw bf : DecodeBEEF raw = Some bf -> ok (be_SeqNum bf);
  do_bundle raw b : DecodeBundle raw = Some b -> ok (bu_SeqNum b);
  do_fragment raw ff : DecodeFragment raw = Some ff -> ok (ff_SeqNum ff)
}.

Hypothesis Hdec : decoders_ok.

Lemma keeps_processBlockFrame raw : keeps R (processBlockFrame oracle raw).
Proof. unfold processBlockFrame. keeps_auto. by eapply keeps_forward_block, do_block. Qed.

Lemma keeps_processSubtreeDataFrame raw : keeps R (processSubtreeDataFrame oracle raw).
Proof. unfold processSubtreeDataFrame. keeps_auto. by eapply keeps_forward_subtree, do_subtree. Qed.

Lemma keeps_processAnchorFrame raw : keeps R (processAnchorFrame oracle raw).
Proof. unfold processAnchorFrame. keeps_auto. by eapply keeps_observe, do_anchor. Qed.

Lemma keeps_processBundle raw : keeps R (processBundle oracle raw).
Proof.
  unfold processBundle. destruct (DecodeBundle raw) as [b|] eqn:Eb; [|apply keeps_metric].
  pose proof (do_bundle Hdec _ _ Eb) as Hs. keeps_auto; by apply keeps_deliverBundle.
Qed.

Lemma keeps_processBeefFrame raw : keeps R (processBeefFrame oracle raw).
Proof. unfold processBeefFrame. keeps_auto. by eapply keeps_deliverBeef, do_beef. Qed.

Lemma keeps_processTx raw f : ok (f_SeqNum f) -> keeps R (processTx oracle raw f).
Proof. intros Hs. unfold processTx. keeps_auto. Qed.

Hypothesis Hfrag : forall raw, keeps R (processFragment oracle raw).

Lemma keeps_processFrame raw : keeps R (processFrame oracle raw).
Proof.
  unfold processFrame. case_test; [apply keeps_processBlockFrame|].
  repeat (case_test; [apply keeps_bind; [|intros; apply keeps_ret];
    first [apply keeps_processSubtreeDataFrame | apply keeps_processAnchorFrame | apply Hfrag | apply keeps_processBundle
          | apply keeps_processBeefFrame | eapply keeps_processTx, (do_frame Hdec); eassumption]|]).
  keeps_auto.
Qed.

Lemma keeps_Reinject raw : keeps R (Reinject oracle raw).
Proof. unfold Reinject. apply keeps_bind; [apply keeps_modify, el_source|]. intros _. apply keeps_processFrame. Qed.

(** A datagram, apart from what it hands to the tee. *)
Lemma keeps_handleDatagram raw from tee :
  (tee = true -> keeps R (teeToRetry raw from)) -> keeps R (handleDatagram oracle raw from tee).
Proof.
  intros Ht. unfold handleDatagram. keeps_step; [apply keeps_gets|]. keeps_step; [apply keeps_gets|].
  case_test; [apply keeps_metric|]. keeps_step; [destruct tee; [by apply Ht|apply keeps_ret]|].
  keeps_step; [apply keeps_modify, el_source|]. keeps_step; [apply keeps_processFrame|apply keeps_ret].
Qed.

End Keeps.
