(* ===== verification/ListenerBundle.v ===== *)
(** * The receive worker: bundles

    Decoalesced members leave with consecutive SeqNums of the bundle's flow, a
    bundle is observed once, and a re-bucketed bundle is tracked on its parent's
    stream only. *)

From S2P Require Import Prelude Discovery Tracker TrackerInv TrackerProps TrackerRepair Dedup SubtreeGroup Filter Reassembly ReassemblyProps ReassemblyRepair RetryTee Listener ListenerInv ListenerEgress ListenerExample ListenerProps.

Section Bundle.
Context `{FrameLib} `{TeeLib} `{WireLib}.
Context (oracle : nat -> Answer).

(** ** The specification *)

(** The flow's egress counter before a bundle. *)
Definition stamp0 (b : Bundle) (w : Worker) : Z := default 0 (w_egressSeq w !! bu_HashKey b).

(** The sends of one re-stamped member. *)
Definition member_sends (c : Conf) (b : Bundle) (mf : Frame) : list WEvent :=
  match EncodeFrame mf (zeros (HeaderSize + length (f_Payload mf))) with
  | None => []
  | Some (len, buf) =>
      (if c_bundleAware c then [] else [WSend (take len buf) mf]) ++
      (if c_mcastEgr c then [WMcast (take len buf) mf (bu_GroupIdx b)] else [])
  end.

(** The sends of members numbered from [start + 1] on. *)
Fixpoint members_sends (c : Conf) (b : Bundle) (start : Z) (l : list Frame) : list WEvent :=
  match l with
  | [] => []
  | mf :: l => member_sends c b (restamp (u64 (start + 1)) mf) ++ members_sends c b (start + 1) l
  end.

(** The sends of a whole bundle. *)
Definition whole_sends (c : Conf) (b : Bundle) (raw : option bytes) : list WEvent :=
  if c_bundleAware c then
    match (match raw with Some r => Some r | None => EncodeBundle b end) with
    | Some r => [WSendBundle r b]
    | None => []
    end
  else [].

(** Everything a forwarded bundle sends, and the members it numbers. *)
Definition numbered (c : Conf) (b : Bundle) : list Frame :=
  if negb (c_bundleAware c) || c_mcastEgr c then Decoalesce b else [].

Definition bundle_sends (c : Conf) (b : Bundle) (raw : option bytes) (start : Z) : list WEvent :=
  whole_sends c b raw ++ members_sends c b start (numbered c b).

(** The counters after the flow of [b] was advanced by [n]. *)
Definition advanced (b : Bundle) (n : nat) (seqs : gmap Z Z) : gmap Z Z :=
  if (n =? 0)%nat then seqs
  else <[bu_HashKey b := u64 (default 0 (seqs !! bu_HashKey b) + Z.of_nat n)]> seqs.

(** ** Runs *)

Lemma run_send_member b mf w :
  exists evs n, send_member oracle b mf w = (tt, later evs n (set_egressSeq (advanced b 1 (w_egressSeq w)) w)) /\
    sends evs = member_sends (w_conf w) b (restamp (u64 (stamp0 b w + 1)) mf).
Proof.
  unfold send_member. rewrite !run_bind. cbn [gets modify fst snd].
  fold (stamp0 b w).
  fold (restamp (u64 (stamp0 b w + 1)) mf). unfold member_sends, advanced. cbn [Nat.eqb Z.of_nat]. fold (stamp0 b w).
  set (w1 := set_egressSeq _ w). destruct (EncodeFrame _ _) as [[len buf]|].
  - rewrite run_bind.
    assert (exists e1 n1, when (negb (c_bundleAware (w_conf w)))
                (egr_send oracle (WSend (take len buf) (restamp (u64 (stamp0 b w + 1)) mf))) w1 = (tt, later e1 n1 w1) /\
              sends e1 = if c_bundleAware (w_conf w) then []
                         else [WSend (take len buf) (restamp (u64 (stamp0 b w + 1)) mf)]) as (e1 & n1 & -> & S1).
    { destruct (c_bundleAware (w_conf w)); cbn [negb when].
      - exists [], 0%nat. by rewrite <- later_0.
      - destruct (run_egr_send oracle (WSend (take len buf) (restamp (u64 (stamp0 b w + 1)) mf)) w1) as (c1 & -> & Q1).
        eexists _, _. split; [done|]. by rewrite sends_cons, Q1. }
    cbn [fst snd].
    destruct (run_mcast_send oracle (WMcast (take len buf) (restamp (u64 (stamp0 b w + 1)) mf) (bu_GroupIdx b))
                (later e1 n1 w1)) as (c2 & n2 & -> & Q2).
    rewrite later_later. eexists _, _. split; [done|]. rewrite !sends_app, S1, Q2, app_nil_r. f_equal.
    change (w_conf (later e1 n1 w1)) with (w_conf w). by destruct (c_mcastEgr (w_conf w)).
  - destruct (run_metric EgressError w1) as (c1 & -> & Q1); [done|]. by exists c1, 0%nat.
Qed.

Lemma members_sends_cong c b l s s' : u64 s = u64 s' -> members_sends c b s l = members_sends c b s' l.
Proof.
  revert s s'. induction l as [|mf l IH]; intros s s' Hs; [done|]. cbn.
  assert (u64 (s + 1) = u64 (s' + 1)) as E by (by rewrite <- u64_succ, Hs, u64_succ). rewrite E.
  f_equal. by apply IH.
Qed.

Lemma advanced_advanced b n seqs : advanced b n (advanced b 1 seqs) = advanced b (S n) seqs.
Proof.
  unfold advanced. cbn [Nat.eqb]. destruct n as [|n]; [done|]. cbn [Nat.eqb].
  rewrite lookup_insert_eq, insert_insert_eq. cbn [from_option id].
  assert (forall d, u64 (u64 (d + Z.of_nat 1) + Z.of_nat (S n)) = u64 (d + Z.of_nat (S (S n)))) as E.
  { intros d. unfold u64. rewrite Zplus_mod_idemp_l. f_equal. lia. }
  by rewrite E.
Qed.

Lemma egressSeq_same w : set_egressSeq (w_egressSeq w) w = w.
Proof. by destruct w. Qed.

Lemma run_members b l w :
  exists evs n, for_each (send_member oracle b) l w =
      (tt, later evs n (set_egressSeq (advanced b (length l) (w_egressSeq w)) w)) /\
    sends evs = members_sends (w_conf w) b (stamp0 b w) l.
Proof.
  revert w. induction l as [|mf l IH]; intros w.
  { exists [], 0%nat. cbn. by rewrite egressSeq_same, <- later_0. }
  cbn [for_each]. rewrite run_bind. destruct (run_send_member b mf w) as (e1 & n1 & -> & S1). cbn [fst snd].
  match goal with |- context [for_each _ l ?w1] => destruct (IH w1) as (e2 & n2 & -> & S2) end.
  exists (e1 ++ e2), (n2 + n1)%nat. split.
  - f_equal. cbn [later w_egressSeq set_egressSeq add_log set_asked]. rewrite advanced_advanced, <- later_later. done.
  - rewrite sends_app, S1, S2. cbn [members_sends]. f_equal. apply members_sends_cong.
    unfold stamp0 at 1. cbn. rewrite lookup_insert_eq. cbn. unfold u64. by rewrite Zmod_mod.
Qed.

Lemma run_send_whole b raw w :
  c_bundleAware (w_conf w) = true ->
  exists evs n, send_whole oracle b raw w = (tt, later evs n w) /\ sends evs = whole_sends (w_conf w) b raw.
Proof.
  intros Hb. unfold send_whole, whole_sends. rewrite Hb.
  assert (forall r, exists evs n, egr_send oracle (WSendBundle r b) w = (tt, later evs n w) /\ sends evs = [WSendBundle r b]).
  { intros r. destruct (run_egr_send oracle (WSendBundle r b) w) as (c1 & -> & Q1).
    eexists _, _. split; [done|]. by rewrite sends_cons, Q1. }
  destruct raw as [r|]; [done|]. destruct (EncodeBundle b) as [r|]; [done|].
  destruct (run_metric EgressError w) as (c1 & -> & Q1); [done|]. by exists c1, 0%nat.
Qed.

(** Both forms of delivery after the gates. *)
Lemma run_bundle_sends b raw w :
  exists evs n,
    (c ← gets w_conf;
     when (c_bundleAware c) (send_whole oracle b raw) ;;
     when (negb (c_bundleAware c) || c_mcastEgr c) (for_each (send_member oracle b) (Decoalesce b))) w =
      (tt, later evs n (set_egressSeq (advanced b (length (numbered (w_conf w) b)) (w_egressSeq w)) w)) /\
    sends evs = bundle_sends (w_conf w) b raw (stamp0 b w).
Proof.
  rewrite run_bind. cbn [gets fst snd]. rewrite run_bind. unfold bundle_sends.
  assert (exists e1 n1, when (c_bundleAware (w_conf w)) (send_whole oracle b raw) w = (tt, later e1 n1 w) /\
            sends e1 = whole_sends (w_conf w) b raw) as (e1 & n1 & -> & S1).
  { destruct (c_bundleAware (w_conf w)) eqn:Hb; cbn [when]; [by apply run_send_whole|].
    exists [], 0%nat. rewrite <- later_0. unfold whole_sends. by rewrite Hb. }
  cbn [fst snd]. unfold numbered. destruct (negb (c_bundleAware (w_conf w)) || c_mcastEgr (w_conf w)); cbn [when].
  - destruct (run_members b (Decoalesce b) (later e1 n1 w)) as (e2 & n2 & -> & S2).
    exists (e1 ++ e2), (n2 + n1)%nat. rewrite sends_app, S1, S2. split; [|done]. f_equal. by rewrite <- later_later.
  - exists e1, n1. cbn. rewrite app_nil_r. split; [|done]. f_equal.
Qed.

(** The gap tracking of a bundle. *)
Definition tracked (track : bool) (k : nat) (b : Bundle) (w : Worker) : option Tracker :=
  if track then observed oracle k (c_id (w_conf w)) (bu_GroupIdx b) (bu_SubtreeID b) (bu_HashKey b) (bu_SeqNum b) (zeros 32) w
  else w_tracker w.

Lemma run_track track b w :
  bu_SeqNum b <> 0 ->
  exists n k, when track (observe oracle (bu_GroupIdx b) (bu_SubtreeID b) (bu_HashKey b) (bu_SeqNum b) (zeros 32)) w =
    (tt, later [] n (set_tracker (tracked track k b w) w)).
Proof.
  intros Hs. destruct track; cbn [when tracked]; [by apply run_observe_stamped|].
  exists 0%nat, 0%nat. unfold later, add_log, set_asked, set_tracker. cbn. rewrite app_nil_r. by destruct w.
Qed.

(** C20: a stamped bundle, end to end.  Refused by the filter it has no effect.
    Otherwise the tracker observes it exactly once if it is tracked, whether or
    not it is forwarded; lost to a sibling or seen before it sends nothing and
    advances no counter; forwarded, it goes whole to a bundle-aware sink, and its
    members go to the other lanes under consecutive fresh SeqNums of the bundle's
    flow, in order, continuing where the last bundle of the flow stopped, with the
    counters of other flows untouched. *)
Theorem bundle_delivery (b : Bundle) (raw : option bytes) (track : bool) (w : Worker) :
  bu_SeqNum b <> 0 ->
  let c := w_conf w in
  let w' := (deliverBundle oracle b raw track w).2 in
  exists evs, w_log w' = w_log w ++ evs /\
    if fst (Filter.Allow (an_seen (oracle (w_asked w))) (c_filt c) (bu_GroupIdx b) (bu_SubtreeID b)) then
      (exists k, w_tracker w' = tracked track k b w) /\
      let lost := lost_claim c (oracle (S (w_asked w))) in
      exists now,
        let '(dup, s) := if lost then (false, w_dedup w)
                         else seen_at now (mkKey (bu_GroupIdx b) (bu_SubtreeID b) (bu_SeqNum b)) (w_dedup w) in
        w_dedup w' = s /\
        sends evs = (if lost || dup then [] else bundle_sends c b raw (stamp0 b w)) /\
        w_egressSeq w' = (if lost || dup then w_egressSeq w else advanced b (length (numbered c b)) (w_egressSeq w))
    else w_tracker w' = w_tracker w /\ w_dedup w' = w_dedup w /\ w_egressSeq w' = w_egressSeq w /\ sends evs = [].
Proof.
  intros Hs c w'. unfold w', deliverBundle. rewrite (proj2 (Z.eqb_neq _ _) Hs). rewrite run_bind.
  destruct (run_allowed oracle (bu_GroupIdx b) (bu_SubtreeID b) w) as (c0 & -> & Q0). fold c.
  cbn [fst snd]. destruct (fst (Filter.Allow _ _ _ _)); cbn [negb]; [|by exists c0].
  rewrite run_bind.
  match goal with |- context [claim_lost oracle ?key ?w1] =>
    destruct (run_claim oracle key w1) as (lost & c1 & n1 & -> & Q1 & Hl) end.
  rewrite later_conf, later_asked in Hl. fold c in Hl. cbn [Nat.add] in Hl. rewrite <- Hl.
  cbn [fst snd]. rewrite later_later. clear Hl. destruct lost.
  { match goal with |- context [when track _ ?w2] => destruct (run_track track b w2 Hs) as (n2 & k & ->) end.
    exists (c0 ++ c1). cbn. rewrite app_nil_r. split; [done|]. split; [exists k; by destruct track|]. exists 0.
    split; [done|]. split; [by apply quiet_app|done]. }
  rewrite run_bind.
  match goal with |- context [seen oracle ?key ?w2] =>
    destruct (run_seen oracle key w2) as (now & c2 & n2 & Q2 & ->) end.
  cbn [fst snd]. change (w_dedup (later _ _ w)) with (w_dedup w).
  destruct (seen_at now _ (w_dedup w)) as [dup s] eqn:Es. cbn [fst snd].
  set (w2 := later c2 n2 _). assert (Hq : quiet ((c0 ++ c1) ++ c2)) by (by repeat apply quiet_app).
  destruct (run_track track b w2 Hs) as (n3 & k & Ht).
  destruct dup.
  { rewrite Ht. exists ((c0 ++ c1) ++ c2). cbn. rewrite app_nil_r, <- !app_assoc. split; [done|].
    split; [exists k; by destruct track|]. exists now. rewrite Es. split; [done|].
    split; [by rewrite app_assoc|done]. }
  rewrite run_bind, Ht. cbn [fst snd].
  match goal with |- context [(_ ≫= _) ?w3] => destruct (run_bundle_sends b raw w3) as (e4 & n4 & -> & S4) end.
  exists (((c0 ++ c1) ++ c2) ++ e4). split; [cbn; by rewrite app_nil_r, <- !app_assoc|].
  split; [exists k; by destruct track|].
  exists now. rewrite Es. split; [done|]. split; [|done].
  unfold quiet in Hq. by rewrite sends_app, Hq, S4.
Qed.

(** ** Re-bucketing *)

(** A step that leaves the tracker and what an observation reads alone. *)
Definition untracked {A} (m : M A) : Prop :=
  forall w, w_tracker (m w).2 = w_tracker w /\ w_curSource (m w).2 = w_curSource w /\ w_conf (m w).2 = w_conf w.

Lemma untracked_ret {A} (a : A) : untracked (mret a).
Proof. done. Qed.

Lemma untracked_bind {A B} (m : M A) (k : A -> M B) : untracked m -> (forall a, untracked (k a)) -> untracked (mbind k m).
Proof.
  intros Hm Hk w. rewrite run_bind. destruct (Hm w) as (E1 & E2 & E3). destruct (Hk (m w).1 (m w).2) as (F1 & F2 & F3).
  by rewrite F1, F2, F3.
Qed.

Lemma untracked_when b m : untracked m -> untracked (when b m).
Proof. by destruct b. Qed.

Lemma untracked_for_each {A} (f : A -> M unit) l : (forall x, untracked (f x)) -> untracked (for_each f l).
Proof. intros Hf. induction l as [|x l IH]; [done|]. cbn. apply untracked_bind; [done|]. by intros _. Qed.

(** What the run lemmas say of the tracker. *)
Ltac untracked_run := intros w;
  first
  [ match goal with |- context [claim_lost oracle ?key w] => destruct (run_claim oracle key w) as (? & ? & ? & -> & _) end
  | match goal with |- context [seen oracle ?key w] => destruct (run_seen oracle key w) as (? & ? & ? & _ & ->) end
  | match goal with |- context [allowed oracle ?g ?sid w] => destruct (run_allowed oracle g sid w) as (? & -> & _) end
  | match goal with |- context [egr_send oracle ?ev w] => destruct (run_egr_send oracle ev w) as (? & -> & _) end
  | match goal with |- context [send_member oracle ?b ?mf w] => destruct (run_send_member b mf w) as (? & ? & -> & _) end
  ]; done.

Lemma untracked_child b raw : untracked (deliverBundle oracle b raw false).
Proof.
  unfold deliverBundle. apply untracked_bind; [untracked_run|]. intros okb. destruct okb; cbn [negb when]; [|done].
  apply untracked_bind; [case_test; [done|untracked_run]|]. intros lost. destruct lost; [done|].
  apply untracked_bind; [case_test; [done|untracked_run]|]. intros dup. destruct dup; [done|].
  apply untracked_bind; [done|]. intros _. apply untracked_bind; [done|]. intros c.
  apply untracked_bind; [|intros _]; apply untracked_when.
  - unfold send_whole. repeat case_test; first [untracked_run | done].
  - apply untracked_for_each. intros mf. untracked_run.
Qed.

(** A bundle of another shard generation is tracked on its parent stream and
    on nothing else: whatever its children are and however they fare, the tracker
    ends up having observed exactly the parent's SeqNum, once, so the local
    numbering of the children can raise no phantom gaps. *)
Theorem rebucket_tracks_parent (raw : bytes) (b : Bundle) (w : Worker) :
  DecodeBundle raw = Some b -> bu_SeqNum b <> 0 ->
  bu_ShardBits b <> 0 -> bu_ShardBits b <> en_ShardBits (c_engine (w_conf w)) ->
  exists k, w_tracker (processBundle oracle raw w).2 = tracked true k b w.
Proof.
  intros Hd Hs Hb Hg. unfold processBundle. rewrite Hd, run_bind.
  destruct (run_metric (FrameReceived "brc142") w) as (c1 & -> & _); [done|]. cbn [fst snd].
  rewrite run_bind. cbn [gets fst snd]. rewrite later_conf.
  rewrite (proj2 (Z.eqb_neq _ _) Hb), (proj2 (Z.eqb_neq _ _) Hg). cbn [negb andb].
  rewrite run_bind. cbn [gets fst snd]. destruct (Rebucket _ _ _) as [children r].
  assert (Hu : forall m : M unit, untracked m -> forall w1,
            w_tracker w1 = w_tracker w -> w_curSource w1 = w_curSource w -> w_conf w1 = w_conf w ->
            exists k, w_tracker ((m ;; observe oracle (bu_GroupIdx b) (bu_SubtreeID b) (bu_HashKey b) (bu_SeqNum b) (zeros 32)) w1).2 =
              tracked true k b w).
  { intros m Hm w1 E1 E2 E3. rewrite run_bind. destruct (Hm w1) as (F1 & F2 & F3).
    destruct (run_observe_stamped oracle (bu_GroupIdx b) (bu_SubtreeID b) (bu_HashKey b) _ (zeros 32) (m w1).2 Hs)
      as (n & k & ->).
    exists k. cbn. unfold observed. by rewrite F1, F2, F3, E1, E2, E3. }
  rewrite run_bind. cbn [gets fst snd]. rewrite run_bind. cbn [modify fst snd]. rewrite run_bind.
  rewrite run_bind. apply Hu; [apply untracked_for_each; intros; apply untracked_child| | |];
    by destruct (c_relay (w_conf w)).
Qed.

End Bundle.

#[local] Existing Instances lib0 tee0 wire0.

(** Two bundles of one flow: their members are numbered 1 to 3 across both. *)
Definition raw1 : bytes := [8; 5; 4; 70; 71].

Definition bundle1 : @Bundle wire0 := raw1.

Definition bundle2 : @Bundle wire0 := [8; 6; 4; 72].

Lemma bundle_delivery_witness :
  let w1 := (deliverBundle oracle0 bundle1 (Some raw1) true worker0).2 in
  (exists k, w_tracker w1 = tracked oracle0 true k bundle1 worker0) /\
  sends (w_log w1) = bundle_sends conf0 bundle1 (Some raw1) 0 /\
  (f_SeqNum <$> omap (fun ev => match ev with WSend _ f => Some f | _ => None end)
     (w_log (deliverBundle oracle0 bundle2 None true w1).2)) = [1; 2; 3].
Proof.
  intros w1.
  destruct (bundle_delivery oracle0 bundle1 (Some raw1) true worker0 ltac:(discriminate)) as (evs & Hl & [Ht Hrest]).
  split; [exact Ht|]. split; [|vm_compute; reflexivity].
  destruct Hrest as (now & Hd). cbn [lost_claim is_set andb conf0 c_txDedup w_conf worker0 NewWorker] in Hd.
  change (w_log worker0) with (@nil WEvent) in Hl. cbn [app] in Hl. unfold w1. rewrite Hl.
  revert Hd. destruct (seen_at now _ _) as [dup s] eqn:Es. assert (dup = false) as ->.
  { vm_compute in Es. by simplify_eq. }
  intros (_ & Hs & _). exact Hs.
Defined.

(** A parent of generation 3 on a listener of generation 4. *)
Definition parent1 : @Bundle wire0 := [8; 5; 3; 70].

Lemma rebucket_tracks_parent_witness :
  exists k, w_tracker (processBundle oracle0 [8; 5; 3; 70] worker0).2 = tracked oracle0 true k parent1 worker0.
Proof.
  apply (rebucket_tracks_parent oracle0 [8; 5; 3; 70] parent1 worker0); [reflexivity|discriminate|discriminate|].
  discriminate.
Defined.
