(* ===== verification/ListenerClaims.v ===== *)
(** * The receive worker: claims pay for sends

    A logic that counts.  A claim that was not lost earns one credit for its
    transaction id and a V2 transaction handed to the egress sink spends one;
    [earns c k m f] says that [m] keeps the configuration [c] and its events
    leave at least [f] of the result in credits for the id [k].  With a claim
    store, every input but a bundle the worker splits leaves it without a debt. *)

From S2P Require Import Prelude Discovery Tracker TrackerRepair Dedup SubtreeGroup Filter Reassembly ReassemblyRepair RetryTee Listener ListenerInv.

Section Claims.
Context `{FrameLib} `{TeeLib} `{WireLib}.

(** ** Credits *)

Definition permits (r : ClaimResult) : bool := match r with ClaimLost => false | _ => true end.

Definition credit (k : bytes) (ev : WEvent) : Z :=
  match ev with
  | WClaim key r => if bool_decide (key = k) && permits r then 1 else 0
  | WSend raw f => if bool_decide (f_TxID f = k) && (f_Version f =? FrameVerV2) then -1 else 0
  | _ => 0
  end.

Definition credits (k : bytes) (evs : list WEvent) : Z := foldr (fun ev n => credit k ev + n) 0 evs.

Lemma credits_app k evs evs' : credits k (evs ++ evs') = credits k evs + credits k evs'.
Proof. unfold credits. induction evs as [|ev evs IH]; cbn; [lia|]. rewrite IH. lia. Qed.

Context (oracle : nat -> Answer) (c : Conf) (k : bytes).

Definition earns {A} (m : M A) (f : A -> Z) : Prop :=
  forall w, w_conf w = c ->
    w_conf (m w).2 = c /\ exists evs, w_log (m w).2 = w_log w ++ evs /\ f (m w).1 <= credits k evs.

(** ** Rules *)

Lemma earns_bind {A B} (m : M A) (g : A -> M B) (f : A -> Z) (r : B -> Z) :
  earns m f -> (forall a, earns (g a) (fun b => r b - f a)) -> earns (mbind g m) r.
Proof.
  intros Hm Hg w Hw. destruct (Hm w Hw) as (Hc & evs & Hl & He). rewrite run_bind.
  destruct (Hg (m w).1 (m w).2 Hc) as (Hc' & evs' & Hl' & He'). split; [done|].
  exists (evs ++ evs'). rewrite Hl', Hl, app_assoc. split; [done|]. rewrite credits_app. lia.
Qed.

Lemma earns_weaken {A} (m : M A) (f r : A -> Z) : earns m f -> (forall a, r a <= f a) -> earns m r.
Proof.
  intros Hm Hr w Hw. destruct (Hm w Hw) as (Hc & evs & Hl & He). split; [done|]. exists evs.
  split; [done|]. specialize (Hr (m w).1). lia.
Qed.

Lemma earns_ret {A} (a : A) (f : A -> Z) : f a <= 0 -> earns (mret a) f.
Proof. intros Hf w Hw. split; [done|]. exists []. by rewrite app_nil_r. Qed.

(** Events that spend nothing. *)
Definition free (ev : WEvent) : Prop := 0 <= credit k ev.

Lemma credits_free evs : Forall free evs -> 0 <= credits k evs.
Proof. induction 1 as [|ev evs He _ IH]; cbn; [done|]. unfold free in He. fold (credits k evs). lia. Qed.

(** Code whose events are all free, by the logic of [emits]. *)
Lemma earns_emits {A} (m : M A) : emits c free m (fun _ => True) -> earns m (fun _ => 0).
Proof.
  intros Hm w Hw. destruct (Hm w Hw) as (Hc & _ & evs & Hl & He). split; [done|]. exists evs.
  split; [done|]. by apply credits_free.
Qed.

Lemma free_count ev : is_send ev = false -> free ev.
Proof. unfold free. destruct ev; try done. intros _. cbn. by case_match. Qed.

(** Free code first: it changes no account. *)
Lemma earns_seq {A B} (m : M A) (g : A -> M B) (r : B -> Z) :
  emits c free m (fun _ => True) -> (forall a, earns (g a) r) -> earns (mbind g m) r.
Proof.
  intros Hm Hg. eapply earns_bind; [by eapply earns_emits|]. intros a. eapply earns_weaken; [apply Hg|].
  intros b. lia.
Qed.

Lemma earns_conf {B} (g : Conf -> M B) (r : B -> Z) : earns (g c) r -> earns (mbind g (gets w_conf)) r.
Proof. intros Hg w Hw. rewrite run_bind. cbn [gets fst snd]. rewrite Hw. by apply Hg. Qed.

Lemma earns_for_each {A} (f : A -> M unit) l : (forall x, earns (f x) (fun _ => 0)) -> earns (for_each f l) (fun _ => 0).
Proof.
  intros Hf. induction l as [|x l IH]; [by apply earns_ret|]. cbn [for_each].
  eapply earns_bind; [apply Hf|]. intros a. apply (earns_weaken _ _ _ IH). lia.
Qed.

(** ** Claims and sends *)

Definition charge (f : Frame) : Z := if bool_decide (f_TxID f = k) && (f_Version f =? FrameVerV2) then 1 else 0.

Lemma earns_send raw f : earns (egr_send oracle (WSend raw f)) (fun _ => - charge f).
Proof.
  intros w Hw. unfold egr_send. rewrite !run_bind. cbn. split; [done|]. eexists. rewrite <- app_assoc. split; [done|].
  rewrite credits_app. unfold charge. cbn. repeat case_match; cbn; lia.
Qed.

Hypothesis Hstore : is_set (c_txDedup c) = true.

Lemma earns_claim key :
  earns (claim_lost oracle key) (fun lost => if negb lost && bool_decide (key = k) then 1 else 0).
Proof.
  intros w Hw. unfold claim_lost. rewrite run_bind. cbn [gets fst snd]. rewrite Hw, Hstore. cbn [negb].
  rewrite !run_bind. cbn [ask fst snd].
  destruct (an_claim (oracle (w_asked w))); rewrite ?run_bind; cbn; split; try done;
    eexists; rewrite <- ?app_assoc; (split; [done|]); rewrite ?credits_app; cbn;
    repeat case_match; cbn; try done; lia.
Qed.

(** A claim and, unless it is lost, code that spends at most one credit for it. *)
Lemma earns_claimed {B} (g : bool -> M B) (f : Frame) :
  earns (g true) (fun _ => 0) -> earns (g false) (fun _ => - charge f) ->
  earns (mbind g (claim_lost oracle (f_TxID f))) (fun _ => 0).
Proof.
  intros Ht Hf. eapply earns_bind; [apply earns_claim|]. intros [|]; cbn [negb andb].
  - by apply (earns_weaken _ _ _ Ht).
  - apply (earns_weaken _ _ _ Hf). intros _. unfold charge. repeat case_match; cbn in *; try lia; try done.
Qed.

(** ** The handlers that send no transaction *)

Create HintDb free.

Local Abbreviation quiet_code m := (emits c free m (fun _ => True)).

(** The cases below: shared steps, counters, sends of other classes. *)
Ltac free_ev := first [apply free_count; by repeat case_match | done].

Ltac quiet_step :=
  lazymatch goal with
  | |- emits _ _ (mbind _ _) _ => emits_bind_step
  | |- emits _ _ (observe_as _ _ _ _ _ _ _) _ => apply emits_observe_as
  | |- emits _ _ (observe _ _ _ _ _ _) _ => apply emits_observe
  | |- emits _ _ (mark _) _ => apply emits_mark, free_count
  | |- emits _ _ (claim_lost _ _) _ => apply emits_claim, free_count
  | |- emits _ _ (seen _ _) _ => apply emits_seen, free_count
  | |- emits _ _ (egr_send _ _) _ => apply emits_egr_send; [apply free_count|free_ev]
  | |- emits _ _ (mcast_send _ _) _ => apply emits_mcast_send; [apply free_count|intros _; free_ev]
  | |- emits _ _ (allowed _ _ _) _ => eapply emits_weaken; [apply emits_allowed, free_count|done]
  | |- emits _ _ (blockGateAllows _ _) _ => eapply emits_weaken; [apply emits_gate, free_count|done]
  | |- emits _ _ (metric _) _ => apply emits_metric; free_ev
  | |- emits _ _ (emit _) _ => apply emits_emit; free_ev
  | |- emits _ _ (mret _) _ => by apply emits_ret
  | Hb : c_bundleAware c = true |- emits _ _ (when _ _) _ =>
      let Hw := fresh in apply emits_when; intros Hw; try (rewrite Hb in Hw; discriminate Hw)
  | |- emits _ _ _ _ => emits_leaf
  end.

Ltac quiet_auto := repeat (first [by eauto with free | quiet_step]).

Lemma header_lanes_free buf : quiet_code (header_lanes oracle buf).
Proof. unfold header_lanes. quiet_auto. Qed.

#[local] Hint Resolve header_lanes_free : free.

Lemma forward_block_free raw bf : quiet_code (forward_block oracle raw bf).
Proof.
  unfold forward_block, emitBlockHeader.
  quiet_auto.
Qed.

#[local] Hint Resolve forward_block_free : free.

Lemma processBlockFrame_free raw : quiet_code (processBlockFrame oracle raw).
Proof. unfold processBlockFrame. quiet_auto. Qed.

Lemma DeliverReassembledBlock_free p bf : quiet_code (DeliverReassembledBlock oracle p bf).
Proof. unfold DeliverReassembledBlock. quiet_auto. Qed.

Lemma processSubtreeDataFrame_free raw : quiet_code (processSubtreeDataFrame oracle raw).
Proof. unfold processSubtreeDataFrame, forward_subtree. quiet_auto. Qed.

Lemma DeliverReassembledSubtreeData_free p sf : quiet_code (DeliverReassembledSubtreeData oracle p sf).
Proof. unfold DeliverReassembledSubtreeData, forward_subtree. quiet_auto. Qed.

Lemma deliverBeef_free raw bf : quiet_code (deliverBeef oracle raw bf).
Proof. unfold deliverBeef. quiet_auto. Qed.

#[local] Hint Resolve deliverBeef_free : free.

Lemma processBeefFrame_free raw : quiet_code (processBeefFrame oracle raw).
Proof. unfold processBeefFrame. quiet_auto. Qed.

Lemma DeliverReassembledBeefFrame_free buf bf : quiet_code (DeliverReassembledBeefFrame oracle buf bf).
Proof. unfold DeliverReassembledBeefFrame. quiet_auto. Qed.

Lemma deliverBundle_free b raw track : c_bundleAware c = true -> quiet_code (deliverBundle oracle b raw track).
Proof.
  intros Hb. unfold deliverBundle, send_whole, send_member. quiet_auto.
Qed.

#[local] Hint Resolve deliverBundle_free processBlockFrame_free processSubtreeDataFrame_free processBeefFrame_free : free.

Lemma processBundle_free raw : c_bundleAware c = true -> quiet_code (processBundle oracle raw).
Proof. intros Hb. unfold processBundle. quiet_auto. Qed.

(** ** The handlers that send transactions *)

(** Sends of other kinds after the egress send, and the books. *)
Ltac spend := eapply earns_bind; [apply earns_send|]; intros []; eapply earns_weaken; [eapply earns_emits; quiet_auto|intros ?; cbv beta; lia].

Lemma processAnchorFrame_earns raw : earns (processAnchorFrame oracle raw) (fun _ => 0).
Proof.
  unfold processAnchorFrame. destruct (DecodeAnchor raw) as [f|]; [|eapply earns_emits; quiet_auto].
  eapply earns_seq; [quiet_auto|]. intros _. eapply earns_seq; [quiet_auto|]. intros _.
  apply (earns_claimed _ f).
  - eapply earns_emits. quiet_auto.
  - spend.
Qed.

Lemma DeliverReassembled_earns p f : earns (DeliverReassembled oracle p f) (fun _ => 0).
Proof.
  unfold DeliverReassembled. apply earns_conf. eapply earns_seq; [quiet_auto|]. intros _.
  eapply earns_seq; [quiet_auto|]. intros [|]; cbn [negb]; [|eapply earns_emits; quiet_auto].
  eapply earns_seq; [quiet_auto|]. intros _. apply (earns_claimed _ f).
  - eapply earns_emits. quiet_auto.
  - destruct (EncodeFrame f _) as [[n raw]|]; [spend|]. apply earns_ret. unfold charge. by case_match.
Qed.

Lemma processTx_earns raw f : earns (processTx oracle raw f) (fun _ => 0).
Proof.
  unfold processTx. eapply earns_seq; [quiet_auto|]. intros _. eapply earns_seq; [quiet_auto|]. intros _.
  apply earns_conf. destruct (payload_refused c f) as [ev|] eqn:Ep.
  { eapply earns_emits, emits_metric, free_count. unfold payload_refused in Ep. by repeat case_match; simplify_eq. }
  eapply earns_seq; [quiet_auto|]. intros [|]; cbn [negb]; [|eapply earns_emits; quiet_auto].
  assert (Hsend : earns (dup ← (if (f_Version f =? FrameVerV2) && negb (f_SeqNum f =? 0)
      then seen oracle (mkKey (en_GroupIndex (c_engine c) (f_TxID f)) (f_SubtreeID f) (f_SeqNum f)) else mret false);
    if (dup : bool) then observe oracle (en_GroupIndex (c_engine c) (f_TxID f)) (f_SubtreeID f) (f_HashKey f) (f_SeqNum f) (f_TxID f) else
    egr_send oracle (WSend raw f) ;;
    mcast_send oracle (WMcast raw f (en_GroupIndex (c_engine c) (f_TxID f))) ;;
    when (f_Version f =? FrameVerV2)
      (observe oracle (en_GroupIndex (c_engine c) (f_TxID f)) (f_SubtreeID f) (f_HashKey f) (f_SeqNum f) (f_TxID f)))
    (fun _ => - charge f)).
  { eapply earns_seq; [quiet_auto|]. intros [|]; [|spend].
    eapply earns_weaken; [eapply earns_emits; quiet_auto|]. intros ?. unfold charge. by case_match. }
  destruct (f_Version f =? FrameVerV2) eqn:Ev; cbn [andb] in *.
  - apply (earns_claimed _ f); [eapply earns_emits; quiet_auto|exact Hsend].
  - eapply earns_seq; [quiet_auto|]. intros [|]; [eapply earns_emits; quiet_auto|].
    eapply earns_weaken; [exact Hsend|]. intros ?. unfold charge. rewrite Ev, andb_false_r. done.
Qed.

Lemma on_event_earns ev : earns (on_event oracle ev) (fun _ => 0).
Proof.
  destruct ev; cbn [on_event]; try (eapply earns_emits; apply emits_emit; free_ev).
  - eapply earns_emits, DeliverReassembledBlock_free.
  - eapply earns_emits, DeliverReassembledSubtreeData_free.
  - eapply earns_emits, DeliverReassembledBeefFrame_free.
  - eapply earns_emits, DeliverReassembledBeefFrame_free.
  - apply DeliverReassembled_earns.
Qed.

Lemma processFragment_earns raw : earns (processFragment oracle raw) (fun _ => 0).
Proof.
  unfold processFragment. eapply earns_seq; [apply emits_any|]. intros [b|]; [|eapply earns_emits; quiet_auto].
  destruct (DecodeFragment raw) as [ff|]; [|eapply earns_emits; quiet_auto].
  apply (earns_bind _ _ (fun _ => 0)); [|intros []; apply (earns_weaken _ (fun _ => 0)); [eapply earns_emits; quiet_auto|done]].
  unfold observeFragment. apply earns_conf. eapply earns_seq; [apply emits_any|]. intros t.
  eapply earns_seq; [apply emits_ask|]. intros a.
  destruct (Reassembly.Observe _ _ _ _ _ _) as [[b' t'] evs].
  eapply earns_seq; [by apply emits_modify|]. intros _. apply earns_for_each, on_event_earns.
Qed.

(** A bundle the worker hands to its sink member by member; members are not
    claimed by their ids. *)
Definition splits (raw : bytes) : bool := IsBundle raw && negb (c_bundleAware c).

Lemma processFrame_earns raw : splits raw = false -> earns (processFrame oracle raw) (fun _ => 0).
Proof.
  unfold splits, processFrame. intros Hs. case_test; [eapply earns_emits, processBlockFrame_free|].
  repeat (case_test; [apply (earns_bind _ _ (fun _ => 0)); [|by intros; apply earns_ret];
    first [eapply earns_emits, processSubtreeDataFrame_free | apply processAnchorFrame_earns
          | apply processFragment_earns | eapply earns_emits, processBundle_free; by destruct (c_bundleAware c)
          | eapply earns_emits, processBeefFrame_free | apply processTx_earns]|]).
  eapply earns_emits. quiet_auto.
Qed.

(** ** Runs of a worker *)

Lemma handleDatagram_earns raw from tee : splits raw = false -> earns (handleDatagram oracle raw from tee) (fun _ => 0).
Proof.
  intros Hs. unfold handleDatagram. apply earns_conf. eapply earns_seq; [apply emits_any|]. intros t.
  case_test; [eapply earns_emits; quiet_auto|]. eapply earns_seq.
  { unfold teeToRetry. quiet_auto. }
  intros _. eapply earns_seq; [by apply emits_modify|]. intros _.
  apply (earns_bind _ _ (fun _ => 0)); [by apply processFrame_earns|by intros; apply earns_ret].
Qed.

Lemma Reinject_earns raw : splits raw = false -> earns (Reinject oracle raw) (fun _ => 0).
Proof. intros Hs. unfold Reinject. eapply earns_seq; [by apply emits_modify|]. intros _. by apply processFrame_earns. Qed.

End Claims.
