(* ===== verification/ListenerMetrics.v ===== *)
(** * What a worker counts

    The counters a worker's events move, and the conservation of transaction
    frames: every frame counted as received is counted once more, as forwarded,
    failed, suppressed or dropped. *)

From stdpp Require Import pretty.
From S2P Require Import Prelude Discovery Tracker TrackerRepair Dedup SubtreeGroup Filter Reassembly ReassemblyProps ReassemblyRepair RetryTee Metrics MetricsProps Listener ListenerInv ListenerExample.

(** ** From events to calls *)

(** The hooks the node sets on a reassembly buffer. *)
Definition reassembly_calls (ev : REvent) : list Call :=
  match ev with
  | EvStarted => [CReassemblyStarted]
  | EvAbandoned => [CReassemblyAbandoned]
  | EvAbandonedReason reason => [CReassemblyAbandonedReason reason]
  | EvExtended => [CReassemblyRepairWait]
  | EvLateDone => [CReassemblyRepairWaitCompleted]
  | EvLateFragment => [CReassemblyLateFragment]
  | EvBadFragment => [CReassemblyBadFragment]
  | EvOversize => [CReassemblyOversize]
  | EvHashMismatch => [CReassemblyHashMismatch]
  | _ => []
  end.

(** [MCastSender.Proto]. *)
Definition mcastProto : string := "udp-mcast".

Section Counting.
Context `{FrameLib} `{TeeLib} `{WL : WireLib}.
Context (oracle : nat -> Answer) (c : Conf) (iface proto : string).

(** The call an event of the worker stands for. *)
Definition event_calls (ev : WEvent) : list Call :=
  match ev with
  | FrameReceived ver => [CFrameReceived (c_id c) iface ver]
  | FrameDropped reason => [CFrameDropped (c_id c) reason]
  | FrameInvalidPayload => [CFrameInvalidPayload (c_id c)]
  | FrameTxDeduped => [CFrameTxDeduped (c_id c)]
  | FrameDeduped => [CFrameDeduped (c_id c)]
  | TxDedupError => [CTxDedupError]
  | FrameForwarded => [CFrameForwarded (c_id c) proto]
  | EgressError => [CEgressError (c_id c)]
  | MCForwarded => [CFrameForwarded (c_id c) mcastProto]
  | MCEgressError => [CMCEgressError (c_id c)]
  | HeaderForwarded => [CHeaderForwarded (c_id c)]
  | HeaderEgressError => [CHeaderEgressError (c_id c)]
  | ReassemblyCompleted => [CReassemblyCompleted]
  | ReassemblyEvent ev => reassembly_calls ev
  | BundleRebucketed => [CBundleRebucketed (c_id c)]
  | RebucketUnguarded => [CRebucketUnguarded (c_id c)]
  | _ => []
  end.

Definition log_calls (evs : list WEvent) : list Call := flat_map event_calls evs.

(** The verdicts on a received frame. *)
Definition verdict (ev : WEvent) : bool :=
  match ev with
  | FrameDropped _ | FrameInvalidPayload | FrameTxDeduped | FrameDeduped | FrameForwarded | EgressError => true
  | _ => false
  end.

Definition judged (ev : WEvent) : bool := match ev with FrameReceived _ => true | _ => verdict ev end.

(** ** A logic for the judged events *)

Hypothesis Hrec : c_rec c = true.

Definition leaves {A} (m : M A) (Q : A -> list WEvent -> Prop) : Prop :=
  forall w, w_conf w = c ->
    w_conf (m w).2 = c /\ exists evs, w_log (m w).2 = w_log w ++ evs /\ Q (m w).1 (List.filter judged evs).

Lemma leaves_bind {A B} (m : M A) (g : A -> M B) (Q : A -> list WEvent -> Prop) (R : B -> list WEvent -> Prop) :
  leaves m Q -> (forall a l, Q a l -> leaves (g a) (fun b l' => R b (l ++ l'))) -> leaves (mbind g m) R.
Proof.
  intros Hm Hg w Hw. destruct (Hm w Hw) as (Hc & evs & Hl & HQ). rewrite run_bind.
  destruct (Hg _ _ HQ (m w).2 Hc) as (Hc' & evs' & Hl' & HR). split; [done|].
  exists (evs ++ evs'). rewrite Hl', Hl, app_assoc, List.filter_app. done.
Qed.

(** Code without judged events. *)
Lemma leaves_none {A} (m : M A) : emits c (fun ev => judged ev = false) m (fun _ => True) -> leaves m (fun _ l => l = []).
Proof.
  intros Hm w Hw. destruct (Hm w Hw) as (Hc & _ & evs & Hl & He). split; [done|]. exists evs. split; [done|].
  clear Hl. induction He as [|ev evs He _ IH]; [done|]. cbn. by rewrite He.
Qed.

Lemma leaves_weaken {A} (m : M A) (Q R : A -> list WEvent -> Prop) :
  leaves m Q -> (forall a l, Q a l -> R a l) -> leaves m R.
Proof. intros Hm HR w Hw. destruct (Hm w Hw) as (Hc & evs & Hl & HQ). eauto 6. Qed.

Lemma leaves_metric ev : judged ev = true -> leaves (metric ev) (fun _ l => l = [ev]).
Proof.
  intros Hj w Hw. unfold metric, modify, add_log. cbn. rewrite Hw, Hrec. split; [done|]. exists [ev].
  split; [done|]. cbn. by rewrite Hj.
Qed.

Lemma leaves_ret {A} (a : A) (Q : A -> list WEvent -> Prop) : Q a [] -> leaves (mret a) Q.
Proof. intros HQ w Hw. split; [done|]. exists []. by rewrite app_nil_r. Qed.

Lemma leaves_conf {B} (g : Conf -> M B) (R : B -> list WEvent -> Prop) : leaves (g c) R -> leaves (mbind g (gets w_conf)) R.
Proof. intros Hg w Hw. rewrite run_bind. cbn [gets fst snd]. rewrite Hw. by apply Hg. Qed.

(** ** The steps of a transaction *)

Ltac one_verdict := eexists; (split; [|reflexivity]); reflexivity.

Ltac no_verdict := apply leaves_none; emits_auto; first [done | by case_test].

Lemma leaves_observe g sid hk seq txid : leaves (observe oracle g sid hk seq txid) (fun _ l => l = []).
Proof. unfold observe, observe_as. no_verdict. Qed.

Lemma leaves_mark key : leaves (mark key) (fun _ l => l = []).
Proof. unfold mark. no_verdict. Qed.

Lemma leaves_mcast ev : judged ev = false -> leaves (mcast_send oracle ev) (fun _ l => l = []).
Proof. intros Hev. unfold mcast_send. no_verdict. Qed.

Lemma leaves_send ev : judged ev = false -> leaves (egr_send oracle ev) (fun _ l => exists v, verdict v = true /\ l = [v]).
Proof.
  intros Hev w Hw. unfold egr_send. rewrite !run_bind. cbn. rewrite Hw, Hrec. split; [done|]. eexists.
  rewrite <- app_assoc. split; [done|]. cbn. rewrite Hev. destruct (an_sent _); one_verdict.
Qed.

Lemma leaves_allowed g sid :
  leaves (allowed oracle g sid) (fun ok l => if ok then l = [] else exists v, verdict v = true /\ l = [v]).
Proof.
  intros w Hw. unfold allowed. rewrite !run_bind. cbn. destruct (Filter.Allow _ _ _ _) as [ok reason].
  rewrite run_bind. destruct ok; cbn; rewrite ?Hw, ?Hrec; (split; [done|]).
  - exists []. by rewrite app_nil_r.
  - eexists. split; [done|]. one_verdict.
Qed.

Lemma leaves_claim key : leaves (claim_lost oracle key) (fun lost l => l = if lost then [FrameTxDeduped] else []).
Proof.
  intros w Hw. unfold claim_lost. rewrite run_bind. cbn [gets fst snd]. rewrite Hw.
  destruct (is_set (c_txDedup c)); cbn [negb]; [|split; [done|]; exists []; by rewrite app_nil_r].
  rewrite !run_bind. cbn [ask fst snd].
  destruct (an_claim _); rewrite ?run_bind; cbn; rewrite ?Hw, ?Hrec; (split; [done|]); eexists; by rewrite <- ?app_assoc.
Qed.

Lemma leaves_seen key : leaves (seen oracle key) (fun dup l => l = if dup then [FrameDeduped] else []).
Proof.
  intros w Hw. unfold seen. rewrite run_bind. cbn [gets fst snd]. destruct (w_dedup w) as [s|];
    [|split; [done|]; exists []; by rewrite app_nil_r].
  rewrite run_bind. cbn [ask fst snd]. destruct (SeenAndAdd _ _ _) as [dup s']. rewrite !run_bind.
  destruct dup; cbn; rewrite ?Hw, ?Hrec; (split; [done|]); [by eexists|]. exists []. by rewrite app_nil_r.
Qed.

Lemma payload_refused_verdict f ev : payload_refused c f = Some ev -> verdict ev = true.
Proof. unfold payload_refused. repeat case_match; try done; by intros [= <-]. Qed.

(** One frame, one verdict. *)
Lemma processTx_judged raw f :
  leaves (processTx oracle raw f) (fun _ l => exists v, verdict v = true /\
    l = [FrameReceived (if f_Version f =? FrameVerV2 then "brc124" else "brc12"); v]).
Proof.
  unfold processTx. eapply leaves_bind; [by apply leaves_metric|]. intros _ ? ->. cbn beta.
  eapply leaves_bind.
  { instantiate (1 := fun _ l => l = []). destruct (f_Version f =? FrameVerV2); cbn [when]; [apply leaves_mark|by apply leaves_ret]. }
  intros _ ? ->. cbn [app]. apply leaves_conf. destruct (payload_refused c f) as [ev|] eqn:Hp.
  { apply payload_refused_verdict in Hp. eapply leaves_weaken; [apply leaves_metric; by destruct ev|]. intros _ ? ->. by exists ev. }
  eapply leaves_bind; [apply leaves_allowed|]. intros [] l Hl; cbn [negb].
  2: { destruct Hl as (v & Hv & ->). apply leaves_ret. by exists v. }
  subst l. eapply leaves_bind.
  { instantiate (1 := fun lost l => l = if lost then [FrameTxDeduped] else []).
    destruct (f_Version f =? FrameVerV2); [apply leaves_claim|by apply leaves_ret]. }
  intros [] ? ->; cbn [app].
  { eapply leaves_weaken; [apply leaves_observe|]. intros _ ? ->. one_verdict. }
  eapply leaves_bind.
  { instantiate (1 := fun dup l => l = if dup then [FrameDeduped] else []).
    destruct (_ && _); [apply leaves_seen|by apply leaves_ret]. }
  intros [] ? ->; cbn [app].
  { eapply leaves_weaken; [apply leaves_observe|]. intros _ ? ->. one_verdict. }
  eapply leaves_bind; [by apply leaves_send|]. intros _ ? (v & Hv & ->). eapply leaves_bind; [by apply leaves_mcast|].
  intros _ ? ->. eapply leaves_weaken.
  { instantiate (1 := fun _ l => l = []). destruct (f_Version f =? FrameVerV2); [apply leaves_observe|by apply leaves_ret]. }
  intros _ ? ->. by exists v.
Qed.
(** ** The series of a frame *)

Definition received_series (ver : string) : Series :=
  ("bsl_frames_received_total"%string,
   list_to_map [("worker", Itoa (c_id c)); ("network_interface_name", iface); ("version", ver)]%string).

(** The series that close a frame, of this worker and its egress sink. *)
Inductive verdict_series : Series -> Prop :=
| vs_dropped reason : verdict_series ("bsl_frames_dropped_total", list_to_map [("worker", Itoa (c_id c)); ("reason", reason)])%string
| vs_invalid : verdict_series ("bsl_frames_invalid_payload_total", list_to_map [("worker", Itoa (c_id c))])%string
| vs_tx_deduped : verdict_series ("bsl_frames_tx_deduped_total", list_to_map [("worker", Itoa (c_id c))])%string
| vs_deduped : verdict_series ("bsl_frames_deduped_total", list_to_map [("worker", Itoa (c_id c))])%string
| vs_forwarded : verdict_series ("bsl_frames_forwarded_total", list_to_map [("worker", Itoa (c_id c)); ("proto", proto)])%string
| vs_error : verdict_series ("bsl_egress_errors_total", list_to_map [("worker", Itoa (c_id c))])%string.

Lemma sum_adds_app s cs cs' : sum_adds s (cs ++ cs') = sum_adds s cs + sum_adds s cs'.
Proof. unfold sum_adds. induction cs as [|x cs IH]; cbn; [lia|]. rewrite IH. lia. Qed.

(** Only the judged events move a series [s] that no other event touches. *)
Lemma sum_adds_judged s evs :
  (forall ev, judged ev = false -> sum_adds s (event_calls ev) = 0) ->
  sum_adds s (log_calls evs) = sum_adds s (log_calls (List.filter judged evs)).
Proof.
  intros Hs. induction evs as [|ev evs IH]; [done|]. cbn [log_calls flat_map List.filter]. rewrite sum_adds_app.
  fold (log_calls evs). destruct (judged ev) eqn:Hj; cbn [log_calls flat_map]; rewrite ?sum_adds_app.
  - fold (log_calls (List.filter judged evs)). by rewrite IH.
  - by rewrite (Hs _ Hj).
Qed.

Hypothesis Hproto : proto <> mcastProto.

Lemma mcast_series :
  (list_to_map [("worker", Itoa (c_id c)); ("proto", mcastProto)] : Labels)%string <>
  list_to_map [("worker", Itoa (c_id c)); ("proto", proto)]%string.
Proof.
  intros E. apply (f_equal (fun m : Labels => m !! "proto"%string)) in E.
  assert (Hp : forall p, (list_to_map [("worker", Itoa (c_id c)); ("proto", p)] : Labels)%string !! "proto"%string = Some p).
  { intros p. apply elem_of_list_to_map_1; [|by right; left].
    apply (bool_decide_eq_true_1 (NoDup _)). reflexivity. }
  cbn beta in E. rewrite !Hp in E. by injection E as <-.
Qed.

Lemma unjudged_adds s ev : verdict_series s -> judged ev = false -> sum_adds s (event_calls ev) = 0.
Proof.
  intros Hs Hj. destruct ev as [| | | | | | | | | | | | | | | | | | | | | | | |ev| |]; try discriminate Hj; try reflexivity.
  all: try destruct ev; try reflexivity.
  all: cbn; rewrite decide_False; [reflexivity|]; destruct Hs; intros E;
    try discriminate (f_equal fst E).
  exact (mcast_series (f_equal snd E)).
Qed.

Lemma verdict_adds v : verdict v = true ->
  exists s, verdict_series s /\ forall s', sum_adds s' (event_calls v) = if decide (s = s') then 1 else 0.
Proof.
  intros Hv. destruct v; try discriminate Hv; eexists; (split; [|intros s'; apply Z.add_0_r]); constructor.
Qed.

Lemma received_inj ver ver' : received_series ver = received_series ver' -> ver = ver'.
Proof.
  intros E. apply (f_equal (fun s : Series => s.2 !! "version"%string)) in E.
  assert (Hp : forall v, (received_series v).2 !! "version"%string = Some v).
  { intros v. apply elem_of_list_to_map_1; [|by right; right; left]. apply (bool_decide_eq_true_1 (NoDup _)). reflexivity. }
  cbn beta in E. rewrite !Hp in E. by injection E.
Qed.

Lemma received_adds ver ver' :
  sum_adds (received_series ver') (event_calls (FrameReceived ver)) = if decide (ver = ver') then 1 else 0.
Proof.
  cbn [event_calls sum_adds foldr]. unfold adds. cbn [reference]. fold (received_series ver). rewrite Z.add_0_r.
  destruct (decide (ver = ver')) as [->|Hne]; [by rewrite decide_True|]. rewrite decide_False; [done|]. by intros ?%received_inj.
Qed.

Lemma other_received ver ev :
  (forall v, ev <> FrameReceived v) -> sum_adds (received_series ver) (event_calls ev) = 0.
Proof.
  intros Hev. destruct ev as [| | | | | | | | | | | | | | | | | | | | | | | |ev| |]; try reflexivity; try (by destruct ev).
  by destruct (Hev ver0).
Qed.

Lemma received_no_verdict s ver : verdict_series s -> sum_adds s (event_calls (FrameReceived ver)) = 0.
Proof.
  intros Hs. cbn [event_calls sum_adds foldr]. unfold adds. cbn [reference]. rewrite decide_False; [done|].
  intros E. destruct Hs; discriminate (f_equal fst E).
Qed.

(** C17: a transaction frame is conserved by the counters: played on any recorder,
    the events of one run of [processTx] raise the worker's received series of
    the frame's format by one and leave its other formats alone, and of all the
    series that close a frame (dropped for a reason, invalid, claimed elsewhere,
    duplicate, forwarded, failed) they raise exactly one, by one. *)
Theorem frames_conserved raw f w r :
  w_conf w = c ->
  let ver := if f_Version f =? FrameVerV2 then "brc124"%string else "brc12"%string in
  exists evs r', w_log (processTx oracle raw f w).2 = w_log w ++ evs /\ run_calls (log_calls evs) r = Some r' /\
  (forall ver', counter r' (received_series ver') = counter r (received_series ver') + if decide (ver = ver') then 1 else 0) /\
  exists s, verdict_series s /\
    forall s', verdict_series s' -> counter r' s' = counter r s' + if decide (s = s') then 1 else 0.
Proof.
  intros Hw ver. destruct (processTx_judged raw f w Hw) as (_ & evs & Hl & v & Hv & Hj). fold ver in Hj.
  destruct (run_calls_counters (log_calls evs) r) as (r' & Hr & Hs). exists evs, r'. split; [done|]. split; [done|]. split.
  - intros ver'. rewrite Hs, sum_adds_judged, Hj by (intros ev Hev; apply other_received; intros v' ->; discriminate).
    cbn [log_calls flat_map]. rewrite app_nil_r, sum_adds_app, received_adds, (other_received ver' v) by (intros v' ->; discriminate). lia.
  - destruct (verdict_adds v Hv) as (s & Hvs & Ha). exists s. split; [done|]. intros s' Hs'.
    rewrite Hs, sum_adds_judged, Hj by (by intros; apply unjudged_adds).
    cbn [log_calls flat_map]. rewrite app_nil_r, sum_adds_app, Ha, received_no_verdict by done. lia.
Qed.

End Counting.

#[local] Existing Instances lib0 tee0 wire0.

(** A repair offered to the example worker is received and forwarded. *)
Lemma frames_conserved_witness :
  exists evs r', w_log (processTx oracle0 [2; 2; 77] (tx_of [2; 2; 77]) worker0).2 = w_log worker0 ++ evs /\
  run_calls (log_calls conf0 "eth0" "udp" evs) (mkRecorder 1 0 0 false ∅ 0 0 0 0 ∅ 0 0) = Some r' /\
  counter r' (received_series conf0 "eth0" "brc124") = 1 /\
  counter r' ("bsl_frames_forwarded_total", list_to_map [("worker", "0"); ("proto", "udp")])%string = 1.
Proof.
  destruct (frames_conserved (WL := wire0) oracle0 conf0 "eth0" "udp" eq_refl ltac:(discriminate) [2; 2; 77] (tx_of [2; 2; 77]) worker0
    (mkRecorder 1 0 0 false ∅ 0 0 0 0 ∅ 0 0) eq_refl) as (evs & r' & Hl & Hr & Hrec & _).
  exists evs, r'. split; [exact Hl|]. split; [exact Hr|]. split; [exact (Hrec "brc124"%string)|].
  apply (f_equal (fun l => drop (length (w_log worker0)) l)) in Hl. rewrite drop_app_length in Hl.
  match goal with |- counter _ ?s = _ => set (sent := s) end.
  assert (Hc : (fun r => counter r sent) <$> Some r' = Some 1) by (rewrite <- Hr, <- Hl; vm_compute; reflexivity).
  by injection Hc.
Defined.
