(* ===== verification/Serve.v ===== *)
(** * The receive loops (listener/listener.go, recvbatch_linux.go, recvbatch_other.go)

    [serve] reads the socket and handles each datagram, inline or, with a receive
    queue, through a processing goroutine: the reader takes a pooled buffer, lets
    the kernel fill it and hands it over a bounded channel; the processor handles
    what it finds in the buffer and puts it back.  Buffers are cells of a heap
    and the pool, the channel and the two goroutines hold pointers, so that
    handing over a buffer and reusing it is visible.  The two builds, one
    [recvmmsg] per batch and one [recvfrom] per datagram, are instances of one
    interface, [Source]. *)

From S2P Require Import Prelude Discovery Tracker Dedup SubtreeGroup Filter Reassembly RetryTee Listener.

(** ** Reads *)

Inductive Errno := EAGAIN | EWOULDBLOCK | EBADF | EINVAL | EINTR | OtherErrno.

(** One return of the read call: an error, with whether the context is already
    cancelled when the loop looks, or what was read. *)
Inductive Read (A : Type) := ReadErr (e : Errno) (cancelled : bool) | ReadOk (a : A).
Arguments ReadErr {_}.
Arguments ReadOk {_}.

(** Does the loop return on this error? *)
Definition stops (e : Errno) (cancelled : bool) : bool :=
  match e with
  | EAGAIN | EWOULDBLOCK => cancelled
  | EBADF | EINVAL => true
  | EINTR => false
  | OtherErrno => cancelled
  end.

(** A datagram as read: its bytes and source. *)
Definition Datagram : Type := bytes * Sockaddr.

(** [if n > 0]: the datagrams the loops handle. *)
Definition nonempty (d : Datagram) : option Datagram :=
  if (0 <? length (fst d))%nat then Some d else None.

Definition recvBufSize : nat := Z.to_nat (4 * 1024 * 1024).

Definition maxDatagram : nat := Z.to_nat 65535.

Definition recvBatchSize : nat := 32.

(** ** The buffers of the pipelined loop *)

(** What the pipelined loop uses of a build: [Slot] is a pooled buffer, [Payload]
    what one successful read returns, [Meta] what travels in the channel beside
    the pointer, [fill] the kernel's write, [entries] what the processor finds
    in a buffer it received, [datagrams] the datagrams of a read, and
    [queue_depth] the capacity of the channel. *)
Class Source := {
  Slot : Type;
  Payload : Type;
  Meta : Type;
  new_slot : Slot;
  fill : Payload -> Slot -> Slot * Meta;
  fill_error : Slot -> Slot;
  is_empty : Payload -> bool;
  entries : Slot -> Meta -> list (option Datagram);
  datagrams : Payload -> list Datagram;
  queue_depth : Z -> nat
}.

(** What a build promises, for buffers [slot_ok] and reads [payload_ok]. *)
Class SourceLaws (Src : Source) := {
  slot_ok : Slot -> Prop;
  payload_ok : Payload -> Prop;
  new_slot_ok : slot_ok new_slot;
  fill_error_ok s : slot_ok s -> slot_ok (fill_error s);
  fill_ok p s : slot_ok s -> payload_ok p -> slot_ok (fst (fill p s));
  fill_entries p s : slot_ok s -> payload_ok p -> is_empty p = false ->
    entries (fst (fill p s)) (snd (fill p s)) = map nonempty (datagrams p);
  empty_entries p : payload_ok p -> is_empty p = true -> omap nonempty (datagrams p) = [];
  datagrams_fit p : payload_ok p -> Forall (fun d => (length (fst d) <= maxDatagram)%nat) (datagrams p);
  queue_depth_pos q : 0 < q -> (0 < queue_depth q)%nat
}.

(** *** recvmmsg batches *)

Definition AF_INET6 : Z := 10.

(** [unix.RawSockaddrInet6]; the port field holds the two network-order bytes as
    the machine loads them. *)
Record RawSockaddr := mkRawSockaddr { rs_Family : Z; rs_Port : Z; rs_Addr : bytes }.

(** [recvBatch.sockaddr] on the name of one datagram. *)
Definition sockaddr (raw : RawSockaddr) : Sockaddr :=
  if negb (rs_Family raw =? AF_INET6) then SockaddrOther
  else SockaddrInet6 (rs_Addr raw)
         (Z.lor (Z.shiftr (rs_Port raw) 8) (Z.shiftl (Z.land (rs_Port raw) 0xff) 8)).

Record recvBatch := mkRecvBatch {
  b_bufs : list bytes;
  b_names : list RawSockaddr;
  b_lens : list nat;
  b_n : nat
}.

Definition newRecvBatch : recvBatch :=
  mkRecvBatch (repeat (zeros maxDatagram) recvBatchSize)
    (repeat (mkRawSockaddr 0 0 (zeros 16)) recvBatchSize) (repeat 0%nat recvBatchSize) 0.

(** The headers reset before the call. *)
Definition reset_headers (b : recvBatch) : recvBatch :=
  mkRecvBatch (b_bufs b) (b_names b) (repeat 0%nat recvBatchSize) (b_n b).

(** The kernel's write of the [i]-th message: the bytes that fit its buffer over
    what the buffer held, the source, the count. *)
Definition put_message (i : nat) (m : bytes * RawSockaddr) (b : recvBatch) : recvBatch :=
  let data := take maxDatagram (fst m) in
  mkRecvBatch (<[i := data ++ drop (length data) (default [] (b_bufs b !! i))]> (b_bufs b))
    (<[i := snd m]> (b_names b)) (<[i := length data]> (b_lens b)) (b_n b).

Fixpoint put_messages (i : nat) (ms : list (bytes * RawSockaddr)) (b : recvBatch) : recvBatch :=
  match ms with [] => b | m :: ms => put_messages (S i) ms (put_message i m b) end.

(** [recvBatch.recv] when the call returns messages. *)
Definition recv_batch (ms : list (bytes * RawSockaddr)) (b : recvBatch) : recvBatch :=
  let b := put_messages 0 ms (reset_headers b) in
  mkRecvBatch (b_bufs b) (b_names b) (b_lens b) (length ms).

(** What the processor makes of header [i]: nothing if it holds no bytes. *)
Definition batch_entry (b : recvBatch) (i : nat) : option Datagram :=
  let n := nth i (b_lens b) 0%nat in
  if (0 <? n)%nat
  then Some (take n (nth i (b_bufs b) []), sockaddr (nth i (b_names b) (mkRawSockaddr 0 0 [])))
  else None.

Definition batch_source : Source := {|
  Slot := recvBatch; Payload := list (bytes * RawSockaddr); Meta := unit;
  new_slot := newRecvBatch;
  fill := fun ms b => (recv_batch ms b, tt);
  fill_error := reset_headers;
  is_empty := fun ms => (length ms =? 0)%nat;
  entries := fun b _ => map (batch_entry b) (seq 0 (b_n b));
  datagrams := map (fun m => (fst m, sockaddr (snd m)));
  queue_depth := fun q => Z.to_nat ((q + Z.of_nat recvBatchSize - 1) / Z.of_nat recvBatchSize)
|}.

(** *** One datagram per read *)

(** The buffer is pooled; its count and source travel in the channel
    ([recvDatagram]). *)
Definition single_source : Source := {|
  Slot := bytes; Payload := Datagram; Meta := nat * Sockaddr;
  new_slot := zeros maxDatagram;
  fill := fun d buf =>
    let data := take maxDatagram (fst d) in
    (data ++ drop (length data) buf, (length data, snd d));
  fill_error := fun buf => buf;
  is_empty := fun d => (length (fst d) =? 0)%nat;
  entries := fun buf m => [Some (take (fst m) buf, snd m)];
  datagrams := fun d => [d];
  queue_depth := Z.to_nat
|}.

(** ** The loops *)

Section Loops.
Context `{FrameLib} `{TeeLib} `{WireLib}.
Variable oracle : nat -> Answer.
(** The loop feeds the retry tee. *)
Variable tee : bool.

(** [serve] without a receive queue, over the returns of [Recvfrom]; the answer
    says whether the loop returned, as opposed to waiting for the next read. *)
Fixpoint serve_inline (reads : list (Read Datagram)) : M bool :=
  match reads with
  | [] => mret false
  | ReadErr e cancelled :: reads => if stops e cancelled then mret true else serve_inline reads
  | ReadOk (data, from) :: reads =>
      let raw := take recvBufSize data in
      when (0 <? length raw)%nat (handleDatagram oracle raw from tee) ;;
      serve_inline reads
  end.

(** The tee's deferred close in [serve]; the sender's drain is [RetryTee.run]. *)
Definition close_tee (w : Worker) : Worker :=
  match w_tee w with
  | Some t => if tee then set_tee (Some (close t)) w else w
  | None => w
  end.

(** What happens to the worker while it serves: a datagram is handled, or another
    goroutine acts on the worker (a reinjected frame, the tee's sender, a tick
    of the buffer, the loops of the tracker). *)
Inductive Op := OpDatagram (d : Datagram) | OpOther (f : Worker -> Worker).

Definition run_op (w : Worker) (op : Op) : Worker :=
  match op with
  | OpDatagram d => snd (handleDatagram oracle (fst d) (snd d) tee w)
  | OpOther f => f w
  end.

Definition run_ops (ops : list Op) (w : Worker) : Worker := fold_left run_op ops w.

Definition op_datagram (op : Op) : option Datagram := match op with OpDatagram d => Some d | OpOther _ => None end.

Definition op_other (op : Op) : option (Worker -> Worker) :=
  match op with OpDatagram _ => None | OpOther f => Some f end.

(** The datagrams a loop handles before it returns. *)
Fixpoint handled (reads : list (Read Datagram)) : list Datagram :=
  match reads with
  | [] => []
  | ReadErr e cancelled :: reads => if stops e cancelled then [] else handled reads
  | ReadOk d :: reads => option_list (nonempty (take recvBufSize (fst d), snd d)) ++ handled reads
  end.

Section Pipelined.
Context {Src : Source}.

(** The goroutine that reads: about to take a buffer, in the system call, blocked
    on the channel, returned from its loop (waiting for the processor), gone. *)
Inductive Reader :=
| RGet
| RRecv (b : positive)
| RSend (b : positive) (m : Meta)
| RReturned
| RExited.

(** [p_cur] is the processor's buffer and position; [p_done] its closed channel;
    [p_other] what other goroutines are still to do and [p_trace] what has been
    done to the worker, in order. *)
Record Pipe := mkPipe {
  p_reads : list (Read Payload);
  p_other : list (Worker -> Worker);
  p_pool : list positive;
  p_heap : gmap positive Slot;
  p_reader : Reader;
  p_queue : list (positive * Meta);
  p_cur : option (positive * Meta * nat);
  p_done : bool;
  p_worker : Worker;
  p_trace : list Op
}.

Definition pipe_init (reads : list (Read Payload)) (other : list (Worker -> Worker)) (w : Worker) : Pipe :=
  mkPipe reads other [] ∅ RGet [] None false w [].

(** One step of a goroutine.  [queue] is the depth asked for. *)
Inductive pipe_step (queue : Z) : Pipe -> Pipe -> Prop :=
| st_get_new rs os pool heap q cur dn w tr b :
    heap !! b = None ->
    pipe_step queue (mkPipe rs os pool heap RGet q cur dn w tr)
      (mkPipe rs os pool (<[b := new_slot]> heap) (RRecv b) q cur dn w tr)
| st_get_pool rs os pool pool' heap q cur dn w tr b :
    pool ≡ₚ b :: pool' ->
    pipe_step queue (mkPipe rs os pool heap RGet q cur dn w tr)
      (mkPipe rs os pool' heap (RRecv b) q cur dn w tr)
| st_pool_drop rs os pool pool' heap rd q cur dn w tr b :
    pool ≡ₚ b :: pool' ->
    pipe_step queue (mkPipe rs os pool heap rd q cur dn w tr)
      (mkPipe rs os pool' heap rd q cur dn w tr)
| st_recv_error rs os pool heap q cur dn w tr b s e cancelled :
    forall (Hslot : heap !! b = Some s),
    pipe_step queue (mkPipe (ReadErr e cancelled :: rs) os pool heap (RRecv b) q cur dn w tr)
      (mkPipe rs os (b :: pool) (<[b := fill_error s]> heap)
         (if stops e cancelled then RReturned else RGet) q cur dn w tr)
| st_recv_empty rs os pool heap q cur dn w tr b s p :
    forall (Hslot : heap !! b = Some s) (Hempty : is_empty p = true),
    pipe_step queue (mkPipe (ReadOk p :: rs) os pool heap (RRecv b) q cur dn w tr)
      (mkPipe rs os (b :: pool) (<[b := fst (fill p s)]> heap) RGet q cur dn w tr)
| st_recv_ok rs os pool heap q cur dn w tr b s p :
    forall (Hslot : heap !! b = Some s) (Hempty : is_empty p = false),
    pipe_step queue (mkPipe (ReadOk p :: rs) os pool heap (RRecv b) q cur dn w tr)
      (mkPipe rs os pool (<[b := fst (fill p s)]> heap) (RSend b (snd (fill p s))) q cur dn w tr)
| st_send rs os pool heap q cur dn w tr b m :
    (length q < queue_depth queue)%nat ->
    pipe_step queue (mkPipe rs os pool heap (RSend b m) q cur dn w tr)
      (mkPipe rs os pool heap RGet (q ++ [(b, m)]) cur dn w tr)
| st_take rs os pool heap rd q dn w tr bm :
    pipe_step queue (mkPipe rs os pool heap rd (bm :: q) None dn w tr)
      (mkPipe rs os pool heap rd q (Some (bm, 0%nat)) dn w tr)
| st_entry rs os pool heap rd q dn w tr b m i s d :
    forall (Hslot : heap !! b = Some s) (Hentry : entries s m !! i = Some d),
    pipe_step queue (mkPipe rs os pool heap rd q (Some (b, m, i)) dn w tr)
      (mkPipe rs os pool heap rd q (Some (b, m, S i)) dn
         (run_ops (option_list (OpDatagram <$> d)) w) (tr ++ option_list (OpDatagram <$> d)))
| st_put rs os pool heap rd q dn w tr b m i s :
    forall (Hslot : heap !! b = Some s) (Hentry : entries s m !! i = None),
    pipe_step queue (mkPipe rs os pool heap rd q (Some (b, m, i)) dn w tr)
      (mkPipe rs os (b :: pool) heap rd q None dn w tr)
| st_done rs os pool heap w tr :
    pipe_step queue (mkPipe rs os pool heap RReturned [] None false w tr)
      (mkPipe rs os pool heap RReturned [] None true w tr)
| st_exit rs os pool heap q cur w tr :
    pipe_step queue (mkPipe rs os pool heap RReturned q cur true w tr)
      (mkPipe rs os pool heap RExited q cur true (close_tee w) tr)
| st_other rs os f pool heap rd q cur dn w tr :
    rd ≠ RExited ->
    pipe_step queue (mkPipe rs (f :: os) pool heap rd q cur dn w tr)
      (mkPipe rs os pool heap rd q cur dn (f w) (tr ++ [OpOther f])).

(** Every schedule reaches [P]: it holds, or some step can be taken and every step
    leads on to it. *)
Inductive ends (queue : Z) (P : Pipe -> Prop) (s : Pipe) : Prop :=
| ends_now : P s -> ends queue P s
| ends_step : (exists s', pipe_step queue s s') ->
    (forall s', pipe_step queue s s' -> ends queue P s') -> ends queue P s.

(** The reads seen one datagram at a time, as [Recvfrom] returns them. *)
Definition single_reads (reads : list (Read Payload)) : list (Read Datagram) :=
  flat_map (fun r => match r with ReadErr e c => [ReadErr e c] | ReadOk p => ReadOk <$> datagrams p end) reads.

(** Some read makes the loop return. *)
Definition stopping {A} (reads : list (Read A)) : Prop :=
  Exists (fun r => match r with ReadErr e c => stops e c = true | ReadOk _ => False end) reads.

End Pipelined.
End Loops.
