(* ===== verification/ServeProps.v ===== *)
(** * The receive loops: properties

    The two builds keep the promises of [Source]; under every schedule the
    pipelined loop ends with what the inline loop leaves, its channel stays
    within its depth, and no buffer is in two hands. *)

From S2P Require Import Prelude Discovery Tracker TrackerInv TrackerProps TrackerRepair Dedup SubtreeGroup Filter Reassembly ReassemblyProps ReassemblyRepair RetryTee Listener ListenerInv ListenerExample Serve.

(** ** The builds *)

Lemma sockaddr_port hi lo addr :
  0 <= hi < 256 -> 0 <= lo < 256 ->
  sockaddr (mkRawSockaddr AF_INET6 (lo * 256 + hi) addr) = SockaddrInet6 addr (be_get [hi; lo]).
Proof.
  intros Hh Hl. unfold sockaddr. cbn [rs_Family rs_Port rs_Addr].
  replace (negb _) with false by done. f_equal.
  change 0xff with (Z.ones 8). rewrite Z.land_ones, Z.shiftr_div_pow2 by lia. change (2 ^ 8) with 256.
  rewrite Z.div_add_l, (Z.div_small hi), Z.add_0_r by lia.
  replace ((lo * 256 + hi) mod 256) with hi by (rewrite Z.add_comm, Z.mod_add, Z.mod_small; lia).
  assert (Hd : Z.land lo (Z.shiftl hi 8) = 0).
  { rewrite <- (Z.mod_small lo (2 ^ 8)), <- Z.land_ones by lia.
    rewrite <- Z.land_assoc, (Z.land_comm (Z.ones 8)), (Z.land_ones (Z.shiftl hi 8) 8), Z.shiftl_mul_pow2 by lia.
    by rewrite Z.mod_mul, Z.land_0_r. }
  rewrite <- Z.lxor_lor, <- Z.add_nocarry_lxor, Z.shiftl_mul_pow2 by (done || lia). unfold be_get. cbn [fold_left]. lia.
Qed.

Definition batch_ok (b : recvBatch) : Prop :=
  length (b_bufs b) = recvBatchSize /\ length (b_names b) = recvBatchSize /\ length (b_lens b) = recvBatchSize.

Definition messages_ok (ms : list (bytes * RawSockaddr)) : Prop :=
  (length ms <= recvBatchSize)%nat /\ Forall (fun m => (length (fst m) <= maxDatagram)%nat) ms.

Lemma put_messages_ok ms i b : batch_ok b -> batch_ok (put_messages i ms b).
Proof.
  revert i b. induction ms as [|m ms IH]; intros i b (H1 & H2 & H3); [done|]. cbn [put_messages].
  apply IH. unfold batch_ok, put_message. cbn [b_bufs b_names b_lens]. by rewrite !length_insert.
Qed.

Lemma batch_entry_frame i m b j :
  j ≠ i -> batch_entry (put_message i m b) j = batch_entry b j.
Proof.
  intros Hj. unfold batch_entry, put_message. cbn [b_bufs b_names b_lens b_n fst snd].
  rewrite !nth_lookup, !list_lookup_insert_ne by done. by rewrite <- !nth_lookup.
Qed.

Lemma put_messages_frame ms i b j :
  (j < i)%nat -> batch_entry (put_messages i ms b) j = batch_entry b j.
Proof.
  revert i b. induction ms as [|m ms IH]; intros i b Hj; [done|]. cbn [put_messages].
  rewrite IH by lia. apply batch_entry_frame. lia.
Qed.

Lemma put_message_entry i m b :
  batch_ok b -> (i < recvBatchSize)%nat -> (length (fst m) <= maxDatagram)%nat ->
  batch_entry (put_message i m b) i = nonempty (fst m, sockaddr (snd m)).
Proof.
  intros (H1 & H2 & H3) Hi Hm. unfold batch_entry, put_message, nonempty. cbn [b_bufs b_names b_lens b_n fst snd].
  rewrite (take_ge _ _ Hm), !nth_lookup, !list_lookup_insert_eq by lia. cbn [from_option id]. destruct (0 <? length (fst m))%nat; [|done].
  by rewrite take_app_length.
Qed.

Lemma put_messages_entries ms i b :
  batch_ok b -> (i + length ms <= recvBatchSize)%nat ->
  Forall (fun m => (length (fst m) <= maxDatagram)%nat) ms ->
  map (batch_entry (put_messages i ms b)) (seq i (length ms)) =
  map nonempty (map (fun m => (fst m, sockaddr (snd m))) ms).
Proof.
  revert i b. induction ms as [|m ms IH]; intros i b Hb Hi Hm; [done|].
  apply Forall_cons in Hm as [Hm Hms]. cbn [put_messages length seq map] in *.
  assert (Hb' : batch_ok (put_message i m b)) by exact (put_messages_ok [m] i b Hb).
  f_equal; [|apply IH; try done; lia].
  rewrite put_messages_frame by lia. apply put_message_entry; [done|lia|done].
Qed.

#[export] Instance batch_laws : SourceLaws batch_source.
Proof.
  refine (Build_SourceLaws batch_source batch_ok messages_ok _ _ _ _ _ _ _).
  - unfold batch_ok. cbn [new_slot batch_source newRecvBatch b_bufs b_names b_lens]. by rewrite !repeat_length.
  - intros b (H1 & H2 & H3). done.
  - intros ms b Hb _. destruct (put_messages_ok ms 0 (reset_headers b)) as (?&?&?); [by destruct Hb as (?&?&?)|].
    done.
  - intros ms b Hb (Hl & Hm) _. cbn [entries batch_source fill fst snd b_n recv_batch datagrams].
    rewrite <- (put_messages_entries ms 0 (reset_headers b)); [done| |lia|done].
    by destruct Hb as (?&?&?).
  - intros ms _ He. cbn in He. by destruct ms.
  - intros ms (_ & Hm). cbn [datagrams batch_source]. apply Forall_map. exact Hm.
  - intros q Hq. cbn [queue_depth batch_source]. unfold recvBatchSize.
    enough (1 <= (q + Z.of_nat 32 - 1) / Z.of_nat 32) by lia. apply Z.div_le_lower_bound; lia.
Defined.

#[export] Instance single_laws : SourceLaws single_source.
Proof.
  refine (Build_SourceLaws single_source (fun _ => True) (fun d => (length (fst d) <= maxDatagram)%nat) _ _ _ _ _ _ _);
    try done.
  - intros d buf _ Hd He. cbn [entries fill single_source datagrams is_empty fst snd map] in *.
    rewrite (take_ge _ _ Hd), take_app_length. unfold nonempty.
    destruct d as [data from]. cbn [fst snd] in *. destruct data; [done|]. done.
  - intros d _ He. cbn in *. unfold nonempty. destruct d as [[|] from]; done.
  - intros d Hd. cbn [datagrams single_source]. by constructor.
  - intros q Hq. cbn. lia.
Defined.

(** ** The inline loop *)

Section Inline.
Context `{FrameLib} `{TeeLib} `{WireLib}.
Variable oracle : nat -> Answer.
Variable tee : bool.

Lemma run_ops_app ops1 ops2 w :
  run_ops oracle tee (ops1 ++ ops2) w = run_ops oracle tee ops2 (run_ops oracle tee ops1 w).
Proof. apply fold_left_app. Qed.

(** The inline loop handles the datagrams of [handled], in order, and returns if
    and only if a read stops it. *)
Lemma serve_inline_run reads w :
  snd (serve_inline oracle tee reads w) = run_ops oracle tee (map OpDatagram (handled reads)) w.
Proof.
  revert w. induction reads as [|[e c|[data from]] reads IH]; intros w; [done| |].
  - cbn [serve_inline handled]. destruct (stops e c); [done|]. apply IH.
  - cbn [serve_inline handled fst snd nonempty]. unfold nonempty. cbn [fst snd].
    destruct (0 <? length (take recvBufSize data))%nat; [|apply IH].
    cbn [when option_list app map]. unfold mbind, M_bind.
    rewrite (surjective_pairing (handleDatagram _ _ _ _ w)). apply IH.
Qed.

Lemma serve_inline_returns reads w :
  fst (serve_inline oracle tee reads w) = true <-> stopping reads.
Proof.
  revert w. induction reads as [|[e c|[data from]] reads IH]; intros w.
  - split; [done|]. by intros ?%Exists_nil.
  - cbn [serve_inline]. unfold stopping. rewrite Exists_cons. destruct (stops e c) eqn:Hs; [tauto|].
    rewrite IH. unfold stopping. intuition congruence.
  - cbn [serve_inline]. unfold mbind, M_bind.
    destruct (when _ _ w) as [u w'] eqn:Hw. rewrite IH. unfold stopping. rewrite Exists_cons. tauto.
Qed.

End Inline.

(** ** The pipelined loop *)

Section Pipeline.
Context `{FrameLib} `{TeeLib} `{WireLib}.
Context {Src : Source} {Laws : SourceLaws Src}.
Variable oracle : nat -> Answer.
Variable tee : bool.
Variable queue : Z.
Hypothesis Hqueue : 0 < queue.

Abbreviation step := (pipe_step oracle tee queue).

Definition reader_ids (rd : Reader) : list positive :=
  match rd with RRecv b | RSend b _ => [b] | _ => [] end.

Definition cur_ids (cur : option (positive * Meta * nat)) : list positive :=
  match cur with Some (b, _, _) => [b] | None => [] end.

(** The buffers in somebody's hands: each is held once. *)
Definition ids (s : Pipe) : list positive :=
  reader_ids (p_reader s) ++ p_pool s ++ (p_queue s).*1 ++ cur_ids (p_cur s).

Definition read_ok (r : Read Payload) : Prop := match r with ReadErr _ _ => True | ReadOk p => payload_ok p end.

Definition live (h : gmap positive Slot) (b : positive) : Prop := exists sl, h !! b = Some sl /\ slot_ok sl.

(** No buffer is in two hands, every buffer held exists. *)
Record Owned (s : Pipe) : Prop := mkOwned {
  ow_nodup : NoDup (ids s);
  ow_live : Forall (live (p_heap s)) (ids s);
  ow_reads : Forall read_ok (p_reads s)
}.

Lemma live_insert h b b' sl : live h b' -> slot_ok sl -> live (<[b := sl]> h) b'.
Proof.
  intros (s' & Hs' & Hok) Hsl. destruct (decide (b = b')) as [->|Hne].
  - exists sl. by rewrite lookup_insert_eq.
  - exists s'. by rewrite lookup_insert_ne.
Qed.

(** Buffers may change hands and be dropped, and a buffer may be rewritten. *)
Lemma owned_move s s' l :
  ids s ≡ₚ l ++ ids s' -> p_heap s' = p_heap s -> (exists r, p_reads s = r ++ p_reads s') -> Owned s -> Owned s'.
Proof.
  intros Hids Hh [r Hr] [Hnd Hlv Hrd]. rewrite Hids in Hnd, Hlv. rewrite Hr in Hrd.
  split; [by apply NoDup_app in Hnd as (?&?&?)| |by apply Forall_app in Hrd as [??]].
  rewrite Hh. by apply Forall_app in Hlv as [??].
Qed.

Lemma owned_write s s' b sl :
  ids s' ≡ₚ ids s -> p_heap s' = <[b := sl]> (p_heap s) -> slot_ok sl ->
  (exists r, p_reads s = r ++ p_reads s') -> Owned s -> Owned s'.
Proof.
  intros Hids Hh Hsl [r Hr] [Hnd Hlv Hrd]. rewrite <- Hids in Hnd, Hlv. rewrite Hr in Hrd.
  split; [done| |by apply Forall_app in Hrd as [??]].
  rewrite Hh. eapply Forall_impl; [exact Hlv|]. intros b' Hb'. by apply live_insert.
Qed.

(** The buffer in the reader's system call. *)
Lemma owned_slot s b sl : Owned s -> b ∈ ids s -> p_heap s !! b = Some sl -> slot_ok sl.
Proof.
  intros [_ Hlv _] Hb Hsl. rewrite Forall_forall in Hlv. destruct (Hlv b Hb) as (sl' & Hl & Hok).
  congruence.
Qed.

Lemma owned_new rs os pool heap q cur dn w tr b :
  heap !! b = None -> Owned (mkPipe rs os pool heap RGet q cur dn w tr) ->
  Owned (mkPipe rs os pool (<[b := new_slot]> heap) (RRecv b) q cur dn w tr).
Proof.
  intros Hb [Hnd Hlv Hrd]. split; [| |done].
  - unfold ids in *. cbn in *. apply NoDup_cons. split; [|done]. intros Hin.
    rewrite Forall_forall in Hlv. destruct (Hlv b Hin) as (sl & Hl & _). cbn in Hl. congruence.
  - unfold ids in *. cbn in *. constructor.
    + exists new_slot. rewrite lookup_insert_eq. split; [done|apply new_slot_ok].
    + eapply Forall_impl; [exact Hlv|]. intros b' Hb'. apply live_insert; [done|apply new_slot_ok].
Qed.

Ltac use_perm := match goal with Hp : _ ≡ₚ _ |- _ => rewrite Hp end.

Ltac ids_simpl := unfold ids; cbn [p_reader p_pool p_queue p_cur reader_ids cur_ids fmap list_fmap fst snd app].

Lemma owned_step s s' : step s s' -> Owned s -> Owned s'.
Proof.
  intros Hs Ho. destruct Hs as [| | | | | | | | | | | |].
  - by apply owned_new.
  - eapply (owned_move _ _ []); [..|exact Ho]; [|done|by exists []]. ids_simpl.
    use_perm. solve_Permutation.
  - eapply (owned_move _ _ [b]); [..|exact Ho]; [|done|by exists []]. ids_simpl.
    use_perm. solve_Permutation.
  - assert (slot_ok s) by (eapply (owned_slot _ b); [exact Ho|left|done]).
    eapply owned_write; [..|exact Ho]; [|done|by apply fill_error_ok|by exists [ReadErr e cancelled]].
    ids_simpl. by destruct (stops e cancelled).
  - assert (slot_ok s) by (eapply (owned_slot _ b); [exact Ho|left|done]).
    assert (payload_ok p) by (destruct Ho as [_ _ Hr]; by apply Forall_cons in Hr as [??]).
    eapply owned_write; [..|exact Ho]; [|done|by apply fill_ok|by exists [ReadOk p]]. done.
  - assert (slot_ok s) by (eapply (owned_slot _ b); [exact Ho|left|done]).
    assert (payload_ok p) by (destruct Ho as [_ _ Hr]; by apply Forall_cons in Hr as [??]).
    eapply owned_write; [..|exact Ho]; [|done|by apply fill_ok|by exists [ReadOk p]]. done.
  - eapply (owned_move _ _ []); [..|exact Ho]; [|done|by exists []]. ids_simpl.
    rewrite fmap_app. ids_simpl. solve_Permutation.
  - eapply (owned_move _ _ []); [..|exact Ho]; [|done|by exists []]. ids_simpl.
    destruct bm as [b m]. ids_simpl. solve_Permutation.
  - eapply (owned_move _ _ []); [..|exact Ho]; [|done|by exists []]. done.
  - eapply (owned_move _ _ []); [..|exact Ho]; [|done|by exists []]. ids_simpl. solve_Permutation.
  - eapply (owned_move _ _ []); [..|exact Ho]; [|done|by exists []]. done.
  - eapply (owned_move _ _ []); [..|exact Ho]; [|done|by exists []]. done.
  - eapply (owned_move _ _ []); [..|exact Ho]; [|done|by exists []]. done.
Qed.

(** *** Control *)

Definition returned (rd : Reader) : bool := match rd with RReturned | RExited => true | _ => false end.

(** The channel is within its depth; the processor is done only after the reader
    returned and everything queued was handled; the loop exits after that; until
    the reader returns a read that stops it is still to come. *)
Record Control (s : Pipe) : Prop := mkControl {
  ct_bound : (length (p_queue s) <= queue_depth queue)%nat;
  ct_done : p_done s = true -> p_queue s = [] /\ p_cur s = None /\ returned (p_reader s) = true;
  ct_exit : p_reader s = RExited -> p_done s = true;
  ct_stop : returned (p_reader s) = false -> stopping (p_reads s)
}.

Lemma stopping_cons {A} (r : Read A) rs :
  stopping (r :: rs) ->
  match r with ReadErr e c => if stops e c then True else stopping rs | ReadOk _ => stopping rs end.
Proof.
  unfold stopping. rewrite Exists_cons. destruct r as [e c|p]; [|tauto]. destruct (stops e c); intuition congruence.
Qed.

Lemma control_step s s' : step s s' -> Control s -> Control s'.
Proof.
  intros Hs [Hb Hd He Hst].
  destruct Hs; cbn in *; split; cbn; try done; try (intros; intuition (congruence || done)); try lia.
  - by destruct (stops e cancelled).
  - pose proof (stopping_cons _ _ (Hst eq_refl)) as Hr. cbn in Hr. by destruct (stops e cancelled).
  - intros _. exact (stopping_cons _ _ (Hst eq_refl)).
  - intros _. exact (stopping_cons _ _ (Hst eq_refl)).
  - rewrite length_app. cbn. lia.
Qed.

(** *** Content *)

(** What the processor would find in a buffer it was handed. *)
Definition items (h : gmap positive Slot) (bm : positive * Meta) : list (option Datagram) :=
  match h !! fst bm with Some sl => entries sl (snd bm) | None => [] end.

Definition cur_items (h : gmap positive Slot) (cur : option (positive * Meta * nat)) : list (option Datagram) :=
  match cur with Some (bm, i) => drop i (items h bm) | None => [] end.

Definition reader_items (h : gmap positive Slot) (rd : Reader) : list (option Datagram) :=
  match rd with RSend b m => items h (b, m) | _ => [] end.

(** The datagrams still to be handled, in order: those of the processor's buffer,
    of the channel, of the reader's buffer, and of the reads to come. *)
Definition pending (s : Pipe) : list Datagram :=
  omap id (cur_items (p_heap s) (p_cur s) ++ flat_map (items (p_heap s)) (p_queue s) ++
           reader_items (p_heap s) (p_reader s)) ++
  (if returned (p_reader s) then [] else handled (single_reads (p_reads s))).

Lemma items_write h b sl bm : fst bm ≠ b -> items (<[b := sl]> h) bm = items h bm.
Proof. intros Hb. unfold items. by rewrite lookup_insert_ne. Qed.

Lemma queue_items_write h b sl q :
  b ∉ q.*1 -> flat_map (items (<[b := sl]> h)) q = flat_map (items h) q.
Proof.
  induction q as [|bm q IH]; cbn; [done|]. rewrite not_elem_of_cons. intros [Hb Hq].
  by rewrite items_write, IH.
Qed.

Lemma cur_items_write h b sl cur :
  b ∉ cur_ids cur -> cur_items (<[b := sl]> h) cur = cur_items h cur.
Proof.
  destruct cur as [[[b' m] i]|]; cbn; [|done]. intros Hb. rewrite items_write; [done|]. cbn. set_solver.
Qed.

Lemma handled_batch ds rs :
  Forall (fun d => (length (fst d) <= maxDatagram)%nat) ds ->
  handled ((ReadOk <$> ds) ++ rs) = omap nonempty ds ++ handled rs.
Proof.
  induction ds as [|[data from] ds IH]; cbn [fmap list_fmap app handled omap list_omap fst snd]; [done|].
  intros [Hd Hds]%Forall_cons. cbn [fst] in Hd. rewrite IH by done.
  rewrite take_ge by (unfold recvBufSize, maxDatagram in *; lia).
  by destruct (nonempty (data, from)).
Qed.

Lemma omap_id_map {A B} (f : A -> option B) l : omap id (map f l) = omap f l.
Proof. induction l as [|x l IH]; [done|]. cbn. rewrite IH. by destruct (f x). Qed.

(** [exited] closes the tee, after everything else. *)
Definition closing (rd : Reader) (w : Worker) : Worker :=
  match rd with RExited => close_tee tee w | _ => w end.

Record Content (total : list Datagram) (os0 : list (Worker -> Worker)) (w0 : Worker) (s : Pipe) : Prop := mkContent {
  cn_seq : omap op_datagram (p_trace s) ++ pending s = total;
  cn_other : omap op_other (p_trace s) ++ p_other s = os0;
  cn_worker : p_worker s = closing (p_reader s) (run_ops oracle tee (p_trace s) w0)
}.

(** The reader's buffer, and a new one, are in nobody else's hands. *)
Lemma reader_exclusive rs os pool heap q cur dn w tr b :
  Owned (mkPipe rs os pool heap (RRecv b) q cur dn w tr) -> (b ∉ q.*1) /\ (b ∉ cur_ids cur).
Proof.
  intros [Hnd _ _]. unfold ids in Hnd. cbn in Hnd. apply NoDup_cons in Hnd as [Hb _].
  rewrite !elem_of_app in Hb. tauto.
Qed.

Lemma new_exclusive rs os pool heap rd q cur dn w tr b :
  Owned (mkPipe rs os pool heap rd q cur dn w tr) -> heap !! b = None -> (b ∉ q.*1) /\ (b ∉ cur_ids cur).
Proof.
  intros [_ Hlv _] Hb. unfold ids in Hlv. cbn in Hlv. rewrite !Forall_app, !Forall_forall in Hlv.
  destruct Hlv as (_ & _ & Hq & Hc).
  split; intros Hin; [destruct (Hq b Hin) as (?&?&_)|destruct (Hc b Hin) as (?&?&_)]; congruence.
Qed.

(** Writing such a buffer leaves what is pending elsewhere. *)
Lemma pending_write h b sl q cur :
  (b ∉ q.*1) /\ (b ∉ cur_ids cur) ->
  cur_items (<[b := sl]> h) cur = cur_items h cur /\ flat_map (items (<[b := sl]> h)) q = flat_map (items h) q.
Proof. intros [Hq Hc]. split; [by apply cur_items_write|by apply queue_items_write]. Qed.

Ltac pending_simpl :=
  unfold pending in *; cbn [p_heap p_cur p_queue p_reader p_reads reader_items cur_items returned flat_map] in *.

Lemma read_payload rs os pool heap rd q cur dn w tr p :
  Owned (mkPipe (ReadOk p :: rs) os pool heap rd q cur dn w tr) -> payload_ok p.
Proof. intros [_ _ Hr]. by apply Forall_cons in Hr as [??]. Qed.

(** A step that moves no datagram. *)
Ltac keep Hkeep := apply Hkeep; [done|done|done|try done|pending_simpl].

Lemma content_step total os0 w0 s s' :
  step s s' -> Owned s -> Control s -> Content total os0 w0 s -> Content total os0 w0 s'.
Proof.
  intros Hs Ho Hc [Hsq Hot Hw].
  assert (Hkeep : p_other s' = p_other s -> p_trace s' = p_trace s -> p_worker s' = p_worker s ->
    closing (p_reader s') = closing (p_reader s) -> pending s' = pending s -> Content total os0 w0 s').
  { intros E1 E2 E3 E4 E5. split; rewrite ?E1, ?E2, ?E3, ?E4, ?E5; done. }
  destruct Hs.
  - keep Hkeep. destruct (pending_write heap b new_slot q cur) as [-> ->]; [|done]. by eapply new_exclusive.
  - by keep Hkeep.
  - by keep Hkeep.
  - keep Hkeep; [by destruct (stops e cancelled)|].
    destruct (pending_write heap b (fill_error s) q cur) as [-> ->]; [by eapply reader_exclusive|].
    cbn. by destruct (stops e cancelled).
  - keep Hkeep. destruct (pending_write heap b (fst (fill p s)) q cur) as [-> ->]; [by eapply reader_exclusive|].
    apply read_payload in Ho. cbn. rewrite handled_batch by by apply datagrams_fit. by rewrite empty_entries.
  - keep Hkeep. destruct (pending_write heap b (fst (fill p s)) q cur) as [-> ->]; [by eapply reader_exclusive|].
    assert (slot_ok s) by (eapply (owned_slot _ b); [exact Ho|left|done]). apply read_payload in Ho.
    unfold items at 2. cbn [fst snd]. rewrite lookup_insert_eq, fill_entries by done. cbn.
    rewrite handled_batch by by apply datagrams_fit. rewrite !omap_app, omap_id_map. by rewrite app_nil_r, <- !app_assoc.
  - keep Hkeep. rewrite flat_map_app. cbn. by rewrite !app_nil_r.
  - keep Hkeep. cbn. by rewrite drop_0, <- ?app_assoc.
  - assert (Hrd : rd ≠ RExited) by (intros ->; destruct Hc as [_ Hd He _]; by destruct (Hd (He eq_refl)) as (_&?&_)).
    split; cbn [p_trace p_other p_worker p_reader] in *.
    + rewrite <- Hsq, omap_app, <- app_assoc. f_equal. pending_simpl.
      erewrite (drop_S (items heap (b, m)) d i); [by destruct d|].
      unfold items. cbn [fst snd]. by rewrite Hslot.
    + rewrite omap_app. by destruct d; cbn; rewrite ?app_nil_r.
    + by destruct rd; try done; cbn [closing] in *; rewrite Hw, run_ops_app.
  - keep Hkeep. rewrite (drop_ge (items heap (b, m))); [done|].
    apply lookup_ge_None. unfold items. cbn [fst snd]. by rewrite Hslot.
  - by keep Hkeep.
  - split; cbn [p_trace p_other p_worker p_reader] in *; [exact Hsq|exact Hot|by rewrite Hw].
  - split; cbn [p_trace p_other p_worker p_reader] in *.
    + rewrite omap_app. cbn. by rewrite app_nil_r.
    + rewrite omap_app, <- Hot, <- app_assoc. done.
    + by destruct rd; try done; cbn [closing] in *; rewrite Hw, run_ops_app.
Qed.

(** *** Termination *)

Definition read_cost (r : Read Payload) : nat :=
  match r with ReadErr _ _ => 3 | ReadOk p => 6 + length (datagrams p) end.

Definition reader_cost (h : gmap positive Slot) (rd : Reader) : nat :=
  match rd with
  | RGet => 3 | RRecv _ => 2 | RSend b m => 7 + length (items h (b, m)) | RReturned => 1 | RExited => 0
  end.

Definition cur_cost (h : gmap positive Slot) (cur : option (positive * Meta * nat)) : nat :=
  match cur with Some _ => 2 + length (cur_items h cur) | None => 0 end.

(** The steps left. *)
Definition measure (s : Pipe) : nat :=
  sum_list (map read_cost (p_reads s)) + length (p_other s) + length (p_pool s) +
  reader_cost (p_heap s) (p_reader s) + (3 * length (p_queue s) + length (flat_map (items (p_heap s)) (p_queue s))) +
  cur_cost (p_heap s) (p_cur s) + (if p_done s then 0 else 1).

Lemma cur_cost_write h b sl cur : b ∉ cur_ids cur -> cur_cost (<[b := sl]> h) cur = cur_cost h cur.
Proof. destruct cur; [|done]. intros Hb. unfold cur_cost. by rewrite cur_items_write. Qed.

Ltac measure_simpl :=
  unfold measure;
  cbn [p_reads p_other p_pool p_heap p_reader p_queue p_cur p_done map sum_list read_cost length reader_cost];
  change (@sum_list_with nat id) with sum_list in *.

Lemma measure_step s s' : step s s' -> Owned s -> (measure s' < measure s)%nat.
Proof.
  intros Hs Ho. destruct Hs; measure_simpl.
  - destruct (new_exclusive _ _ _ _ _ _ _ _ _ _ b Ho) as [Hq Hc]; [done|].
    rewrite cur_cost_write, queue_items_write by done. lia.
  - match goal with Hp : _ ≡ₚ _ |- _ => apply Permutation_length in Hp; cbn in Hp; lia end.
  - match goal with Hp : _ ≡ₚ _ |- _ => apply Permutation_length in Hp; cbn in Hp; lia end.
  - destruct (reader_exclusive _ _ _ _ _ _ _ _ _ _ Ho) as [Hq Hc].
    rewrite cur_cost_write, queue_items_write by done. destruct (stops e cancelled); cbn; lia.
  - destruct (reader_exclusive _ _ _ _ _ _ _ _ _ _ Ho) as [Hq Hc].
    rewrite cur_cost_write, queue_items_write by done. cbn; lia.
  - destruct (reader_exclusive _ _ _ _ _ _ _ _ _ _ Ho) as [Hq Hc].
    assert (slot_ok s) by (eapply (owned_slot _ b); [exact Ho|left|done]). apply read_payload in Ho.
    rewrite cur_cost_write, queue_items_write by done. unfold items at 1. cbn [fst snd].
    rewrite lookup_insert_eq, fill_entries, length_map by done. cbn; lia.
  - rewrite flat_map_app, !length_app. cbn. rewrite app_nil_r. lia.
  - cbn [flat_map]. rewrite length_app. unfold cur_cost, cur_items. rewrite drop_0. lia.
  - unfold cur_cost, cur_items, items. cbn [fst snd]. rewrite Hslot, !length_drop.
    apply lookup_lt_Some in Hentry. lia.
  - unfold cur_cost. lia.
  - lia.
  - lia.
  - lia.
Qed.

Lemma progress s : Owned s -> Control s -> p_reader s ≠ RExited -> exists s', step s s'.
Proof.
  intros Ho Hc Hx. destruct s as [rs os pool heap rd q cur dn w tr]. cbn in Hx.
  destruct cur as [[[b m] i]|].
  { assert (Hlv : live heap b).
    { destruct Ho as [_ Hlv _]. unfold ids in Hlv. cbn in Hlv. rewrite !Forall_app in Hlv.
      destruct Hlv as (_&_&_&Hb). by apply Forall_cons in Hb as [??]. }
    destruct Hlv as (sl & Hsl & _). destruct (entries sl m !! i) as [d|] eqn:Hd.
    - eexists. by eapply st_entry.
    - eexists. by eapply st_put. }
  destruct q as [|bm q]; [|eexists; apply st_take].
  destruct rd as [|b|b m| |]; [| | | |done].
  - assert (Hb : heap !! base.fresh (dom heap : gset positive) = None) by apply not_elem_of_dom, is_fresh.
    eexists. by apply st_get_new.
  - assert (Hlv : live heap b).
    { destruct Ho as [_ Hlv _]. unfold ids in Hlv. cbn in Hlv. by apply Forall_cons in Hlv as [??]. }
    destruct Hlv as (sl & Hsl & _). destruct rs as [|[e c|p] rs].
    + destruct Hc as [_ _ _ Hst]. specialize (Hst eq_refl). by apply Exists_nil in Hst.
    + eexists. by eapply st_recv_error.
    + destruct (is_empty p) eqn:He; eexists; [by eapply st_recv_empty|by eapply st_recv_ok].
  - eexists. apply st_send. cbn. by apply queue_depth_pos.
  - destruct dn; eexists; [apply st_exit|apply st_done].
Qed.

Record Good (total : list Datagram) (os0 : list (Worker -> Worker)) (w0 : Worker) (s : Pipe) : Prop := mkGood {
  gd_owned : Owned s;
  gd_control : Control s;
  gd_content : Content total os0 w0 s
}.

Lemma good_step total os0 w0 s s' : step s s' -> Good total os0 w0 s -> Good total os0 w0 s'.
Proof.
  intros Hs [Ho Hc Hn]. split; [by eapply owned_step|by eapply control_step|by eapply content_step].
Qed.

Lemma good_init reads other w :
  Forall read_ok reads -> stopping reads ->
  Good (handled (single_reads reads)) other w (pipe_init reads other w).
Proof.
  intros Hr Hs. split; [|split; cbn; [lia|done|done|done]|done].
  split; [by apply NoDup_nil|by constructor|done].
Qed.

Lemma good_ends total os0 w0 s :
  Good total os0 w0 s -> ends oracle tee queue (fun s => p_reader s = RExited /\ Good total os0 w0 s) s.
Proof.
  induction s as [s IH] using (induction_ltof1 _ measure). intros Hg.
  destruct (p_reader s) eqn:Hrd.
  5: by apply ends_now.
  all: apply ends_step; [apply progress; [apply Hg|apply Hg|by rewrite Hrd]|].
  all: intros s' Hs; apply IH; [eapply measure_step; [exact Hs|apply Hg]|by eapply good_step].
Qed.

(** What is left when the loop has exited. *)
Lemma good_exited total os0 w0 s :
  Good total os0 w0 s -> p_reader s = RExited ->
  omap op_datagram (p_trace s) = total /\ omap op_other (p_trace s) `prefix_of` os0 /\
  p_worker s = close_tee tee (run_ops oracle tee (p_trace s) w0).
Proof.
  intros [_ [_ Hd He _] [Hsq Hot Hw]] Hx. destruct (Hd (He Hx)) as (Hq & Hc & _).
  unfold pending in Hsq. rewrite Hq, Hc, Hx in *. cbn in Hsq. rewrite app_nil_r in Hsq.
  split; [done|]. split; [by eexists|exact Hw].
Qed.

Lemma ends_impl (P Q : Pipe -> Prop) s :
  (forall s, P s -> Q s) -> ends oracle tee queue P s -> ends oracle tee queue Q s.
Proof. intros HPQ He. induction He as [s Hs|s Hx _ IH]; [by apply ends_now, HPQ|by apply ends_step]. Qed.

Lemma only_datagrams (tr : list Op) : omap op_other tr = [] -> tr = map OpDatagram (omap op_datagram tr).
Proof. induction tr as [|[d|f] tr IH]; cbn; [done| |done]. intros Ht. by rewrite <- IH. Qed.

Lemma good_reachable total os0 w0 s s' : Good total os0 w0 s -> rtc step s s' -> Good total os0 w0 s'.
Proof. intros Hg Hs. induction Hs; [done|]. by apply IHHs, (good_step _ _ _ x). Qed.

(** C10: with a receive queue, under every schedule of the reader, the processor,
    the garbage collector's drops from the pool and the worker's other
    goroutines, the loop returns (no deadlock, no endless run) once a read stops
    it; by then exactly the datagrams the inline loop handles on the same reads
    have been handled, in the same order, interleaved with what the other
    goroutines did, and the retry tee has been closed after all of them.  With no
    other goroutine at work the worker is left exactly as the inline loop leaves
    it. *)
Theorem pipelined_as_inline reads other w :
  Forall read_ok reads -> stopping reads ->
  ends oracle tee queue
    (fun s => p_reader s = RExited /\
       omap op_datagram (p_trace s) = handled (single_reads reads) /\
       omap op_other (p_trace s) `prefix_of` other /\
       p_worker s = close_tee tee (run_ops oracle tee (p_trace s) w) /\
       (other = [] -> p_worker s = close_tee tee (snd (serve_inline oracle tee (single_reads reads) w))))
    (pipe_init reads other w).
Proof.
  intros Hr Hs. eapply ends_impl; [|by apply good_ends, good_init].
  intros s [Hx Hg]. destruct (good_exited _ _ _ _ Hg Hx) as (Ht & Ho & Hw).
  do 4 (split; [done|]). intros ->. rewrite Hw, serve_inline_run, <- Ht. do 2 f_equal.
  by apply only_datagrams, prefix_nil_inv.
Qed.

(** C23: in every state the pipelined loop can reach, its channel holds no more than
    its depth, and no buffer is in two hands: the buffer the kernel may write is
    neither queued nor being processed nor free, so a datagram is handled as it
    was read. *)
Theorem pipelined_buffers reads other w s :
  Forall read_ok reads -> stopping reads -> rtc step (pipe_init reads other w) s ->
  (length (p_queue s) <= queue_depth queue)%nat /\ NoDup (ids s) /\
  (forall b, p_reader s = RRecv b -> (b ∉ (p_queue s).*1) /\ (b ∉ cur_ids (p_cur s)) /\ (b ∉ p_pool s)).
Proof.
  intros Hr Hs Hrun. destruct (good_reachable _ _ _ _ _ (good_init reads other w Hr Hs) Hrun) as [[Hnd _ _] [Hb _ _ _] _].
  split; [done|]. split; [done|]. intros b Hrd. unfold ids in Hnd. rewrite Hrd in Hnd. cbn in Hnd.
  apply NoDup_cons in Hnd as [Hin _]. rewrite !elem_of_app in Hin. tauto.
Qed.

End Pipeline.

(** ** Concrete runs *)

#[local] Existing Instances lib0 tee0 wire0.

(** Two batches, the first with an empty datagram, around a timeout; then the
    context is cancelled. *)
Definition reads0 : list (Read (list (bytes * RawSockaddr))) :=
  let from := mkRawSockaddr AF_INET6 0x2823 (zeros 16) in
  [ReadOk [([2; 5; 9], from); ([], from)]; ReadErr EAGAIN false; ReadOk [([2; 6; 8], from)]; ReadErr EAGAIN true].

Lemma reads0_ok : Forall (read_ok (Src := batch_source)) reads0 /\ stopping reads0.
Proof.
  split; [|by do 3 apply Exists_cons_tl; apply Exists_cons_hd].
  assert (Hm : (3 <= maxDatagram)%nat) by (unfold maxDatagram; lia).
  assert (H0 : (0 <= maxDatagram)%nat) by lia.
  assert (Hb : (2 <= recvBatchSize)%nat) by (unfold recvBatchSize; lia).
  repeat first [apply Forall_cons; split | apply Forall_nil; done | split]; cbn [read_ok fst]; try done; cbn [length]; lia.
Qed.

(** A frame recovered by NACK is reinjected meanwhile. *)
Definition other0 : list (Worker -> Worker) := [fun w => snd (Reinject oracle0 [2; 4; 7] w)].

Lemma pipelined_as_inline_witness :
  ends (Src := batch_source) oracle0 true 64
    (fun s => p_reader s = RExited /\
       omap op_datagram (p_trace s) = handled (single_reads (Src := batch_source) reads0) /\
       omap op_other (p_trace s) `prefix_of` other0 /\
       p_worker s = close_tee true (run_ops oracle0 true (p_trace s) worker0) /\
       (other0 = [] -> p_worker s = close_tee true (snd (serve_inline oracle0 true (single_reads (Src := batch_source) reads0) worker0))))
    (pipe_init (Src := batch_source) reads0 other0 worker0).
Proof. apply (pipelined_as_inline oracle0 true 64); [done|apply reads0_ok|apply reads0_ok]. Defined.

(** Three buffers in three hands: the first batch is being handled, the second waits
    in the channel in a buffer that came back after the timeout, and a third is
    offered to the kernel. *)
Lemma pipelined_buffers_witness :
  exists s, rtc (pipe_step (Src := batch_source) oracle0 true 64) (pipe_init (Src := batch_source) reads0 other0 worker0) s /\
    p_reader s = RRecv 3 /\ (p_queue s).*1 = [2%positive] /\ cur_ids (p_cur s) = [1%positive] /\
    (length (p_queue s) <= queue_depth (Source := batch_source) 64)%nat /\ NoDup (ids s) /\ 3%positive ∉ (p_queue s).*1.
Proof.
  assert (Hrun : exists s, rtc (pipe_step (Src := batch_source) oracle0 true 64) (pipe_init (Src := batch_source) reads0 other0 worker0) s /\
    p_reader s = RRecv 3 /\ (p_queue s).*1 = [2%positive] /\ cur_ids (p_cur s) = [1%positive]).
  { eexists. split.
    - eapply rtc_l; [eapply (st_get_new _ _ _ _ _ _ _ _ _ _ _ _ 1); apply lookup_empty|].
      eapply rtc_l; [eapply st_recv_ok; [apply lookup_insert_eq|reflexivity]|].
      eapply rtc_l; [eapply st_send; by apply queue_depth_pos|].
      eapply rtc_l; [eapply (st_get_new _ _ _ _ _ _ _ _ _ _ _ _ 2); rewrite !lookup_insert_ne by done; apply lookup_empty|].
      eapply rtc_l; [eapply st_recv_error; apply lookup_insert_eq|].
      eapply rtc_l; [eapply st_get_pool; reflexivity|].
      eapply rtc_l; [eapply st_recv_ok; [apply lookup_insert_eq|reflexivity]|].
      eapply rtc_l; [eapply st_take|].
      eapply rtc_l; [eapply st_send; by apply queue_depth_pos|].
      eapply rtc_l; [eapply (st_get_new _ _ _ _ _ _ _ _ _ _ _ _ 3); rewrite !lookup_insert_ne by done; apply lookup_empty|].
      apply rtc_refl.
    - split; [reflexivity|]. split; reflexivity. }
  destruct Hrun as (s & Hrun & Hr & Hq & Hc). exists s.
  destruct (pipelined_buffers (Src := batch_source) oracle0 true 64 ltac:(done) reads0 other0 worker0 s
    (proj1 reads0_ok) (proj2 reads0_ok) Hrun) as (H1 & H2 & H3).
  split_and!; try done. by apply H3.
Defined.
