(* ===== verification/TeeFeed.v ===== *)
(** * What a worker feeds its retry tee (listener/listener.go)

    The two receive loops without groups to join, [RunUnicastIngest] and
    [RunUnicastIngestOn], and what the loops mirror into the tee: the datagrams
    the sender list admits and the tee takes, as they were read, and nothing of a
    recovered frame. *)

From S2P Require Import Prelude Discovery Tracker TrackerProps Dedup SubtreeGroup Filter Reassembly ReassemblyProps RetryTee Listener ListenerInv ListenerEgress ListenerExample ListenerProps ListenerKeeps Serve ServeProps.

Section Feed.
Context `{FrameLib} `{TeeLib} `{WireLib}.
Context (oracle : nat -> Answer).

(** ** The loops *)

(** [serve] without a receive queue on a socket that [openRawSocket] returned, with
    the tee's deferred close; [None] is the error of opening it. *)
Definition ingest (tee opened : bool) (reads : list (Read Datagram)) : M (option bool) :=
  if opened then
    returned ← serve_inline oracle tee reads;
    when returned (modify (close_tee tee)) ;;
    mret (Some returned)
  else mret None.

Definition RunUnicastIngest (opened : bool) (reads : list (Read Datagram)) : M (option bool) := ingest true opened reads.

(** The local mirror of a collapsed node, on a port of its own. *)
Definition RunUnicastIngestOn (opened : bool) (reads : list (Read Datagram)) : M (option bool) := ingest false opened reads.

(** [SetRetryTee]: a started tee, if the address resolves and the socket connects;
    otherwise the error, and the worker keeps what it had. *)
Definition SetRetryTee (resolved dialed : bool) : M bool :=
  if resolved && dialed then modify (set_tee (Some (start (newRetryTeeSender teeQueueDepth)))) ;; mret true
  else mret false.

(** ** What is mirrored *)

(** The enveloped copy of a datagram, if the tee gets one. *)
Definition teed (c : Conf) (d : Datagram) : option bytes :=
  match snd d with
  | SockaddrInet6 addr port =>
      if refused_sender (CallDatagram (fst d) (snd d) true) c || negb (teeEligible (fst d)) then None
      else Some (AppendEncap addr port (fst d))
  | SockaddrOther => None
  end.

Definition feed (c : Conf) (ds : list Datagram) (t : Tee) : Tee := fold_left (fun t buf => mirror buf t) (omap (teed c) ds) t.

(** ** Lemmas *)

Definition same_tee (w w' : Worker) : Prop := w_tee w' = w_tee w.

#[export] Instance same_tee_elementary : Elementary same_tee (fun _ => True) (fun _ => True).
Proof. split; try done. split; [done|]. intros x y z Hy Hz. unfold same_tee in *. congruence. Qed.

Lemma decoders_any : decoders_ok (ok := fun _ => True).
Proof. by split. Qed.

Lemma same_tee_fragment raw : keeps same_tee (processFragment oracle raw).
Proof.
  assert (Hev : forall evs, keeps same_tee (for_each (on_event oracle) evs)).
  { intros evs. apply (keeps_for_each (El := same_tee_elementary)). intros ev _.
    apply (keeps_on_event oracle (El := same_tee_elementary)); [done|]. by destruct ev. }
  unfold processFragment. apply (keeps_bind (El := same_tee_elementary)); [apply (keeps_gets (El := same_tee_elementary))|].
  intros [b|]; [|apply (keeps_metric (El := same_tee_elementary))].
  destruct (DecodeFragment raw) as [ff|]; [|apply (keeps_metric (El := same_tee_elementary))].
  apply (keeps_bind (El := same_tee_elementary)).
  - intros w. unfold observeFragment. rewrite !run_bind. cbn [gets ask fst snd].
    destruct (Reassembly.Observe _ _ _ _ _ _) as [[b' t'] evs]. rewrite run_bind. cbn [modify fst snd].
    unfold same_tee. by rewrite (Hev evs).
  - intros _. apply (keeps_bind (El := same_tee_elementary)); [apply (keeps_gets (El := same_tee_elementary))|].
    intros c. by apply (keeps_observe oracle (El := same_tee_elementary)).
Qed.

Lemma same_tee_frame raw : keeps same_tee (processFrame oracle raw).
Proof. apply (keeps_processFrame oracle (El := same_tee_elementary)); auto using decoders_any, same_tee_fragment. Qed.

Lemma Reinject_tee raw w : w_tee (Reinject oracle raw w).2 = w_tee w.
Proof. apply (keeps_Reinject oracle (El := same_tee_elementary)); auto using decoders_any, same_tee_fragment. Qed.

Lemma datagram_no_tee raw from w : w_tee (handleDatagram oracle raw from false w).2 = w_tee w.
Proof. by apply (keeps_handleDatagram oracle (El := same_tee_elementary)); auto using decoders_any, same_tee_fragment. Qed.

(** One datagram on a loop that feeds the tee. *)
Lemma datagram_tee d w t :
  w_tee w = Some t ->
  w_tee (handleDatagram oracle (fst d) (snd d) true w).2 = Some (feed (w_conf w) [d] t).
Proof.
  intros Ht. destruct d as [raw from]. cbn [fst snd].
  destruct (refused_sender (CallDatagram raw from true) (w_conf w)) eqn:Hr.
  { pose proof (perform_refused oracle (CallDatagram raw from true) w Hr) as Hp. cbn [perform] in Hp.
    rewrite Hp. cbn [add_log w_tee]. rewrite Ht. unfold feed, teed. cbn [omap list_omap fst snd].
    destruct from; [|done]. by rewrite Hr. }
  unfold handleDatagram. rewrite !run_bind. cbn [gets fst snd].
  match goal with |- context [if ?b then metric _ else _] => assert (b = false) as -> end.
  { cbn [refused_sender] in Hr. by destruct (is_set (c_senderACL (w_conf w))). }
  rewrite !run_bind. cbn [modify fst snd when mret M_ret]. rewrite (same_tee_frame raw). cbn [set_curSource w_tee].
  unfold teeToRetry, feed, teed. cbn [omap list_omap fst snd]. destruct from as [addr port|]; [|done].
  rewrite run_bind. cbn [gets fst snd]. rewrite Ht, Hr. cbn [orb]. by destruct (teeEligible raw).
Qed.

Lemma feed_app c ds ds' t : feed c (ds ++ ds') t = feed c ds' (feed c ds t).
Proof. unfold feed. by rewrite omap_app, fold_left_app. Qed.

Lemma ops_tee ds w t :
  w_tee w = Some t ->
  w_tee (run_ops oracle true (map OpDatagram ds) w) = Some (feed (w_conf w) ds t).
Proof.
  revert w t. induction ds as [|d ds IH]; intros w t Ht; [done|]. cbn [map run_ops fold_left run_op].
  pose proof (datagram_tee d w t Ht) as Hd. unfold run_ops in IH. rewrite (IH _ _ Hd).
  destruct (handleDatagram_ok oracle (w_conf w) (fst d) (snd d) true w eq_refl) as (Hc & _). rewrite Hc.
  by rewrite (feed_app _ [d] ds).
Qed.

Lemma ops_no_tee ds w : w_tee (run_ops oracle false (map OpDatagram ds) w) = w_tee w.
Proof.
  revert w. induction ds as [|d ds IH]; intros w; [done|]. cbn [map run_ops fold_left run_op].
  unfold run_ops in IH. by rewrite IH, datagram_no_tee.
Qed.

Lemma ingest_run tee reads w :
  (ingest tee true reads w).2 =
    let w1 := run_ops oracle tee (map OpDatagram (handled reads)) w in
    if (serve_inline oracle tee reads w).1 then close_tee tee w1 else w1.
Proof.
  unfold ingest. rewrite !run_bind, <- serve_inline_run. cbn zeta. by destruct ((serve_inline oracle tee reads w).1).
Qed.

(** C27: The feed of the retry cache.  A loop that faces the fabric mirrors exactly the
    datagrams it handles whose sender the access list admits and that the tee
    takes, each once, in order, as it was read and with its source, whatever
    processing makes of it; when the loop returns the tee is closed.  The loop on
    the local mirror, and every frame the tracker hands back, leave the tee as it
    was. *)
Theorem tee_feed (w : Worker) (t : Tee) (reads : list (Read Datagram)) (raw : bytes) :
  w_tee w = Some t ->
  w_tee (RunUnicastIngest true reads w).2 =
    Some (let t' := feed (w_conf w) (handled reads) t in if (serve_inline oracle true reads w).1 then close t' else t') /\
  w_tee (RunUnicastIngestOn true reads w).2 = Some t /\
  w_tee (Reinject oracle raw w).2 = Some t.
Proof.
  intros Ht. split; [|split; [|by rewrite Reinject_tee]].
  - unfold RunUnicastIngest. rewrite ingest_run. cbn zeta. pose proof (ops_tee (handled reads) w t Ht) as Ho.
    destruct ((serve_inline oracle true reads w).1); [|done]. unfold close_tee. by rewrite Ho.
  - unfold RunUnicastIngestOn. rewrite ingest_run. cbn zeta. pose proof (ops_no_tee (handled reads) w) as Ho.
    rewrite Ht in Ho. destruct ((serve_inline oracle false reads w).1); [|done]. unfold close_tee. by rewrite Ho.
Qed.

End Feed.

#[local] Existing Instances lib0 tee0 wire0.

(** A tee that was set up takes one datagram and not one with another magic, until
    the end of the loop. *)
Lemma tee_feed_witness :
  let w := (SetRetryTee true true (NewWorker conf0 (Some run0) (Some (NewSet 2 0)) None None)).2 in
  let t := start (newRetryTeeSender teeQueueDepth) in
  let d := [0; 0; 0; 0; 0; 0; 2; 9] in
  let reads := [ReadOk (d, SockaddrInet6 [1] 5); ReadOk ([2; 5; 7], SockaddrInet6 [1] 5); ReadErr EBADF true] in
  w_tee (RunUnicastIngest oracle0 true reads w).2 = Some (close (mirror d t)) /\
  w_tee (RunUnicastIngestOn oracle0 true reads w).2 = Some t.
Proof.
  intros w t d reads. destruct (tee_feed oracle0 w t reads [] eq_refl) as (H1 & H2 & _).
  split; [|exact H2]. rewrite H1. vm_compute. reflexivity.
Defined.
