(* ===== verification/Node.v ===== *)
(** * A node: its workers around one tracker (main.go, nack/nack.go)

    [run] gives every worker the same tracker, registers each worker's [Reinject]
    with it and starts the tracker's two loops.  The gap loop sweeps; the dispatch
    loop takes a gap off the queue, waits for one of the 64 places and starts a
    goroutine that asks an endpoint, hands a retransmitted frame to the worker
    that owns the flow and settles the gap.  A step of the node is a datagram at a
    worker, a tick of its buffer, or a step of one of these goroutines. *)

From S2P Require Import Prelude Wire Discovery Tracker TrackerInv TrackerProps Dedup SubtreeGroup Filter Reassembly RetryTee Listener ListenerInv ListenerEgress ListenerProps ListenerKeeps.

Section Node.
Context `{FrameLib} `{TeeLib} `{WireLib}.

(** ** Data *)

(** A [sendNACK] goroutine: about to ask, or with its answer at hand. *)
Inductive Sender := Asking (e : gapEntry) | Settling (e : gapEntry) (o : Outcome).

(** [n_held] is the gap the dispatch loop holds while it waits for a place.  The
    workers' own tracker field is overwritten by the shared one at every step. *)
Record Node := mkNode {
  n_tracker : Tracker;
  n_workers : list Worker;
  n_held : option gapEntry;
  n_senders : list Sender
}.

(** The answers each worker gets from outside. *)
Variable oracles : nat -> nat -> Answer.

Inductive NodeOp :=
| NDatagram (i : nat) (raw : bytes) (from : Sockaddr) (tee : bool)
| NTick (i : nat)
| NSweep (env : Env)
| NRegistry (reg : Registry)
| NTake
| NLaunch
| NAsk (k : nat) (renv : RegEnv) (net : NetAnswer)
| NSettle (k : nat) (now rnd : Z).

(** ** Steps *)

(** Runs [f] on worker [i] with the shared tracker. *)
Definition on_worker (i : nat) (f : Worker -> Worker) (n : Node) : Node :=
  match n_workers n !! i with
  | None => n
  | Some w =>
      let w := f (set_tracker (Some (n_tracker n)) w) in
      mkNode (default (n_tracker n) (w_tracker w)) (<[i := w]> (n_workers n)) (n_held n) (n_senders n)
  end.

(** The buffer's ticker: expiry with the requests it makes of the tracker. *)
Definition tick (oracle : nat -> Answer) : M unit :=
  c ← gets w_conf;
  b ← gets w_reassem;
  match b with
  | None => mret tt
  | Some b =>
      t ← gets w_tracker;
      a ← ask oracle;
      let '(b, t, evs) := @Reassembly.Tick (option Tracker) (worker_hooks (an_env a) (c_id c)) (an_now a) b t in
      modify (fun w => set_tracker t (set_reassem (Some b) w)) ;;
      for_each (on_event oracle) evs
  end.

Definition with_tracker (t : Tracker) (n : Node) : Node := mkNode t (n_workers n) (n_held n) (n_senders n).

Definition with_senders (s : list Sender) (n : Node) : Node := mkNode (n_tracker n) (n_workers n) (n_held n) s.

(** What worker [f] answers a retransmitted frame. *)
Definition accepts (n : Node) (f : nat) (raw : bytes) : bool :=
  match n_workers n !! f with
  | Some w => (Reinject (oracles f) raw (set_tracker (Some (n_tracker n)) w)).1
  | None => true
  end.

(** [sendNACK] from the snapshot to the frame it hands on. *)
Definition ask_endpoint (k : nat) (renv : RegEnv) (net : NetAnswer) (e : gapEntry) (n : Node) : Node :=
  let '(snap, reg) := Snapshot renv (t_registry (n_tracker n)) in
  match sendNACK_decide (accepts n) net snap e (n_tracker n) with
  | None => with_senders (delete k (n_senders n)) (with_tracker (with_registry reg [] (n_tracker n)) n)
  | Some (o, evs, fr) =>
      let n := with_tracker (with_registry reg (record (t_rec (n_tracker n)) evs) (n_tracker n)) n in
      let n := match fr with
               | Some (f, raw) => on_worker f (fun w => (Reinject (oracles f) raw w).2) n
               | None => n
               end in
      with_senders (<[k := Settling e o]> (n_senders n)) n
  end.

(** The step of one goroutine: a datagram through its worker, a sweep, or one stage of a
    request.  The tracker takes its lock once per call, so calls of other goroutines may
    fall between those of one datagram; the theorems on single tracker calls hold there
    too. *)
Definition node_step (op : NodeOp) (n : Node) : Node :=
  match op with
  | NDatagram i raw from tee => on_worker i (fun w => (handleDatagram (oracles i) raw from tee w).2) n
  | NTick i => on_worker i (fun w => (tick (oracles i) w).2) n
  | NSweep env => with_tracker (sweepOnce env (n_tracker n)) n
  | NRegistry reg => with_tracker (with_registry reg [] (n_tracker n)) n
  | NTake =>
      match n_held n, dispatch (n_tracker n) with
      | None, Some (e, t) => mkNode t (n_workers n) (Some e) (n_senders n)
      | _, _ => n
      end
  | NLaunch =>
      match n_held n with
      | Some e =>
          if Z.of_nat (length (n_senders n)) <? defaultMaxConcurrent
          then mkNode (n_tracker n) (n_workers n) None (n_senders n ++ [Asking e]) else n
      | None => n
      end
  | NAsk k renv net =>
      match n_senders n !! k with
      | Some (Asking e) => ask_endpoint k renv net e n
      | _ => n
      end
  | NSettle k now rnd =>
      match n_senders n !! k with
      | Some (Settling e o) =>
          with_senders (delete k (n_senders n)) (with_tracker (apply_outcome now rnd e o (n_tracker n)) n)
      | _ => n
      end
  end.

(** How [run] starts a node: every worker's [Reinject] is registered under its
    index. *)
Definition start_node (t : Tracker) (ws : list Worker) : Node :=
  mkNode (fold_left (fun t i => RegisterRecover (Z.of_nat i) i t) (seq 0 (length ws)) t) ws None [].

Definition run_node (ops : list NodeOp) (n : Node) : Node := fold_left (fun n op => node_step op n) ops n.

End Node.
