(* ===== verification/ListenerFragments.v ===== *)
(** * The receive worker: fragmented transactions end to end

    The worker, the reassembly buffer and the gap tracker together: a transaction
    whose fragments arrive off the wire or through re-injection, among any other
    traffic, is handed to the filter and the claim store exactly once, and leaves the
    worker exactly if both let it. *)

From S2P Require Import Prelude Discovery Tracker TrackerInv TrackerProps TrackerRepair Dedup SubtreeGroup Filter Reassembly ReassemblySlot ReassemblyInv ReassemblyProps ReassemblyRepair RetryTee Listener ListenerInv ListenerEgress ListenerExample ListenerProps ListenerKeeps Node ReassemblyHonest.

Section Fragments.
Context `{FrameLib} `{TeeLib} `{WireLib}.
Context (oracle : nat -> Answer).

(** ** What is sent *)

(** The transaction a send forwards to the egress sink. *)
Definition tx_sent (ev : WEvent) : option (bytes * bytes) :=
  match ev with WSend _ f => Some (f_TxID f, f_Payload f) | _ => None end.

Definition txs_sent (evs : list WEvent) : list (bytes * bytes) := omap tx_sent evs.

Lemma txs_sent_app evs evs' : txs_sent (evs ++ evs') = txs_sent evs ++ txs_sent evs'.
Proof. apply omap_app. Qed.

Lemma txs_sent_quiet evs : quiet evs -> txs_sent evs = [].
Proof.
  unfold quiet, sends. induction evs as [|ev evs IH]; [done|]. cbn. intros Hq.
  destruct (is_send ev) eqn:E; [done|]. destruct ev; try done; by apply IH.
Qed.

(** ** Delivery of a reassembled transaction *)

(** The encoder fits a frame into a buffer of its size. *)
Definition encodes : Prop := forall f, is_Some (EncodeFrame f (zeros (HeaderSize + length (f_Payload f)))).

(** The filter admits the transaction at question [k], and no sibling has claimed it
    at the next. *)
Definition let_through (c : Conf) (txID sub : bytes) (k : nat) : bool :=
  fst (Filter.Allow (an_seen (oracle k)) (c_filt c) (en_GroupIndex (c_engine c) txID) sub) &&
  negb (lost_claim c (oracle (S k))).

(** The events of [m] from [w], which forward the transactions [txs]. *)
Definition forwards (m : M unit) (w : Worker) (txs : list (bytes * bytes)) : Prop :=
  exists evs n t, m w = (tt, later evs n (set_tracker t w)) /\ txs_sent evs = txs.

Lemma forwards_quiet m w cnt n : m w = (tt, later cnt n w) -> forwards m w (txs_sent cnt).
Proof. intros E. exists cnt, n, (w_tracker w). rewrite E. split; [by destruct w|done]. Qed.

Lemma forwards_seq m k w txs txs' :
  forwards m w txs -> (forall w', forwards k w' txs') -> forwards (m ;; k) w (txs ++ txs').
Proof.
  intros (e1 & n1 & t1 & E1 & S1) Hk. unfold forwards. rewrite run_bind, E1. cbn [fst snd].
  destruct (Hk (later e1 n1 (set_tracker t1 w))) as (e2 & n2 & t2 & E2 & S2).
  exists (e1 ++ e2), (n2 + n1)%nat, t2. rewrite E2. split; [|by rewrite txs_sent_app, S1, S2].
  f_equal. rewrite <- later_later. done.
Qed.

Lemma forwards_observe g sid hk seq txid w : forwards (observe oracle g sid hk seq txid) w [].
Proof.
  unfold forwards. rewrite run_observe. destruct (run_observe_as oracle (c_id (w_conf w)) g sid hk seq txid w) as (n & k & ->).
  by eexists [], n, _.
Qed.

Lemma forwards_reassembled f w :
  encodes ->
  forwards (DeliverReassembled oracle (f_Payload f) f) w
    (if let_through (w_conf w) (f_TxID f) (f_SubtreeID f) (w_asked w) then [(f_TxID f, f_Payload f)] else []).
Proof.
  intros He. unfold forwards, DeliverReassembled, let_through. rewrite run_bind. cbn [gets fst snd].
  set (g := en_GroupIndex _ _). rewrite run_bind.
  destruct (run_metric ReassemblyCompleted w) as (c1 & -> & Q1); [done|]. cbn [fst snd]. rewrite run_bind.
  destruct (run_allowed oracle g (f_SubtreeID f) (later c1 0 w)) as (c2 & -> & Q2).
  rewrite later_conf, later_asked. cbn [Nat.add fst snd]. rewrite later_later.
  destruct (Filter.Allow _ _ _ _) as [[|] reason]; cbn [fst negb andb].
  2: { exists (c1 ++ c2), 1%nat, (w_tracker w). split; [by destruct w|]. by apply txs_sent_quiet, quiet_app. }
  rewrite run_bind. match goal with |- context [metric ?ev ?w1] => destruct (run_metric ev w1) as (c3 & -> & Q3); [done|] end.
  cbn [fst snd]. rewrite later_later, run_bind.
  match goal with |- context [claim_lost oracle ?k ?w1] => destruct (run_claim oracle k w1) as (lost & c4 & n4 & -> & Q4 & Hl) end.
  rewrite later_conf, later_asked in Hl. cbn [Nat.add] in Hl. rewrite <- Hl. cbn [fst snd]. rewrite later_later.
  set (c5 := (_ ++ c4)). assert (Q5 : quiet c5) by (by repeat apply quiet_app). clear Hl. destruct lost; cbn [negb].
  { match goal with |- context [observe _ _ _ _ _ _ ?w2] =>
      destruct (forwards_observe g (f_SubtreeID f) (f_HashKey f) (f_SeqNum f) (f_TxID f) w2) as (e & n & t & -> & Se) end.
    eexists (c5 ++ e), _, t. split; [f_equal; symmetry; rewrite <- later_later; done|]. by rewrite txs_sent_app, (txs_sent_quiet _ Q5), Se. }
  destruct (He f) as [[len raw] ->].
  assert (forall w1, forwards (egr_send oracle (WSend raw f)) w1 [(f_TxID f, f_Payload f)]) as F1.
  { intros w1. destruct (run_egr_send oracle (WSend raw f) w1) as (c6 & E6 & Q6). pose proof (forwards_quiet _ _ _ _ E6) as F.
    change (txs_sent (?e :: c6)) with ((f_TxID f, f_Payload f) :: txs_sent c6) in F. by rewrite (txs_sent_quiet _ Q6) in F. }
  assert (forall w1, forwards (mcast_send oracle (WMcast raw f g)) w1 []) as F2.
  { intros w1. destruct (run_mcast_send oracle (WMcast raw f g) w1) as (c6 & n6 & E6 & Q6). pose proof (forwards_quiet _ _ _ _ E6) as F.
    rewrite txs_sent_app, (txs_sent_quiet _ Q6) in F. by destruct (c_mcastEgr (w_conf w1)). }
  match goal with |- context [later c5 ?n w] => set (n5 := n) end.
  destruct (forwards_seq _ _ (later c5 n5 w) _ _ (F1 _) (fun w1 => forwards_seq _ _ w1 _ _ (F2 w1)
    (forwards_observe g (f_SubtreeID f) (f_HashKey f) (f_SeqNum f) (f_TxID f)))) as (e & n & t & -> & Se).
  exists (c5 ++ e), (n + n5)%nat, t. split; [f_equal; by rewrite <- later_later|].
  by rewrite txs_sent_app, (txs_sent_quiet _ Q5), Se.
Qed.

(** ** The events of one fragment *)

Lemma for_each_app {A} (f : A -> M unit) l l' w : for_each f (l ++ l') w = (for_each f l ;; for_each f l') w.
Proof.
  revert w. induction l as [|x l IH]; intros w; [done|]. cbn [for_each app]. rewrite !run_bind, IH. by rewrite run_bind.
Qed.

(** Events that deliver nothing are only logged. *)
Lemma run_no_objects evs w :
  objects evs = [] -> for_each (on_event oracle) evs w = (tt, later (ReassemblyEvent <$> evs) 0 w).
Proof.
  revert w. induction evs as [|ev evs IH]; intros w Ho; [cbn; by rewrite <- later_0|]. cbn [for_each fmap list_fmap].
  assert (object_of ev = None /\ objects evs = []) as [Hev Hevs].
  { unfold objects in *. cbn in Ho. destruct (object_of ev); [done|]. done. }
  rewrite run_bind, (IH _ Hevs). destruct ev; try done; cbn; unfold later, add_log; cbn; by rewrite <- app_assoc.
Qed.

Lemma objects_app evs evs' : objects (evs ++ evs') = objects evs ++ objects evs'.
Proof. apply omap_app. Qed.

Lemma objects_one evs o : objects evs = [o] -> exists e1 ev e2, evs = e1 ++ ev :: e2 /\ object_of ev = Some o /\ objects e1 = [] /\ objects e2 = [].
Proof.
  induction evs as [|ev evs IH]; [done|]. unfold objects in *. cbn. destruct (object_of ev) as [o'|] eqn:E.
  - intros [= -> He]. by exists [], ev, evs.
  - intros Ho. destruct (IH Ho) as (e1 & ev' & e2 & -> & ? & ? & ?). exists (ev :: e1), ev', e2. cbn. by rewrite E.
Qed.

Lemma logged_quiet (evs : list REvent) : txs_sent (ReassemblyEvent <$> evs) = [].
Proof. by induction evs. Qed.

(** One transaction among the events goes to filter and claim store. *)
Lemma forwards_events evs txID sub object w :
  encodes -> objects evs = [mkObject ClassTx txID (Some sub) object] ->
  forwards (for_each (on_event oracle) evs) w
    (if let_through (w_conf w) txID sub (w_asked w) then [(txID, object)] else []).
Proof.
  intros He Ho. destruct (objects_one _ _ Ho) as (e1 & ev & e2 & -> & Hev & H1' & H2'). unfold forwards.
  rewrite for_each_app, run_bind, (run_no_objects _ _ H1'). cbn [fst snd for_each].
  destruct ev as [| | | | | | | | | | | | |p id sb hk sq]; cbn in Hev; try discriminate Hev.
  injection Hev as -> -> ->. cbn [on_event].
  set (w1 := later _ 0 w).
  destruct (forwards_reassembled (mkFrame FrameVerV2 txID hk sq sub object) w1 He) as (e & n & t & E & Se). cbn [f_Payload f_TxID f_SubtreeID] in *.
  rewrite run_bind, E. cbn [fst snd]. rewrite (run_no_objects _ _ H2').
  exists ((ReassemblyEvent <$> e1) ++ e ++ (ReassemblyEvent <$> e2)), (0 + (n + 0))%nat, t. split.
  - f_equal. unfold w1. change (set_tracker t (later ?a ?b w)) with (later a b (set_tracker t w)). by rewrite !later_later, ?app_assoc.
  - rewrite !txs_sent_app, !logged_quiet, Se, app_nil_r. done.
Qed.

(** ** One call *)

Definition call_raw (call : WCall) : bytes :=
  match call with CallDatagram raw _ _ => raw | CallReinject raw => raw end.

(** The fragment a call, off the wire or through re-injection, brings to the buffer. *)
Definition fragment_in (c : Conf) (call : WCall) : option FragFrame :=
  let raw := call_raw call in
  if refused_sender call c || IsBlockFrame raw || IsSubtreeDataFrame raw || IsAnchorFrame raw || negb (IsFragment raw)
  then None else DecodeFragment raw.

(** A call that is not refused is [processFrame] under some source, with the tee
    fed or not. *)
Lemma perform_processFrame call w :
  refused_sender call (w_conf w) = false ->
  exists src t, perform oracle call w = (processFrame oracle (call_raw call) (set_curSource src (set_tee t w))).2.
Proof.
  destruct call as [raw from tee|raw]; cbn [perform refused_sender call_raw].
  - intros Hr. unfold handleDatagram. rewrite run_bind. cbn [gets fst snd]. rewrite run_bind. cbn [gets fst snd].
    assert (is_set (c_senderACL (w_conf w)) &&
      negb (AllowSender (c_senderACL (w_conf w))
        (default [] (if is_set (c_senderACL (w_conf w)) || is_set (w_tracker w) then sockaddrIP from else None))) = false) as ->.
    { destruct (is_set (c_senderACL (w_conf w))); [|done]. exact Hr. }
    rewrite run_bind. cbn [fst snd].
    assert (exists t, (when tee (teeToRetry raw from) w).2 = set_tee t w) as [t Ht].
    { assert (w = set_tee (w_tee w) w) as Hsame by (by destruct w).
      destruct tee; cbn [when]; [|by eexists]. unfold teeToRetry. destruct from; [|by eexists].
      rewrite run_bind. cbn [gets fst snd]. destruct (w_tee w); [|by eexists].
      destruct (teeEligible raw); cbn [when]; by eexists. }
    rewrite Ht, run_bind. cbn [modify fst snd]. rewrite run_bind. by eexists _, t.
  - intros _. unfold Reinject. rewrite run_bind. cbn [modify fst snd]. exists None, (w_tee w). by destruct w.
Qed.

(** What the buffer does with the fragment of the next call. *)
Definition fragment_step (w : Worker) (ff : FragFrame) (b : Buffer) : Buffer * option Tracker * list REvent :=
  let a := oracle (w_asked w) in
  @Reassembly.Observe _ (option Tracker) (worker_hooks (an_env a) (c_id (w_conf w)))
    (if is_set (w_tracker w) then Some (fragGroupIdx (w_conf w)) else None) (an_now a) (an_later a) ff b (w_tracker w).

Lemma run_observeFragment w ff b :
  let '(b', t', revs) := fragment_step w ff b in
  observeFragment oracle b ff w =
    for_each (on_event oracle) revs (set_tracker t' (set_reassem (Some b') (set_asked (S (w_asked w)) w))).
Proof.
  destruct (fragment_step w ff b) as [[b' t'] revs] eqn:Es. unfold observeFragment.
  do 3 (rewrite run_bind; cbn [gets ask fst snd]). unfold fragment_step in Es. by rewrite Es, run_bind.
Qed.

(** The handlers leave the buffer and the configuration alone. *)
Definition same_buffer (w w' : Worker) : Prop := w_reassem w' = w_reassem w /\ w_conf w' = w_conf w.

#[local] Instance same_buffer_elementary : Elementary same_buffer (fun _ => True) (fun _ => True).
Proof. split; try done. split; [done|]. intros x y z [] []. split; congruence. Qed.

Lemma same_buffer_events evs : keeps same_buffer (for_each (on_event oracle) evs).
Proof.
  apply (keeps_for_each (El := same_buffer_elementary)). intros ev _.
  apply (keeps_on_event oracle (El := same_buffer_elementary)); [done|]. by destruct ev.
Qed.

Lemma same_buffer_observe g sid hk seq txid : keeps same_buffer (observe oracle g sid hk seq txid).
Proof. by apply (keeps_observe oracle (El := same_buffer_elementary)). Qed.

(** Frames of the other classes. *)
Lemma same_buffer_frame raw : (IsFragment raw = true -> IsBlockFrame raw || IsSubtreeDataFrame raw || IsAnchorFrame raw = true) ->
  keeps same_buffer (processFrame oracle raw).
Proof.
  intros Hno. assert (Hd : decoders_ok (ok := fun _ => True)) by (by split).
  unfold processFrame. destruct (IsBlockFrame raw); [by apply (keeps_processBlockFrame oracle (El := same_buffer_elementary))|].
  destruct (IsSubtreeDataFrame raw); [|destruct (IsAnchorFrame raw); [|destruct (IsFragment raw);
    [by specialize (Hno eq_refl)|destruct (IsBundle raw); [|destruct (IsBEEFFrame raw); [|destruct (DecodeFrame raw)]]]]];
    (apply (keeps_bind (El := same_buffer_elementary)); [|intros; apply (keeps_ret (El := same_buffer_elementary))]).
  - by apply (keeps_processSubtreeDataFrame oracle (El := same_buffer_elementary)).
  - by apply (keeps_processAnchorFrame oracle (El := same_buffer_elementary)).
  - by apply (keeps_processBundle oracle (El := same_buffer_elementary)).
  - by apply (keeps_processBeefFrame oracle (El := same_buffer_elementary)).
  - by apply (keeps_processTx oracle (El := same_buffer_elementary)).
  - apply (keeps_metric (El := same_buffer_elementary)).
Qed.

(** A call without a fragment. *)
Lemma perform_other call w b :
  w_reassem w = Some b -> fragment_in (w_conf w) call = None -> same_buffer w (perform oracle call w).
Proof.
  unfold fragment_in. intros Hb Hf. destruct (refused_sender call (w_conf w)) eqn:Hr.
  { rewrite perform_refused by done. by destruct (c_rec (w_conf w)). }
  destruct (perform_processFrame call w Hr) as (src & t & ->). set (w1 := set_curSource src (set_tee t w)).
  change (same_buffer w1 (processFrame oracle (call_raw call) w1).2). cbn [orb] in Hf.
  destruct (IsBlockFrame (call_raw call) || IsSubtreeDataFrame (call_raw call) || IsAnchorFrame (call_raw call)) eqn:Hc.
  { by apply same_buffer_frame. }
  cbn [orb] in Hf. destruct (IsFragment (call_raw call)) eqn:Hfr; [|apply same_buffer_frame; congruence].
  apply orb_false_iff in Hc as [[B1 B2]%orb_false_iff B3]. cbn [negb] in Hf.
  unfold processFrame. rewrite B1, B2, B3, Hfr, run_bind. unfold processFragment. rewrite run_bind. cbn [gets fst snd].
  change (w_reassem w1) with (w_reassem w). rewrite Hb, Hf. done.
Qed.

(** A call with a fragment: the buffer takes it, and its events go to the handlers. *)
Lemma perform_fragment call ff w b :
  w_reassem w = Some b -> fragment_in (w_conf w) call = Some ff ->
  let '(b', t', revs) := fragment_step w ff b in
  w_conf (perform oracle call w) = w_conf w /\ w_reassem (perform oracle call w) = Some b' /\
  forall txs, (forall w1, w_conf w1 = w_conf w -> w_asked w1 = S (w_asked w) -> forwards (for_each (on_event oracle) revs) w1 txs) ->
    exists evs, w_log (perform oracle call w) = w_log w ++ evs /\ txs_sent evs = txs.
Proof.
  unfold fragment_in. intros Hb Hf. destruct (refused_sender call (w_conf w)) eqn:Hr; [done|]. cbn [orb] in Hf.
  destruct (IsBlockFrame (call_raw call)) eqn:B1; [done|]. destruct (IsSubtreeDataFrame (call_raw call)) eqn:B2; [done|].
  destruct (IsAnchorFrame (call_raw call)) eqn:B3; [done|]. destruct (IsFragment (call_raw call)) eqn:B4; [|done]. cbn [orb negb] in Hf.
  destruct (perform_processFrame call w Hr) as (src & t & ->). set (w1 := set_curSource src (set_tee t w)).
  change (fragment_step w ff b) with (fragment_step w1 ff b). destruct (fragment_step w1 ff b) as [[b' t'] revs] eqn:Es.
  unfold processFrame. rewrite B1, B2, B3, B4, run_bind. unfold processFragment. rewrite run_bind. cbn [gets fst snd].
  change (w_reassem w1) with (w_reassem w). rewrite Hb, Hf, run_bind.
  pose proof (run_observeFragment w1 ff b) as Hobs. rewrite Es in Hobs. rewrite Hobs.
  set (w2 := set_tracker t' (set_reassem (Some b') (set_asked (S (w_asked w1)) w1))).
  destruct (same_buffer_events revs w2) as [R1 C1]. set (w3 := (for_each _ revs w2).2) in *.
  rewrite run_bind. cbn [gets fst snd].
  match goal with |- context [observe oracle ?g ?sid ?hk ?seq ?id ?w4] =>
    destruct (same_buffer_observe g sid hk seq id w4) as [R2 C2];
    destruct (forwards_observe g sid hk seq id w4) as (e2 & n2 & t2 & E2 & S2) end.
  cbn [mret M_ret snd]. split; [by rewrite C2, C1|]. split; [by rewrite R2, R1|]. intros txs Htx.
  destruct (Htx w2 eq_refl eq_refl) as (e1 & n1 & t1 & E1 & S1). rewrite E2. exists (e1 ++ e2).
  split; [|by rewrite txs_sent_app, S1, S2, app_nil_r]. cbn. unfold w3. rewrite E1. cbn. by rewrite app_assoc.
Qed.

(** ** Steps of the worker *)

(** Besides the calls, the ticker of the buffer sweeps it, and other goroutines
    change the shared tracker. *)
Inductive WStep := SCall (call : WCall) | STick | STracker (t : option Tracker).

Definition wstep (w : Worker) (st : WStep) : Worker :=
  match st with
  | SCall call => perform oracle call w
  | STick => (tick oracle w).2
  | STracker t => set_tracker t w
  end.

Definition run_steps (sts : list WStep) (w : Worker) : Worker := fold_left wstep sts w.

Definition step_fragment (c : Conf) (st : WStep) : option FragFrame :=
  match st with SCall call => fragment_in c call | _ => None end.

(** ** A transaction in fragments *)

Section Transaction.
Context (object : bytes) (total fragSize : Z) (key txID sub : bytes) (ver : Z).
Hypothesis Hshape : shape_ok total (Z.of_nat (length object)) fragSize.
Hypothesis Htotal : total < 2 ^ 16.
Hypothesis Hclass : class_of ver = ClassTx.
Context (keys : gset bytes) (t0 : Z).
Hypothesis Hkey : key ∈ keys.

(** The index of the fragment of the object's key a step brings. *)
Definition own_step (c : Conf) (st : WStep) : option Z :=
  ff ← step_fragment c st; if bool_decide (slotKey ff = key) then Some (ff_FragIndex ff) else None.

(** The fragments around: those of the key are the object's. *)
Definition fragment_ok (ff : FragFrame) : Prop :=
  frag_ok ff /\ slotKey ff ∈ keys /\ (slotKey ff = key -> carries object total fragSize key txID sub ver ff).

(** The buffer of the worker [w] has collected the pieces [seen]. *)
Definition collecting (b0 : Buffer) (c : Conf) (seen : list Z) (w : Worker) : Prop :=
  w_conf w = c /\ exists b hist, w_reassem w = Some b /\ buf_inv hist b /\
    progress object total fragSize key txID sub ver keys t0 b0 seen b.

Context (b0 : Buffer) (c : Conf).
Hypothesis Hacc : accepts object txID ver b0.
Hypothesis Hbound : within_bound object ver b0.
Hypothesis Hlen : Z.of_nat (length object) + 1 < 2 ^ 32.
Hypothesis Hroom : Z.of_nat (size keys) <= b_maxSlots b0.
Hypothesis Hclock : forall k, in_window t0 b0 (an_now (oracle k)) /\ t0 <= an_later (oracle k).
Hypothesis Henc : encodes.

(** One step: what it collects and, with a fragment of the object, what it sends. *)
Lemma step_collects st seen w :
  (forall ff, step_fragment c st = Some ff -> fragment_ok ff) -> collecting b0 c seen w ->
  collecting b0 c (seen ++ option_list (own_step c st)) (wstep w st) /\
  forall i, own_step c st = Some i ->
    exists evs, w_log (wstep w st) = w_log w ++ evs /\
      txs_sent evs =
        if negb (covered total seen) && covered total (seen ++ [i]) && let_through c txID sub (S (w_asked w))
        then [(txID, object)] else [].
Proof.
  intros Hff (Hc & b & hist & Hb & Hinv & Hp). unfold own_step. destruct st as [call| |t]; cbn [wstep step_fragment] in *.
  - destruct (fragment_in c call) as [ff|] eqn:Ef; cbn [mbind option_bind].
    2: { cbn. rewrite app_nil_r. split; [|done]. rewrite <- Hc in Ef. destruct (perform_other call w b Hb Ef) as [H1' H2'].
         split; [congruence|]. exists b, hist. by rewrite H1'. }
    destruct (Hff ff eq_refl) as (Hok & Hin & Hca). rewrite <- Hc in Ef.
    pose proof (perform_fragment call ff w b Hb Ef) as Hpf. unfold fragment_step in Hpf.
    match type of Hpf with context [@Reassembly.Observe _ _ ?hk ?g ?n ?l _ _ ?st] =>
      pose proof (@Observe_progress _ (option Tracker) hk g object total fragSize key txID sub ver Hshape Htotal keys t0 Hkey
        b0 seen hist n l ff b st Hacc Hbound Hlen Hroom) as Hop;
      pose proof (@Observe_inv _ g _ hk hist n l ff b st Hok Hinv) as Hi end.
    destruct (Hclock (w_asked w)) as [Hw Hl].
    specialize (Hop (conj Hw (conj Hl (conj Hok (conj Hin Hca)))) Hinv Hp).
    destruct (@Reassembly.Observe _ _ _ _ _ _ ff b _) as [[b' t'] revs]. destruct Hop as [Hp' Hobj], Hi as [Hi _].
    destruct Hpf as (Hc' & Hb' & Htx). split.
    + split; [congruence|]. by exists b', (hist ++ [ff]).
    + intros i. case_bool_decide as Hk; [|done]. intros [= <-]. specialize (Hobj Hk).
      destruct (negb (covered total seen) && covered total (seen ++ [ff_FragIndex ff])); cbn [andb].
      * apply Htx. intros w1 Hc1 Ha1. unfold delivered in Hobj. rewrite Hclass in Hobj.
        pose proof (forwards_events revs txID sub object w1 Henc Hobj) as F. by rewrite Hc1, Ha1, Hc in F.
      * apply Htx. intros w1 _ _. pose proof (forwards_quiet _ _ _ _ (run_no_objects revs w1 Hobj)) as F.
        by rewrite logged_quiet in F.
  - cbn. rewrite app_nil_r. split; [|done]. unfold tick. rewrite run_bind. cbn [gets fst snd]. rewrite run_bind. cbn [gets fst snd].
    rewrite Hb. rewrite run_bind. cbn [gets fst snd]. rewrite run_bind. cbn [ask fst snd]. unfold Tick.
    destruct (Hclock (w_asked w)) as [Hw _].
    match goal with |- context [@evictExpired _ ?hk ?n b ?st] =>
      pose proof (@evictExpired_progress _ _ hk object total fragSize key txID sub ver keys t0 hist b0 seen n b st Hinv Hp Hw) as He;
      destruct (@evictExpired _ hk n b st) as [[b' t'] revs] end.
    destruct He as (Hp' & Hi & _). rewrite run_bind. cbn [modify fst snd].
    match goal with |- context [for_each _ revs ?w1] => destruct (same_buffer_events revs w1) as [R1 C1] end.
    split; [rewrite C1; exact Hc|]. exists b', hist. by rewrite R1.
  - cbn. rewrite app_nil_r. split; [|done]. split; [done|]. by exists b, hist.
Qed.

Lemma steps_collect sts seen w :
  Forall (fun st => forall ff, step_fragment c st = Some ff -> fragment_ok ff) sts -> collecting b0 c seen w ->
  collecting b0 c (seen ++ omap (own_step c) sts) (run_steps sts w).
Proof.
  intros Hall. revert seen w. induction Hall as [|st sts Hst _ IH]; intros seen w Hp; [cbn; by rewrite app_nil_r|].
  destruct (step_collects st seen w Hst Hp) as [Hp' _]. cbn [run_steps fold_left]. apply IH in Hp'.
  replace (omap (own_step c) (st :: sts)) with (option_list (own_step c st) ++ omap (own_step c) sts)
    by (cbn; by destruct (own_step c st)).
  by rewrite app_assoc.
Qed.

End Transaction.

(** C6: a fragmented transaction, end to end.  A worker's buffer satisfies its
    invariant and has no slot and no completion record for the transaction's key, accepts the
    object (callback, hash check, length bound), and for all steps considered the
    clocks stay within one slot and one completion lifetime, no more keys are around
    than the buffer has slots, and the fragments of the key are the object's.  Any
    datagrams and re-injections then arrive, of whatever class, around sweeps and
    changes of the shared tracker.  A step that brings a fragment of the transaction
    forwards exactly this transaction, under its TxID and with its original bytes,
    once, if with this fragment every index has arrived for the first time, the filter
    admits it and no sibling holds its claim; in every other case such a step
    forwards nothing. *)
Theorem fragments_to_egress (object : bytes) (total fragSize : Z) (key txID sub : bytes) (ver : Z) (keys : gset bytes) (t0 : Z)
    (w : Worker) (b : Buffer) (hist : list FragFrame) (sts : list WStep) :
  shape_ok total (Z.of_nat (length object)) fragSize -> total < 2 ^ 16 -> Z.of_nat (length object) + 1 < 2 ^ 32 ->
  class_of ver = ClassTx -> encodes ->
  w_reassem w = Some b -> buf_inv hist b -> b_slots b !! key = None -> b_done b !! key = None ->
  accepts object txID ver b -> within_bound object ver b ->
  key ∈ keys -> among keys b -> Z.of_nat (size keys) <= b_maxSlots b ->
  (forall k, in_window t0 b (an_now (oracle k)) /\ t0 <= an_later (oracle k)) ->
  Forall (fun st => forall ff, step_fragment (w_conf w) st = Some ff ->
            fragment_ok object total fragSize key txID sub ver keys ff) sts ->
  forall pre st post i, sts = pre ++ st :: post -> own_step key (w_conf w) st = Some i ->
  let w1 := run_steps pre w in
  let seen := omap (own_step key (w_conf w)) pre in
  exists evs, w_log (wstep w1 st) = w_log w1 ++ evs /\
    txs_sent evs =
      if negb (bool_decide (seqZ 0 total ⊆ seen)) && bool_decide (seqZ 0 total ⊆ seen ++ [i]) &&
         let_through (w_conf w) txID sub (S (w_asked w1))
      then [(txID, object)] else [].
Proof.
  intros Hshape Ht Hlen Hcl He Hb Hinv Hs Hd Ha Hbd Hk Ham Hroom Hclk Hall pre st post i -> Hi.
  apply Forall_app in Hall as [Hpre [Hst _]%Forall_cons]. pose proof Hshape as (S1 & _ & _).
  assert (covered total [] = false) as Hc.
  { apply bool_decide_eq_false. intros Hsub. assert (0 ∈ @nil Z) as Hin by (apply Hsub, elem_of_seqZ; lia).
    by apply elem_of_nil in Hin. }
  assert (collecting object total fragSize key txID sub ver keys t0 b (w_conf w) [] w) as Hcol.
  { split; [done|]. exists b, hist. split; [done|]. split; [done|]. split; [done|by intros j ?%elem_of_nil|done|].
    by rewrite Hc, Hs. }
  pose proof (steps_collect object total fragSize key txID sub ver Hshape Ht Hcl keys t0 Hk b (w_conf w) Ha Hbd Hlen Hroom Hclk He pre [] w Hpre Hcol) as Hp.
  destruct (step_collects object total fragSize key txID sub ver Hshape Ht Hcl keys t0 Hk b (w_conf w) Ha Hbd Hlen Hroom Hclk He st _ _ Hst Hp) as [_ Hev].
  exact (Hev i Hi).
Qed.

End Fragments.

#[local] Existing Instances lib0 tee0 wire0.

(** Three fragments, one of them twice and one recovered by the tracker, around a
    sweep and a whole transaction; then the last one. *)
Definition steps0 : list WStep :=
  [SCall (CallDatagram [3; 2; 5] (SockaddrInet6 src0 1) true); STick; SCall (CallReinject [3; 0; 1; 2]);
   SCall (CallDatagram [2; 9; 77] (SockaddrInet6 src0 1) true); STracker (Some run0);
   SCall (CallDatagram [3; 2; 5] (SockaddrInet6 src0 1) true)].

Definition last0 : WStep := SCall (CallDatagram [3; 1; 3; 4] (SockaddrInet6 src0 1) true).

(** A worker with a claim store, whose answer is [r]. *)
Definition claiming0 : Worker :=
  NewWorker
    (mkConf 0 true (mkEngine (fun _ => 0) 4) (mkFilter None None None None) false None (Some false) false false
      true false None 42 None ∅ ∅ false true None false)
    (Some run0) (Some (NewSet 2 0)) (Some buffer0) None.

Definition answering0 (r : ClaimResult) (_ : nat) : Answer := mkAnswer (env0 3000) 1000 1000 (fun _ => 0) true 1 r.

Definition last_sends (r : ClaimResult) (txs : list (bytes * bytes)) : Prop :=
  let w1 := run_steps (answering0 r) steps0 claiming0 in
  exists evs, w_log (wstep (answering0 r) w1 last0) = w_log w1 ++ evs /\ txs_sent evs = txs.

Lemma fragments_to_egress_witness :
  last_sends ClaimWon [(zeros 32, [1; 2; 3; 4; 5])] /\ last_sends ClaimError [(zeros 32, [1; 2; 3; 4; 5])] /\
  last_sends ClaimLost [].
Proof.
  enough (Hr : forall r, last_sends r match r with ClaimLost => [] | _ => [(zeros 32, [1; 2; 3; 4; 5])] end)
    by (split; [apply (Hr ClaimWon)|split; [apply (Hr ClaimError)|apply (Hr ClaimLost)]]).
  intros r. unfold last_sends. set (w1 := run_steps _ steps0 claiming0).
  destruct (fragments_to_egress (answering0 r) [1; 2; 3; 4; 5] 3 2 (zeros 32) (zeros 32) (zeros 32) 2 {[zeros 32]} 1000
    claiming0 buffer0 [] (steps0 ++ [last0])) with (pre := steps0) (st := last0) (post := @nil WStep) (i := 1) as (evs & Hl & He).
  - split; [lia|]. split; [lia|]. right. cbn. lia.
  - lia.
  - cbn. lia.
  - reflexivity.
  - intros f. by eexists.
  - reflexivity.
  - apply fresh_inv, buffer0_fresh.
  - reflexivity.
  - reflexivity.
  - cbn. split; [discriminate|reflexivity].
  - intros _. vm_compute. discriminate.
  - by apply elem_of_singleton.
  - intros k. cbn. rewrite !lookup_empty. by intros [[]|[]].
  - rewrite size_singleton. vm_compute. discriminate.
  - intros k. vm_compute. repeat split; discriminate.
  - assert (Hff : forall i d, 0 <= i < 3 -> d = piece [1; 2; 3; 4; 5] 3 2 i ->
      fragment_ok [1; 2; 3; 4; 5] 3 2 (zeros 32) (zeros 32) (zeros 32) 2 {[zeros 32]} (frag0 i d)).
    { intros i d Hi ->. split; [split; cbn; lia|]. split; [by apply elem_of_singleton|]. intros _.
      split; [split; cbn; lia|]. repeat (split; [done|]). done. }
    repeat (apply Forall_cons; split); [..|by apply Forall_nil]; intros ff Hf; vm_compute in Hf; try discriminate Hf;
      injection Hf as <-.
    + apply (Hff 2); [lia|reflexivity].
    + apply (Hff 0); [lia|reflexivity].
    + apply (Hff 2); [lia|reflexivity].
    + apply (Hff 1); [lia|reflexivity].
  - reflexivity.
  - vm_compute. reflexivity.
  - exists evs. split; [exact Hl|]. rewrite He. destruct r; vm_compute; reflexivity.
Defined.
