(* ===== verification/NodeProps.v ===== *)
(** * A node: theorems

    Whatever its goroutines do, a node's tracker is a run of the tracker's own
    step relation, and what its workers send is gated. *)

From S2P Require Import Prelude Wire Discovery Tracker TrackerInv TrackerProps TrackerRepair Dedup SubtreeGroup Filter Reassembly ReassemblyProps ReassemblyRepair RetryTee Listener ListenerInv ListenerEgress ListenerExample ListenerProps ListenerKeeps Node.

(** ** The SeqNums a reassembly buffer holds *)

Section Buffer.
Context `{FrameLib}.

(** The events of a list, one by one. *)
Ltac events := repeat first [apply Forall_nil_2 | apply Forall_cons_2 | apply Forall_app; split | done | exact I].

Definition slot_seq_ok (s : slot) : Prop := is_u64 (sl_seqNum s).

Definition seqs_ok (b : Buffer) : Prop := map_Forall (fun _ s => slot_seq_ok s) (b_slots b).

Lemma promote_seq s : sl_seqNum (promote s) = sl_seqNum s.
Proof. done. Qed.

Lemma store_seq i d s : sl_seqNum (store i d s) = sl_seqNum s.
Proof. unfold store. destruct (sl_whole s); [done|]. by case_test. Qed.

Lemma add_fragment_seq n ff s : sl_seqNum (add_fragment n ff s) = sl_seqNum s.
Proof. unfold add_fragment. cbn. by rewrite store_seq. Qed.

Lemma deliver_events b s whole : slot_seq_ok s -> Forall (event_ok (ok := is_u64)) (deliver b s whole).
Proof. intros Hs. unfold deliver. repeat case_test; events. Qed.

Lemma complete_seqs now s b : slot_seq_ok s -> seqs_ok b ->
  seqs_ok (complete now s b).1 /\ Forall (event_ok (ok := is_u64)) (complete now s b).2.
Proof.
  intros Hs Hb. unfold complete. cbn [fst snd]. split.
  - unfold removeSlot, seqs_ok. cbn. assert (b_slots (markDone now (sl_key s) b) = b_slots b) as ->.
    { unfold markDone. by repeat case_match. }
    by apply map_Forall_delete.
  - apply Forall_app. split; [case_test; events|]. apply deliver_events. by destruct (sl_whole s).
Qed.

Lemma take_fragment_seqs later ff s b : slot_seq_ok s -> seqs_ok b ->
  seqs_ok (take_fragment later ff s b).1 /\ Forall (event_ok (ok := is_u64)) (take_fragment later ff s b).2.
Proof.
  intros Hs Hb. unfold take_fragment. do 2 (case_test; [by split; [|events]|]).
  case_test; [|split; [by apply map_Forall_delete|events]].
  assert (Ha : slot_seq_ok (add_fragment z ff s)) by (unfold slot_seq_ok; by rewrite add_fragment_seq).
  assert (Hi : seqs_ok (with_slots (<[sl_key (add_fragment z ff s) := add_fragment z ff s]> (b_slots b)) b))
    by (by apply map_Forall_insert_2).
  case_test; [by split; [|events]|]. by apply complete_seqs.
Qed.

Lemma evict_first_seqs pre order b : seqs_ok b ->
  seqs_ok (evict_first pre order b).1 /\ Forall (event_ok (ok := is_u64)) (evict_first pre order b).2.
Proof.
  revert pre. induction order as [|key order IH]; intros pre Hb; [by split; [|constructor]|].
  cbn [evict_first]. case_test; [|by apply IH]. cbn. split; [by apply map_Forall_delete|events].
Qed.

Section Hooks.
Context {S : Type} `{HR : RepairHooks S} (R : relation S) `{!PreOrder R}.
Hypothesis Hask : forall hk g sid missing st, R st (onIncomplete hk g sid missing st).

Lemma evict_one_seqs now b st evs key :
  seqs_ok b -> Forall (event_ok (ok := is_u64)) evs ->
  let '(b', st', evs') := evict_one now (b, st, evs) key in
  seqs_ok b' /\ R st st' /\ Forall (event_ok (ok := is_u64)) evs'.
Proof.
  intros Hb He. unfold evict_one. destruct (b_slots b !! key) as [s|] eqn:Es; [|done]. case_test; [done|].
  assert (Hd : seqs_ok (removeSlot key b)) by (by apply map_Forall_delete).
  case_test; cbn [abandon].
  - split; [done|]. split; [|events].
    unfold notifyIncomplete. case_test; [done|]. by destruct (missingSeqNums s).
  - unfold holdForRepair. destruct (missingSeqNums s) as [|m ms]; cbn zeta beta.
    { split; [done|]. split; [done|]. events. }
    set (st' := if _ : bool then onIncomplete _ _ _ _ st else st).
    assert (R st st') by (unfold st'; by case_test).
    repeat case_test; (split; [first [done | apply map_Forall_insert_2; [exact (Hb _ _ Es)|done]]|]);
      (split; [done|]); events.
Qed.

Lemma evictExpired_seqs now b st :
  seqs_ok b ->
  let '(b', st', evs) := evictExpired now b st in
  seqs_ok b' /\ R st st' /\ Forall (event_ok (ok := is_u64)) evs.
Proof.
  intros Hb. unfold evictExpired.
  assert (Hs : seqs_ok (sweepDone now b)) by (unfold sweepDone; by repeat case_match).
  generalize dependent (sweepDone now b). intros b0 Hs. clear Hb.
  assert (Hfold : forall order b1 st1 evs1, seqs_ok b1 -> Forall (event_ok (ok := is_u64)) evs1 ->
    let '(b', st', evs') := fold_left (evict_one now) order (b1, st1, evs1) in
    seqs_ok b' /\ R st1 st' /\ Forall (event_ok (ok := is_u64)) evs').
  { induction order as [|key order IH]; intros b1 st1 evs1 H1 H2; [done|]. cbn [fold_left].
    pose proof (evict_one_seqs now b1 st1 evs1 key H1 H2) as Ho.
    destruct (evict_one _ _ _) as [[b2 st2] evs2]. destruct Ho as (O1 & O2 & O3).
    specialize (IH b2 st2 evs2 O1 O3). destruct (fold_left _ _ _) as [[b3 st3] evs3]. destruct IH as (I1 & I2 & I3).
    split; [done|]. split; [by etrans|done]. }
  specialize (Hfold (b_insertOrder b0) b0 st [] Hs (Forall_nil_2 _)).
  by destruct (fold_left _ _ _) as [[b' st'] evs].
Qed.

Lemma Observe_seqs gfn now later ff b st :
  seqs_ok b -> is_u64 (ff_SeqNum ff) ->
  let '(b', st', evs) := Reassembly.Observe gfn now later ff b st in
  seqs_ok b' /\ R st st' /\ Forall (event_ok (ok := is_u64)) evs.
Proof.
  intros Hb Hff. unfold Reassembly.Observe.
  set (pre := if sweep_every b <=? _ then _ else (b, st, [])).
  assert (Hpre : let '(b', st', evs) := pre in seqs_ok b' /\ R st st' /\ Forall (event_ok (ok := is_u64)) evs).
  { unfold pre. case_test; [|by split; [|split; [|events]]].
    pose proof (evictExpired_seqs now b st Hb) as Hp. by destruct (evictExpired _ _ _) as [[??]?]. }
  destruct pre as [[b1 st1] ev1]. destruct Hpre as (H1 & H2 & H3).
  destruct (b_slots b1 !! slotKey ff) as [s|] eqn:Es.
  - destruct (take_fragment_seqs later ff s b1 (H1 _ _ Es) H1) as [T1 T2].
    destruct (take_fragment _ _ _ _) as [b2 ev2]. split; [done|]. split; [done|]. by apply Forall_app.
  - unfold open_slot. do 3 (case_test; [split; [done|]; split; [done|]; events|]).
    case_test; [split; [done|]; split; [done|]; events|].
    match goal with |- context [if ?c then evictOldest b1 else _] => set (ev := if c then evictOldest b1 else (b1, [])) end.
    assert (Hev : seqs_ok ev.1 /\ Forall (event_ok (ok := is_u64)) ev.2).
    { unfold ev. case_test; [by apply evict_first_seqs|by split; [|constructor]]. }
    destruct ev as [b2 ev2]. destruct Hev as [E1 E2]. cbn [fst snd] in *.
    assert (Hn : slot_seq_ok (newSlot gfn now b2 ff)) by done.
    match goal with |- context [take_fragment later ff ?s ?b] =>
      destruct (take_fragment_seqs later ff s b) as [T1 T2]; [done|by apply map_Forall_insert_2|];
      destruct (take_fragment later ff s b) as [b3 ev3] end.
    split; [done|]. split; [done|]. events.
Qed.

End Hooks.
End Buffer.

(** ** What a worker does to the tracker *)

Section Tracks.
Context `{FrameLib} `{TeeLib} `{WireLib}.

Definition tracker_run (o o' : option Tracker) : Prop :=
  match o with None => o' = None | Some t => exists t', o' = Some t' /\ rtc (step false) t t' end.

#[export] Instance tracker_run_preorder : PreOrder tracker_run.
Proof.
  split; [intros [t|]; [|done]; by exists t|].
  intros [t|] y z; cbn; [|by intros ->]. intros (t1 & -> & Ht1). cbn. intros (t2 & -> & Ht2). exists t2.
  split; [done|]. by etrans.
Qed.

Lemma tracker_run_step t t' : step false t t' -> tracker_run (Some t) (Some t').
Proof. intros Hs. exists t'. split; [done|]. by apply rtc_once. Qed.

Definition buffer_ok (w : Worker) : Prop := match w_reassem w with Some b => seqs_ok b | None => True end.

(** With a buffer of 64-bit SeqNums the tracker makes steps of its own. *)
Definition tracks (w w' : Worker) : Prop :=
  buffer_ok w -> buffer_ok w' /\ tracker_run (w_tracker w) (w_tracker w').

#[export] Instance tracks_elementary : Elementary tracks is_u64 Env_ok.
Proof.
  split; try (by intros; intros Hb; split; [|reflexivity]).
  - split; [by intros w Hb|]. intros x y z Hxy Hyz Hx. destruct (Hxy Hx) as [Hy ?]. destruct (Hyz Hy) as [Hz ?].
    split; [done|]. by etrans.
  - intros env owner g sid hk seq txid t w He Hs Ht Hb. split; [done|]. rewrite Ht. cbn [set_tracker w_tracker].
    by apply tracker_run_step, StObserve.
Qed.

Context (oracle : nat -> Answer).
Hypothesis Henv : forall k, Env_ok (an_env (oracle k)).
Hypothesis Hdec : decoders_ok (ok := is_u64).

(** The hooks of a worker's buffer are steps of the tracker. *)
Lemma hooks_run env owner hk g sid missing (st : option Tracker) :
  tracker_run st (onIncomplete (RepairHooks := worker_hooks env owner) hk g sid missing st).
Proof. destruct st as [t|]; [|done]. by apply tracker_run_step, StRequest. Qed.

Lemma keeps_events evs : Forall (event_ok (ok := is_u64)) evs -> keeps tracks (for_each (on_event oracle) evs).
Proof.
  intros He. apply (keeps_for_each (El := tracks_elementary)). intros ev Hin.
  apply (keeps_on_event oracle (El := tracks_elementary)); [done|]. by eapply Forall_forall in Hin.
Qed.

Lemma keeps_processFragment raw : keeps tracks (processFragment oracle raw).
Proof.
  intros w. unfold processFragment. rewrite run_bind. cbn [gets fst snd].
  destruct (w_reassem w) as [b|] eqn:Eb; [|apply (el_log (Elementary := tracks_elementary))].
  destruct (DecodeFragment raw) as [ff|] eqn:Ef; [|apply (el_log (Elementary := tracks_elementary))].
  pose proof (do_fragment Hdec _ _ Ef) as Hs. rewrite run_bind.
  etrans; [|apply (keeps_bind (El := tracks_elementary));
             [apply (keeps_gets (El := tracks_elementary))
             |intros c; apply (keeps_observe oracle (El := tracks_elementary)); [done|exact Hs]]].
  unfold observeFragment. rewrite !run_bind. cbn [gets ask fst snd].
  match goal with |- context [Reassembly.Observe ?gf ?a ?l ff b ?st] =>
    pose proof (Observe_seqs (HR := worker_hooks (an_env (oracle (w_asked w))) (c_id (w_conf w)))
      tracker_run (hooks_run _ _) gf a l ff b st) as Ho end.
  destruct (Reassembly.Observe _ _ _ _ _ _) as [[b' t'] evs]. rewrite run_bind. cbn [modify fst snd].
  intros Hb. unfold buffer_ok in Hb. rewrite Eb in Hb. destruct (Ho Hb Hs) as (O1 & O2 & O3).
  match goal with |- context [for_each (on_event oracle) evs ?w1] => destruct (keeps_events evs O3 w1 O1) as [K1 K2] end.
  split; [done|]. etrans; [exact O2|exact K2].
Qed.

Lemma keeps_tee raw from : keeps tracks (teeToRetry raw from).
Proof.
  unfold teeToRetry. destruct from; [|apply (keeps_ret (El := tracks_elementary))].
  intros w. rewrite run_bind. cbn [gets fst snd]. destruct (w_tee w); [|reflexivity].
  destruct (teeEligible raw); [|reflexivity]. by intros Hb.
Qed.

Lemma tracks_datagram raw from tee : keeps tracks (handleDatagram oracle raw from tee).
Proof.
  apply (keeps_handleDatagram oracle (El := tracks_elementary)); auto using keeps_processFragment, keeps_tee.
Qed.

Lemma tracks_Reinject raw : keeps tracks (Reinject oracle raw).
Proof. apply (keeps_Reinject oracle (El := tracks_elementary)); auto using keeps_processFragment. Qed.

Lemma tracks_tick : keeps tracks (tick oracle).
Proof.
  intros w. unfold tick. rewrite !run_bind. cbn [gets fst snd].
  destruct (w_reassem w) as [b|] eqn:Eb; [|reflexivity]. rewrite !run_bind. cbn [gets ask fst snd].
  match goal with |- context [Reassembly.Tick ?a b ?st] =>
    pose proof (evictExpired_seqs (HR := worker_hooks (an_env (oracle (w_asked w))) (c_id (w_conf w)))
      tracker_run (hooks_run _ _) a b st) as Ho end.
  unfold Reassembly.Tick. destruct (evictExpired _ _ _) as [[b' t'] evs]. rewrite run_bind. cbn [modify fst snd].
  intros Hb. unfold buffer_ok in Hb. rewrite Eb in Hb. destruct (Ho Hb) as (O1 & O2 & O3).
  match goal with |- context [for_each (on_event oracle) evs ?w1] => destruct (keeps_events evs O3 w1 O1) as [K1 K2] end.
  split; [done|]. etrans; [exact O2|exact K2].
Qed.

Lemma tick_ok c : emits c (egress_ok c) (tick oracle) (fun _ => True).
Proof.
  unfold tick. emits_bind_step. emits_bind_step; [apply emits_any|]. case_test; [|by apply emits_ret].
  emits_bind_step; [apply emits_any|]. emits_bind_step; [apply emits_ask|].
  destruct (Reassembly.Tick _ _ _) as [[b' t'] evs]. emits_bind_step; [by apply emits_modify|].
  apply emits_for_each. intros. apply on_event_ok.
Qed.

End Tracks.

(** ** Runs of a node *)

Section Run.
Context `{FrameLib} `{TeeLib} `{WireLib}.
Context (oracles : nat -> nat -> Answer).

(** The environments of the calls behave like Go's maps. *)
Definition op_ok (op : NodeOp) : Prop := match op with NSweep env => Env_ok env | _ => True end.

Record node_ok (n : Node) : Prop := mkNodeOk {
  no_buffers : Forall buffer_ok (n_workers n);
  no_senders : Z.of_nat (length (n_senders n)) <= defaultMaxConcurrent
}.

(** What a run leaves of a worker: its configuration, and gated sends. *)
Definition extends (w w' : Worker) : Prop :=
  w_conf w' = w_conf w /\ exists evs, w_log w' = w_log w ++ evs /\ Forall (egress_ok (w_conf w)) evs.

#[export] Instance extends_preorder : PreOrder extends.
Proof.
  split.
  - intros w. split; [done|]. exists []. by rewrite app_nil_r.
  - intros x y z (Cy & ey & Ly & Fy) (Cz & ez & Lz & Fz). rewrite Cy in Cz, Fz. split; [done|].
    exists (ey ++ ez). rewrite Lz, Ly, app_assoc. split; [done|]. by apply Forall_app.
Qed.

Hypothesis Henv : forall i k, Env_ok (an_env (oracles i k)).
Hypothesis Hdec : decoders_ok (ok := is_u64).

(** One step of the node, as the tracker and the workers see it. *)
Record advances (n n' : Node) : Prop := mkAdvances {
  ad_tracker : rtc (step false) (n_tracker n) (n_tracker n');
  ad_workers : Forall2 extends (n_workers n) (n_workers n');
  ad_ok : node_ok n'
}.

Lemma workers_refl (n : Node) : Forall2 extends (n_workers n) (n_workers n).
Proof. reflexivity. Qed.

(** A step that leaves the workers alone. *)
Lemma advances_tracker n n' :
  rtc (step false) (n_tracker n) (n_tracker n') -> n_workers n' = n_workers n ->
  Z.of_nat (length (n_senders n')) <= defaultMaxConcurrent -> node_ok n -> advances n n'.
Proof.
  intros Ht Hw Hs [Hb _]. split; [done|rewrite Hw; apply workers_refl|]. split; [by rewrite Hw|done].
Qed.

Lemma advances_worker i (f : Worker -> Worker) n :
  (forall w, tracks w (f w)) -> (forall w, extends w (f w)) -> node_ok n -> advances n (on_worker i f n).
Proof.
  intros Ht He Hn. unfold on_worker. destruct (n_workers n !! i) as [w|] eqn:Hw; [|by apply advances_tracker; [..|apply Hn|]].
  destruct Hn as [Hb Hs]. set (w0 := set_tracker (Some (n_tracker n)) w).
  assert (Hb0 : buffer_ok w0) by (by eapply (Forall_lookup_1 _ _ _ _ Hb) in Hw).
  destruct (Ht w0 Hb0) as [Hb1 (t' & Et & Hr)]. split; cbn [n_tracker n_workers].
  - by rewrite Et.
  - rewrite <- (list_insert_id (n_workers n) i w) at 1 by done. apply Forall2_insert; [apply workers_refl|].
    exact (He w0).
  - split; [|done]. by apply Forall_insert.
Qed.

Lemma advances_trans n n' n'' : advances n n' -> advances n' n'' -> advances n n''.
Proof.
  intros [T1 W1 _] [T2 W2 O2]. split; [by etrans|by etrans|done].
Qed.

Lemma Reinject_extends i raw w : extends w (Reinject (oracles i) raw w).2.
Proof. destruct (Reinject_ok (oracles i) (w_conf w) raw w eq_refl) as (? & _ & ?). done. Qed.

Lemma ask_advances k renv net e n :
  is_Some (n_senders n !! k) -> node_ok n -> advances n (ask_endpoint oracles k renv net e n).
Proof.
  intros Hk Hn. pose proof (no_senders _ Hn) as Hs. unfold ask_endpoint. destruct (Snapshot _ _) as [snap reg].
  destruct (sendNACK_decide _ _ _ _ _) as [[[o evs] fr]|] eqn:Ed.
  - match goal with |- context [on_worker _ _ ?m] => set (n1 := m) end.
    assert (A1 : advances n n1) by (apply advances_tracker; [by eapply rtc_once, StAsk|done..]).
    set (n2 := match fr with Some _ => _ | None => _ end). assert (A2 : advances n n2).
    { unfold n2. destruct fr as [[f raw]|]; [|done]. eapply advances_trans; [done|].
      apply advances_worker; [by apply tracks_Reinject|apply Reinject_extends|apply A1]. }
    eapply advances_trans; [done|]. apply advances_tracker; [done|done| |apply A2]. cbn [with_senders n_senders].
    rewrite length_insert. apply (no_senders _ (ad_ok _ _ A2)).
  - apply advances_tracker; [by apply rtc_once, StRegistry|done| |done]. cbn. rewrite length_delete by done. lia.
Qed.

Lemma step_advances op n : op_ok op -> node_ok n -> advances n (node_step oracles op n).
Proof.
  intros Hop Hn. pose proof (no_senders _ Hn) as Hs.
  assert (Hid : advances n n) by (by apply advances_tracker). destruct op as [i raw from tee|i|env|reg| | |k renv net|k now rnd]; cbn [node_step].
  - apply advances_worker; [by apply tracks_datagram| |done]. intros w.
    destruct (handleDatagram_ok (oracles i) (w_conf w) raw from tee w eq_refl) as (? & _ & ?). done.
  - apply advances_worker; [by apply tracks_tick| |done]. intros w.
    destruct (tick_ok (oracles i) (w_conf w) w eq_refl) as (? & _ & ?). done.
  - apply advances_tracker; [by apply rtc_once, StSweep|done..].
  - apply advances_tracker; [by apply rtc_once, StRegistry|done..].
  - destruct (n_held n); [done|]. destruct (dispatch _) as [[e t]|] eqn:Ed; [|done].
    apply advances_tracker; [by eapply rtc_once, StDispatch|done..].
  - destruct (n_held n); [|done]. case_test; [|done]. bool_to_prop. apply advances_tracker; [done|done| |done].
    cbn. rewrite length_app. cbn. lia.
  - destruct (n_senders n !! k) as [[e|e o]|] eqn:Ek; [|done..]. apply ask_advances; [by rewrite Ek|done].
  - destruct (n_senders n !! k) as [[e|e o]|] eqn:Ek; [done| |done].
    apply advances_tracker; [by apply rtc_once, StAnswer|done| |done]. cbn. rewrite length_delete by done. lia.
Qed.

Lemma run_advances ops n : Forall op_ok ops -> node_ok n -> advances n (run_node oracles ops n).
Proof.
  intros Hops. revert n. induction Hops as [|op ops Hop _ IH]; intros n Hn; [by apply advances_tracker; [..|apply Hn|]|].
  cbn [run_node fold_left]. pose proof (step_advances op n Hop Hn) as Ha. eapply advances_trans; [done|].
  apply IH, Ha.
Qed.

Lemma steps_wf t t' : rtc (step false) t t' -> tracker_wf t -> tracker_wf t'.
Proof. induction 1 as [|x y z Hs _ IH]; [done|]. intros Hw. by eapply IH, step_wf. Qed.

(** C9: A node's goroutines, together.  Whatever sequence of datagrams, ticks, sweeps,
    registry changes, dispatches, answers and re-injections a node goes through,
    its shared tracker makes only steps of the tracker's own relation, so it stays
    well formed; every worker keeps its configuration and sends nothing its gates
    refuse; and at most 64 goroutines ask at a time. *)
Theorem node_runs (ops : list NodeOp) (n : Node) :
  Forall op_ok ops -> node_ok n -> tracker_wf (n_tracker n) ->
  let n' := run_node oracles ops n in
  rtc (step false) (n_tracker n) (n_tracker n') /\ tracker_wf (n_tracker n') /\
  Forall2 extends (n_workers n) (n_workers n') /\ Z.of_nat (length (n_senders n')) <= defaultMaxConcurrent.
Proof.
  intros Hops Hn Hwf n'. destruct (run_advances ops n Hops Hn) as [Ht Hw [_ Hs]].
  split; [done|]. split; [by eapply steps_wf|done].
Qed.

(** [run] starts a node in such a state. *)
Lemma start_node_ok t ws :
  tracker_wf t -> Forall (fun w => match w_reassem w with Some b => b_slots b = ∅ | None => True end) ws ->
  node_ok (start_node t ws) /\ tracker_wf (n_tracker (start_node t ws)).
Proof.
  intros Ht Hws. split.
  - split; [|cbn; unfold defaultMaxConcurrent; lia]. apply (Forall_impl _ _ _ Hws). intros w. unfold buffer_ok.
    destruct (w_reassem w); [|done]. intros Hb. unfold seqs_ok. rewrite Hb. apply map_Forall_empty.
  - cbn [start_node n_tracker]. apply (fold_left_inv _ tracker_wf); [done|]. intros t0 i _ Hwf. by apply (step_wf false t0); [apply StRegister|].
Qed.

End Run.

(** ** A run *)

#[local] Existing Instances lib0 tee0 wire0.

Lemma seconds_ok : decoders_ok (ok := is_u64).
Proof.
  assert (Hs : forall raw, is_u64 (second raw)).
  { intros raw. unfold second, u8, is_u64. pose proof (Z.mod_pos_bound (byte_at raw 1) (2 ^ 8) ltac:(lia)). lia. }
  split; intros raw x; cbn; try (intros [= <-]; apply Hs).
  intros [= <-]. cbn. pose proof (Hs raw). unfold is_u64, second, u8 in *.
  pose proof (Z.mod_pos_bound (byte_at raw 1) (2 ^ 8) ltac:(lia)). lia.
Qed.

(** A worker whose flow 7 is at 224, on a node with one endpoint. *)
Definition worker1 : Worker := NewWorker conf0 None (Some (NewSet 2 0)) (Some (with_lastEvict 900 buffer0)) None.

Definition node0 : Node :=
  start_node (ObserveFrom (env0 1000) 0 0 (zeros 32) 7 224 (zeros 32) (Some src0) (Tracker.New cfg0 ["[::1]:9300"%string] true None))
    [worker1].

Definition ops0 : list NodeOp :=
  [NDatagram 0 [2; 226; 1] SockaddrOther false; NTick 0; NSweep (env0 ns_per_s); NTake; NLaunch].

Lemma node_runs_witness :
  tracker_wf (n_tracker (run_node (fun _ => oracle0) ops0 node0)) /\
  length (n_senders (run_node (fun _ => oracle0) ops0 node0)) = 1%nat.
Proof.
  destruct (start_node_ok (ObserveFrom (env0 1000) 0 0 (zeros 32) 7 224 (zeros 32) (Some src0)
    (Tracker.New cfg0 ["[::1]:9300"%string] true None)) [worker1]) as [Hn Hwf].
  { eapply (step_wf false); [|apply New_wf]. apply StObserve; [apply env0_ok|]. split; vm_compute; [discriminate|reflexivity]. }
  { repeat constructor. }
  destruct (node_runs (fun _ => oracle0) (fun _ _ => env0_ok _) seconds_ok ops0 node0) as (_ & Hw & _).
  - repeat constructor; apply env0_ok.
  - exact Hn.
  - exact Hwf.
  - split; [exact Hw|vm_compute; reflexivity].
Defined.
