(* ===== verification/NodeRepair.v ===== *)
(** * A node repairs a lost frame

    The chain from a skipped SeqNum to the consumer: the frame that skips it
    registers the gap for the worker it arrived at, the next sweep queues it, and
    the goroutine that asks for it hands the retransmitted frame to that worker,
    which forwards it, and closes the gap. *)

From S2P Require Import Prelude Wire Discovery Tracker TrackerInv TrackerProps TrackerRepair Dedup SubtreeGroup Filter Reassembly ReassemblyProps ReassemblyRepair RetryTee Listener ListenerInv ListenerEgress ListenerExample ListenerProps ListenerKeeps Node NodeProps.

(** ** What a sweep queues *)

Section Sweep.
Context (t : Tracker) (env : Env).
Hypothesis Henv : Env_ok env.
Local Abbreviation now := (ev_now env).

(** The gap is alive and its attempt due. *)
Definition due (cfg : TrackerConfig) (at_ : Z) (e : gapEntry) : Prop :=
  sweep_keeps cfg at_ e = true /\ ge_nextAttempt e < at_.

(** The copy of a gap is queued, unless the queue is full. *)
Definition queued_or_full (e : gapEntry) (q : list gapEntry) : Prop :=
  (exists next, set_nextAttempt next e ∈ q) \/ (nackQueueCap <= length q)%nat.

Lemma queued_mono e q q' : q `prefix_of` q' -> queued_or_full e q -> queued_or_full e q'.
Proof.
  intros [k ->] [[next Hq]|Hl]; [left; exists next; apply elem_of_app; by left|]. right. rewrite length_app. lia.
Qed.

Lemma enqueue_prefix q e q' : enqueue q e = Some q' -> q `prefix_of` q' /\ e ∈ q'.
Proof.
  unfold enqueue. case_test; [|done]. intros [= <-]. split; [by exists [e]|]. apply elem_of_app. right. by left.
Qed.

Lemma enqueue_full q e : enqueue q e = None -> (nackQueueCap <= length q)%nat.
Proof. unfold enqueue. case_test; [done|]. intros _. by apply Nat.ltb_ge. Qed.

Lemma sweep_gap_queue book acc seq e :
  acc.1.2 `prefix_of` (sweep_gap t now book acc (seq, e)).1.2 /\
  (due (t_cfg t) now e -> queued_or_full e (sweep_gap t now book acc (seq, e)).1.2).
Proof.
  destruct acc as [[fs q] evs]. cbn [fst snd]. unfold sweep_gap, due, sweep_keeps.
  destruct (after now (ge_deadline e)); cbn [negb andb].
  { destruct (evict_gap _ _ _ _ _ _). split; [done|]. by intros []. }
  destruct (MaxRetries (t_cfg t) <=? ge_failRounds e); cbn [negb].
  { destruct (evict_gap _ _ _ _ _ _). split; [done|]. by intros []. }
  unfold after. destruct (Z.ltb_spec (ge_nextAttempt e) now) as [Hd|Hd]; [|split; [done|lia]].
  destruct (enqueue _ _) as [q'|] eqn:Eq; cbn [fst snd].
  - apply enqueue_prefix in Eq as [Hp Hin]. split; [done|]. intros _. left. eauto.
  - apply enqueue_full in Eq. split; [done|]. by right.
Qed.

Lemma sweep_gaps_queue book l acc :
  acc.1.2 `prefix_of` (fold_left (sweep_gap t now book) l acc).1.2 /\
  (forall seq e, (seq, e) ∈ l -> due (t_cfg t) now e -> queued_or_full e (fold_left (sweep_gap t now book) l acc).1.2).
Proof.
  revert acc. induction l as [|[s g] l IH]; intros acc; [split; [done|]; by intros ? ? ?%elem_of_nil|].
  cbn [fold_left]. destruct (sweep_gap_queue book acc s g) as [P1 Q1]. destruct (IH (sweep_gap t now book acc (s, g))) as [P2 Q2].
  split; [by etrans|]. intros seq e [[= -> ->]|Hin]%elem_of_cons Hd; [|by eapply Q2].
  eapply queued_mono; [exact P2|]. by apply Q1.
Qed.

Lemma maybeProbeTail_queue hk fs q : q `prefix_of` (maybeProbeTail t now hk fs q).1.2.
Proof.
  unfold maybeProbeTail. do 4 (case_test; [done|]). destruct (enqueue q _) as [q'|] eqn:Eq; [|done].
  by apply enqueue_prefix in Eq as [Hp _].
Qed.

Lemma sweep_flow_queue hk fs q :
  q `prefix_of` (sweep_flow t env hk fs q).1.2 /\
  (forall seq e, fs_pending fs !! seq = Some e -> due (t_cfg t) now e -> queued_or_full e (sweep_flow t env hk fs q).1.2).
Proof.
  unfold sweep_flow. set (fs1 := purge_abandoned now fs).
  destruct (sweep_gaps_queue (ev_book env hk) (ev_range env (fs_pending fs1)) (fs1, q, [])) as [P1 Q1].
  destruct (fold_left _ _ _) as [[fs2 q2] ev1]. cbn [fst snd] in P1, Q1.
  assert (Hq : forall q3, q2 `prefix_of` q3 ->
    q `prefix_of` q3 /\ forall seq e, fs_pending fs !! seq = Some e -> due (t_cfg t) now e -> queued_or_full e q3).
  { intros q3 Hp. split; [by etrans|]. intros seq e He Hd. eapply queued_mono; [exact Hp|]. apply (Q1 seq e); [|done].
    rewrite (env_range _ Henv). by apply elem_of_map_to_list. }
  case_decide; [|by apply Hq]. pose proof (maybeProbeTail_queue hk fs2 q2) as Hp.
  destruct (maybeProbeTail _ _ _ _ _) as [[fs3 q3] ev2]. by apply Hq.
Qed.

Lemma sweep_flows_queue l acc :
  acc.1.2 `prefix_of` (fold_left (sweep_step t env) l acc).1.2 /\
  (forall hk fs seq e, (hk, fs) ∈ l -> fs_pending fs !! seq = Some e -> due (t_cfg t) now e ->
     queued_or_full e (fold_left (sweep_step t env) l acc).1.2).
Proof.
  revert acc. induction l as [|[k f] l IH]; intros [[flows q] evs]; [split; [done|]; by intros ? ? ? ? ?%elem_of_nil|].
  cbn [fold_left sweep_step]. destruct (sweep_flow_queue k f q) as [P1 Q1].
  destruct (sweep_flow t env k f q) as [[r q1] ev1]. cbn [fst snd] in P1, Q1.
  match goal with |- context [fold_left _ l ?a] => destruct (IH a) as [P2 Q2] end. cbn [fst snd] in P2.
  split; [by etrans|]. intros hk fs seq e [[= -> ->]|Hin]%elem_of_cons Hp Hd; [|by eapply Q2].
  eapply queued_mono; [exact P2|]. by eapply Q1.
Qed.

(** Every gap that is due is queued, unless the queue is full. *)
Lemma sweep_queues hk fs seq e :
  t_flows t !! hk = Some fs -> fs_pending fs !! seq = Some e -> due (t_cfg t) now e ->
  queued_or_full e (t_nackQueue (sweepOnce env t)).
Proof.
  intros Hf Hp Hd. unfold sweepOnce.
  destruct (sweep_flows_queue (ev_rangeF env (t_flows t)) (t_flows t, t_nackQueue t, [])) as [_ Hq].
  destruct (fold_left _ _ _) as [[flows q] evs]. apply (Hq hk fs seq e); [|done..].
  rewrite (env_rangeF _ Henv). by apply elem_of_map_to_list.
Qed.

End Sweep.

(** ** A transaction at a worker of the node *)

Section Repair.
Context `{FrameLib} `{TeeLib} `{WireLib}.
Context (oracles : nat -> nat -> Answer).

(** The datagram is a transaction frame. *)
Definition is_tx (raw : bytes) (f : Frame) : Prop :=
  IsBlockFrame raw = false /\ IsSubtreeDataFrame raw = false /\ IsAnchorFrame raw = false /\
  IsFragment raw = false /\ IsBundle raw = false /\ IsBEEFFrame raw = false /\ DecodeFrame raw = Some f.

Lemma processFrame_tx oracle raw f w :
  is_tx raw f -> processFrame oracle raw w = (true, (processTx oracle raw f w).2).
Proof.
  intros (E1 & E2 & E3 & E4 & E5 & E6 & E7). unfold processFrame. rewrite E1, E2, E3, E4, E5, E6, E7.
  by rewrite run_bind.
Qed.

(** The workers differ in the source at hand and in the tee only. *)
Definition same_but_source (w w' : Worker) : Prop :=
  w_conf w' = w_conf w /\ w_tracker w' = w_tracker w /\ w_dedup w' = w_dedup w /\ w_asked w' = w_asked w /\
  w_log w' = w_log w.

Lemma handleDatagram_tx oracle raw from tee f w :
  is_tx raw f -> refused_sender (CallDatagram raw from tee) (w_conf w) = false ->
  exists w1, same_but_source w w1 /\ (handleDatagram oracle raw from tee w).2 = (processTx oracle raw f w1).2.
Proof.
  intros Htx Hr. unfold handleDatagram. rewrite !run_bind. cbn [gets fst snd].
  cbn [refused_sender] in Hr.
  match goal with |- context [if ?b then metric _ else _] => assert (b = false) as -> end.
  { destruct (is_set (c_senderACL (w_conf w))); [|done]. cbn [orb andb] in *. done. }
  rewrite !run_bind. cbn [modify fst snd].
  match goal with |- context [processFrame oracle raw ?w0] => exists w0; rewrite (processFrame_tx _ _ _ _ Htx) end.
  split; [|done]. unfold same_but_source. cbn. destruct tee; cbn [when]; [|done].
  unfold teeToRetry. destruct from; [|done]. rewrite run_bind. cbn [gets fst snd].
  destruct (w_tee w); [|done]. by destruct (teeEligible raw).
Qed.

(** The worker's tracker behind a transaction that passes. *)
Lemma processTx_observed oracle raw f w t :
  f_Version f = FrameVerV2 -> f_SeqNum f <> 0 -> tx_pass (w_conf w) (oracle (w_asked w)) f = true ->
  w_tracker w = Some t ->
  exists k src, w_tracker (processTx oracle raw f w).2 =
    Some (ObserveFrom (an_env (oracle k)) (c_id (w_conf w)) (en_GroupIndex (c_engine (w_conf w)) (f_TxID f))
            (f_SubtreeID f) (f_HashKey f) (f_SeqNum f) (f_TxID f) src t).
Proof.
  intros Hv Hs Hp Ht. destruct (processTx_run oracle raw f w Hv Hs) as (evs & _ & Hrun). rewrite Hp in Hrun.
  destruct Hrun as [[k Hk] _]. exists k, (w_curSource w). rewrite Hk. unfold observed. by rewrite Ht.
Qed.

(** Detection, for the theorem below. *)
Lemma loss_detected (n : Node) (i : nat) (w : Worker) (raw : bytes) (from : Sockaddr) (tee : bool) (f : Frame)
    (fs : flowState) (m : Z) :
  n_workers n !! i = Some w -> c_id (w_conf w) = Z.of_nat i -> is_tx raw f -> f_Version f = FrameVerV2 ->
  is_u64 (f_SeqNum f) ->
  refused_sender (CallDatagram raw from tee) (w_conf w) = false ->
  tx_pass (w_conf w) (oracles i (w_asked w)) f = true ->
  t_flows (n_tracker n) !! f_HashKey f = Some fs ->
  0 < fs_lastSeqNum fs < m -> m < f_SeqNum f ->
  fs_pending fs !! m = None -> fs_pending fs !! f_SeqNum f = None ->
  (forall k, let cfg := t_cfg (n_tracker n) in
     implausible_jump (if MaxForwardJump cfg =? 0 then 4096 else MaxForwardJump cfg)
       (f_SeqNum f - fs_lastSeqNum fs - 1) (time_sub (ev_now (an_env (oracles i k))) (fs_lastSeen fs)) (fs_ewmaIPG fs) = false) ->
  exists k src fs' g, let env := an_env (oracles i k) in let t := n_tracker (node_step oracles (NDatagram i raw from tee) n) in
    t_cfg t = t_cfg (n_tracker n) /\ t_flows t !! f_HashKey f = Some fs' /\
    fs_pending fs' !! m =
      Some (newGap (t_cfg t) (ev_now env) (ev_jitter env m) (f_HashKey f) m g (f_SubtreeID f) src (Z.of_nat i) false).
Proof.
  intros Hw Hid Htx Hv Hu Hr Hp Hf Hm Hms Hpm Hps Himp.
  cbn [node_step]. unfold on_worker. rewrite Hw. set (w0 := set_tracker (Some (n_tracker n)) w).
  destruct (handleDatagram_tx (oracles i) raw from tee f w0 Htx Hr) as (w1 & (C1 & T1 & _ & A1 & _) & ->).
  destruct (processTx_observed (oracles i) raw f w1 (n_tracker n) Hv) as (k & src & Ht); [lia|by rewrite C1, A1|by rewrite T1|].
  cbn [n_tracker]. rewrite Ht. cbn [from_option id].
  match goal with |- context [ObserveFrom ?env ?o ?g ?sid ?hk ?seq ?txid ?src ?t] =>
    destruct (observe_gap t env o g sid hk seq txid src fs) as (fs' & Hf' & _ & _ & Hpend);
      [done|exact Hu|lia|lia|lia|exact Hps|exact (Himp k)|];
    exists k, src, fs', g; cbn zeta; assert (Hcfg : t_cfg (ObserveFrom env o g sid hk seq txid src t) = t_cfg t) end.
  { unfold ObserveFrom. rewrite Hf. case_test; [done|]. by destruct (observe_flow _ _ _ _ _ _ _ _ _ _). }
  split; [exact Hcfg|]. split; [exact Hf'|]. rewrite Hpend, Hpm, Hcfg, C1. cbn [w0 set_tracker w_conf]. rewrite Hid.
  rewrite (proj2 (Z.ltb_lt _ _)), (proj2 (Z.ltb_lt _ _)) by lia. cbn [andb].
  unfold ownerUnknown. by rewrite (proj2 (Z.eqb_neq _ _)) by lia.
Qed.

(** C8: Detection and request of a lost frame.  A transaction frame that passes the
    checks of worker [i] and skips ahead on a tracked flow makes every skipped
    SeqNum a pending gap owned by that worker, and the first sweep between its
    jitter and its deadline queues a copy of it (unless the queue is full), whatever
    else the tracker holds and in whatever order Go visits its maps. *)
Theorem loss_asked (n : Node) (i : nat) (w : Worker) (raw : bytes) (from : Sockaddr) (tee : bool) (f : Frame)
    (fs : flowState) (m : Z) (env : Env) :
  n_workers n !! i = Some w -> c_id (w_conf w) = Z.of_nat i -> is_tx raw f -> f_Version f = FrameVerV2 ->
  is_u64 (f_SeqNum f) ->
  refused_sender (CallDatagram raw from tee) (w_conf w) = false ->
  tx_pass (w_conf w) (oracles i (w_asked w)) f = true ->
  t_flows (n_tracker n) !! f_HashKey f = Some fs ->
  0 < fs_lastSeqNum fs < m -> m < f_SeqNum f ->
  fs_pending fs !! m = None -> fs_pending fs !! f_SeqNum f = None ->
  (forall k, let cfg := t_cfg (n_tracker n) in
     implausible_jump (if MaxForwardJump cfg =? 0 then 4096 else MaxForwardJump cfg)
       (f_SeqNum f - fs_lastSeqNum fs - 1) (time_sub (ev_now (an_env (oracles i k))) (fs_lastSeen fs)) (fs_ewmaIPG fs) = false) ->
  Env_ok env -> 0 < MaxRetries (t_cfg (n_tracker n)) ->
  (forall k, ev_now (an_env (oracles i k)) + ev_jitter (an_env (oracles i k)) m < ev_now env <=
             ev_now (an_env (oracles i k)) + GapTTL (t_cfg (n_tracker n))) ->
  let t := n_tracker (run_node oracles [NDatagram i raw from tee; NSweep env] n) in
  exists e fs', ge_hashKey e = f_HashKey f /\ ge_seqNum e = m /\ ge_owner e = Z.of_nat i /\
    t_flows t !! f_HashKey f = Some fs' /\ is_Some (fs_pending fs' !! m) /\
    (e ∈ t_nackQueue t \/ (nackQueueCap <= length (t_nackQueue t))%nat).
Proof.
  intros Hw Hid Htx Hv Hu Hr Hp Hf Hm Hms Hpm Hps Himp He Hretry Hdue t.
  destruct (loss_detected n i w raw from tee f fs m) as (k & src & fs1 & g & Hcfg & Hf1 & Hp1); [done..|].
  unfold t. cbn [run_node fold_left]. set (n1 := node_step oracles (NDatagram i raw from tee) n) in *.
  cbn [node_step with_tracker n_tracker]. rewrite Hcfg in Hp1. set (e0 := newGap _ _ _ _ _ _ _ _ _ _) in Hp1.
  specialize (Hdue k). assert (Hkeep : sweep_keeps (t_cfg (n_tracker n1)) (ev_now env) e0 = true).
  { unfold sweep_keeps, after, e0, newGap, time_add. rewrite Hcfg. cbn [ge_deadline ge_failRounds].
    rewrite (proj2 (Z.ltb_ge _ _)), (proj2 (Z.leb_gt _ _)) by lia. done. }
  assert (Hd : due (t_cfg (n_tracker n1)) (ev_now env) e0).
  { split; [done|]. unfold e0, newGap, time_add. cbn [ge_nextAttempt]. lia. }
  pose proof (sweep_queues (n_tracker n1) env He _ _ _ _ Hf1 Hp1 Hd) as Hq.
  assert (Hsw : exists fs2, t_flows (sweepOnce env (n_tracker n1)) !! f_HashKey f = Some fs2 /\ is_Some (fs_pending fs2 !! m)).
  { pose proof (sweep_flows (n_tracker n1) env He) as Hs. unfold sweepOnce.
    destruct (fold_left _ _ _) as [[flows q] evs]. destruct Hs as [Hs _]. specialize (Hs (f_HashKey f)).
    rewrite Hf1 in Hs. destruct Hs as [q0 Hs]. pose proof (sweep_flow_spec (n_tracker n1) env (f_HashKey f) fs1 q0 He) as Hfl.
    cbn [t_flows with_flows]. destruct (sweep_flow _ _ _ _ _) as [[r ?] ?]. cbn [fst] in Hs. destruct Hfl as [Hfl _].
    rewrite <- Hs. destruct r as [fs2|]; cbn [flow_swept] in Hfl.
    - exists fs2. split; [done|]. destruct Hfl as (_ & Hk & _). destruct (Hk m e0 Hp1 Hkeep) as [next ->]. done.
    - destruct Hfl as [_ Hk]. rewrite (Hk m e0 Hp1) in Hkeep. done. }
  destruct Hsw as (fs2 & Hf2 & Hp2). destruct Hq as [[next Hq]|Hq].
  - exists (set_nextAttempt next e0), fs2. do 5 (split; [done|]). by left.
  - exists e0, fs2. do 5 (split; [done|]). by right.
Qed.

(** ** The answer *)

(** A control datagram that keeps the drain waiting for the frame itself. *)
Definition waits (reinject : option nat) (speculative : bool) (nsnap : Z) (d : bytes) : Prop :=
  is_data d = false /\
  match DecodeResponse d with inl resp => on_response reinject speculative nsnap resp = None | inr _ => True end.

Lemma drain_frame f accept speculative nsnap u pre raw post :
  Forall (waits (Some f) speculative nsnap) pre -> is_data raw = true ->
  drain (Some f) accept speculative nsnap u (pre ++ raw :: post) =
    (if accept f raw then OCancel else OAbandon "rejected", Some (f, raw)).
Proof.
  intros Hpre Hraw. revert u. induction Hpre as [|d pre [Hd Hw] _ IH]; intros u; cbn [app drain]; [by rewrite Hraw|].
  rewrite Hd. destruct (DecodeResponse d) as [resp|]; [rewrite Hw|]; apply IH.
Qed.

Lemma list_delete_insert {A} (k : nat) (x : A) (l : list A) : delete k (<[k := x]> l) = delete k l.
Proof. revert k. induction l as [|y l IH]; intros [|k]; [done..|]. cbn. f_equal. apply IH. Qed.

Lemma cancelGap_closed e t fs :
  t_flows t !! ge_hashKey e = Some fs -> fs_pending fs !! ge_seqNum e = None -> cancelGap e t = t.
Proof. intros Hf Hp. unfold cancelGap. by rewrite Hf, Hp. Qed.

(** The step that asks, when a frame comes back. *)
Lemma ask_frame n k renv net e i w pre raw f post ep :
  n_workers n !! i = Some w -> is_tx raw f ->
  recoverFor (n_tracker n) (ge_owner e) = Some i ->
  let snap := (Snapshot renv (t_registry (n_tracker n))).1 in
  pick_endpoint snap (ge_endpointIdx e) = Some ep ->
  na_resolve net = true -> na_listen net = true -> na_write net = true -> na_reads net = pre ++ raw :: post ->
  Forall (waits (Some i) (ge_speculative e) (Z.of_nat (length snap))) pre -> is_data raw = true ->
  exists evs reg, let t := with_registry reg evs (n_tracker n) in
    ask_endpoint oracles k renv net e n =
      with_senders (<[k := Settling e OCancel]> (n_senders n))
        (on_worker i (fun w => (Reinject (oracles i) raw w).2) (with_tracker t n)).
Proof.
  intros Hw Htx Hrec snap Hep N1 N2 N3 N4 Hpre Hraw. unfold ask_endpoint. unfold snap in *.
  destruct (Snapshot _ _) as [sn reg]. cbn [fst] in *. unfold sendNACK_decide.
  rewrite Hep, N1, N2, N3, N4, Hrec. cbn [negb]. rewrite drain_frame by done.
  assert (accepts oracles n i raw = true) as ->.
  { unfold accepts. rewrite Hw. unfold Reinject. rewrite run_bind. by rewrite (processFrame_tx _ _ _ _ Htx). }
  eexists _, reg. cbn zeta. f_equal. unfold on_worker. cbn. by destruct (n_workers n !! i).
Qed.

(** C7: The repair of a lost frame.  Let a goroutine ask for a pending gap whose flow
    belongs to worker [i], and the endpoint answer, possibly after acknowledgements
    that only promise it, with the transaction frame of that SeqNum.  When the
    goroutine is done, worker [i] has sent exactly that frame on its lanes, unless a
    sibling listener holds its claim or the duplicate set has its key, the gap is
    closed and nothing else: the flow keeps its position and its other gaps, the
    other flows and the other workers are as before, and the goroutine is gone. *)
Theorem loss_repaired (n : Node) (i k : nat) (w : Worker) (e : gapEntry) (fs : flowState) (g : gapEntry)
    (renv : RegEnv) (net : NetAnswer) (now rnd : Z) (pre post : list bytes) (raw : bytes) (f : Frame) (ep : EndpointEntry) :
  n_workers n !! i = Some w -> c_id (w_conf w) = Z.of_nat i -> n_senders n !! k = Some (Asking e) ->
  recoverFor (n_tracker n) (ge_owner e) = Some i ->
  t_flows (n_tracker n) !! ge_hashKey e = Some fs -> fs_pending fs !! ge_seqNum e = Some g ->
  0 < ge_seqNum e <= fs_lastSeqNum fs ->
  let snap := (Snapshot renv (t_registry (n_tracker n))).1 in
  pick_endpoint snap (ge_endpointIdx e) = Some ep ->
  na_resolve net = true -> na_listen net = true -> na_write net = true -> na_reads net = pre ++ raw :: post ->
  Forall (waits (Some i) (ge_speculative e) (Z.of_nat (length snap))) pre -> is_data raw = true ->
  is_tx raw f -> f_Version f = FrameVerV2 -> f_HashKey f = ge_hashKey e -> f_SeqNum f = ge_seqNum e ->
  tx_pass (w_conf w) (oracles i (w_asked w)) f = true ->
  let c := w_conf w in
  let grp := en_GroupIndex (c_engine c) (f_TxID f) in
  let n' := run_node oracles [NAsk k renv net; NSettle k now rnd] n in
  n_senders n' = delete k (n_senders n) /\
  (forall j, j <> i -> n_workers n' !! j = n_workers n !! j) /\
  (exists w' evs at_, n_workers n' !! i = Some w' /\ w_log w' = w_log w ++ evs /\
     let lost := lost_claim c (oracles i (S (w_asked w))) in
     let dup := fst (if lost then (false, w_dedup w) else seen_at at_ (mkKey grp (f_SubtreeID f) (f_SeqNum f)) (w_dedup w)) in
     sends evs = if lost || dup then [] else WSend raw f :: (if c_mcastEgr c then [WMcast raw f grp] else [])) /\
  (exists fs', t_flows (n_tracker n') !! ge_hashKey e = Some fs' /\ fs_lastSeqNum fs' = fs_lastSeqNum fs /\
     fs_pending fs' = delete (ge_seqNum e) (fs_pending fs)) /\
  (forall hk, hk <> ge_hashKey e -> t_flows (n_tracker n') !! hk = t_flows (n_tracker n) !! hk).
Proof.
  intros Hw Hid Hk Hrec Hf Hg Hseq snap Hep N1 N2 N3 N4 Hpre Hraw Htx Hv Hhk Hsn Hpass c grp n'.
  unfold n'. cbn [run_node fold_left node_step]. rewrite Hk.
  destruct (ask_frame n k renv net e i w pre raw f post ep) as (evs0 & reg & ->); [done..|].
  unfold on_worker. cbn [with_tracker n_workers n_tracker n_held n_senders with_senders]. rewrite Hw.
  set (t1 := with_registry reg evs0 (n_tracker n)). set (w1 := set_tracker (Some t1) w).
  assert (Hre : (Reinject (oracles i) raw w1).2 = (processTx (oracles i) raw f (set_curSource None w1)).2).
  { unfold Reinject. rewrite run_bind. cbn [modify fst snd]. by rewrite (processFrame_tx _ _ _ _ Htx). }
  rewrite Hre. set (w2 := set_curSource None w1).
  destruct (processTx_observed (oracles i) raw f w2 t1 Hv) as (ke & src & Ht); [lia|exact Hpass|done|].
  destruct (processTx_run (oracles i) raw f w2 Hv ltac:(lia)) as (evs & Hl & Hrun).
  change (w_conf w2) with c in Hrun. change (w_asked w2) with (w_asked w) in Hrun. change (w_dedup w2) with (w_dedup w) in Hrun.
  unfold c in Hrun. rewrite Hpass in Hrun. destruct Hrun as (_ & at_ & Hs).
  cbn [n_senders n_workers n_tracker with_senders]. rewrite list_lookup_insert_eq by (by eapply lookup_lt_Some).
  cbn [n_senders n_workers n_tracker with_senders with_tracker apply_outcome]. rewrite Ht. cbn [from_option id].
  rewrite Hhk, Hsn in Ht |- *.
  match goal with |- context [cancelGap e ?t] => set (t2 := t) end.
  destruct (observe_repair t1 (an_env (oracles i ke)) (c_id (w_conf w2)) (en_GroupIndex (c_engine (w_conf w2)) (f_TxID f))
    (f_SubtreeID f) (ge_hashKey e) (ge_seqNum e) (f_TxID f) src fs Hf ltac:(lia) g Hg ltac:(lia)) as (fs' & F1 & F2 & F3 & F4).
  fold t2 in F1, F4. rewrite (cancelGap_closed e t2 fs') by (done || by rewrite F2, lookup_delete_eq).
  split; [by apply list_delete_insert|]. split; [intros j Hj; by rewrite list_lookup_insert_ne|].
  split; [|split; [by exists fs'|done]].
  exists (processTx (oracles i) raw f w2).2, evs, at_. split; [by apply list_lookup_insert_eq; eapply lookup_lt_Some|].
  split; [done|]. fold c grp in Hs |- *. rewrite Hsn in Hs. cbn zeta in *.
  destruct (if lost_claim _ _ then _ else _) as [dup s']. by destruct Hs as [_ Hs].
Qed.

End Repair.

(** ** A run *)

#[local] Existing Instances lib0 tee0 wire0.

(** The lost frame of the run carries the magic of a retransmission, so its second
    byte, the SeqNum, is 225. *)
Definition lost_raw : bytes := be_put 4 nackMagic ++ repeat 0 60.

Definition next_raw : bytes := [2; 226; 1].

Definition lossy : Node :=
  run_node (fun _ => oracle0) [NDatagram 0 next_raw SockaddrOther false; NSweep (env0 ns_per_s)] node0.

Definition asking : Node := run_node (fun _ => oracle0) [NTake; NLaunch] lossy.

Definition gap225 : gapEntry := match n_senders asking with Asking e :: _ => e | _ => gap_of run0 7 2 end.

Lemma loss_asked_witness :
  exists e fs', ge_seqNum e = 225 /\ ge_owner e = 0 /\ t_flows (n_tracker lossy) !! 7 = Some fs' /\
    is_Some (fs_pending fs' !! 225) /\ (e ∈ t_nackQueue (n_tracker lossy) \/ (nackQueueCap <= length (t_nackQueue (n_tracker lossy)))%nat).
Proof.
  destruct (loss_asked (fun _ => oracle0) node0 0 worker1 next_raw SockaddrOther false (tx_of next_raw)
    (flow_of (n_tracker node0) 7) 225 (env0 ns_per_s)) as (e & fs' & _ & H2 & H3 & H4 & H5 & H6);
    try (vm_compute; reflexivity); try (intros; vm_compute; reflexivity).
  - repeat split.
  - split; vm_compute; [discriminate|reflexivity].
  - split; vm_compute; reflexivity.
  - apply env0_ok.
  - intros k. split; vm_compute; [reflexivity|discriminate].
  - change (f_HashKey (tx_of next_raw)) with 7 in H4. exists e, fs'. exact (conj H2 (conj H3 (conj H4 (conj H5 H6)))).
Defined.

Definition renv1 : RegEnv := mkRegEnv map_to_list (fun l => l).

Lemma loss_repaired_witness :
  let n' := run_node (fun _ => oracle0) [NAsk 0 renv1 (mkNet true true true [lost_raw]); NSettle 0 0 0] asking in
  n_senders n' = [] /\
  (exists w', n_workers n' !! 0%nat = Some w' /\
     sends (w_log w') = [WSend next_raw (tx_of next_raw); WSend lost_raw (tx_of lost_raw)]) /\
  (exists fs', t_flows (n_tracker n') !! 7 = Some fs' /\ fs_pending fs' = ∅).
Proof.
  set (w := default worker1 (n_workers asking !! 0%nat)).
  set (ep := default (seed_entry 0 "") ((Snapshot renv1 (t_registry (n_tracker asking))).1 !! 0%nat)).
  destruct (loss_repaired (fun _ => oracle0) asking 0 0 w gap225 (flow_of (n_tracker asking) 7) (gap_of (n_tracker asking) 7 225)
    renv1 (mkNet true true true [lost_raw]) 0 0 [] [] lost_raw (tx_of lost_raw) ep) as (H1 & _ & H2 & H3 & _);
    try (vm_compute; reflexivity).
  - split; vm_compute; [reflexivity|discriminate].
  - constructor.
  - repeat split.
  - split; [vm_compute; reflexivity|]. split.
    + destruct H2 as (w' & evs & at_ & E1 & E2 & E3). exists w'. split; [exact E1|]. rewrite E2, sends_app, E3.
      vm_compute. reflexivity.
    + destruct H3 as (fs' & F1 & _ & F3). exists fs'. split; [exact F1|]. rewrite F3. vm_compute. reflexivity.
Defined.

(** A retransmitted frame that the worker drops, here because its payload does not
    hash to its TxID, is booked as a repair all the same: [Reinject] answers true
    for every class but the block frames, so the gap is cancelled and counted as
    suppressed although no consumer got the frame. *)
Definition checking : Conf :=
  mkConf 0 true (mkEngine (fun _ => 0) 4) (mkFilter None None None None) true None None false false
    true false None 42 None ∅ ∅ false true None false.

Definition checked_node : Node :=
  run_node (fun _ => oracle0)
    [NDatagram 0 [2; 226; 0] SockaddrOther false; NSweep (env0 ns_per_s); NTake; NLaunch;
     NAsk 0 renv1 (mkNet true true true [lost_raw]); NSettle 0 0 0]
    (mkNode (n_tracker node0) [NewWorker checking None None None None] None []).

Definition checked_log : list WEvent := match n_workers checked_node with w :: _ => w_log w | [] => [] end.

Theorem dropped_repair_booked :
  sends checked_log = [WSend [2; 226; 0] (tx_of [2; 226; 0])] /\ In FrameInvalidPayload checked_log /\
  Pending (n_tracker checked_node) 7 [225] = false /\
  t_log (n_tracker checked_node) =
    [GapDetected "brc124" None; NACKDispatched "brc124" None; GapSuppressed "brc124" (Some src0)].
Proof. vm_compute. split; [reflexivity|]. split; [|split; reflexivity]. repeat (first [by left | right]). Qed.
