(* ===== verification/Announce.v ===== *)
(** * The announcement listener (discovery/subtree_group_announce.go)

    One socket per announcement group, a receive loop on each, and the eviction
    loop beside them, all on one subtree-group registry.  The frame codec and the
    sockets' calls are parameters. *)

From S2P Require Import Prelude Listener Serve Metrics Discovery Beacon SubtreeGroup Filter.

(** ** Sockets *)

Inductive AnnErr := ErrSocket | ErrReusePort | ErrBind (port : Z) | ErrAnnGroup (grp : UDPAddr) | ErrAnnJoin (grp : UDPAddr).

Section Open.

(** The answers of the operating system. *)
Variable socket : bool.
Variable setReusePort : bool.
Variable bind : Z -> bool.
Variable join : bytes -> list bytes -> bool.

Definition openAnnounceSocket (grp : UDPAddr) (sources : list bytes) : AnnErr + Socket :=
  if negb socket then inl ErrSocket else
  if negb setReusePort then inl ErrReusePort else
  if negb (bind (ua_Port grp)) then inl (ErrBind (ua_Port grp)) else
  match group_addr (ua_IP grp) with
  | None => inl (ErrAnnGroup grp)
  | Some ga => if join ga sources then inr (mkSocket (ua_Port grp) [(ga, sources)]) else inl (ErrAnnJoin grp)
  end.

End Open.

(** ** The loops *)

Definition sockaddrToUDP (sa : Sockaddr) : bytes := match sa with SockaddrInet6 addr _ => addr | SockaddrOther => [] end.

Section Loop.
Variable SubtreeGroupAnnounceSize : nat.
Variable DecodeSubtreeGroupAnnounce : bytes -> option Announce.
Variable sl : SubtreeGroupAnnounceListener.

Record AnnState := mkAnn { as_registry : SubtreeGroup.Registry; as_rec : bool; as_calls : list Call }.

(** The read buffer. *)
Definition announceBuf : nat := SubtreeGroupAnnounceSize + 64.

Definition announce_arrives (now : Z) (d : Datagram) (st : AnnState) : AnnState :=
  let '(r, rejected) := handleAnnounce SubtreeGroupAnnounceSize DecodeSubtreeGroupAnnounce sl now
    (take announceBuf (fst d)) (sockaddrToUDP (snd d)) (as_registry st) in
  let c := match rejected with Some reason => CSubtreeGroupAnnounceRejected reason | None => CSubtreeGroupAnnounceReceived end in
  mkAnn r (as_rec st) (as_calls st ++ if as_rec st then [c] else []).

(** The receive loop over its reads, each with the clock of its datagram; the
    first component is whether it returned. *)
Fixpoint listenAnnounce (reads : list (Read (Z * Datagram))) (st : AnnState) : bool * AnnState :=
  match reads with
  | [] => (false, st)
  | ReadErr e cancelled :: reads => if stops e cancelled then (true, st) else listenAnnounce reads st
  | ReadOk (now, d) :: reads => listenAnnounce reads (announce_arrives now d st)
  end.

(** A tick of the eviction loop. *)
Definition announce_evict (now : Z) (st : AnnState) : AnnState :=
  let r := SubtreeGroup.Evict now (as_registry st) in
  mkAnn r (as_rec st)
    (as_calls st ++
     if as_rec st then [CSubtreeGroupEvicted (SubtreeGroup.evicted now (as_registry st)) (SubtreeGroup.Len r)] else []).

(** The listener as its loops interleave on the registry. *)
Inductive AnnEvent := AnnArrives (now : Z) (d : Datagram) | AnnTick (now : Z).

Definition announce_event (st : AnnState) (ev : AnnEvent) : AnnState :=
  match ev with AnnArrives now d => announce_arrives now d st | AnnTick now => announce_evict now st end.

Definition announce_run (evs : list AnnEvent) (st : AnnState) : AnnState := fold_left announce_event evs st.

(** ** What the listener promises *)

(** The announcement a datagram makes, when its sender may make it. *)
Definition admitted (d : Datagram) : option Announce :=
  let buf := take announceBuf (fst d) in
  if (SubtreeGroupAnnounceSize <=? length buf)%nat &&
     AllowSender (Some (mkSenderACL (SenderInclude sl) (SenderExclude sl))) (sockaddrToUDP (snd d))
  then DecodeSubtreeGroupAnnounce buf else None.

(** When it runs out, on a registry with default lifetime [dflt]. *)
Definition runs_out (dflt now : Z) (ann : Announce) : Z :=
  let ttl := if 0 <? ann_TTL ann then i64 (ann_TTL ann * ns_per_s) else DefaultTTL sl in
  time_add now (if ttl <=? 0 then dflt else ttl).

(** The registry's operation behind an event. *)
Definition event_op (ev : AnnEvent) : option SubtreeGroup.Op :=
  match ev with
  | AnnArrives now d =>
      match admitted d with
      | Some ann =>
          Some (SubtreeGroup.OpAdd now (ann_GroupID ann) (ann_SubtreeID ann)
            (if 0 <? ann_TTL ann then i64 (ann_TTL ann * ns_per_s) else DefaultTTL sl))
      | None => None
      end
  | AnnTick now => Some (SubtreeGroup.OpEvict now)
  end.

Lemma announce_arrives_op now d st :
  as_registry (announce_arrives now d st) =
    match event_op (AnnArrives now d) with Some op => SubtreeGroup.apply_op (as_registry st) op | None => as_registry st end.
Proof.
  unfold announce_arrives, event_op, admitted, handleAnnounce, senderAllowed.
  destruct (Nat.ltb_spec (length (take announceBuf d.1)) SubtreeGroupAnnounceSize) as [Hl|Hl].
  - by rewrite (proj2 (Nat.leb_gt _ _) Hl).
  - rewrite (proj2 (Nat.leb_le _ _) Hl). destruct (AllowSender _ _); [|done]. cbn [negb andb].
    by destruct (DecodeSubtreeGroupAnnounce _).
Qed.

(** The registry is the run of the admitted announcements and the evictions. *)
Lemma announce_run_ops evs st :
  as_registry (announce_run evs st) = fold_left SubtreeGroup.apply_op (omap event_op evs) (as_registry st).
Proof.
  revert st. induction evs as [|ev evs IH]; intros st; [done|]. cbn [announce_run fold_left]. fold (announce_run evs (announce_event st ev)).
  rewrite IH. destruct ev as [now d|now]; [|done]. cbn [announce_event]. rewrite announce_arrives_op.
  cbn [omap list_omap]. by destruct (event_op (AnnArrives now d)).
Qed.

End Loop.

(** ** Announcements and the frame filter *)

Section Grants.
Variable SubtreeGroupAnnounceSize : nat.
Variable DecodeSubtreeGroupAnnounce : bytes -> option Announce.
Variable sl : SubtreeGroupAnnounceListener.

Local Abbreviation run := (announce_run SubtreeGroupAnnounceSize DecodeSubtreeGroupAnnounce sl).
Local Abbreviation admits := (admitted SubtreeGroupAnnounceSize DecodeSubtreeGroupAnnounce sl).

(** The registry of a fresh listener after [evs]. *)
Definition announced_registry (groups : list bytes) (dflt : Z) (rec : bool) (evs : list AnnEvent) : SubtreeGroup.Registry :=
  as_registry (run evs (mkAnn (SubtreeGroup.New groups dflt) rec [])).

(** The announcement of [sub] in group [g] that counts after [evs]: the last one
    admitted, with the time it arrived. *)
Definition renewed (ev : AnnEvent) (g sub : bytes) : bool :=
  match ev with
  | AnnArrives _ d =>
      match admits d with
      | Some ann => bool_decide (ann_GroupID ann = g /\ ann_SubtreeID ann = sub)
      | None => false
      end
  | AnnTick _ => false
  end.

Definition in_force (evs : list AnnEvent) (g sub : bytes) (t : Z) (ann : Announce) : Prop :=
  exists pre d post, evs = pre ++ AnnArrives t d :: post /\ admits d = Some ann /\
    ann_GroupID ann = g /\ ann_SubtreeID ann = sub /\ Forall (fun ev => renewed ev g sub = false) post.

Lemma in_force_snoc evs ev g sub t ann :
  in_force (evs ++ [ev]) g sub t ann <->
  (exists d, ev = AnnArrives t d /\ admits d = Some ann /\ ann_GroupID ann = g /\ ann_SubtreeID ann = sub) \/
  (renewed ev g sub = false /\ in_force evs g sub t ann).
Proof.
  split.
  - intros (pre & d & post & He & Had & Hg & Hs & Hp). destruct post as [|x post _] using rev_ind.
    + apply app_inj_tail in He as [-> ->]. left. eauto 6.
    + rewrite app_comm_cons, app_assoc in He. apply app_inj_tail in He as [-> ->].
      apply Forall_app in Hp as [Hp Hx]. rewrite Forall_singleton in Hx. right. split; [exact Hx|].
      exists pre, d, post. by split_and!.
  - intros [(d & -> & Had & Hg & Hs)|[Hr (pre & d & post & -> & Had & Hg & Hs & Hp)]].
    + exists evs, d, []. by split_and!.
    + exists pre, d, (post ++ [ev]). rewrite <- app_assoc. split_and!; try done. apply Forall_app. split; [done|by constructor].
Qed.

(** The registry's memberships are the announcements in force. *)
Lemma member_in_force groups dflt evs g sub x :
  SubtreeGroup.member_spec groups dflt (reverse (omap (event_op SubtreeGroupAnnounceSize DecodeSubtreeGroupAnnounce sl) evs)) g sub = Some x <->
  exists t ann, in_force evs g sub t ann /\ g ∈ groups /\ x = runs_out sl dflt t ann.
Proof.
  induction evs as [|ev evs IH] using rev_ind.
  { split; [done|]. intros (t & ann & (pre & d & post & He & _) & _). by destruct pre. }
  rewrite omap_app, reverse_app. setoid_rewrite in_force_snoc.
  assert (Hskip : renewed ev g sub = false -> (forall t d ann, ev = AnnArrives t d -> admits d = Some ann ->
      ~ (ann_GroupID ann = g /\ ann_SubtreeID ann = sub)) ->
    SubtreeGroup.member_spec groups dflt (reverse (omap (event_op SubtreeGroupAnnounceSize DecodeSubtreeGroupAnnounce sl) evs)) g sub = Some x <->
    exists t ann, ((exists d, ev = AnnArrives t d /\ admits d = Some ann /\ ann_GroupID ann = g /\ ann_SubtreeID ann = sub) \/
      (renewed ev g sub = false /\ in_force evs g sub t ann)) /\ g ∈ groups /\ x = runs_out sl dflt t ann).
  { intros Hr Hno. rewrite IH. split; intros (t & ann & Hf & Hg & Hx); exists t, ann; (split; [|done]).
    - by right.
    - destruct Hf as [(d & Ee & Had & Hgs)|[_ Hf]]; [|done]. by destruct (Hno t d ann Ee Had). }
  destruct ev as [t d|t]; cbn [omap list_omap event_op]; [|by apply Hskip].
  destruct (admits d) as [ann|] eqn:Had; cbn [reverse rev_append app]; [|apply Hskip; [by cbn; rewrite Had|]; intros ? ? ? [= <- <-]; congruence].
  cbn [SubtreeGroup.member_spec]. case_bool_decide as Hm.
  - destruct Hm as (-> & -> & Hin). split.
    + intros [= <-]. exists t, ann. split; [|done]. left. by exists d.
    + intros (t' & ann' & [(d' & [= <- <-] & Had' & _)|[Hr _]] & _ & ->).
      * rewrite Had in Had'. by injection Had' as <-.
      * cbn in Hr. rewrite Had, bool_decide_true in Hr; done.
  - destruct (decide (ann_GroupID ann = g /\ ann_SubtreeID ann = sub)) as [[Hg Hs]|Hno].
    + assert (Hni : g ∉ groups) by (intros Hin; by destruct Hm). split; [|by intros (? & ? & _ & ? & _)].
      rewrite IH. by intros (? & ? & _ & ? & _).
    + apply Hskip; [cbn; rewrite Had; by apply bool_decide_eq_false_2|]. intros ? ? ? [= <- <-]. by rewrite Had; intros [= <-].
Qed.

(** C21: announcements extend the frame filter exactly as far as their senders and
    their lifetimes allow.  Whatever datagrams and evictions interleave, a frame
    passes, asked at a time no eviction has seen later, if and only if its shard is
    not excluded by a shard list, its subtree is not excluded, and the subtree is
    included or some subscribed group has an announcement of it in force, the last
    one admitted (long enough, from a sender the access list allows, and decodable),
    that has not run out. *)
Theorem announced_subtrees shards include exclude groups dflt rec evs now idx sub :
  let f := NewFilter shards include exclude (Some (announced_registry groups dflt rec evs)) in
  (forall te g, AnnTick te ∈ evs -> te <= now g) ->
  (Allow now f idx sub).1 = true <->
  (shards = [] \/ idx ∈ shards) /\ (sub ∉ exclude) /\
  (sub ∈ include \/
   exists g t ann, g ∈ groups /\ in_force evs g sub t ann /\ now g < runs_out sl dflt t ann).
Proof.
  intros f Hclk.
  assert (Hc : SubtreeGroup.Contains now sub (announced_registry groups dflt rec evs) = true <->
    exists g t ann, g ∈ groups /\ in_force evs g sub t ann /\ now g < runs_out sl dflt t ann).
  { unfold announced_registry. rewrite announce_run_ops. cbn [as_registry]. rewrite SubtreeGroup.membership_spec.
    - split.
      + intros (g & x & Hg & Hm & Hx). apply member_in_force in Hm as (t & ann & Hf & _ & ->). by exists g, t, ann.
      + intros (g & t & ann & Hg & Hf & Hx). exists g, (runs_out sl dflt t ann). split_and!; [done| |done].
        apply member_in_force. by exists t, ann.
    - intros te g Hin. apply list_elem_of_omap in Hin as (ev & Hev & Hop). destruct ev as [t d|t]; cbn in Hop.
      + by destruct (admits d).
      + injection Hop as ->. by apply Hclk. }
  unfold f, Allow, NewFilter. cbn [shardInclude subtreeInclude subtreeExclude groupReg is_set in_group].
  rewrite !in_set_of, !set_of_is_set, <- Hc, orb_true_r.
  assert (Hex : negb (bool_decide (exclude = [])) && bool_decide (sub ∈ exclude) = bool_decide (sub ∈ exclude)).
  { destruct exclude; [|done]. cbn. symmetry. apply bool_decide_eq_false_2, not_elem_of_nil. }
  rewrite Hex. clear Hc Hex f Hclk. generalize (SubtreeGroup.Contains now sub (announced_registry groups dflt rec evs)).
  intros m. repeat case_bool_decide; destruct m; cbn; split; intros Hx; try discriminate Hx; try done; tauto.
Qed.

End Grants.

(** Group 1 is announced to hold subtree 7 for a minute; a minute later it is gone. *)
Definition announce0 (buf : bytes) : option Announce := Some (mkAnnounce [byte_at buf 0] [byte_at buf 1] (byte_at buf 2)).

Definition listener0 : SubtreeGroupAnnounceListener := mkAnnounceListener (900 * ns_per_s) [] [].

Lemma announced_subtrees_witness :
  let evs := [AnnTick 0; AnnArrives 0 ([1; 7; 60; 0], SockaddrOther); AnnTick (30 * ns_per_s)] in
  let f := NewFilter [] [[3]] [] (Some (announced_registry 4 announce0 listener0 [[1]] 0 true evs)) in
  (Allow (fun _ => 59 * ns_per_s) f 0 [7]).1 = true /\ (Allow (fun _ => 60 * ns_per_s) f 0 [7]).1 <> true.
Proof.
  intros evs f.
  assert (Hclk : forall te, AnnTick te ∈ evs -> te <= 59 * ns_per_s).
  { intros te Hin. unfold evs in Hin. rewrite !elem_of_cons, elem_of_nil in Hin. unfold ns_per_s in *.
    destruct Hin as [|[|[|]]]; simplify_eq; lia. }
  split.
  - apply (announced_subtrees 4 announce0 listener0 [] [[3]] [] [[1]] 0 true evs (fun _ => 59 * ns_per_s) 0 [7]).
    + intros te g Hin. by apply Hclk.
    + split; [by left|]. split; [by intros ?%elem_of_nil|]. right. exists [1], 0, (mkAnnounce [1] [7] 60).
      split; [by left|]. split; [|by vm_compute]. exists [AnnTick 0], ([1; 7; 60; 0], SockaddrOther), [AnnTick (30 * ns_per_s)].
      split_and!; try done. by repeat constructor.
  - intros Ha. apply (announced_subtrees 4 announce0 listener0 [] [[3]] [] [[1]] 0 true evs (fun _ => 60 * ns_per_s) 0 [7]) in Ha.
    + destruct Ha as (_ & _ & [Hin|(g & t & ann & _ & (pre & d & post & He & Had & _ & _ & _) & Hx)]).
      * apply list_elem_of_singleton in Hin. discriminate.
      * assert (Hin : AnnArrives t d ∈ evs) by (rewrite He; apply elem_of_app; right; by left).
        unfold evs in Hin. rewrite !elem_of_cons, elem_of_nil in Hin. destruct Hin as [Heq|[Heq|[Heq|[]]]]; try discriminate Heq. injection Heq as -> ->.
        vm_compute in Had. injection Had as <-. vm_compute in Hx. discriminate.
    + intros te g Hin. apply Hclk in Hin. unfold ns_per_s in *. lia.
Defined.
