(* ===== verification/TxDedup.v ===== *)
(** * The cross-listener dedup store (txdedup/txdedup.go)

    Two sets of transaction ids, one for the egress claims of a deployment and an
    optional one for the courtesy marks of the proxy's namespace, with their key
    prefixes and the routing of their callbacks to the listener's recorder.  The
    sets are the external package txidset; [TxidSet] is what the code calls of
    it. *)

From S2P Require Import Prelude.

(** ** The external set *)

(** How a claim ends, which is the callback it makes: known in the local tier,
    first in the backend, already in the backend, backend error. *)
Inductive Outcome := ClaimLocalHit | ClaimSetWon | ClaimSetLost | ClaimSetError.

(** How a mark ends. *)
Inductive MarkOutcome := MarkSet | MarkExisted | MarkError | MarkDropped.

(** [txidset.Config]; [B] are the cache backends. *)
Record TsConfig (B : Type) := mkTsConfig {
  tc_Backend : option B;
  tc_RedisAddr : string;
  tc_TTL : Z;
  tc_LocalCapacity : Z
}.
Arguments mkTsConfig {_}.

(** The package: handles of sets, and the state of all backends and local tiers. *)
Class TxidSet := mkTxidSet {
  Backend : Type;
  TStore : Type;
  World : Type;
  DefaultLocalCapacity : Z;
  ts_New : TsConfig Backend -> World -> option TStore * World;
  ts_Claim : TStore -> string -> bytes -> World -> Outcome * World;
  ts_Mark : TStore -> string -> bytes -> World -> MarkOutcome * World;
  ts_Close : TStore -> World -> bool * World
}.

(** ** The store *)

Section Store.
Context `{TxidSet}.

(** The listener's callbacks. *)
Inductive RecEvent :=
| EgressClaimLocalHit
| EgressClaimWon
| EgressClaimLost
| EgressClaimError
| IngressMarkSet
| IngressMarkExisted
| IngressMarkError
| IngressMarkDropped.

Record Store := mkStore {
  s_egress : option TStore;
  s_egressPrefix : string;
  s_ingress : option TStore;
  s_ingressPrefix : string
}.

Record Config := mkConfig {
  EgressBackend : option Backend;
  EgressRedisAddr : string;
  EgressPrefix : string;
  EgressTTL : Z;
  EgressLocalCap : Z;
  DeploymentID : string;
  IngressBackend : option Backend;
  IngressRedisAddr : string;
  IngressPrefix : string;
  IngressTTL : Z;
  IngressLocalCap : Z
}.

Inductive Err := ErrEgressTTL | ErrEgressStore | ErrIngressTTL | ErrIngressStore.

Definition is_empty (s : string) : bool := bool_decide (s = EmptyString).

(** The prefix and capacities with their defaults. *)
Definition or_default (s d : string) : string := if is_empty s then d else s.

Definition cap_or_default (n : Z) : Z := if n <=? 0 then DefaultLocalCapacity else n.

(** The egress prefix, with the deployment id when there is one. *)
Definition egress_prefix (prefix dep : string) : string :=
  if is_empty dep then prefix else (prefix +:+ dep +:+ ":")%string.

(** Is the courtesy mark configured? *)
Definition wants_ingress (cfg : Config) : bool :=
  is_set (IngressBackend cfg) || negb (is_empty (IngressRedisAddr cfg)) || negb (is_empty (IngressPrefix cfg)).

Definition NewWithConfig (cfg : Config) (w : World) : (Err + Store) * World :=
  if EgressTTL cfg <=? 0 then (inl ErrEgressTTL, w) else
  let egPrefix := egress_prefix (or_default (EgressPrefix cfg) "bsl:egr:") (DeploymentID cfg) in
  let '(eg, w) := ts_New (mkTsConfig (EgressBackend cfg) (EgressRedisAddr cfg) (EgressTTL cfg)
    (cap_or_default (EgressLocalCap cfg))) w in
  match eg with
  | None => (inl ErrEgressStore, w)
  | Some eg =>
      if negb (wants_ingress cfg) then (inr (mkStore (Some eg) egPrefix None EmptyString), w) else
      if IngressTTL cfg <=? 0 then (inl ErrIngressTTL, snd (ts_Close eg w)) else
      let '(ing, w) := ts_New (mkTsConfig (IngressBackend cfg) (IngressRedisAddr cfg) (IngressTTL cfg)
        (cap_or_default (IngressLocalCap cfg))) w in
      match ing with
      | None => (inl ErrIngressStore, snd (ts_Close eg w))
      | Some ing => (inr (mkStore (Some eg) egPrefix (Some ing) (or_default (IngressPrefix cfg) "bsp:tx:")), w)
      end
  end.

(** The constructor that predates deployment ids. *)
Definition New (addr prefix : string) (ttl : Z) : World -> (Err + Store) * World :=
  NewWithConfig (mkConfig None addr prefix ttl DefaultLocalCapacity EmptyString None EmptyString EmptyString 0 0).

(** The adapters: the egress set reports claims, the ingress set marks. *)
Definition egressRecAdapter (rec : bool) (o : Outcome) : list RecEvent :=
  if rec then
    [match o with
     | ClaimLocalHit => EgressClaimLocalHit
     | ClaimSetWon => EgressClaimWon
     | ClaimSetLost => EgressClaimLost
     | ClaimSetError => EgressClaimError
     end]
  else [].

Definition ingressRecAdapter (rec : bool) (o : MarkOutcome) : list RecEvent :=
  if rec then
    [match o with
     | MarkSet => IngressMarkSet
     | MarkExisted => IngressMarkExisted
     | MarkError => IngressMarkError
     | MarkDropped => IngressMarkDropped
     end]
  else [].

(** What [txidset.Store.Claim] returns: may the caller forward, was there an error. *)
Definition claim_answer (o : Outcome) : bool * bool :=
  match o with
  | ClaimSetWon => (true, false)
  | ClaimSetLost | ClaimLocalHit => (false, false)
  | ClaimSetError => (true, true)
  end.

(** [Claim] on a store that may be nil. *)
Definition Claim (rec : bool) (s : option Store) (txid : bytes) (w : World) : (bool * bool) * list RecEvent * World :=
  match s with
  | Some (mkStore (Some eg) prefix _ _) =>
      let '(o, w) := ts_Claim eg prefix txid w in (claim_answer o, egressRecAdapter rec o, w)
  | _ => ((true, false), [], w)
  end.

Definition Mark (rec : bool) (s : option Store) (txid : bytes) (w : World) : list RecEvent * World :=
  match s with
  | Some (mkStore _ _ (Some ing) prefix) =>
      let '(o, w) := ts_Mark ing prefix txid w in (ingressRecAdapter rec o, w)
  | _ => ([], w)
  end.

Definition HasIngressMark (s : option Store) : bool :=
  match s with Some s => is_set (s_ingress s) | None => false end.

Definition EgressPrefixOf (s : option Store) : string := match s with Some s => s_egressPrefix s | None => EmptyString end.

Definition IngressPrefixOf (s : option Store) : string := match s with Some s => s_ingressPrefix s | None => EmptyString end.

(** [Close] closes both sets and answers whether one of them failed. *)
Definition CloseStore (s : option Store) (w : World) : bool * World :=
  match s with
  | None => (false, w)
  | Some s =>
      let '(e1, w) := match s_egress s with Some eg => ts_Close eg w | None => (false, w) end in
      let '(e2, w) := match s_ingress s with Some ing => ts_Close ing w | None => (false, w) end in
      (e1 || e2, w)
  end.

End Store.

(** ** Keys *)

Definition hex_digit (d : Z) : Ascii.ascii := Ascii.ascii_of_N (Z.to_N (if d <? 10 then 48 + d else 87 + d)).

Fixpoint EncodeHex (b : bytes) : string :=
  match b with
  | [] => EmptyString
  | x :: b => String (hex_digit (x / 16)) (String (hex_digit (x mod 16)) (EncodeHex b))
  end.

(** The key of a transaction id under a prefix. *)
Definition tx_key (prefix : string) (txid : bytes) : string := (prefix +:+ EncodeHex txid)%string.

(** ** What the package documents

    A claim is a SETNX with a TTL on the backend of its set, behind a local tier.
    [ts_site] is the server a set's entries are on, [None] for a set with only its
    local tier, and [site_of] the one a configuration names; [ts_exp] are the entries
    of a server with the times they expire. *)
Class TxidSetView `{TxidSet} := mkTxidSetView {
  Site : Type;
  site_of : TsConfig Backend -> option Site;
  ts_site : TStore -> option Site;
  ts_ttl : TStore -> Z;
  ts_now : World -> Z;
  ts_exp : World -> Site -> gmap string Z;
  ts_local : TStore -> World -> gset string
}.

Section View.
Context `{TxidSetView}.

Definition live (w : World) (site : Site) (k : string) : Prop :=
  exists x, ts_exp w site !! k = Some x /\ ts_now w < x.

(** The clock moves on and entries stay until they expire. *)
Definition elapses (w w' : World) : Prop :=
  ts_now w <= ts_now w' /\
  forall site k x, ts_exp w site !! k = Some x -> ts_now w' < x -> ts_exp w' site !! k = Some x.

(** Nothing is entered but key [k] of the set [s]. *)
Definition enters (s : TStore) (k : string) (w w' : World) : Prop :=
  (forall site x e, ts_exp w' site !! x = Some e -> ts_exp w site !! x = Some e \/ (ts_site s = Some site /\ x = k)) /\
  (forall s' x, x ∈ ts_local s' w' -> x ∈ ts_local s' w \/ (s' = s /\ x = k)).

End View.

Class TxidSetLaws `{TxidSetView} := mkTxidSetLaws {
  new_law c w s : fst (ts_New c w) = Some s -> ts_site s = site_of c /\ ts_ttl s = tc_TTL _ c;
  claim_law s p t w :
    let k := tx_key p t in
    let '(o, w') := ts_Claim s p t w in
    elapses w w' /\ enters s k w w' /\
    match o with
    | ClaimSetWon => forall site, ts_site s = Some site ->
        ~ live w site k /\ ts_exp w' site !! k = Some (ts_now w + ts_ttl s)
    | ClaimSetLost => exists site, ts_site s = Some site /\ live w site k
    | ClaimLocalHit => k ∈ ts_local s w
    | ClaimSetError => True
    end;
  mark_law s p t w :
    let w' := snd (ts_Mark s p t w) in elapses w w' /\ enters s (tx_key p t) w w'
}.
