(* ===== verification/TxDedupProps.v ===== *)
(** * The cross-listener dedup store: properties

    Keys of different deployments never meet, and the listeners of one deployment
    together forward a transaction at most once per claim lifetime, up to claims that
    failed open. *)

From S2P Require Import Prelude Discovery Tracker TrackerInv TrackerProps TrackerRepair Dedup SubtreeGroup Filter Reassembly ReassemblyProps ReassemblyRepair RetryTee Listener ListenerInv ListenerExample ListenerClaims TxDedup.

(** ** Keys *)

Lemma length_append (s t : string) : String.length (s +:+ t) = (String.length s + String.length t)%nat.
Proof.
  induction s as [|x s IH]; [done|]. change (S (String.length (s +:+ t)) = S (String.length s + String.length t)). lia.
Qed.

Lemma append_same_tail (p p' h h' : string) :
  String.length h = String.length h' -> (p +:+ h = p' +:+ h')%string -> p = p' /\ h = h'.
Proof.
  intros Hl. revert p'. induction p as [|x p IH]; intros [|y p'] He.
  - done.
  - change (h = String y (p' +:+ h'))%string in He. subst h. cbn in Hl. rewrite length_append in Hl. lia.
  - change (String x (p +:+ h) = h')%string in He. subst h'. cbn in Hl. rewrite length_append in Hl. lia.
  - change (String x (p +:+ h) = String y (p' +:+ h'))%string in He. injection He as -> He.
    destruct (IH p' He) as [-> ->]. done.
Qed.

Lemma length_EncodeHex b : String.length (EncodeHex b) = (2 * length b)%nat.
Proof. induction b as [|x b IH]; cbn; [done|]. rewrite IH. lia. Qed.

Lemma tx_key_prefix p p' t t' : length t = length t' -> tx_key p t = tx_key p' t' -> p = p'.
Proof.
  intros Hl He. eapply append_same_tail in He as [-> _]; [done|]. rewrite !length_EncodeHex. lia.
Qed.

Lemma egress_prefix_inj p d d' : egress_prefix p d = egress_prefix p d' -> d = d'.
Proof.
  unfold egress_prefix, is_empty. intros He.
  assert (Hlen : forall d, String.length (p +:+ d +:+ ":")%string = (String.length p + String.length d + 1)%nat).
  { intros x. rewrite !length_append. cbn. lia. }
  repeat case_bool_decide; subst; [done| | |].
  - apply (f_equal String.length) in He. rewrite Hlen in He. lia.
  - apply (f_equal String.length) in He. rewrite Hlen in He. lia.
  - apply (inj _) in He. by apply append_same_tail in He as [-> _].
Qed.

Section Store.
Context `{TxidSet}.

(** What a store built by [NewWithConfig] claims under. *)
Definition egress_set (cfg : Config) : TsConfig Backend :=
  mkTsConfig (EgressBackend cfg) (EgressRedisAddr cfg) (EgressTTL cfg) (cap_or_default (EgressLocalCap cfg)).

Lemma NewWithConfig_egress cfg w s :
  fst (NewWithConfig cfg w) = inr s ->
  s_egressPrefix s = egress_prefix (or_default (EgressPrefix cfg) "bsl:egr:") (DeploymentID cfg) /\
  is_set (s_egress s) = true /\ is_set (s_ingress s) = wants_ingress cfg.
Proof.
  unfold NewWithConfig. case_test; [done|]. destruct (ts_New _ _) as [[eg|] w1]; [|done].
  destruct (wants_ingress cfg); cbn [negb]; [|by intros [= <-]]. case_test; [done|].
  destruct (ts_New _ _) as [[ing|] w2]; [|done]. by intros [= <-].
Qed.

(** It is a set the package made from the egress settings, with a lifetime. *)
Lemma NewWithConfig_set cfg w s :
  fst (NewWithConfig cfg w) = inr s ->
  0 < EgressTTL cfg /\ exists eg, s_egress s = Some eg /\ fst (ts_New (egress_set cfg) w) = Some eg.
Proof.
  unfold NewWithConfig. case_test; [done|]. bool_to_prop. fold (egress_set cfg).
  destruct (ts_New (egress_set cfg) w) as [[eg|] w1]; [|done].
  destruct (wants_ingress cfg); cbn [negb]; [|intros [= <-]; split; [lia|by exists eg]]. case_test; [done|].
  destruct (ts_New _ _) as [[ing|] w2]; [|done]. intros [= <-]. split; [lia|by exists eg].
Qed.

(** A prefix alone configures the courtesy mark: without a backend and an address
    of its own, a store with a prefix and no mark lifetime is refused. *)
Theorem prefix_configures_mark cfg w :
  IngressBackend cfg = None -> IngressRedisAddr cfg = EmptyString -> IngressPrefix cfg <> EmptyString ->
  IngressTTL cfg <= 0 -> forall s, fst (NewWithConfig cfg w) <> inr s.
Proof.
  intros Hb Ha Hp Ht s. unfold NewWithConfig. case_test; [done|]. destruct (ts_New _ _) as [[eg|] w1]; [|done].
  assert (Hw : wants_ingress cfg = true).
  { unfold wants_ingress, is_empty. rewrite Hb, Ha, (bool_decide_eq_false_2 _ Hp). done. }
  rewrite Hw. cbn [negb]. by rewrite (proj2 (Z.leb_le _ _) Ht).
Qed.

End Store.

(** ** The listeners of a deployment *)

Section Deployment.
Context `{FrameLib} `{TeeLib} `{WireLib} {TS : TxidSet} {View : TxidSetView} {Laws : TxidSetLaws}.

(** What a worker is given: a datagram, or a recovered frame. *)
Inductive Input := InDatagram (raw : bytes) (from : Sockaddr) (tee : bool) | InReinject (raw : bytes).

Definition run_input (oracle : nat -> Answer) (w : Worker) (i : Input) : Worker :=
  match i with
  | InDatagram raw from tee => (handleDatagram oracle raw from tee w).2
  | InReinject raw => (Reinject oracle raw w).2
  end.

Definition run_inputs (oracle : nat -> Answer) (w : Worker) (inputs : list Input) : Worker :=
  fold_left (run_input oracle) inputs w.

Definition input_raw (i : Input) : bytes := match i with InDatagram raw _ _ | InReinject raw => raw end.

(** A worker with a store, given no bundle it would split. *)
Definition claiming (c : Conf) (inputs : list Input) : Prop :=
  is_set (c_txDedup c) = true /\ Forall (fun i => splits c (input_raw i) = false) inputs.

Lemma run_inputs_credits oracle inputs w k :
  claiming (w_conf w) inputs -> 0 <= credits k (w_log w) -> 0 <= credits k (w_log (run_inputs oracle w inputs)).
Proof.
  intros [Hs Hin] Hw. rewrite Forall_forall in Hin. assert (Hinv : w_conf (run_inputs oracle w inputs) = w_conf w /\
    0 <= credits k (w_log (run_inputs oracle w inputs))); [|tauto].
  unfold run_inputs. apply (fold_left_inv _ (fun w' => w_conf w' = w_conf w /\ 0 <= credits k (w_log w'))); [done|].
  intros w' i Hi [Hw' Hk]. specialize (Hin i Hi).
  assert (He : earns (w_conf w) k (fun w' => (tt, run_input oracle w' i)) (fun _ => 0)).
  { destruct i as [raw from tee|raw]; intros w1 Hw1.
    - destruct (handleDatagram_earns oracle (w_conf w) k Hs raw from tee Hin w1 Hw1) as (? & evs & ? & ?). eauto.
    - destruct (Reinject_earns oracle (w_conf w) k Hs raw Hin w1 Hw1) as (? & evs & ? & ?). eauto. }
  destruct (He w' Hw') as (Hc' & evs & Hl & Hev). cbn [fst snd] in *. split; [done|].
  rewrite Hl, credits_app. lia.
Qed.

(** What happens in a deployment: the events of its workers. *)
Inductive GEvent := GWorker (i : nat) (ev : WEvent).

(** The worker's reading of [Claim]: an error first. *)
Definition claim_result (a : bool * bool) : ClaimResult :=
  if snd a then ClaimError else if fst a then ClaimWon else ClaimLost.

(** The claims of a history were answered by the stores, in its order, from one
    state of the stores to another.  Between the workers' operations time passes and
    other programs use the servers. *)
Inductive answered (store : nat -> Store) : World -> list GEvent -> World -> Prop :=
| AnsDone w : answered store w [] w
| AnsElapse w w1 gl w' : elapses w w1 -> answered store w1 gl w' -> answered store w gl w'
| AnsClaim i key r w gl w' :
    r = claim_result (Claim true (Some (store i)) key w).1.1 ->
    answered store (Claim true (Some (store i)) key w).2 gl w' ->
    answered store w (GWorker i (WClaim key r) :: gl) w'
| AnsMark i key w gl w' :
    answered store (Mark true (Some (store i)) key w).2 gl w' ->
    answered store w (GWorker i (WMark key) :: gl) w'
| AnsOther i ev w gl w' :
    (forall key r, ev <> WClaim key r) -> (forall key, ev <> WMark key) ->
    answered store w gl w' -> answered store w (GWorker i ev :: gl) w'.

Definition log_of (i : nat) (gl : list GEvent) : list WEvent :=
  omap (fun g => match g with GWorker j ev => if (j =? i)%nat then Some ev else None end) gl.

Definition g_claims (k : bytes) (r : ClaimResult) (g : GEvent) : bool :=
  match g with
  | GWorker _ (WClaim key r') =>
      bool_decide (key = k) && match r, r' with ClaimWon, ClaimWon | ClaimLost, ClaimLost | ClaimError, ClaimError => true | _, _ => false end
  | _ => false
  end.

(** A V2 transaction [k] handed to an egress sink. *)
Definition g_sends (k : bytes) (g : GEvent) : bool :=
  match g with GWorker _ (WSend _ f) => bool_decide (f_TxID f = k) && (f_Version f =? FrameVerV2) | _ => false end.

Definition g_credits (k : bytes) (gl : list GEvent) : Z :=
  foldr (fun g n => match g with GWorker _ ev => credit k ev end + n) 0 gl.

Lemma g_credits_counts k gl :
  g_credits k gl =
  Z.of_nat (count (g_claims k ClaimWon) gl) + Z.of_nat (count (g_claims k ClaimError) gl) - Z.of_nat (count (g_sends k) gl).
Proof.
  induction gl as [|g gl IH]; [done|]. rewrite !count_cons. cbn [g_credits foldr]. fold (g_credits k gl). rewrite IH.
  destruct g as [i ev]. destruct ev; cbn; try lia.
  - destruct (bool_decide _ && _); cbn; lia.
  - destruct (bool_decide _); cbn; [|lia]. destruct r; cbn; lia.
Qed.

(** The history without the events of one worker. *)
Definition without (i : nat) (gl : list GEvent) : list GEvent :=
  List.filter (fun g => match g with GWorker j _ => negb (j =? i)%nat end) gl.

Lemma g_credits_without k i gl : g_credits k gl = credits k (log_of i gl) + g_credits k (without i gl).
Proof.
  assert (Hcons : forall ev evs, credits k (ev :: evs) = credit k ev + credits k evs) by done.
  induction gl as [|[j ev] gl IH]; [done|].
  assert (Hg : forall gl, g_credits k (GWorker j ev :: gl) = credit k ev + g_credits k gl) by done.
  unfold without, log_of in *. rewrite Hg. cbn [List.filter omap list_omap].
  destruct (j =? i)%nat; cbn [negb]; [rewrite Hcons|rewrite Hg]; lia.
Qed.

Lemma log_of_without j i gl : log_of j (without i gl) = if (j =? i)%nat then [] else log_of j gl.
Proof.
  destruct (Nat.eqb_spec j i) as [->|Hne]; induction gl as [|[i' ev] gl IH]; try done; cbn.
  - destruct (i' =? i)%nat eqn:E; cbn; [exact IH|]. rewrite E. exact IH.
  - destruct (Nat.eqb_spec i' i) as [->|Hi]; cbn.
    + destruct (Nat.eqb_spec i j) as [->|]; [done|exact IH].
    + destruct (i' =? j)%nat; [by f_equal|exact IH].
Qed.

(** Without debts of the workers there is none in the history. *)
Lemma g_credits_pos k n gl :
  (forall i ev, GWorker i ev ∈ gl -> (i < n)%nat) -> (forall i, (i < n)%nat -> 0 <= credits k (log_of i gl)) ->
  0 <= g_credits k gl.
Proof.
  revert gl. induction n as [|n IH]; intros gl Hlt Hpos.
  - destruct gl as [|[i ev] gl]; [done|]. specialize (Hlt i ev ltac:(by left)). lia.
  - rewrite (g_credits_without k n). specialize (Hpos n ltac:(lia)) as Hn.
    enough (0 <= g_credits k (without n gl)) by lia. apply IH.
    + intros i ev Hin. apply list_elem_of_In, filter_In in Hin as [Hin Hne].
      apply list_elem_of_In, Hlt in Hin. apply negb_true_iff, Nat.eqb_neq in Hne. lia.
    + intros i Hi. rewrite log_of_without. case_match; [done|]. apply Hpos. lia.
Qed.

#[local] Instance elapses_preorder : PreOrder elapses.
Proof.
  split; [by intros w|]. intros w1 w2 w3 [T1 K1] [T2 K2]. split; [lia|].
  intros site k x Hx Hlt. apply K2; [|done]. apply K1; [done|lia].
Qed.

Lemma claim_elapses s key w : elapses w (Claim true s key w).2.
Proof.
  unfold Claim. destruct s as [[[eg|] p ing ip]|]; [|done..].
  pose proof (claim_law eg p key w) as Hl. destruct (ts_Claim eg p key w) as [o w']. apply Hl.
Qed.

Lemma mark_elapses s key w : elapses w (Mark true s key w).2.
Proof.
  unfold Mark. destruct s as [[eg p [ing|] ip]|]; [|done..].
  pose proof (mark_law ing ip key w) as Hl. destruct (ts_Mark ing ip key w) as [o w']. apply Hl.
Qed.

Lemma answered_elapses store w gl w' : answered store w gl w' -> elapses w w'.
Proof.
  induction 1; [done|..]; (etrans; [|eassumption]); auto using claim_elapses, mark_elapses. done.
Qed.

(** *** One win per lifetime *)

(** The key cannot be won before time [x]. *)
Definition taken_until (site : Site) (k : string) (x : Z) (w : World) : Prop :=
  x <= ts_now w \/ exists y, ts_exp w site !! k = Some y /\ x <= y.

Lemma taken_elapses site k x w w' : elapses w w' -> taken_until site k x w -> taken_until site k x w'.
Proof.
  intros [Ht Hk] [Hx|(y & Hy & Hx)]; [left; lia|]. destruct (Z_lt_dec (ts_now w') y) as [Hl|]; [|left; lia].
  right. exists y. split; [by apply Hk|done].
Qed.

(** A claim that wins comes when the key is free, and takes it for the lifetime. *)
Lemma claim_wins site s prefix ttl key w x :
  s_egressPrefix s = prefix -> (exists eg, s_egress s = Some eg /\ ts_site eg = Some site /\ ttl <= ts_ttl eg) ->
  claim_result (Claim true (Some s) key w).1.1 = ClaimWon -> taken_until site (tx_key prefix key) x w ->
  x <= ts_now w /\ taken_until site (tx_key prefix key) (ts_now w + ttl) (Claim true (Some s) key w).2.
Proof.
  intros Hp (eg & He & Hsite & Httl) Hwon Htk. destruct s as [e p ing ip]; cbn in Hp, He; subst.
  unfold Claim in *. pose proof (claim_law eg prefix key w) as Hl. destruct (ts_Claim eg prefix key w) as [o w'].
  destruct Hl as (_ & _ & Hl). destruct o; cbn in Hwon; try discriminate Hwon. destruct (Hl site Hsite) as [Hfree Hset].
  cbn. split.
  - destruct Htk as [?|(y & Hy & Hx)]; [done|]. destruct (Z_lt_dec (ts_now w) y); [|lia]. destruct Hfree. by exists y.
  - right. eexists. split; [exact Hset|]. lia.
Qed.

Lemma wins_spaced store site prefix ttl k w gl w' x :
  0 < ttl ->
  (forall i, s_egressPrefix (store i) = prefix /\ exists eg, s_egress (store i) = Some eg /\ ts_site eg = Some site /\ ttl <= ts_ttl eg) ->
  answered store w gl w' -> taken_until site (tx_key prefix k) x w ->
  count (g_claims k ClaimWon) gl = 0%nat \/
  x + (Z.of_nat (count (g_claims k ClaimWon) gl) - 1) * ttl <= ts_now w'.
Proof.
  intros Ht Hst Ha. revert x. induction Ha as [w|w w1 gl w' He _ IH|i key r w gl w' Hr Ha IH|i key w gl w' _ IH|i ev w gl w' Hc _ _ IH];
    intros x Hx; [by left|by apply IH, (taken_elapses _ _ _ w)| | |].
  - rewrite count_cons. destruct (Hst i) as [Hp Hs]. pose proof (claim_elapses (Some (store i)) key w) as Hel.
    assert (Hskip : g_claims k ClaimWon (GWorker i (WClaim key r)) = false ->
      ((if g_claims k ClaimWon (GWorker i (WClaim key r)) then 1 else 0) + count (g_claims k ClaimWon) gl)%nat = 0%nat \/
      x + (Z.of_nat ((if g_claims k ClaimWon (GWorker i (WClaim key r)) then 1 else 0) + count (g_claims k ClaimWon) gl) - 1) * ttl <= ts_now w').
    { intros ->. apply IH. by apply (taken_elapses _ _ _ w). }
    destruct (decide (key = k)) as [->|Hne]; [|apply Hskip; cbn; by rewrite bool_decide_false].
    destruct r; [|by apply Hskip; cbn; rewrite andb_false_r..].
    destruct (claim_wins site (store i) prefix ttl k w x Hp Hs (eq_sym Hr) Hx) as [Hfree Htk]. cbn [g_claims].
    rewrite bool_decide_true by done. cbn [andb].
    destruct (IH _ Htk) as [->|Hrest]; right; [|nia].
    pose proof (answered_elapses _ _ _ _ Ha) as [? _]. destruct Hel as [? _]. lia.
  - apply IH, (taken_elapses _ _ _ w); [apply mark_elapses|done].
  - rewrite count_cons. assert (g_claims k ClaimWon (GWorker i ev) = false) as ->; [|by apply IH].
    destruct ev; try done. by destruct (Hc key r).
Qed.

(** C5: the listeners of a deployment claim in stores built with one egress prefix and
    deployment id, on one shared server, with a claim lifetime of at least [ttl].
    Whatever datagrams and recovered frames their workers process (bundles only where
    the sink takes them whole, since a split bundle is claimed under its own id),
    however their events interleave, and whatever other programs do on the server
    short of removing live entries, a V2 transaction is handed to the workers' egress
    sinks at most once in all, plus once for every full lifetime that passes, plus once
    for every claim of it that failed open on a store error. *)
Theorem deployment_sends_once (n : nat) (prefix dep : string) (site : Site) (ttl : Z) (cfg : nat -> Config) (w0 : nat -> World)
    (store : nat -> Store) (start : nat -> Worker) (oracle : nat -> nat -> Answer) (inputs : nat -> list Input)
    (gl : list GEvent) (w w' : World) (k : bytes) :
  0 < ttl ->
  (forall i, EgressPrefix (cfg i) = prefix /\ DeploymentID (cfg i) = dep /\ site_of (egress_set (cfg i)) = Some site /\
     ttl <= EgressTTL (cfg i) /\ fst (NewWithConfig (cfg i) (w0 i)) = inr (store i)) ->
  (forall i, (i < n)%nat -> claiming (w_conf (start i)) (inputs i) /\ w_log (start i) = [] /\
     log_of i gl = w_log (run_inputs (oracle i) (start i) (inputs i))) ->
  (forall i ev, GWorker i ev ∈ gl -> (i < n)%nat) ->
  answered store w gl w' ->
  Z.of_nat (count (g_sends k) gl) <=
    1 + (ts_now w' - ts_now w) / ttl + Z.of_nat (count (g_claims k ClaimError) gl).
Proof.
  intros Ht Hst Hw Hids Ha.
  assert (Hpos : 0 <= g_credits k gl).
  { apply (g_credits_pos k n); [done|]. intros i Hi. destruct (Hw i Hi) as (Hc & Hl & ->).
    apply run_inputs_credits; [done|]. by rewrite Hl. }
  rewrite g_credits_counts in Hpos.
  pose proof (answered_elapses _ _ _ _ Ha) as [Hmono _].
  assert (Hdiv : 0 <= (ts_now w' - ts_now w) / ttl) by (apply Z.div_pos; lia).
  enough (Z.of_nat (count (g_claims k ClaimWon) gl) <= 1 + (ts_now w' - ts_now w) / ttl) by lia.
  destruct (wins_spaced store site (egress_prefix (or_default prefix "bsl:egr:") dep) ttl k w gl w' (ts_now w)) as [->|Hn];
    [done| |done|by left|lia|].
  - intros i. destruct (Hst i) as (<- & <- & Hsite & Hle & Hs). pose proof Hs as Hs'.
    apply NewWithConfig_egress in Hs as (? & _ & _). split; [done|].
    apply NewWithConfig_set in Hs' as (_ & eg & He & Hnew). exists eg. apply new_law in Hnew as [-> ->]. done.
  - enough (Z.of_nat (count (g_claims k ClaimWon) gl) - 1 <= (ts_now w' - ts_now w) / ttl) by lia.
    apply Z.div_le_lower_bound; lia.
Qed.

(** Deployments that differ in their id race independently: a claim by one of
    them never makes another lose a transaction nobody of its own claimed. *)
Theorem deployments_independent cfg1 cfg2 w1 w2 s1 s2 t1 t2 w :
  EgressPrefix cfg1 = EgressPrefix cfg2 -> DeploymentID cfg1 <> DeploymentID cfg2 ->
  fst (NewWithConfig cfg1 w1) = inr s1 -> fst (NewWithConfig cfg2 w2) = inr s2 ->
  length t1 = length t2 ->
  (forall site, ts_exp w site !! tx_key (s_egressPrefix s2) t2 = None) ->
  (forall eg, tx_key (s_egressPrefix s2) t2 ∉ ts_local eg w) ->
  claim_result (Claim true (Some s2) t2 (Claim true (Some s1) t1 w).2).1.1 <> ClaimLost.
Proof.
  intros Hp Hd Hs1 Hs2 Hl Hk Hloc. apply NewWithConfig_egress in Hs1 as (Hp1 & He1 & _), Hs2 as (Hp2 & He2 & _).
  assert (Hne : tx_key (s_egressPrefix s1) t1 <> tx_key (s_egressPrefix s2) t2).
  { intros He. apply tx_key_prefix in He; [|done]. rewrite Hp1, Hp2, Hp in He. by apply egress_prefix_inj in He. }
  destruct s1 as [[eg1|] p1 i1 ip1]; [|done]. destruct s2 as [[eg2|] p2 i2 ip2]; [|done]. cbn [s_egressPrefix] in *.
  unfold Claim. pose proof (claim_law eg1 p1 t1 w) as Hlaw1. destruct (ts_Claim eg1 p1 t1 w) as [o1 w'].
  cbn [fst snd]. pose proof (claim_law eg2 p2 t2 w') as Hlaw2. destruct (ts_Claim eg2 p2 t2 w') as [o2 w''].
  destruct Hlaw1 as (_ & [Hexp1 Hloc1] & _), Hlaw2 as (_ & _ & Hlaw2). cbn [fst].
  destruct o2; cbn; try done.
  - apply Hloc1 in Hlaw2 as [Hin|[_ Hin]]; [by apply Hloc in Hin|by destruct Hne].
  - destruct Hlaw2 as (site & _ & x & Hx & _). apply Hexp1 in Hx as [Hx|[_ Hx]]; [by rewrite Hk in Hx|by destruct Hne].
Qed.

End Deployment.

(** ** A concrete backend *)

(** Servers named by their address, no local tier, never an error; a set is its server
    and lifetime. *)
Record World0 := mkWorld0 { now0 : Z; entries0 : gmap string (gmap string Z) }.

Definition at0 (w : World0) (site : string) : gmap string Z := default ∅ (entries0 w !! site).

Definition setnx0 (s : option string * Z) (k : string) (w : World0) : bool * World0 :=
  match fst s with
  | None => (true, w)
  | Some site =>
      match at0 w site !! k with
      | Some x => if now0 w <? x then (false, w)
                  else (true, mkWorld0 (now0 w) (<[site := <[k := now0 w + snd s]> (at0 w site)]> (entries0 w)))
      | None => (true, mkWorld0 (now0 w) (<[site := <[k := now0 w + snd s]> (at0 w site)]> (entries0 w)))
      end
  end.

Definition site0 (c : TsConfig unit) : option string :=
  if is_empty (tc_RedisAddr _ c) then None else Some (tc_RedisAddr _ c).

Definition set0 : TxidSet := {|
  Backend := unit; TStore := option string * Z; World := World0; DefaultLocalCapacity := 1048576;
  ts_New := fun c w => (Some (site0 c, tc_TTL _ c), w);
  ts_Claim := fun s p t w => let '(won, w) := setnx0 s (tx_key p t) w in (if won then ClaimSetWon else ClaimSetLost, w);
  ts_Mark := fun s p t w => let '(set, w) := setnx0 s (tx_key p t) w in (if set then MarkSet else MarkExisted, w);
  ts_Close := fun _ w => (false, w)
|}.

#[local] Existing Instances lib0 tee0 wire0 set0.

Definition view0 : TxidSetView (H := set0) := {|
  Site := string; site_of := site0; ts_site := fst; ts_ttl := snd; ts_now := now0; ts_exp := at0; ts_local := fun _ _ => ∅
|}.
#[local] Existing Instance view0.

Lemma setnx0_spec s k w :
  let '(won, w') := setnx0 s k w in
  elapses w w' /\ enters s k w w' /\
  (won = true -> forall site, fst s = Some site -> ~ live w site k /\ at0 w' site !! k = Some (now0 w + snd s)) /\
  (won = false -> exists site, fst s = Some site /\ live w site k).
Proof.
  assert (Hins : forall site x, fst s = Some site -> (forall y, at0 w site !! k = Some y -> y <= now0 w) ->
    let w' := mkWorld0 (now0 w) (<[site := <[k := x]> (at0 w site)]> (entries0 w)) in
    elapses w w' /\ enters s k w w' /\ ~ live w site k /\ at0 w' site !! k = Some x).
  { intros site x Hs Hdead w'. assert (Hat : forall st, at0 w' st = if decide (st = site) then <[k := x]> (at0 w site) else at0 w st).
    { intros st. unfold w', at0. cbn. case_decide as Hd; [subst; by rewrite lookup_insert_eq|by rewrite lookup_insert_ne]. }
    split; [split; [cbn; lia|]|split; [split|split]]; cbn [ts_exp ts_now ts_local view0].
    - intros st k' y Hy Hlt. rewrite Hat. case_decide as Hd; [|done]. subst st.
      destruct (decide (k' = k)) as [->|Hne]; [apply Hdead in Hy; cbn in Hlt; lia|by rewrite lookup_insert_ne].
    - intros st k' y. rewrite Hat. case_decide as Hd; [|by left]. subst st.
      destruct (decide (k' = k)) as [->|Hne]; [by right|rewrite lookup_insert_ne by done; by left].
    - intros s' k' Hin. by apply elem_of_empty in Hin.
    - intros (y & Hy & Hlt). apply Hdead in Hy. cbn in Hlt. lia.
    - rewrite Hat. rewrite decide_True by done. apply lookup_insert_eq. }
  assert (Hsame : elapses w w /\ enters s k w w) by (split; [split; [lia|done]|split; [by left|by left]]).
  unfold setnx0. destruct (fst s) as [site|] eqn:Es; [|destruct Hsame; by split_and!].
  destruct (at0 w site !! k) as [y|] eqn:Ey; [destruct (Z.ltb_spec (now0 w) y) as [Hl|Hl]|].
  - destruct Hsame. split_and!; try done. intros _. exists site. split; [done|]. by exists y.
  - destruct (Hins site (now0 w + snd s) eq_refl) as (H1 & H2 & H3 & H4); [intros y' Hy'; simplify_eq; lia|].
    split_and!; try done. by intros _ st [= <-].
  - destruct (Hins site (now0 w + snd s) eq_refl) as (H1 & H2 & H3 & H4); [intros y' Hy'; congruence|].
    split_and!; try done. by intros _ st [= <-].
Qed.

#[refine, local] Instance set0_laws : TxidSetLaws := {| new_law := _ |}.
Proof.
  - intros c w s [= <-]. done.
  - intros s p t w. cbn. pose proof (setnx0_spec s (tx_key p t) w) as Hs. destruct (setnx0 s (tx_key p t) w) as [[|] w'];
      destruct Hs as (? & ? & Hw & Hl); (split; [done|]; split; [done|]); auto.
  - intros s p t w. cbn. pose proof (setnx0_spec s (tx_key p t) w) as Hs. destruct (setnx0 s (tx_key p t) w) as [won w'].
    by destruct Hs as (? & ? & _).
Defined.

(** Two workers of one deployment receive the same transaction, and the first of them
    receives it once more when the claim has expired. *)
Definition conf1 : Conf :=
  mkConf 0 true (mkEngine (fun _ => 0) 4) (mkFilter None None None None) false None (Some false) false false
    true false None 42 None ∅ ∅ false true None false.

Definition store_cfg (dep : string) : Config :=
  mkConfig None "redis:6379" "bsl:egr:" 60 0 dep None EmptyString EmptyString 0 0.

Definition store0 : Store := mkStore (Some (Some "redis:6379"%string, 60)) "bsl:egr:dc1:" None EmptyString.

(** Worker 0 wins its claims, worker 1 loses. *)
Definition oracle1 (i : nat) (_ : nat) : Answer :=
  mkAnswer (env0 3000) 1000 1000 (fun _ => 0) true 1 (if (i =? 0)%nat then ClaimWon else ClaimLost).

Definition start1 : Worker := NewWorker conf1 None None None None.

Definition in1 : Input := InDatagram [2; 5; 9] SockaddrOther false.

Definition inputs1 (i : nat) : list Input := if (i =? 0)%nat then [in1; in1] else [in1].

Definition once (i : nat) : list WEvent := w_log (run_inputs (oracle1 i) start1 [in1]).

Definition history1 : list GEvent := map (GWorker 0) (once 0) ++ map (GWorker 1) (once 1) ++ map (GWorker 0) (once 0).

(** The server when the history ends. *)
Definition end1 : World0 :=
  mkWorld0 60 {["redis:6379"%string := {[tx_key "bsl:egr:dc1:" (zeros 32) := 120]}]}.

Lemma once_log :
  once 0 = [FrameReceived "brc124"; WClaim (zeros 32) ClaimWon; WSend [2; 5; 9] (tx_of [2; 5; 9]); FrameForwarded] /\
  once 1 = [FrameReceived "brc124"; WClaim (zeros 32) ClaimLost; FrameTxDeduped].
Proof. split; [vm_cast_no_check (eq_refl (once 0))|vm_cast_no_check (eq_refl (once 1))]. Qed.

Lemma claim1 (w : World) (won : bool) (w' : World) :
  setnx0 (Some "redis:6379"%string, 60) (tx_key "bsl:egr:dc1:" (zeros 32)) w = (won, w') ->
  claim_result (Claim true (Some store0) (zeros 32) w).1.1 = (if won then ClaimWon else ClaimLost) /\
  (Claim true (Some store0) (zeros 32) w).2 = w'.
Proof. intros E. unfold Claim, store0. cbn [ts_Claim set0]. rewrite E. by destruct won. Qed.

Lemma history1_answered : answered (fun _ => store0) (mkWorld0 0 ∅ : World) history1 (end1 : World).
Proof.
  set (K := tx_key "bsl:egr:dc1:" (zeros 32)).
  set (w1 := mkWorld0 0 {["redis:6379"%string := {[K := 60]}]}).
  set (w2 := mkWorld0 60 {["redis:6379"%string := {[K := 60]}]}).
  assert (E1 : setnx0 (Some "redis:6379"%string, 60) K (mkWorld0 0 ∅) = (true, w1)) by (vm_compute; reflexivity).
  assert (E2 : setnx0 (Some "redis:6379"%string, 60) K w1 = (false, w1)) by (vm_compute; reflexivity).
  assert (E3 : setnx0 (Some "redis:6379"%string, 60) K w2 = (true, end1)) by (vm_compute; reflexivity).
  destruct once_log as [L0 L1]. unfold history1. rewrite L0, L1. cbn [map app].
  apply AnsOther; [done|done|]. destruct (claim1 _ _ _ E1) as [R1 W1]. apply AnsClaim; [by rewrite R1|]. rewrite W1.
  do 2 (apply AnsOther; [done|done|]).
  apply AnsOther; [done|done|]. destruct (claim1 _ _ _ E2) as [R2 W2]. apply AnsClaim; [by rewrite R2|]. rewrite W2.
  apply AnsOther; [done|done|].
  apply (AnsElapse _ _ (w2 : @World set0)); [split; [vm_compute; discriminate|done]|].
  apply AnsOther; [done|done|]. destruct (claim1 _ _ _ E3) as [R3 W3]. apply AnsClaim; [by rewrite R3|]. rewrite W3.
  do 2 (apply AnsOther; [done|done|]). apply AnsDone.
Qed.

Lemma history1_logs :
  log_of 0 history1 = w_log (run_inputs (oracle1 0) start1 (inputs1 0)) /\
  log_of 1 history1 = w_log (run_inputs (oracle1 1) start1 (inputs1 1)).
Proof.
  split; [vm_cast_no_check (eq_refl (log_of 0 history1))|vm_cast_no_check (eq_refl (log_of 1 history1))].
Qed.

Lemma deployment_sends_once_witness :
  count (g_sends (zeros 32)) history1 = 2%nat /\
  Z.of_nat (count (g_sends (zeros 32)) history1) <= 1 + (60 - 0) / 60 + Z.of_nat (count (g_claims (zeros 32) ClaimError) history1).
Proof.
  split; [unfold history1; destruct once_log as [-> ->]; reflexivity|].
  apply (deployment_sends_once 2 "bsl:egr:" "dc1" ("redis:6379"%string : @Site set0 view0) 60 (fun _ => store_cfg "dc1") (fun _ => mkWorld0 0 ∅)
    (fun _ => store0) (fun _ => start1) oracle1 inputs1 history1 (mkWorld0 0 ∅) end1).
  - lia.
  - intros _. by repeat split.
  - intros [|[|i]] Hi; [| |lia]; (split; [split; [done|by repeat constructor]|split; [done|apply history1_logs]]).
  - intros i ev Hin. unfold history1 in Hin. rewrite !elem_of_app in Hin.
    destruct Hin as [Hin|[Hin|Hin]]; apply list_elem_of_In, in_map_iff in Hin as (? & [= <- _] & _); lia.
  - exact history1_answered.
Defined.

Definition store1 : Store := mkStore (Some (Some "redis:6379"%string, 60)) "bsl:egr:dc2:" None EmptyString.

Lemma deployments_independent_witness :
  claim_result (Claim true (Some store1) (zeros 32) (Claim true (Some store0) (zeros 32) (mkWorld0 0 ∅ : World)).2).1.1 <> ClaimLost.
Proof.
  apply (deployments_independent (store_cfg "dc1") (store_cfg "dc2") (mkWorld0 0 ∅) (mkWorld0 0 ∅)); try done; vm_compute; try done.
Defined.
