(* ===== verification/Findings.v ===== *)
(** * Defects shown on concrete runs

    Runs of the modelled code in which it does not do what its comments say it
    is for.  Each is evaluated on the worker, tracker and buffer of the concrete
    instances. *)

From S2P Require Import Prelude Discovery Tracker TrackerInv TrackerProps TrackerRepair Dedup SubtreeGroup Filter Reassembly ReassemblyProps ReassemblyRepair RetryTee Listener ListenerInv ListenerExample ListenerProps.

#[local] Existing Instances lib0 tee0 wire0.

(** A tracker without flows, and a worker on it with the given configuration. *)
Definition fresh_tracker : Tracker := Tracker.New cfg0 ["[fd00::1]:9300"%string] true None.

Definition worker_on (c : Conf) : Worker :=
  NewWorker c (Some fresh_tracker) (Some (NewSet 8 0)) (Some (with_lastEvict 900 buffer0)) None.

Definition tracker_of (w : Worker) : Tracker := default fresh_tracker (w_tracker w).

Definition datagram (raw : bytes) : WCall := CallDatagram raw (SockaddrInet6 src0 1) false.

Definition run_calls (calls : list WCall) (w : Worker) : Worker :=
  fold_left (fun w call => perform oracle0 call w) calls w.

(** Completing an object whose fragments straddle the reset threshold reads as a
    proxy restart: the completion observes the SeqNum of the first fragment
    received, 100, on a flow that is already at 101.  All three fragments arrived,
    yet the flow falls back, and 101 is a pending gap that will be asked for. *)
Theorem completion_reads_as_restart :
  let t := tracker_of (run_calls [datagram [3; 0; 1; 2]; datagram [3; 1; 3; 4]; datagram [3; 2; 5]] (worker_on conf0)) in
  Pending t 7 [101] = true /\ In (GapDetected "brc124" (Some src0)) (t_log t).
Proof. vm_compute. split; [reflexivity|]. by left. Qed.

(** Two senders on one shard and subtree: the duplicate key has no HashKey, so
    the second sender's frame with the same SeqNum is dropped as a duplicate. *)
Theorem dedup_key_ignores_sender :
  let f1 := mkFrame 2 (zeros 32) 7 5 (zeros 32) [1] in
  let f2 := mkFrame 2 (repeat 1 32) 8 5 (zeros 32) [2] in
  sends (w_log (processTx oracle0 [2] f2 (processTx oracle0 [1] f1 (worker_on conf0)).2).2) = [WSend [1] f1].
Proof. vm_compute. reflexivity. Qed.

(** The BEEF plane on, every topic elected, or only topic 1,1,... *)
Definition beef_conf (topics : gset bytes) : Conf := SetBEEF (Some (fun _ => 0x1000)) topics ∅ false conf0.

(** A gap on a BEEF flow has no owner, so with per-worker callbacks only a
    repair returned by unicast finds nobody to take it, although the worker that
    saw the flow registered. *)
Theorem beef_gap_has_no_owner :
  let t := RegisterRecover 0 9 (tracker_of (run_calls [datagram [9; 1; 7]; datagram [9; 3; 7]] (worker_on (beef_conf ∅)))) in
  Pending t 7 [2] = true /\ recoverFor t 0 = Some 9%nat /\ recoverFor t (ge_owner (gap_of t 7 2)) = None.
Proof. vm_compute. split; [reflexivity|]. split; reflexivity. Qed.

(** A BEEF frame that the topic election refuses is not observed although its
    flow interleaves topics: the next elected frame finds a gap that was received. *)
Theorem beef_unelected_reads_as_gap :
  let c := beef_conf {[repeat 1 32]} in
  let bf topic n := mkBEEFFrame (zeros 32) topic 7 n 1 [7] in
  let offer w bf := (deliverBeef oracle0 [9] bf w).2 in
  let w := fold_left offer [bf (repeat 1 32) 1; bf (repeat 2 32) 2; bf (repeat 1 32) 3] (worker_on c) in
  Pending (tracker_of w) 7 [2] = true.
Proof. vm_compute. reflexivity. Qed.

(** A BEEF object's expired slot asks for its fragments under the TopicID, while
    the fragments of the same flow are observed under a zero SubtreeID. *)
Theorem beef_repair_names_topic :
  let topic := repeat 1 32 in
  let frag i seq d := mkFrag (zeros 32) topic 7 seq 5 3 i 9 1 d in
  let b := SetIncompleteHook (SetRepairWait 0 (with_lastEvict 900 buffer0)) in
  let hooks := worker_hooks (env0 (20 * ns_per_s)) 0 in
  let '(b, t, _) := @Reassembly.Observe lib0 _ hooks None 1000 1000 (frag 0 100 [1; 2]) b (Some fresh_tracker) in
  let '(_, t, _) := @Reassembly.Tick _ hooks (11 * ns_per_s) b t in
  ge_subtreeID (gap_of (default fresh_tracker t) 7 101) = topic.
Proof. vm_compute. reflexivity. Qed.

(** A tail probe in flight when the flow re-baselines stays marked although its
    entry is gone: the flow never probes its tail again. *)
Theorem probe_mark_sticks :
  let t := sweepOnce (env0 (30 * ns_per_s)) paced in
  let t := ObserveFrom (env0 (31 * ns_per_s)) 0 0 (zeros 32) 7 100000 (zeros 32) (Some src0) t in
  fs_probing (flow_of t 7) = 21 /\ Pending t 7 [21] = false.
Proof. vm_compute. split; reflexivity. Qed.
