(* ===== verification/Fanout.v ===== *)
(** * The fan-out sink (fanout/fanout.go)

    A consumer table with a reverse index by shard.  Transaction frames, bundles
    and BEEF objects are routed by the index and each consumer's own elections;
    control frames are broadcast.  What a consumer's sink is handed, and what the
    measurement seams are told, is a list of events; how a sink answers is a
    parameter. *)

From S2P Require Import Prelude Discovery Tracker TrackerRepair Dedup SubtreeGroup Filter Reassembly ReassemblyRepair RetryTee Listener ListenerInv ListenerEgress.

(** ** Data *)

(** [co_BundleSink] and [co_HeaderSink] say which optional interfaces the
    consumer's sink implements, [co_*Obs] whether an observer is set. *)
Record Consumer := mkConsumer {
  co_ID : string;
  co_Shards : list Z;
  co_Filt : option Filter;
  co_OwnIngressIP : bytes;
  co_BundleCapable : bool;
  co_BundleSink : bool;
  co_HeaderSink : bool;
  co_IngressObs : bool;
  co_TopicSet : gset bytes;
  co_AllTopics : bool;
  co_BEEFVersions : gset Z;
  co_BEEFObs : bool
}.

Definition FilterTopic : string := "topic".

Definition FilterVersion : string := "version".

(** How a consumer's sink answers: sent, class not elected, or a real error. *)
Inductive SinkResult := Delivered | NotElected | Failed (err : Z).

(** What [SendBeef] returns without an engine, besides a sink's error. *)
Inductive SinkError := ErrBEEFEngineUnset | SinkErr (err : Z).

Section Fanout.
Context `{FrameLib} `{WireLib}.

(** What consumer [c] is handed, and what its observers see. *)
Inductive FEvent :=
| FSend (c : Consumer) (raw : bytes) (f : Frame)
| FBundle (c : Consumer) (raw : bytes) (b : Bundle)
| FBeef (c : Consumer) (raw : bytes) (bf : BEEFFrame)
| FBlock (c : Consumer) (raw : bytes) (bf : BlockFrame)
| FSubtree (c : Consumer) (raw : bytes) (sf : SubtreeDataFrame)
| FHeader (c : Consumer) (raw : bytes) (hf : Frame)
| FRaw (c : Consumer) (buf : bytes)
| FClose (c : Consumer)
| FIngress (c : Consumer) (wire members : nat)
| FBeefFiltered (c : Consumer) (reason : string) (wire : nat).

Record Sink := mkSink {
  s_engine : Engine;
  s_beefEngine : option (bytes -> Z);
  s_consumers : list Consumer;
  s_byShard : gmap Z (list Consumer);
  s_allShards : list Consumer;
  s_egressSeq : gmap Z Z
}.

Definition NewSink (engine : Engine) : Sink := mkSink engine None [] ∅ [] ∅.

Definition SetBEEFEngine (pe : option (bytes -> Z)) (s : Sink) : Sink :=
  mkSink (s_engine s) pe (s_consumers s) (s_byShard s) (s_allShards s) (s_egressSeq s).

(** ** The table *)

(** One shard of a consumer's subscription. *)
Definition index_one (c : Consumer) (m : gmap Z (list Consumer)) (sh : Z) : gmap Z (list Consumer) :=
  <[sh := default [] (m !! sh) ++ [c]]> m.

(** One consumer of the table. *)
Definition apply_one (acc : gmap Z (list Consumer) * list Consumer) (c : Consumer) :
    gmap Z (list Consumer) * list Consumer :=
  let '(byShard, allShards) := acc in
  match co_Shards c with
  | [] => (byShard, allShards ++ [c])
  | shards => (fold_left (index_one c) shards byShard, allShards)
  end.

Definition Apply (consumers : list Consumer) (s : Sink) : Sink :=
  let '(byShard, allShards) := fold_left apply_one consumers (∅, []) in
  mkSink (s_engine s) (s_beefEngine s) consumers byShard allShards (s_egressSeq s).

(** The consumers a frame of group [g] is offered to, in order. *)
Definition offered_to (s : Sink) (g : Z) : list Consumer :=
  default [] (s_byShard s !! g) ++ s_allShards s.

(** ** Sending *)

(** [answer n ev] is the sink's answer to the [n]-th event; [clock] gives the
    readings the subtree registry takes for a consumer; [Hash] is
    [seqhash.Hash]. *)
Variable answer : nat -> FEvent -> SinkResult.
Variable clock : Consumer -> bytes -> Z.
Variable Hash : bytes -> Z -> bytes -> Z.

(** The events so far and the first real error. *)
Definition Trace : Type := list FEvent * option Z.

Definition note (ev : FEvent) (tr : Trace) : Trace := (tr.1 ++ [ev], tr.2).

(** A send: an error counts when it is the first and not an election. *)
Definition attempt (ev : FEvent) (tr : Trace) : Trace :=
  (tr.1 ++ [ev],
   match answer (length tr.1) ev, tr.2 with
   | Failed e, None => Some e
   | _, err => err
   end).

(** The consumer's subtree filter. *)
Definition co_admits (c : Consumer) (g : Z) (subtreeID : bytes) : bool :=
  match co_Filt c with
  | Some f => fst (Filter.Allow (clock c) f g subtreeID)
  | None => true
  end.

Definition isOwnTraffic (c : Consumer) (g : Z) (f : Frame) : bool :=
  if bool_decide (co_OwnIngressIP c = zeros 16) || negb (f_Version f =? FrameVerV2) then false
  else f_HashKey f =? Hash (co_OwnIngressIP c) g (f_SubtreeID f).

Definition isOwnBundle (c : Consumer) (g : Z) (b : Bundle) : bool :=
  if bool_decide (co_OwnIngressIP c = zeros 16) then false
  else bu_HashKey b =? Hash (co_OwnIngressIP c) g (bu_SubtreeID b).

Definition isOwnBeef (c : Consumer) (g : Z) (bf : BEEFFrame) : bool :=
  if bool_decide (co_OwnIngressIP c = zeros 16) || (be_HashKey bf =? 0) then false
  else be_HashKey bf =? Hash (co_OwnIngressIP c) g (zeros 32).

Definition ingress (c : Consumer) (wire members : nat) (tr : Trace) : Trace :=
  if co_IngressObs c then note (FIngress c wire members) tr else tr.

Definition deliver_tx (g : Z) (raw : bytes) (f : Frame) (tr : Trace) (c : Consumer) : Trace :=
  if negb (co_admits c g (f_SubtreeID f)) then tr
  else if isOwnTraffic c g f then ingress c (length raw) 1 tr
  else attempt (FSend c raw f) tr.

Definition Send (raw : bytes) (f : Frame) (s : Sink) : Trace :=
  let g := en_GroupIndex (s_engine s) (f_TxID f) in
  fold_left (deliver_tx g raw f) (offered_to s g) ([], None).

(** *** Bundles *)

(** One member: the flow's counter advances even when the encoding fails. *)
Definition decoalesce_one (hk : Z) (acc : list (bytes * Frame) * gmap Z Z) (mf : Frame) :
    list (bytes * Frame) * gmap Z Z :=
  let '(out, seqs) := acc in
  let n := u64 (default 0 (seqs !! hk) + 1) in
  let seqs := <[hk := n]> seqs in
  let mf := restamp n mf in
  match EncodeFrame mf (zeros (HeaderSize + length (f_Payload mf))) with
  | None => (out, seqs)
  | Some (len, buf) => (out ++ [(take len buf, mf)], seqs)
  end.

Definition decoalesce (b : Bundle) (seqs : gmap Z Z) : list (bytes * Frame) * gmap Z Z :=
  fold_left (decoalesce_one (bu_HashKey b)) (Decoalesce b) ([], seqs).

(** The state of a [SendBundle]: the trace, the members once they are
    decoalesced (the result is never nil), and the flow counters.  [nmembers] is
    [len(b.Members)]. *)
Definition deliver_bundle (g : Z) (raw : bytes) (b : Bundle) (nmembers : nat)
    (st : Trace * option (list (bytes * Frame)) * gmap Z Z) (c : Consumer) :
    Trace * option (list (bytes * Frame)) * gmap Z Z :=
  let '(tr, members, seqs) := st in
  if negb (co_admits c g (bu_SubtreeID b)) then st
  else if isOwnBundle c g b then (ingress c (length raw) nmembers tr, members, seqs)
  else if co_BundleCapable c && co_BundleSink c then (attempt (FBundle c raw b) tr, members, seqs)
  else
    let '(ms, seqs) := match members with Some ms => (ms, seqs) | None => decoalesce b seqs end in
    (fold_left (fun tr m => attempt (FSend c m.1 m.2) tr) ms tr, Some ms, seqs).

Definition SendBundle (raw : bytes) (b : Bundle) (nmembers : nat) (s : Sink) : Trace * Sink :=
  let g := bu_GroupIdx b in
  let '(tr, _, seqs) := fold_left (deliver_bundle g raw b nmembers) (offered_to s g) (([], None), None, s_egressSeq s) in
  (tr, mkSink (s_engine s) (s_beefEngine s) (s_consumers s) (s_byShard s) (s_allShards s) seqs).

(** *** BEEF objects *)

(** The topic a consumer receives the object under: [None] when it elected none
    of the deliverable ones. *)
Definition matched_topic (c : Consumer) (bf : BEEFFrame) : option bytes :=
  if co_AllTopics c then Some (be_TopicID bf)
  else List.find (fun id => bool_decide (id ∈ co_TopicSet c)) (BEEFDeliverableTopicIDs bf).

Definition version_ok (c : Consumer) (bf : BEEFFrame) : bool :=
  bool_decide (co_BEEFVersions c = ∅) ||
  let object := match SplitBEEFPayload (be_Payload bf) with Some o => o | None => be_Payload bf end in
  match BEEFVersionWord object with
  | Some w => bool_decide (w ∈ co_BEEFVersions c)
  | None => false
  end.

Definition with_topic (id : bytes) (bf : BEEFFrame) : BEEFFrame :=
  mkBEEFFrame (be_ContentID bf) id (be_HashKey bf) (be_SeqNum bf) (be_DeliverCount bf) (be_Payload bf).

Definition filtered (c : Consumer) (reason : string) (wire : nat) (tr : Trace) : Trace :=
  if co_BEEFObs c then note (FBeefFiltered c reason wire) tr else tr.

Definition deliver_beef (g : Z) (raw : bytes) (bf : BEEFFrame) (tr : Trace) (c : Consumer) : Trace :=
  match matched_topic c bf with
  | None => filtered c FilterTopic (length raw) tr
  | Some id =>
      if negb (version_ok c bf) then filtered c FilterVersion (length raw) tr
      else if isOwnBeef c g bf then ingress c (length raw) 1 tr
      else attempt (FBeef c raw (with_topic id bf)) tr
  end.

Definition SendBeef (raw : bytes) (bf : BEEFFrame) (s : Sink) : list FEvent * option SinkError :=
  match s_beefEngine s with
  | None => ([], Some ErrBEEFEngineUnset)
  | Some groupIndex =>
      let g := groupIndex (be_TopicID bf) in
      let '(evs, err) := fold_left (deliver_beef g raw bf) (offered_to s g) ([], None) in
      (evs, SinkErr <$> err)
  end.

(** *** Control frames *)

Definition broadcast (ev : Consumer -> FEvent) (s : Sink) : Trace :=
  fold_left (fun tr c => attempt (ev c) tr) (s_consumers s) ([], None).

Definition SendBlock (raw : bytes) (bf : BlockFrame) (s : Sink) : Trace := broadcast (fun c => FBlock c raw bf) s.

Definition SendSubtreeData (raw : bytes) (sf : SubtreeDataFrame) (s : Sink) : Trace :=
  broadcast (fun c => FSubtree c raw sf) s.

Definition SendRaw (buf : bytes) (s : Sink) : Trace := broadcast (fun c => FRaw c buf) s.

(** One consumer of [SendHeaderN]: the count goes up on a delivery only. *)
Definition header_one (raw : bytes) (hf : Frame) (st : Trace * nat) (c : Consumer) : Trace * nat :=
  let '(tr, n) := st in
  if negb (co_HeaderSink c) then st
  else
    let ev := FHeader c raw hf in
    (attempt ev tr, match answer (length tr.1) ev with Delivered => S n | _ => n end).

Definition SendHeaderN (raw : bytes) (hf : Frame) (s : Sink) : Trace * nat :=
  fold_left (header_one raw hf) (s_consumers s) (([], None), 0%nat).

(** [Close] has no election: any answer but success is an error. *)
Definition close_one (st : list FEvent * option SinkResult) (c : Consumer) : list FEvent * option SinkResult :=
  let '(evs, err) := st in
  (evs ++ [FClose c],
   match answer (length evs) (FClose c), err with
   | Delivered, _ => err
   | r, None => Some r
   | _, Some _ => err
   end).

Definition Close (s : Sink) : list FEvent * option SinkResult :=
  fold_left close_one (s_consumers s) ([], None).

End Fanout.
