(* ===== verification/FanoutProps.v ===== *)
(** * The fan-out sink: theorems

    The reverse index against the consumer table, and who is handed what. *)

From S2P Require Import Prelude Discovery Tracker TrackerRepair Dedup SubtreeGroup Filter Reassembly ReassemblyProps ReassemblyRepair RetryTee Listener ListenerInv ListenerEgress ListenerExample ListenerBundle Fanout.

(** ** The reverse index *)

(** Consumer [c] gets frames of group [g]. *)
Definition subscribed (g : Z) (c : Consumer) : bool :=
  bool_decide (co_Shards c = []) || bool_decide (g ∈ co_Shards c).

(** The order in which the index offers: shard subscribers, then the rest. *)
Definition subscribers (g : Z) (cs : list Consumer) : list Consumer :=
  List.filter (fun c => bool_decide (g ∈ co_Shards c)) cs ++ List.filter (fun c => bool_decide (co_Shards c = [])) cs.

Lemma index_shards c shards m g :
  NoDup shards ->
  default [] (fold_left (index_one c) shards m !! g) =
  default [] (m !! g) ++ (if bool_decide (g ∈ shards) then [c] else []).
Proof.
  revert m. induction shards as [|sh shards IH]; intros m Hnd; [cbn; by rewrite app_nil_r|].
  apply NoDup_cons in Hnd as [Hnot Hnd]. cbn [fold_left]. rewrite (IH _ Hnd). unfold index_one.
  destruct (decide (g = sh)) as [->|Hne].
  - rewrite lookup_insert_eq. cbn. rewrite (bool_decide_false (sh ∈ shards)), app_nil_r by done.
    by rewrite bool_decide_true by left.
  - rewrite lookup_insert_ne by done. f_equal.
    rewrite (bool_decide_ext (g ∈ sh :: shards) (g ∈ shards)); [done|]. rewrite elem_of_cons. tauto.
Qed.

Lemma apply_index cs g acc :
  Forall (fun c => NoDup (co_Shards c)) cs ->
  let '(m, all) := fold_left apply_one cs acc in
  default [] (m !! g) = default [] (acc.1 !! g) ++ List.filter (fun c => bool_decide (g ∈ co_Shards c)) cs /\
  all = acc.2 ++ List.filter (fun c => bool_decide (co_Shards c = [])) cs.
Proof.
  revert acc. induction cs as [|c cs IH]; intros [m all] Hnd; [cbn; by rewrite !app_nil_r|].
  apply Forall_cons in Hnd as [Hc Hnd]. cbn [fold_left]. specialize (IH (apply_one (m, all) c) Hnd).
  destruct (fold_left apply_one cs _) as [m' all']. destruct IH as [-> ->]. unfold apply_one.
  destruct (co_Shards c) as [|sh shards] eqn:Es; cbn [List.filter fst snd]; rewrite Es.
  - rewrite (bool_decide_false (g ∈ [])) by apply not_elem_of_nil. rewrite bool_decide_true by done.
    by rewrite <- app_assoc.
  - rewrite (bool_decide_false (sh :: shards = [])) by done. rewrite index_shards by done.
    destruct (bool_decide (g ∈ sh :: shards)); by rewrite <- ?app_assoc, ?app_nil_r.
Qed.

Lemma offered_subscribers cs s g :
  Forall (fun c => NoDup (co_Shards c)) cs -> offered_to (Apply cs s) g = subscribers g cs.
Proof.
  intros Hnd. unfold offered_to, Apply. pose proof (apply_index cs g (∅, []) Hnd) as Hi.
  destruct (fold_left apply_one cs (∅, [])) as [m all]. cbn [fst] in Hi. rewrite lookup_empty in Hi.
  cbn [default app s_byShard s_allShards] in *. by destruct Hi as [-> ->].
Qed.

(** The index offers to exactly the subscribed consumers, each as often as the
    table has it. *)
Lemma subscribers_perm g cs : subscribers g cs ≡ₚ List.filter (subscribed g) cs.
Proof.
  unfold subscribers. induction cs as [|c cs IH]; [done|]. cbn [List.filter]. unfold subscribed at 1.
  destruct (co_Shards c) as [|sh shards] eqn:Es.
  - rewrite (bool_decide_false (g ∈ [])) by apply not_elem_of_nil. cbn. rewrite <- Permutation_middle. by f_equiv.
  - rewrite (bool_decide_false (sh :: shards = [])) by done. cbn [orb].
    destruct (bool_decide (g ∈ sh :: shards)); [cbn; by f_equiv|done].
Qed.

Section Props.
Context `{FrameLib} `{WireLib}.
Context (answer : nat -> FEvent -> SinkResult) (clock : Consumer -> bytes -> Z) (Hash : bytes -> Z -> bytes -> Z).

(** ** Traces *)

(** Events that hand something to a consumer's sink. *)
Definition is_delivery (ev : FEvent) : bool :=
  match ev with FIngress _ _ _ | FBeefFiltered _ _ _ => false | _ => true end.

Definition deliveries (evs : list FEvent) : list FEvent := List.filter is_delivery evs.

(** The first real error the sinks answer with, from event [n] on. *)
Fixpoint first_error (n : nat) (evs : list FEvent) : option Z :=
  match evs with
  | [] => None
  | ev :: evs =>
      if is_delivery ev then
        match answer n ev with Failed e => Some e | _ => first_error (S n) evs end
      else first_error (S n) evs
  end.

Lemma first_error_snoc n evs ev :
  first_error n (evs ++ [ev]) =
  match first_error n evs with
  | Some e => Some e
  | None => if is_delivery ev then match answer (n + length evs) ev with Failed e => Some e | _ => None end else None
  end.
Proof.
  revert n. induction evs as [|x evs IH]; intros n; cbn [app first_error length]; [by rewrite Nat.add_0_r|].
  rewrite <- Nat.add_succ_comm. destruct (is_delivery x); [destruct (answer n x)|]; try done; apply IH.
Qed.

(** A trace whose error is the first real one. *)
Definition honest (tr : Trace) : Prop := tr.2 = first_error 0 tr.1.

Lemma honest_attempt ev tr : is_delivery ev = true -> honest tr -> honest (attempt answer ev tr).
Proof.
  unfold honest, attempt. intros Hd Ht. cbn. rewrite first_error_snoc, Hd, <- Ht. cbn.
  destruct (answer (length tr.1) ev), tr.2; done.
Qed.

Lemma honest_note ev tr : is_delivery ev = false -> honest tr -> honest (note ev tr).
Proof. unfold honest, note. intros Hd Ht. cbn. rewrite first_error_snoc, Hd, <- Ht. by destruct tr.2. Qed.

Lemma deliveries_snoc evs ev : deliveries (evs ++ [ev]) = deliveries evs ++ (if is_delivery ev then [ev] else []).
Proof. unfold deliveries. rewrite List.filter_app. cbn. by destruct (is_delivery ev). Qed.

(** A pass over consumers that hands [out c] to consumer [c]. *)
Definition passes (step : Trace -> Consumer -> Trace) (out : Consumer -> list FEvent) : Prop :=
  forall tr c, honest tr -> honest (step tr c) /\ deliveries (step tr c).1 = deliveries tr.1 ++ out c.

Lemma passes_fold step out cs tr :
  passes step out -> honest tr ->
  honest (fold_left step cs tr) /\ deliveries (fold_left step cs tr).1 = deliveries tr.1 ++ flat_map out cs.
Proof.
  intros Hp. revert tr. induction cs as [|c cs IH]; intros tr Ht; [cbn; by rewrite app_nil_r|]. cbn [fold_left flat_map].
  destruct (Hp tr c Ht) as [Hh Hd]. destruct (IH _ Hh) as [Hh' Hd']. split; [done|]. by rewrite Hd', Hd, app_assoc.
Qed.

Lemma attempt_passes ev tr :
  is_delivery ev = true -> honest tr ->
  honest (attempt answer ev tr) /\ deliveries (attempt answer ev tr).1 = deliveries tr.1 ++ [ev].
Proof. intros Hd Ht. split; [by apply honest_attempt|]. cbn. by rewrite deliveries_snoc, Hd. Qed.

Lemma note_passes (b : bool) ev tr :
  is_delivery ev = false -> honest tr ->
  honest (if b then note ev tr else tr) /\ deliveries (if b then note ev tr else tr).1 = deliveries tr.1 ++ [].
Proof.
  intros Hd Ht. destruct b; [|by rewrite app_nil_r]. split; [by apply honest_note|]. cbn. by rewrite deliveries_snoc, Hd.
Qed.

(** A trace that is honest and delivers exactly [evs]. *)
Definition hands (tr : Trace) (evs : list FEvent) : Prop := honest tr /\ deliveries tr.1 = evs.

Lemma hands_fold step out cs : passes step out -> hands (fold_left step cs ([], None)) (flat_map out cs).
Proof. intros Hp. by apply (passes_fold step out cs ([], None)). Qed.

Lemma flat_map_if {A B} (p : A -> bool) (f : A -> B) l :
  flat_map (fun x => if p x then [f x] else []) l = f <$> List.filter p l.
Proof. induction l as [|x l IH]; [done|]. cbn. rewrite IH. by destruct (p x). Qed.

(** ** Transactions *)

(** Consumer [c] is to get the frame: its filter admits it and it is not its own. *)
Definition takes_tx (g : Z) (f : Frame) (c : Consumer) : bool :=
  co_admits clock c g (f_SubtreeID f) && negb (isOwnTraffic Hash c g f).

Lemma deliver_tx_passes g raw f :
  passes (deliver_tx answer clock Hash g raw f) (fun c => if takes_tx g f c then [FSend c raw f] else []).
Proof.
  intros tr c Ht. unfold deliver_tx, takes_tx, ingress. destruct (co_admits clock c g (f_SubtreeID f)); cbn [negb andb].
  - destruct (isOwnTraffic Hash c g f); cbn [negb]; [by apply note_passes|by apply attempt_passes].
  - by rewrite app_nil_r.
Qed.

(** ** BEEF objects *)

(** Consumer [c] gets the object under topic [id]: the object's own topic for an
    aggregator, and otherwise the first deliverable topic it elected. *)
Definition elected_as (c : Consumer) (bf : BEEFFrame) (id : bytes) : Prop :=
  if co_AllTopics c then id = be_TopicID bf
  else exists before after, BEEFDeliverableTopicIDs bf = before ++ id :: after /\
    id ∈ co_TopicSet c /\ Forall (fun x => x ∉ co_TopicSet c) before.

Lemma find_first {A} (P : A -> Prop) `{forall x, Decision (P x)} l x :
  List.find (fun y => bool_decide (P y)) l = Some x <->
  exists before after, l = before ++ x :: after /\ P x /\ Forall (fun y => ~ P y) before.
Proof.
  induction l as [|y l IH]; cbn [List.find].
  { split; [done|]. intros (b & a & E & _). by destruct b. }
  case_bool_decide as Hy.
  - split; [intros [= <-]; by exists [], l|]. intros (b & a & E & Hx & Hb). destruct b as [|z b]; [by injection E as -> _|].
    injection E as -> _. apply Forall_cons in Hb. tauto.
  - rewrite IH. split.
    + intros (b & a & -> & Hx & Hb). exists (y :: b), a. split_and!; [done|done|by constructor].
    + intros (b & a & E & Hx & Hb). destruct b as [|z b]; injection E as -> E; [done|]. apply Forall_cons in Hb as [_ Hb].
      by exists b, a.
Qed.

Lemma matched_elected c bf id : matched_topic c bf = Some id <-> elected_as c bf id.
Proof.
  unfold matched_topic, elected_as. destruct (co_AllTopics c); [|apply (find_first (fun x => x ∈ co_TopicSet c))].
  split; [by intros [= <-]|by intros ->].
Qed.

(** What consumer [c] is handed of an object on group [g]. *)
Definition beef_to (g : Z) (raw : bytes) (bf : BEEFFrame) (c : Consumer) : list FEvent :=
  match matched_topic c bf with
  | Some id => if version_ok c bf && negb (isOwnBeef Hash c g bf) then [FBeef c raw (with_topic id bf)] else []
  | None => []
  end.

Lemma deliver_beef_passes g raw bf : passes (deliver_beef answer Hash g raw bf) (beef_to g raw bf).
Proof.
  intros tr c Ht. unfold deliver_beef, beef_to, filtered, ingress.
  destruct (matched_topic c bf) as [id|]; [|by apply note_passes].
  destruct (version_ok c bf); cbn [negb andb]; [|by apply note_passes].
  destruct (isOwnBeef Hash c g bf); cbn [negb]; [by apply note_passes|by apply attempt_passes].
Qed.

Lemma beef_to_spec g raw bf c ev :
  ev ∈ beef_to g raw bf c <->
  exists id, ev = FBeef c raw (with_topic id bf) /\ elected_as c bf id /\
    version_ok c bf = true /\ isOwnBeef Hash c g bf = false.
Proof.
  unfold beef_to. destruct (matched_topic c bf) as [id|] eqn:Em.
  - apply matched_elected in Em as He. destruct (version_ok c bf), (isOwnBeef Hash c g bf); cbn [negb andb];
      rewrite ?list_elem_of_singleton, ?elem_of_nil; split; try done; try (intros (? & _ & _ & ? & ?); done).
    + intros ->. by exists id.
    + intros (id' & -> & He' & _). apply matched_elected in He'. congruence.
  - rewrite elem_of_nil. split; [done|]. intros (id & _ & He & _). apply matched_elected in He. congruence.
Qed.

(** The consumer an event concerns. *)
Definition consumer_of (ev : FEvent) : Consumer :=
  match ev with
  | FSend c _ _ | FBundle c _ _ | FBeef c _ _ | FBlock c _ _ | FSubtree c _ _ | FHeader c _ _ | FRaw c _ | FClose c
  | FIngress c _ _ | FBeefFiltered c _ _ => c
  end.

Lemma beef_once g raw bf cs : (consumer_of <$> flat_map (beef_to g raw bf) cs) `sublist_of` cs.
Proof.
  induction cs as [|c cs IH]; [done|]. cbn [flat_map]. rewrite fmap_app. unfold beef_to at 1.
  destruct (matched_topic c bf); [destruct (_ && _)|]; cbn; by constructor.
Qed.

(** ** Bundles *)

(** The members as they go out, numbered from [start + 1] on; a member that does
    not encode is left out but uses its number. *)
Fixpoint encoded (start : Z) (l : list Frame) : list (bytes * Frame) :=
  match l with
  | [] => []
  | mf :: l =>
      let mf := restamp (u64 (start + 1)) mf in
      match EncodeFrame mf (zeros (HeaderSize + length (f_Payload mf))) with
      | Some (len, buf) => [(take len buf, mf)]
      | None => []
      end ++ encoded (start + 1) l
  end.

Lemma encoded_cong s s' l : u64 s = u64 s' -> encoded s l = encoded s' l.
Proof.
  revert s s'. induction l as [|mf l IH]; intros s s' Hs; [done|]. cbn [encoded].
  assert (u64 (s + 1) = u64 (s' + 1)) as E by (by rewrite <- u64_succ, Hs, u64_succ).
  by rewrite E, (IH (s + 1) (s' + 1)).
Qed.

Lemma decoalesce_fold b l out seqs :
  fold_left (decoalesce_one (bu_HashKey b)) l (out, seqs) =
  (out ++ encoded (default 0 (seqs !! bu_HashKey b)) l, advanced b (length l) seqs).
Proof.
  revert out seqs. induction l as [|mf l IH]; intros out seqs; [cbn; by rewrite app_nil_r|].
  cbn [fold_left encoded length]. rewrite <- advanced_advanced. unfold decoalesce_one at 2.
  change (<[_ := _]> seqs) with (advanced b 1 seqs).
  assert (encoded (default 0 (advanced b 1 seqs !! bu_HashKey b)) l =
          encoded (default 0 (seqs !! bu_HashKey b) + 1) l) as E.
  { apply encoded_cong. unfold advanced. cbn [Nat.eqb]. rewrite lookup_insert_eq. cbn [from_option id].
    unfold u64. by rewrite Zmod_mod. }
  destruct (EncodeFrame _ _) as [[len buf]|]; rewrite IH, E; by rewrite <- ?app_assoc.
Qed.

Definition takes_bundle (g : Z) (b : Bundle) (c : Consumer) : bool :=
  co_admits clock c g (bu_SubtreeID b) && negb (isOwnBundle Hash c g b).

Definition takes_whole (c : Consumer) : bool := co_BundleCapable c && co_BundleSink c.

(** What consumer [c] is handed of a bundle whose members encode to [ms]. *)
Definition bundle_to (raw : bytes) (b : Bundle) (ms : list (bytes * Frame)) (c : Consumer) : list FEvent :=
  if negb (takes_bundle (bu_GroupIdx b) b c) then []
  else if takes_whole c then [FBundle c raw b]
  else (fun m => FSend c m.1 m.2) <$> ms.

(** A consumer that makes the sink split the bundle. *)
Definition splits (b : Bundle) (c : Consumer) : bool := takes_bundle (bu_GroupIdx b) b c && negb (takes_whole c).

Lemma attempts_hand (f : bytes * Frame -> FEvent) ms tr :
  (forall m, is_delivery (f m) = true) -> honest tr ->
  let tr' := fold_left (fun tr m => attempt answer (f m) tr) ms tr in
  honest tr' /\ deliveries tr'.1 = deliveries tr.1 ++ (f <$> ms).
Proof.
  intros Hf. revert tr. induction ms as [|m ms IH]; intros tr Ht; [cbn; by rewrite app_nil_r|]. cbn [fold_left].
  destruct (attempt_passes (f m) tr (Hf m) Ht) as [Hh Hd]. destruct (IH _ Hh) as [Hh' Hd']. split; [done|].
  by rewrite Hd', Hd, <- app_assoc.
Qed.

(** The members and the counters of a pass: split or not yet. *)
Definition split_state (b : Bundle) (seqs : gmap Z Z) (done : bool) : option (list (bytes * Frame)) * gmap Z Z :=
  if done then (Some (decoalesce b seqs).1, (decoalesce b seqs).2) else (None, seqs).

Lemma deliver_bundle_step raw b n seqs tr done c :
  honest tr ->
  let st := split_state b seqs done in
  let '(tr', ms', seqs') := deliver_bundle answer clock Hash (bu_GroupIdx b) raw b n (tr, st.1, st.2) c in
  honest tr' /\ deliveries tr'.1 = deliveries tr.1 ++ bundle_to raw b (decoalesce b seqs).1 c /\
  (ms', seqs') = split_state b seqs (done || splits b c).
Proof.
  intros Ht st. unfold deliver_bundle, bundle_to, splits, takes_bundle.
  fold (takes_whole c). destruct (co_admits clock c _ _); cbn [negb andb]; [|by rewrite app_nil_r, orb_false_r; destruct done].
  destruct (isOwnBundle Hash c _ b); cbn [negb andb].
  { unfold ingress. rewrite orb_false_r. destruct (note_passes (co_IngressObs c) (FIngress c (length raw) n) tr) as [Hh Hd];
      [done|done|]. split_and!; [done|done|by destruct done]. }
  destruct (takes_whole c); cbn [negb andb].
  { rewrite orb_false_r. destruct (attempt_passes (FBundle c raw b) tr) as [Hh Hd]; [done|done|]. by destruct done. }
  rewrite orb_true_r. unfold st. destruct (decoalesce b seqs) as [ms q] eqn:Ed.
  destruct (attempts_hand (fun m => FSend c m.1 m.2) ms tr) as [Hh Hd]; [done|done|].
  unfold split_state. rewrite Ed. destruct done; cbn [fst snd]; rewrite ?Ed; done.
Qed.

Lemma deliver_bundle_fold raw b n seqs cs tr done :
  honest tr ->
  let st := split_state b seqs done in
  let '(tr', ms', seqs') := fold_left (deliver_bundle answer clock Hash (bu_GroupIdx b) raw b n) cs (tr, st.1, st.2) in
  honest tr' /\ deliveries tr'.1 = deliveries tr.1 ++ flat_map (bundle_to raw b (decoalesce b seqs).1) cs /\
  seqs' = (split_state b seqs (done || existsb (splits b) cs)).2.
Proof.
  revert tr done. induction cs as [|c cs IH]; intros tr done Ht; [cbn; by rewrite app_nil_r, orb_false_r|].
  cbn [fold_left]. pose proof (deliver_bundle_step raw b n seqs tr done c Ht) as Hs. cbv zeta in Hs |- *.
  destruct (deliver_bundle _ _ _ _ _ _ _ _ _) as [[tr' ms'] seqs']. destruct Hs as (Hh & Hd & E).
  specialize (IH tr' (done || splits b c) Hh). cbv zeta in IH. rewrite <- E in IH. cbn [fst snd] in IH.
  destruct (fold_left _ cs _) as [[tr2 ms2] seqs2]. destruct IH as (Hh2 & Hd2 & E2). split_and!; [done| |].
  - rewrite Hd2, Hd. cbn [flat_map]. by rewrite <- app_assoc.
  - rewrite E2. cbn [existsb]. by rewrite orb_assoc.
Qed.

(** ** Control frames *)

Lemma broadcast_hands (ev : Consumer -> FEvent) (cs : list Consumer) :
  (forall c, is_delivery (ev c) = true) ->
  hands (fold_left (fun tr c => attempt answer (ev c) tr) cs ([], None)) (ev <$> cs).
Proof.
  intros Hev. replace (ev <$> cs) with (flat_map (fun c => [ev c]) cs); [|induction cs; cbn; by f_equal].
  apply hands_fold. intros tr c Ht. by apply attempt_passes.
Qed.

(** Events of a trace that the sinks answered with a delivery. *)
Fixpoint delivered (n : nat) (evs : list FEvent) : nat :=
  match evs with
  | [] => 0
  | ev :: evs => (match answer n ev with Delivered => 1 | _ => 0 end) + delivered (S n) evs
  end.

Lemma delivered_snoc n evs ev :
  delivered n (evs ++ [ev]) =
  (delivered n evs + match answer (n + length evs) ev with Delivered => 1 | _ => 0 end)%nat.
Proof.
  revert n. induction evs as [|x evs IH]; intros n; cbn [app delivered length]; [by rewrite !Nat.add_0_r|].
  rewrite IH, <- Nat.add_succ_comm. lia.
Qed.

Lemma header_fold raw hf cs tr n :
  honest tr -> deliveries tr.1 = tr.1 -> n = delivered 0 tr.1 ->
  let '(tr', n') := fold_left (header_one answer raw hf) cs (tr, n) in
  hands tr' (deliveries tr.1 ++ ((fun c => FHeader c raw hf) <$> List.filter co_HeaderSink cs)) /\ n' = delivered 0 tr'.1.
Proof.
  revert tr n. induction cs as [|c cs IH]; intros tr n Ht Ha Hn; [cbn; by rewrite app_nil_r|].
  cbn [fold_left List.filter]. unfold header_one at 2. destruct (co_HeaderSink c); cbn [negb]; [|by apply IH].
  destruct (attempt_passes (FHeader c raw hf) tr) as [Hh Hd]; [done|done|].
  match goal with |- context [fold_left _ cs (?tr1, ?n1)] => specialize (IH tr1 n1 Hh) end.
  destruct (fold_left _ cs _) as [tr' n']. rewrite Hd in IH. cbn [fmap list_fmap].
  rewrite cons_middle, app_assoc. apply IH.
  - cbn. by rewrite Ha.
  - cbn [attempt fst]. rewrite delivered_snoc, <- Hn. cbn. destruct (answer _ _); lia.
Qed.

(** ** The theorems *)

(** C14: A transaction frame sent after the table was applied (with no shard
    listed twice by one consumer) is handed, once each, to exactly the consumers
    that are subscribed to its shard or to all shards, whose subtree filter
    admits it and whose own traffic it is not; a failing consumer does not stop
    the others, and the result is the first real error in the order of the
    sends. *)
Theorem fanout_send cs s raw f :
  Forall (fun c => NoDup (co_Shards c)) cs ->
  let g := en_GroupIndex (s_engine s) (f_TxID f) in
  let tr := Send answer clock Hash raw f (Apply cs s) in
  deliveries tr.1 = (fun c => FSend c raw f) <$> List.filter (takes_tx g f) (subscribers g cs) /\
  subscribers g cs ≡ₚ List.filter (subscribed g) cs /\
  tr.2 = first_error 0 tr.1.
Proof.
  intros Hnd g tr.
  assert (hands tr (flat_map (fun c => if takes_tx g f c then [FSend c raw f] else []) (subscribers g cs))) as [Hh Hd].
  { rewrite <- (offered_subscribers cs s g Hnd). unfold tr, Send.
    assert (s_engine (Apply cs s) = s_engine s) as -> by (unfold Apply; by destruct (fold_left _ _ _)).
    apply hands_fold, deliver_tx_passes. }
  split_and!; [by rewrite Hd, flat_map_if|apply subscribers_perm|done].
Qed.

(** C31: A BEEF object: without a plane engine nothing is sent and the error says
    so.  With one, a consumer of the table is handed the object exactly when it is
    subscribed to the group, elected it (an aggregator under the object's own
    topic, any other consumer under the first deliverable topic of its own set,
    and never with an empty set), accepts its encoding and did not submit it; it
    is handed the unchanged datagram, with only the topic of the parsed frame
    replaced, and at most once; and the result is the first real error. *)
Theorem fanout_beef cs s raw bf :
  Forall (fun c => NoDup (co_Shards c)) cs ->
  match s_beefEngine s with
  | None => SendBeef answer Hash raw bf (Apply cs s) = ([], Some ErrBEEFEngineUnset)
  | Some groupIndex =>
      let g := groupIndex (be_TopicID bf) in
      let '(evs, err) := SendBeef answer Hash raw bf (Apply cs s) in
      (forall ev, ev ∈ deliveries evs <->
         exists c id, ev = FBeef c raw (with_topic id bf) /\ c ∈ cs /\ subscribed g c = true /\
           elected_as c bf id /\ version_ok c bf = true /\ isOwnBeef Hash c g bf = false) /\
      (consumer_of <$> deliveries evs) `sublist_of` subscribers g cs /\
      subscribers g cs ≡ₚ List.filter (subscribed g) cs /\
      err = SinkErr <$> first_error 0 evs
  end.
Proof.
  intros Hnd. assert (s_beefEngine (Apply cs s) = s_beefEngine s) as E by (unfold Apply; by destruct (fold_left _ _ _)).
  destruct (s_beefEngine s) as [groupIndex|]; unfold SendBeef; rewrite E; [|done]. cbv zeta.
  set (g := groupIndex (be_TopicID bf)). rewrite (offered_subscribers cs s g Hnd).
  destruct (hands_fold _ _ (subscribers g cs) (deliver_beef_passes g raw bf)) as [Hh Hd].
  destruct (fold_left _ _ _) as [evs err]. cbn [fst] in Hd. rewrite Hd.
  split_and!; [|apply beef_once|apply subscribers_perm|by rewrite Hh].
  intros ev. rewrite list_elem_of_In, in_flat_map. setoid_rewrite <- list_elem_of_In. setoid_rewrite beef_to_spec.
  setoid_rewrite subscribers_perm. setoid_rewrite list_elem_of_In. setoid_rewrite filter_In.
  split.
  - intros (c & [Hc Hs] & id & Hev & He). exists c, id. by destruct He as (He & Hv & Ho).
  - intros (c & id & Hev & Hc & Hs & He). exists c. split; [done|]. by exists id.
Qed.

(** C32: A bundle is handed whole to each subscribed consumer that takes bundles
    and as individual frames to each that does not; consumers that filter it out
    or that sent it get nothing.  The frames are the same for all of them,
    numbered on from the flow's egress counter in member order, and the counter
    advances once, by the number of members, exactly when some consumer needs the
    frames. *)
Theorem fanout_bundle cs s raw b n :
  Forall (fun c => NoDup (co_Shards c)) cs ->
  let g := bu_GroupIdx b in
  let ms := encoded (default 0 (s_egressSeq s !! bu_HashKey b)) (Decoalesce b) in
  let '(tr, s') := SendBundle answer clock Hash raw b n (Apply cs s) in
  deliveries tr.1 = flat_map (bundle_to raw b ms) (subscribers g cs) /\
  subscribers g cs ≡ₚ List.filter (subscribed g) cs /\
  tr.2 = first_error 0 tr.1 /\
  s_egressSeq s' = if existsb (splits b) (subscribers g cs) then advanced b (length (Decoalesce b)) (s_egressSeq s)
                   else s_egressSeq s.
Proof.
  intros Hnd g ms. unfold SendBundle. fold g. rewrite (offered_subscribers cs s g Hnd).
  assert (s_egressSeq (Apply cs s) = s_egressSeq s) as -> by (unfold Apply; by destruct (fold_left _ _ _)).
  pose proof (deliver_bundle_fold raw b n (s_egressSeq s) (subscribers g cs) ([], None) false eq_refl) as Hf.
  cbn [split_state fst snd] in Hf. fold g in Hf. destruct (fold_left _ _ _) as [[tr ms'] seqs'].
  unfold decoalesce in Hf. rewrite decoalesce_fold in Hf. destruct Hf as (Hh & Hd & ->).
  split_and!; [done|apply subscribers_perm|done|]. cbn [s_egressSeq orb]. unfold split_state, decoalesce.
  destruct (existsb _ _); [by rewrite decoalesce_fold|done].
Qed.

(** Control frames ignore shards and filters: blocks, subtree data and raw
    buffers are handed to every consumer of the table in order, headers to every
    consumer whose sink takes headers, with the count of actual deliveries.  A
    consumer that fails does not stop the rest, an election is not an error, and
    the result is the first real error. *)
Theorem fanout_control s raw bf sf hf :
  hands (SendBlock answer raw bf s) ((fun c => FBlock c raw bf) <$> s_consumers s) /\
  hands (SendSubtreeData answer raw sf s) ((fun c => FSubtree c raw sf) <$> s_consumers s) /\
  hands (SendRaw answer raw s) ((fun c => FRaw c raw) <$> s_consumers s) /\
  (let '(tr, n) := SendHeaderN answer raw hf s in
   hands tr ((fun c => FHeader c raw hf) <$> List.filter co_HeaderSink (s_consumers s)) /\ n = delivered 0 tr.1).
Proof.
  split_and!; [by apply broadcast_hands..|].
  pose proof (header_fold raw hf (s_consumers s) ([], None) 0 eq_refl eq_refl eq_refl) as Hf. exact Hf.
Qed.

(** A shard listed twice is indexed twice: the consumer gets each frame twice. *)
Theorem duplicate_shard_sends_twice c s raw f :
  co_Shards c = [en_GroupIndex (s_engine s) (f_TxID f); en_GroupIndex (s_engine s) (f_TxID f)] ->
  takes_tx (en_GroupIndex (s_engine s) (f_TxID f)) f c = true ->
  deliveries (Send answer clock Hash raw f (Apply [c] s)).1 = [FSend c raw f; FSend c raw f].
Proof.
  intros Hs Ht. set (g := en_GroupIndex (s_engine s) (f_TxID f)) in *.
  assert (offered_to (Apply [c] s) g = [c; c]) as Ho.
  { unfold offered_to, Apply, apply_one. cbn [fold_left]. rewrite Hs. cbn [fold_left s_byShard s_allShards].
    unfold index_one. rewrite lookup_insert_eq, lookup_empty. cbn. by rewrite lookup_insert_eq. }
  unfold Send. assert (s_engine (Apply [c] s) = s_engine s) as -> by (unfold Apply; by destruct (fold_left _ _ _)).
  fold g. rewrite Ho. destruct (hands_fold _ _ [c; c] (deliver_tx_passes g raw f)) as [_ ->]. cbn. by rewrite Ht.
Qed.

End Props.

(** ** Witnesses *)

#[local] Existing Instances lib0 wire0.

(** Three consumers: shard 0 with bundles, all shards without, shard 1 only. *)
Definition consumer0 (shards : list Z) (whole : bool) (topics : gset bytes) : Consumer :=
  mkConsumer "c" shards None (zeros 16) whole true whole true topics false ∅ true.

Definition table0 : list Consumer :=
  [consumer0 [] false ∅; consumer0 [0; 2] true {[zeros 32]}; consumer0 [1] true ∅].

Definition sink0 : Sink := SetBEEFEngine (Some (fun _ => 0)) (NewSink (mkEngine (fun _ => 0) 4)).

(** Everybody fails, with its own number. *)
Definition answer0 (n : nat) (_ : FEvent) : SinkResult := Failed (Z.of_nat n).

Lemma table0_shards : Forall (fun c => NoDup (co_Shards c)) table0.
Proof. repeat (constructor; [apply (bool_decide_unpack _); vm_compute; exact I|]). constructor. Qed.

Lemma fanout_send_witness :
  let tr := Send answer0 (fun _ _ => 0) (fun _ _ _ => 0) [2; 1] (tx_of [2; 1]) (Apply table0 sink0) in
  length (deliveries tr.1) = 2%nat /\ tr.2 = Some 0.
Proof.
  pose proof (fanout_send answer0 (fun _ _ => 0) (fun _ _ _ => 0) table0 sink0 [2; 1] (tx_of [2; 1]) table0_shards) as (Hd & _ & He).
  cbv zeta in *. rewrite Hd, He. by vm_compute.
Defined.

Lemma fanout_beef_witness :
  let bf := mkBEEFFrame (zeros 32) (zeros 32) 7 1 1 [] in
  let evs := (SendBeef answer0 (fun _ _ _ => 0) [9] bf (Apply table0 sink0)).1 in
  FBeef (consumer0 [0; 2] true {[zeros 32]}) [9] bf ∈ deliveries evs.
Proof.
  pose proof (fanout_beef answer0 (fun _ _ _ => 0) table0 sink0 [9] (mkBEEFFrame (zeros 32) (zeros 32) 7 1 1 []) table0_shards) as Hw.
  cbv zeta. cbn [s_beefEngine sink0 SetBEEFEngine] in Hw. destruct (SendBeef _ _ _ _ _) as [evs err].
  destruct Hw as (Hw & _). cbn [fst]. apply Hw. exists (consumer0 [0; 2] true {[zeros 32]}), (zeros 32).
  split_and!; [done|by right; left|by vm_compute| |by vm_compute|by vm_compute].
  exists [], []. split_and!; [done| |done]. cbn [co_TopicSet consumer0]. by apply elem_of_singleton.
Defined.

Lemma fanout_bundle_witness :
  let '(tr, s') := SendBundle answer0 (fun _ _ => 0) (fun _ _ _ => 0) [8; 1; 4; 5; 6] [8; 1; 4; 5; 6] 2 (Apply table0 sink0) in
  length (deliveries tr.1) = 3%nat /\ s_egressSeq s' !! 7 = Some 2.
Proof.
  pose proof (fanout_bundle answer0 (fun _ _ => 0) (fun _ _ _ => 0) table0 sink0 [8; 1; 4; 5; 6] [8; 1; 4; 5; 6] 2 table0_shards) as Hw.
  cbv zeta in Hw. destruct (SendBundle _ _ _ _ _ _ _) as [tr s']. destruct Hw as (Hd & _ & _ & Hs).
  rewrite Hd, Hs. by vm_compute.
Defined.
