(* ===== verification/Membership.v ===== *)
(** * Group membership and the manifest applier (listener/listener.go,
    manifest/applier.go, main.go)

    The multicast groups a worker's socket has joined, the periodic comparison of
    adopted manifest views, and the hook that turns a change of the pilot groups
    into joins and leaves on every worker.  What a worker asks the kernel is
    logged; how the kernel answers is a parameter. *)

From stdpp Require Import sorting.
From S2P Require Import Prelude.

(** ** A worker's memberships *)

(** What the worker asks of the kernel, with the answer ([None] is success). *)
Inductive NetCall :=
| NetOpen (fd : Z)
| NetJoin (group : bytes) (sources : list bytes) (res : option Z)
| NetLeave (group : bytes) (sources : list bytes) (res : option Z)
| NetClose (fd : Z).

(** The part of [Worker] that [joinMu] guards; a nil map is [None]. *)
Record Membership := mkMembership {
  joinFd : Z;
  joinedGroups : option (gset bytes);
  m_calls : list NetCall
}.

Inductive JoinError := BeforeRun | JoinFailed (errno : Z).

Definition NewMembership : Membership := mkMembership (-1) None [].

(** [net n] is the kernel's answer to the call that comes [n]-th in the log. *)
Definition Net : Type := nat -> option Z.

Definition is_joined (group : bytes) (m : Membership) : bool :=
  match joinedGroups m with Some gs => bool_decide (group ∈ gs) | None => false end.

(** [netjoin.Join] on the worker's socket. *)
Definition join_call (net : Net) (group : bytes) (sources : list bytes) (m : Membership) : option Z * Membership :=
  let res := net (length (m_calls m)) in
  (res, mkMembership (joinFd m) (joinedGroups m) (m_calls m ++ [NetJoin group sources res])).

(** The group enters the record. *)
Definition note_joined (group : bytes) (m : Membership) : Membership :=
  mkMembership (joinFd m) (Some ({[group]} ∪ default ∅ (joinedGroups m))) (m_calls m).

Definition AddGroup (net : Net) (group : bytes) (sources : list bytes) (m : Membership) : option JoinError * Membership :=
  if joinFd m <? 0 then (Some BeforeRun, m)
  else if is_joined group m then (None, m)
  else
    let '(res, m) := join_call net group sources m in
    match res with Some e => (Some (JoinFailed e), m) | None => (None, note_joined group m) end.

Definition RemoveGroup (net : Net) (group : bytes) (sources : list bytes) (m : Membership) : option JoinError * Membership :=
  if joinFd m <? 0 then (Some BeforeRun, m)
  else if negb (is_joined group m) then (None, m)
  else
    let res := net (length (m_calls m)) in
    (JoinFailed <$> res,
     mkMembership (joinFd m)
       (match res with None => (.∖ {[group]}) <$> joinedGroups m | Some _ => joinedGroups m end)
       (m_calls m ++ [NetLeave group sources res])).

Definition JoinedGroups (m : Membership) : option (list bytes) := elements <$> joinedGroups m.

(** *** The steps of [Run] *)

(** The socket is opened, without the lock. *)
Definition run_socket (fd : Z) (m : Membership) : Membership :=
  mkMembership (joinFd m) (joinedGroups m) (m_calls m ++ [NetOpen fd]).

(** The record is set up, under the lock. *)
Definition run_arm (fd : Z) (m : Membership) : Membership := mkMembership fd (Some ∅) (m_calls m).

(** The socket is closed, without the lock. *)
Definition close_fd (fd : Z) (m : Membership) : Membership :=
  mkMembership (joinFd m) (joinedGroups m) (m_calls m ++ [NetClose fd]).

(** The deferred reset, under the lock. *)
Definition run_reset (m : Membership) : Membership := mkMembership (-1) None (m_calls m).

(** Where a worker is between these steps: what the goroutine of [Run] does next, with
    the groups it still has to join.  [PJoined] comes between the join of a group and its
    note in the record.  The receive loop and the goroutine that closes the socket
    when the context is done leave [PServing] in either order: by [PClosed] the socket is
    closed and the record not yet reset, by [PReset] the other way round. *)
Inductive Phase :=
| PIdle
| POpened (fd : Z)
| PJoining (fd : Z) (groups : list (option bytes))
| PJoined (fd : Z) (group : bytes) (groups : list (option bytes))
| PFailing (fd : Z)
| PServing (fd : Z)
| PClosed
| PReset (fd : Z).

(** The steps, interleaved with calls of [AddGroup] and [RemoveGroup], which hold the
    lock from end to end. *)
Inductive mstep (groupSources : gmap bytes (list bytes)) (groups : list (option bytes)) : relation (Phase * Membership) :=
| m_socket fd m : 0 <= fd -> mstep groupSources groups (PIdle, m) (POpened fd, run_socket fd m)
| m_arm fd m : mstep groupSources groups (POpened fd, m) (PJoining fd groups, run_arm fd m)
| m_bad fd rest m : mstep groupSources groups (PJoining fd (None :: rest), m) (PFailing fd, m)
| m_join fd net ga rest m res m' :
    join_call net ga (default [] (groupSources !! ga)) m = (res, m') ->
    mstep groupSources groups (PJoining fd (Some ga :: rest), m)
      (match res with None => PJoined fd ga rest | Some _ => PFailing fd end, m')
| m_note fd ga rest m : mstep groupSources groups (PJoined fd ga rest, m) (PJoining fd rest, note_joined ga m)
| m_serve fd m : mstep groupSources groups (PJoining fd [], m) (PServing fd, m)
| m_fail_close fd m : mstep groupSources groups (PFailing fd, m) (PClosed, close_fd fd m)
| m_close_first fd m : mstep groupSources groups (PServing fd, m) (PClosed, close_fd fd m)
| m_then_reset m : mstep groupSources groups (PClosed, m) (PIdle, run_reset m)
| m_reset_first fd m : mstep groupSources groups (PServing fd, m) (PReset fd, run_reset m)
| m_then_close fd m : mstep groupSources groups (PReset fd, m) (PIdle, close_fd fd m)
| m_add net g srcs p m : mstep groupSources groups (p, m) (p, snd (AddGroup net g srcs m))
| m_remove net g srcs p m : mstep groupSources groups (p, m) (p, snd (RemoveGroup net g srcs m)).

(** *** [Run] on its own *)

(** One group of the join loop; a group address that does not parse is [None].  A
    failure closes the socket and leaves [Run] by its deferred reset. *)
Definition run_join_one (net : Net) (groupSources : gmap bytes (list bytes)) (grp : option bytes) (m : Membership) :
    bool * Membership :=
  match grp with
  | None => (false, run_reset (close_fd (joinFd m) m))
  | Some ga =>
      let '(res, m) := join_call net ga (default [] (groupSources !! ga)) m in
      match res with Some _ => (false, run_reset (close_fd (joinFd m) m)) | None => (true, note_joined ga m) end
  end.

(** The join loop: the answer is whether the worker goes on to serve. *)
Fixpoint run_joins (net : Net) (groupSources : gmap bytes (list bytes)) (groups : list (option bytes)) (m : Membership) :
    bool * Membership :=
  match groups with
  | [] => (true, m)
  | grp :: groups =>
      let '(ok, m) := run_join_one net groupSources grp m in
      if (ok : bool) then run_joins net groupSources groups m else (false, m)
  end.

(** [Run] until it serves, when nothing interleaves. *)
Definition Run (net : Net) (fd : Z) (groupSources : gmap bytes (list bytes)) (groups : list (option bytes))
    (m : Membership) : bool * Membership :=
  run_joins net groupSources groups (run_arm fd (run_socket fd m)).

(** ** Comparing adopted views *)

(** The differences of two lists through maps, each sorted by [R]. *)
Definition diff {A} `{Countable A} (R : relation A) `{!RelDecision R} (before after : list A) : list A * list A :=
  let mb : gset A := list_to_set before in
  let ma : gset A := list_to_set after in
  (merge_sort R (List.filter (fun v => negb (bool_decide (v ∈ mb))) after),
   merge_sort R (List.filter (fun v => negb (bool_decide (v ∈ ma))) before)).

Definition diffUint16 (before after : list Z) : list Z * list Z := diff Z.le before after.

(** [netip.Addr] without a zone: the bit length and the number the bytes spell. *)
Definition Addr : Type := Z * Z.

(** The order [netip.Addr.Less] decides. *)
Definition addr_le (a b : Addr) : Prop := a.1 < b.1 \/ a.1 = b.1 /\ a.2 <= b.2.

#[export] Instance addr_le_dec : RelDecision addr_le.
Proof. intros a b. apply (_ : Decision (_ \/ _)). Defined.

Definition diffAddrs (before after : list Addr) : list Addr * list Addr := diff addr_le before after.

(** The adopted view of the manifest evaluator, with the fields the applier
    reads; [ad_Domains] gives the ShardBits of a domain. *)
Record Adopted := mkAdopted {
  ad_ShardBits : Z;
  ad_SourceModeSSM : bool;
  ad_PilotsKnown : Z;
  ad_PilotGroups : list Z;
  ad_SourceSet : list Addr;
  ad_Successor : option Z;
  ad_Domains : gmap Z Z;
  ad_QuorumMet : gset string;
  ad_DivergenceFields : list string
}.

Definition Adopted0 : Adopted := mkAdopted 0 false 0 [] [] None ∅ ∅ [].

Record domainChange := mkDomainChange { dc_domain : Z; dc_prev : Z; dc_next : Z }.

Definition domainShardBitsChanges (prev next : gmap Z Z) : list domainChange :=
  flat_map (fun id =>
    let pv := default 0 (prev !! id) in
    let nv := default 0 (next !! id) in
    if pv =? nv then [] else [mkDomainChange id pv nv])
    (Z.of_nat <$> seq 0 15).

Definition reasonForChange (hadPrev : bool) : string := if hadPrev then "quorum-shift" else "bootstrap".

(** What the applier tells the metrics and the hooks. *)
Inductive AEvent :=
| PilotsKnown (n : Z)
| QuorumMetBits (bits : Z)
| Divergence (field : string)
| ReshardState (state : Z)
| ReshardWindow (seconds : Z)
| Adoption (field reason : string)
| OnShardBitsChange (prev next : Z)
| OnSourceModeChange (prev next : bool)
| OnPilotGroupsChange (added removed : list Z)
| OnSourceSetChange (added removed : list Addr)
| OnSuccessorChange (before after : option Z)
| OnDomainShardBitsChange (domain prev next : Z).

(** Which hooks are set. *)
Record Hooks := mkHooks {
  hk_ShardBits : bool;
  hk_SourceMode : bool;
  hk_PilotGroups : bool;
  hk_SourceSet : bool;
  hk_Successor : bool;
  hk_DomainShardBits : bool
}.

Definition fireHooks (h : Hooks) (prev next : Adopted) : list AEvent :=
  (if hk_ShardBits h && negb (ad_ShardBits prev =? ad_ShardBits next) then
     [Adoption "shard_bits" (reasonForChange (negb (ad_ShardBits prev =? 0)));
      OnShardBitsChange (ad_ShardBits prev) (ad_ShardBits next)] else []) ++
  (if hk_SourceMode h && negb (Bool.eqb (ad_SourceModeSSM prev) (ad_SourceModeSSM next)) then
     [Adoption "source_mode" (reasonForChange (0 <? ad_PilotsKnown prev));
      OnSourceModeChange (ad_SourceModeSSM prev) (ad_SourceModeSSM next)] else []) ++
  (if hk_PilotGroups h then
     let '(added, removed) := diffUint16 (ad_PilotGroups prev) (ad_PilotGroups next) in
     if (0 <? length added)%nat || (0 <? length removed)%nat then [OnPilotGroupsChange added removed] else []
   else []) ++
  (if hk_SourceSet h then
     let '(added, removed) := diffAddrs (ad_SourceSet prev) (ad_SourceSet next) in
     if (0 <? length added)%nat || (0 <? length removed)%nat then [OnSourceSetChange added removed] else []
   else []) ++
  (if hk_Successor h && negb (bool_decide (ad_Successor prev = ad_Successor next)) then
     [OnSuccessorChange (ad_Successor prev) (ad_Successor next)] else []) ++
  (if hk_DomainShardBits h then
     flat_map (fun d =>
       [Adoption "domain_shard_bits" (reasonForChange (negb (dc_prev d =? 0)));
        OnDomainShardBitsChange (dc_domain d) (dc_prev d) (dc_next d)])
       (domainShardBitsChanges (ad_Domains prev) (ad_Domains next))
   else []).

(** [transition] is the epoch of a successor view, [now] the clock in seconds. *)
Definition publishMetrics (transition : Z -> Z) (now : Z) (v : Adopted) : list AEvent :=
  let bit (field : string) k := if bool_decide (field ∈ ad_QuorumMet v) then Z.shiftl 1 k else 0 in
  let '(state, window) :=
    match ad_Successor v with
    | None => (0, 0)
    | Some sv =>
        let remaining := transition sv - now in
        (if 0 <? remaining then 1 else 2, remaining)
    end in
  [PilotsKnown (ad_PilotsKnown v);
   QuorumMetBits (Z.lor (Z.lor (bit "shard_bits"%string 0) (bit "source_mode"%string 1)) (bit "successor"%string 2))] ++
  (Divergence <$> ad_DivergenceFields v) ++ [ReshardState state; ReshardWindow window].

(** [Applier.Run] over the views its ticks evaluate. *)
Fixpoint ticks (transition : Z -> Z) (h : Hooks) (prev : Adopted) (views : list (Z * Adopted)) : list (list AEvent) :=
  match views with
  | [] => []
  | (now, next) :: views =>
      (publishMetrics transition now next ++ fireHooks h prev next) :: ticks transition h next views
  end.

(** ** The hook of the process wiring *)

Definition inStaticInclude (static : list Z) (idx : Z) : bool := existsb (fun v => v =? idx) static.

Section AutoJoin.

(** [group_addr] is the engine's group address ([None] when it does not parse);
    every worker has its own kernel answers. *)
Context (group_addr : Z -> option bytes) (net : nat -> Net).

(** One call on every worker; a failure is only logged. *)
Definition each_worker (op : Net -> Membership -> option JoinError * Membership) (workers : list Membership) :
    list Membership :=
  imap (fun i m => snd (op (net i) m)) workers.

Definition auto_add (workers : list Membership) (idx : Z) : list Membership :=
  match group_addr idx with
  | None => workers
  | Some ga => each_worker (fun n => AddGroup n ga []) workers
  end.

Definition auto_remove (static : list Z) (workers : list Membership) (idx : Z) : list Membership :=
  match group_addr idx with
  | None => workers
  | Some ga => if inStaticInclude static idx then workers else each_worker (fun n => RemoveGroup n ga []) workers
  end.

Definition onPilotGroupsChange (autoJoin : bool) (static added removed : list Z) (workers : list Membership) :
    list Membership :=
  if negb autoJoin then workers
  else fold_left (auto_remove static) removed (fold_left auto_add added workers).

(** What the hooks of [run] do with the applier's events: the rest only log. *)
Definition on_hook (autoJoin : bool) (static : list Z) (workers : list Membership) (ev : AEvent) : list Membership :=
  match ev with
  | OnPilotGroupsChange added removed => onPilotGroupsChange autoJoin static added removed workers
  | _ => workers
  end.

(** The hooks [run] sets. *)
Definition run_hooks : Hooks := mkHooks true false true false false true.

(** The applier goroutine over the views of its ticks. *)
Definition auto_config (transition : Z -> Z) (autoJoin : bool) (static : list Z) (views : list (Z * Adopted))
    (workers : list Membership) : list Membership :=
  fold_left (on_hook autoJoin static) (concat (ticks transition run_hooks Adopted0 views)) workers.

End AutoJoin.

(** [buildGroups]: the indices joined at startup, the block group, the subtree
    data group when enabled and the elected object groups. *)
Definition buildGroups (engine_addr : Z -> option bytes) (control_addr : Z -> option bytes)
    (blockBroadcast subtreeData : Z) (shardInclude : list Z) (numGroups : nat) (subtreeDataEnabled : bool)
    (beefJoinIdx : list Z) : list (option bytes) :=
  let indices := match shardInclude with [] => Z.of_nat <$> seq 0 numGroups | _ => shardInclude end in
  (engine_addr <$> indices) ++ [control_addr blockBroadcast] ++
  (if subtreeDataEnabled then [control_addr subtreeData] else []) ++ (engine_addr <$> beefJoinIdx).
