(* ===== verification/MembershipProps.v ===== *)
(** * Group membership and the manifest applier: theorems

    A worker's record of its groups against the kernel's, and the subscription
    that results from a sequence of adopted views. *)

From stdpp Require Import sorting.
From S2P Require Import Prelude Membership.

(** Equality of finite sets, member by member. *)
Ltac by_members := set_unfold; intros; intuition congruence.

(** ** The kernel's view *)

(** The groups the kernel has joined after a list of calls. *)
Definition kernel_step (gs : option (gset bytes)) (call : NetCall) : option (gset bytes) :=
  match call with
  | NetOpen _ => Some ∅
  | NetJoin group _ None => Some ({[group]} ∪ default ∅ gs)
  | NetLeave group _ None => (.∖ {[group]}) <$> gs
  | NetClose _ => None
  | _ => gs
  end.

Definition kernel (calls : list NetCall) : option (gset bytes) := fold_left kernel_step calls None.

(** A kernel that answers as documented: a group is joined once per open socket and
    left only while joined; calls on a closed socket fail. *)
Definition answer_ok (gs : option (gset bytes)) (call : NetCall) : Prop :=
  match call with
  | NetJoin g _ None => exists s, gs = Some s /\ g ∉ s
  | NetLeave g _ None => exists s, gs = Some s /\ g ∈ s
  | _ => True
  end.

Definition answers_ok (calls : list NetCall) : Prop :=
  forall pre call post, calls = pre ++ call :: post -> answer_ok (kernel pre) call.

Lemma kernel_snoc calls call : kernel (calls ++ [call]) = kernel_step (kernel calls) call.
Proof. unfold kernel. by rewrite fold_left_app. Qed.

Lemma answers_last calls call : answers_ok (calls ++ [call]) -> answer_ok (kernel calls) call.
Proof. intros Ha. by apply (Ha calls call []). Qed.

(** A step after which the kernel's answers are as documented. *)
Definition kstep groupSources groups (s s' : Phase * Membership) : Prop :=
  mstep groupSources groups s s' /\ answers_ok (m_calls s'.2).

(** ** The record against the kernel *)

(** What the record and the kernel have in each phase. *)
Definition in_step (s : Phase * Membership) : Prop :=
  let rec := joinedGroups s.2 in
  let ker := kernel (m_calls s.2) in
  match s.1 with
  | PIdle => rec = None /\ ker = None
  | POpened _ => rec = None /\ ker = Some ∅
  | PJoining _ _ | PFailing _ | PServing _ => exists gs, rec = Some gs /\ ker = Some gs
  | PJoined _ ga _ => exists gs, (ga ∉ gs) /\ rec = Some gs /\ ker = Some ({[ga]} ∪ gs)
  | PClosed => exists gs, rec = Some gs /\ ker = None
  | PReset _ => exists gs, rec = None /\ ker = Some gs
  end.

(** The record is set up exactly while the descriptor is. *)
Definition armed (m : Membership) : Prop := joinFd m < 0 <-> joinedGroups m = None.

Definition phase_fd (s : Phase * Membership) : Prop :=
  match s.1 with
  | POpened fd | PReset fd => 0 <= fd
  | PJoining fd _ | PJoined fd _ _ | PFailing fd | PServing fd => 0 <= fd /\ joinFd s.2 = fd
  | _ => True
  end.

Record member_inv (s : Phase * Membership) : Prop := {
  mi_step : in_step s;
  mi_armed : armed s.2;
  mi_fd : phase_fd s
}.

(** What [AddGroup] does: nothing when it is not armed or has the group; otherwise
    the kernel is asked, and the record follows its answer. *)
Lemma AddGroup_cases net g srcs m :
  armed m ->
  (AddGroup net g srcs m).2 = m \/
  exists gs res, joinedGroups m = Some gs /\ (g ∉ gs) /\
    (AddGroup net g srcs m).2 =
      mkMembership (joinFd m) (Some (match res with None => {[g]} ∪ gs | Some _ => gs end)) (m_calls m ++ [NetJoin g srcs res]).
Proof.
  intros Ha. unfold AddGroup, is_joined. destruct (joinFd m <? 0) eqn:Hfd; [by left|].
  destruct (joinedGroups m) as [gs|] eqn:Hg; [case_bool_decide as Hin; [by left|]|].
  - right. exists gs, (net (length (m_calls m))). unfold join_call, note_joined. rewrite Hg. by destruct (net _).
  - apply Ha in Hg. lia.
Qed.

Lemma RemoveGroup_cases net g srcs m :
  (RemoveGroup net g srcs m).2 = m \/
  exists gs res, joinedGroups m = Some gs /\ g ∈ gs /\
    (RemoveGroup net g srcs m).2 =
      mkMembership (joinFd m) (Some (match res with None => gs ∖ {[g]} | Some _ => gs end)) (m_calls m ++ [NetLeave g srcs res]).
Proof.
  unfold RemoveGroup, is_joined. destruct (joinFd m <? 0); [by left|].
  destruct (joinedGroups m) as [gs|] eqn:Hg; [|by left]. case_bool_decide as Hin; cbn [negb]; [|by left].
  right. exists gs, (net (length (m_calls m))). cbn. by destruct (net _).
Qed.

Lemma armed_same m m' : joinFd m' = joinFd m -> (joinedGroups m' = None <-> joinedGroups m = None) -> armed m -> armed m'.
Proof. unfold armed. intros -> ->. done. Qed.

(** A change of the record by the kernel's answer keeps the phase's relation. *)
Lemma AddGroup_inv net g srcs p m :
  member_inv (p, m) -> answers_ok (m_calls (AddGroup net g srcs m).2) -> member_inv (p, (AddGroup net g srcs m).2).
Proof.
  intros [Hs Ha Hf] Hok. cbn [snd] in Ha. destruct (AddGroup_cases net g srcs m Ha) as [->|(gs & res & Hg & Hnot & E)]; [done|].
  rewrite E in *. apply answers_last in Hok.
  split; [|apply (armed_same m); [done|cbn; by rewrite Hg|done]|by destruct p].
  unfold in_step in *; cbn [fst snd joinedGroups m_calls] in *. rewrite kernel_snoc, Hg in *.
  destruct res as [e|]; [destruct p; exact Hs|]. destruct Hok as (ks & Hk & Hnk). cbn [kernel_step].
  destruct p; destruct_and?; try congruence.
  - destruct Hs as (gs' & [= <-] & Hk'). rewrite Hk'. by eexists.
  - destruct Hs as (gs' & Hga & [= <-] & Hk'). rewrite Hk' in *. simplify_eq. exists ({[g]} ∪ gs).
    split; [by_members|]. split; [done|]. cbn. f_equal. by_members.
  - destruct Hs as (gs' & [= <-] & Hk'). rewrite Hk'. by eexists.
  - destruct Hs as (gs' & [= <-] & Hk'). rewrite Hk'. by eexists.
  - destruct Hs as (gs' & [= <-] & Hk'). congruence.
  - destruct Hs as (gs' & ? & Hk'). congruence.
Qed.

Lemma RemoveGroup_inv net g srcs p m :
  member_inv (p, m) -> answers_ok (m_calls (RemoveGroup net g srcs m).2) -> member_inv (p, (RemoveGroup net g srcs m).2).
Proof.
  intros [Hs Ha Hf] Hok. cbn [snd] in Ha. destruct (RemoveGroup_cases net g srcs m) as [->|(gs & res & Hg & Hin & E)]; [done|].
  rewrite E in *. apply answers_last in Hok.
  split; [|apply (armed_same m); [done|cbn; by rewrite Hg|done]|by destruct p].
  unfold in_step in *; cbn [fst snd joinedGroups m_calls] in *. rewrite kernel_snoc, Hg in *.
  destruct res as [e|]; [destruct p; exact Hs|]. destruct Hok as (ks & Hk & Hnk). cbn [kernel_step].
  destruct p; destruct_and?; try congruence.
  - destruct Hs as (gs' & [= <-] & Hk'). rewrite Hk'. by eexists.
  - destruct Hs as (gs' & Hga & [= <-] & Hk'). rewrite Hk' in *. simplify_eq. exists (gs ∖ {[g]}).
    split; [by_members|]. split; [done|]. cbn. f_equal. apply set_eq. intros x. set_unfold. intuition congruence.
  - destruct Hs as (gs' & [= <-] & Hk'). rewrite Hk'. by eexists.
  - destruct Hs as (gs' & [= <-] & Hk'). rewrite Hk'. by eexists.
  - destruct Hs as (gs' & [= <-] & Hk'). congruence.
  - destruct Hs as (gs' & ? & Hk'). congruence.
Qed.

Local Ltac phase_cbn :=
  unfold in_step; cbn [fst snd joinedGroups m_calls run_socket run_arm close_fd run_reset note_joined].

Lemma kstep_inv groupSources groups s s' : kstep groupSources groups s s' -> member_inv s -> member_inv s'.
Proof.
  intros [Hs Hok] Hi. destruct Hs as [fd m Hfd|fd m|fd rest m|fd net ga rest m res m' Hj|fd ga rest m|fd m|fd m|fd m|m|fd m|fd m
    |net g srcs p m|net g srcs p m]; [..|by apply AddGroup_inv|by apply RemoveGroup_inv];
    destruct Hi as [Hstep Ha Hf]; unfold in_step, phase_fd in Hstep, Hf; cbn [fst snd] in *.
  - destruct Hstep as [Hr Hk]. split; [|done|done]. split; [done|]. phase_cbn. by rewrite kernel_snoc, ?Hk.
  - destruct Hstep as [Hr Hk]. split; [by exists ∅| |done]. split; cbn; [lia|done].
  - by split.
  - unfold join_call in Hj. injection Hj as Hres <-. rewrite Hres in Hok. cbn in Hok. apply answers_last in Hok.
    destruct Hstep as (gs & Hr & Hk). destruct res as [e|]; rewrite Hres.
    + split; [|done|done]. exists gs. phase_cbn. by rewrite kernel_snoc, ?Hk.
    + destruct Hok as (ks & Hks & Hnot). split; [|done|done]. exists gs. phase_cbn. rewrite kernel_snoc, Hk. cbn.
      split; [congruence|done].
  - destruct Hstep as (gs & Hnot & Hr & Hk). split; [|split; cbn; [lia|done]|done].
    exists ({[ga]} ∪ gs). phase_cbn. by rewrite Hr.
  - by split.
  - destruct Hstep as (gs & Hr & Hk). split; [|done|done]. exists gs. phase_cbn. by rewrite kernel_snoc, ?Hk.
  - destruct Hstep as (gs & Hr & Hk). split; [|done|done]. exists gs. phase_cbn. by rewrite kernel_snoc, ?Hk.
  - destruct Hstep as (gs & Hr & Hk). split; [done|by split|done].
  - destruct Hstep as (gs & Hr & Hk). split; [by exists gs|by split|by destruct Hf].
  - destruct Hstep as (gs & Hr & Hk). split; [|done|done]. split; [done|]. phase_cbn. by rewrite kernel_snoc, ?Hk.
Qed.

(** C38: The record of joined groups against the kernel.  Through every interleaving of
    the steps of [Run] (the socket opens, the record is set up, each group is joined and
    then noted, a failure or the end closes the socket and resets the record, in either
    order at the end) with [AddGroup] and [RemoveGroup], and for a kernel that answers as documented,
    the two agree except where the code lets them differ: between the join of a
    startup group and its note the kernel has exactly that group more; while only one of
    socket and record is there, before the set-up and around stopping, it is
    the only one.  An add or remove outside the armed time is refused and asks
    nothing.  While the two agree, one that reports success leaves the group joined,
    respectively not joined, and every other group as it was, and one that reports an
    error changes nothing. *)
Theorem membership_sync (groupSources : gmap bytes (list bytes)) (groups : list (option bytes)) (p : Phase) (m : Membership)
    (net : Net) (g : bytes) (srcs : list bytes) :
  rtc (kstep groupSources groups) (PIdle, NewMembership) (p, m) ->
  in_step (p, m) /\ (joinFd m < 0 <-> joinedGroups m = None) /\
  (joinFd m < 0 -> AddGroup net g srcs m = (Some BeforeRun, m) /\ RemoveGroup net g srcs m = (Some BeforeRun, m)) /\
  (forall gs, joinedGroups m = Some gs -> kernel (m_calls m) = Some gs ->
     (let '(err, m') := AddGroup net g srcs m in
      let gs' := match err with None => {[g]} ∪ gs | Some _ => gs end in
      joinedGroups m' = Some gs' /\ kernel (m_calls m') = Some gs') /\
     (let '(err, m') := RemoveGroup net g srcs m in
      let gs' := match err with None => gs ∖ {[g]} | Some _ => gs end in
      joinedGroups m' = Some gs' /\ kernel (m_calls m') = Some gs')).
Proof.
  intros Hr. assert (member_inv (p, m)) as [Hs Ha _].
  { assert (member_inv (PIdle, NewMembership)) as H0 by (split; [by split|by split|done]).
    clear net g srcs. revert H0. generalize (PIdle, NewMembership) Hr. intros s0. induction 1 as [s|s s1 s2 Hs _ IH]; [done|].
    intros H0. eauto using kstep_inv. }
  split; [done|]. split; [done|]. split.
  { intros Hfd. unfold AddGroup, RemoveGroup. by rewrite (proj2 (Z.ltb_lt _ _) Hfd). }
  intros gs Hgs Hk. cbn [snd] in Ha. assert ((joinFd m <? 0) = false) as Hf.
  { apply Z.ltb_ge. destruct (Z_lt_dec (joinFd m) 0) as [Hlt|]; [apply Ha in Hlt; congruence|lia]. }
  unfold AddGroup, RemoveGroup, is_joined. rewrite Hf, Hgs. unfold join_call, note_joined. case_bool_decide as Hg; cbn [negb].
  - split.
    + assert ({[g]} ∪ gs = gs) as -> by by_members. by rewrite Hgs, Hk.
    + destruct (net _); cbn [joinedGroups m_calls fmap option_fmap option_map]; rewrite kernel_snoc, Hk, ?Hgs; done.
  - split.
    + destruct (net _); cbn [joinedGroups m_calls fmap option_fmap option_map]; rewrite kernel_snoc, Hk, ?Hgs; done.
    + assert (gs ∖ {[g]} = gs) as -> by by_members. by rewrite Hgs, Hk.
Qed.

(** Group 1 is joined and noted; in the window of group 2 the kernel is ahead. *)
Lemma membership_sync_witness :
  let m1 := note_joined [1] (join_call (fun _ => None) [1] [] (run_arm 3 (run_socket 3 NewMembership))).2 in
  let m2 := (join_call (fun _ => None) [2] [] m1).2 in
  (joinedGroups m1 = kernel (m_calls m1) /\ kernel (m_calls m1) = Some {[ [1] ]}) /\
  (joinedGroups m2 = Some {[ [1] ]} /\ kernel (m_calls m2) = Some ({[ [2] ]} ∪ {[ [1] ]})).
Proof.
  intros m1 m2.
  assert (Hstep : forall s s', mstep ∅ [Some [1]; Some [2]] s s' -> answers_ok (m_calls s'.2) -> kstep ∅ [Some [1]; Some [2]] s s') by done.
  assert (Hok2 : answers_ok (m_calls m2)).
  { intros pre call post E. destruct pre as [|? [|? [|? [|? ?]]]]; cbn in E; simplify_eq; cbn; [done| |].
    - exists ∅. split; [by vm_compute|set_solver].
    - exists {[ [1] ]}. split; [by vm_compute|]. by intros ?%elem_of_singleton. }
  assert (Hpre : forall calls, calls `prefix_of` m_calls m2 -> answers_ok calls).
  { intros calls [rest E] pre call post ->. apply (Hok2 pre call (post ++ rest)). by rewrite E, <- app_assoc. }
  assert (Hr1 : rtc (kstep ∅ [Some [1]; Some [2]]) (PIdle, NewMembership) (PJoining 3 [Some [2]], m1)).
  { eapply rtc_l; [apply Hstep; [apply (m_socket _ _ 3); lia|apply Hpre; by eexists [_; _]]|].
    eapply rtc_l; [apply Hstep; [apply m_arm|apply Hpre; by eexists [_; _]]|].
    eapply rtc_l; [apply Hstep; [apply (m_join _ _ _ (fun _ => None)); reflexivity|apply Hpre; by eexists [_]]|].
    eapply rtc_l; [apply Hstep; [apply m_note|apply Hpre; by eexists [_]]|]. apply rtc_refl. }
  assert (Hr2 : rtc (kstep ∅ [Some [1]; Some [2]]) (PIdle, NewMembership) (PJoined 3 [2] [], m2)).
  { eapply rtc_r; [exact Hr1|]. apply Hstep; [by apply (m_join _ _ _ (fun _ => None) _ _ _ None)|exact Hok2]. }
  destruct (membership_sync _ _ _ _ (fun _ => None) [1] [] Hr1) as ((gs1 & Hg1 & Hk1) & _).
  destruct (membership_sync _ _ _ _ (fun _ => None) [1] [] Hr2) as ((gs2 & _ & Hg2 & Hk2) & _).
  change (joinedGroups m1 = Some gs1) in Hg1. change (kernel (m_calls m1) = Some gs1) in Hk1.
  change (joinedGroups m2 = Some gs2) in Hg2. change (kernel (m_calls m2) = Some ({[ [2] ]} ∪ gs2)) in Hk2.
  assert (joinedGroups m1 = Some {[ [1] ]} /\ joinedGroups m2 = Some {[ [1] ]}) as [E1 E2] by (split; by vm_compute).
  rewrite Hg1, Hk1, Hg2, Hk2. rewrite E1 in Hg1. rewrite E2 in Hg2. by simplify_eq.
Defined.

(** ** Differences *)

Section Diff.
Context {A} `{Countable A} (R : relation A) `{!RelDecision R, !Transitive R, !Total R}.


End Diff.

#[local] Instance Z_le_total : Total Z.le.
Proof. intros x y. lia. Qed.


(** ** Automatic joins *)







Section AutoJoin.
Context (group_addr : Z -> option bytes) (net : nat -> Net).

(** The worker whose kernel grants every join and leave. *)
Context (i : nat) (Hnet : forall k, net i k = None).








(** ** The effective subscription *)

Context (static : list Z) (base : gset bytes).
Context (Hinj : forall i j a, 0 <= i < 65536 -> 0 <= j < 65536 -> group_addr i = Some a -> group_addr j = Some a -> i = j).
Context (Hstatic : forall idx a, inStaticInclude static idx = true -> group_addr idx = Some a -> a ∈ base).









End AutoJoin.

(** ** Theorems *)



(** Groups with one-byte addresses, control groups with two. *)
Definition addr0 (idx : Z) : option bytes := Some [idx].

Definition control0 (idx : Z) : option bytes := Some [1000; idx].

Definition view0 (groups : list Z) : Z * Adopted := (0, mkAdopted 4 false 2 groups [] None ∅ ∅ []).


(** With no -shard-include every group is joined at startup, but none counts as
    static: a group a pilot claims and then drops is left. *)
Theorem autojoin_leaves_startup_group :
  let groups := buildGroups addr0 control0 0xFFFE 0xFFFB [] 4 false [] in
  let start := snd (Run (fun _ => None) 3 ∅ groups NewMembership) in
  is_joined [0] start = true /\
  is_joined [0] <$> auto_config addr0 (fun _ _ => None) id true [] [view0 [0]; view0 []] [start] = [false].
Proof. by vm_compute. Qed.

(** A change that reaches the hook before a worker runs is refused and not tried
    again: a later tick with the same view does not fire. *)
Theorem autojoin_before_run_is_lost :
  let early := auto_config addr0 (fun _ _ => None) id true [1] [view0 [5]] [NewMembership] in
  let started := (fun m => snd (Run (fun _ => None) 3 ∅ (buildGroups addr0 control0 0xFFFE 0xFFFB [1] 4 false []) m)) <$> early in
  ticks id run_hooks (view0 [5]).2 [view0 [5]] = [publishMetrics id 0 (view0 [5]).2] /\
  is_joined [5] <$> started = [false].
Proof. by vm_compute. Qed.
