(* ===== verification/Egress.v ===== *)
(** * Egress senders (egress/egress.go, egress/multi.go, egress/mcast.go,
    egress/bundle.go)

    A sender forwards frames to one unicast destination over a connected UDP or
    TCP socket, re-opening it on demand; a multi sender copies every frame to
    several of them; the multicast sender derives the destination group from the
    shard index.  Socket calls are events; how the kernel answers them, and the
    object formats a stripped frame is turned into, are parameters. *)

From S2P Require Import Prelude Discovery Tracker TrackerRepair Dedup SubtreeGroup Filter Reassembly ReassemblyRepair RetryTee Listener.

(** ** Data *)

(** Durations are nanoseconds. *)
Definition udpRedialMin : Z := 250 * 1000000.

Definition udpRedialMax : Z := 5 * 1000000000.

(** A connection is [true] when it is not nil; the UDP dial failure is the errno of the
    last one. *)
Record Sender := mkSender {
  se_addr : string;
  se_proto : string;
  se_stripHeader : bool;
  se_tcpConn : bool;
  se_udpConn : bool;
  se_udpErr : option Z;
  se_udpRetryAt : Z;
  se_udpBackoff : Z;
  se_udpDialed : bool
}.

Inductive EgressErr :=
| BadAddr
| UDPDial (errno : Z)
| UDPWrite (errno : Z)
| TCPDial (errno : Z)
| TCPDeadline (errno : Z)
| TCPWrite (errno : Z)
| UnknownProtocol
| StripFailed
| CloseFailed (errno : Z)
| EncodeFailed.

(** Socket calls with their answers ([None] is success). *)
Inductive SockEv :=
| DialUDP (now : Z) (res : option Z)
| WriteUDP (buf : bytes) (res : option Z)
| CloseUDP
| DialTCP (res : option Z)
| DeadlineTCP (res : option Z)
| WriteTCP (buf : bytes) (res : option Z)
| CloseTCP.

(** What the outside answers during one call: the clock and the results of
    resolving and dialing, of setting the deadline, of writing and of closing. *)
Record SockEnv := mkSockEnv {
  sv_now : Z;
  sv_dial : option Z;
  sv_deadline : option Z;
  sv_write : option Z;
  sv_close : option Z
}.

Definition set_udp (conn : bool) (err : option Z) (retryAt backoff : Z) (dialed : bool) (s : Sender) : Sender :=
  mkSender (se_addr s) (se_proto s) (se_stripHeader s) (se_tcpConn s) conn err retryAt backoff dialed.

Definition set_udpConn (conn : bool) (s : Sender) : Sender :=
  set_udp conn (se_udpErr s) (se_udpRetryAt s) (se_udpBackoff s) (se_udpDialed s) s.

Definition set_tcpConn (conn : bool) (s : Sender) : Sender :=
  mkSender (se_addr s) (se_proto s) (se_stripHeader s) conn (se_udpConn s) (se_udpErr s) (se_udpRetryAt s)
    (se_udpBackoff s) (se_udpDialed s).

(** ** The UDP path *)

Definition dialUDP (env : SockEnv) (s : Sender) : option EgressErr * Sender * list SockEv :=
  let now := sv_now env in
  if (0 <? se_udpBackoff s) && (now <? se_udpRetryAt s) then (UDPDial <$> se_udpErr s, s, [])
  else
    match sv_dial env with
    | None => (None, set_udp true None (se_udpRetryAt s) 0 true s, [DialUDP now None])
    | Some e =>
        let backoff := Z.min (Z.max (2 * se_udpBackoff s) udpRedialMin) udpRedialMax in
        (Some (UDPDial e), set_udp (se_udpConn s) (Some e) (now + backoff) backoff (se_udpDialed s) s,
         [DialUDP now (Some e)])
    end.

(** ENETUNREACH, EHOSTUNREACH, ENETDOWN, EADDRNOTAVAIL, EINVAL. *)
Definition isPathError (errno : Z) : bool :=
  (errno =? 101) || (errno =? 113) || (errno =? 100) || (errno =? 99) || (errno =? 22).

(** The write on an open socket. *)
Definition write_udp (env : SockEnv) (buf : bytes) (s : Sender) : option EgressErr * Sender * list SockEv :=
  match sv_write env with
  | None => (None, s, [WriteUDP buf None])
  | Some e =>
      if isPathError e then (Some (UDPWrite e), set_udpConn false s, [WriteUDP buf (Some e); CloseUDP])
      else (Some (UDPWrite e), s, [WriteUDP buf (Some e)])
  end.

Definition sendUDP (env : SockEnv) (buf : bytes) (s : Sender) : option EgressErr * Sender * list SockEv :=
  if se_udpConn s then write_udp env buf s
  else
    let '(err, s, evs) := dialUDP env s in
    match err with
    | Some e => (Some e, s, evs)
    | None => let '(err, s, evs') := write_udp env buf s in (err, s, evs ++ evs')
    end.

(** ** The TCP path *)

(** The write on an open connection: any failure closes it.  [net.Conn.Write] returns
    without an error only when all of [buf] is written; with one, [WriteTCP buf (Some e)],
    the peer may have got a prefix of [buf] before the close. *)
Definition write_tcp (env : SockEnv) (buf : bytes) (s : Sender) : option EgressErr * Sender * list SockEv :=
  match sv_deadline env with
  | Some e => (Some (TCPDeadline e), set_tcpConn false s, [DeadlineTCP (Some e); CloseTCP])
  | None =>
      match sv_write env with
      | Some e => (Some (TCPWrite e), set_tcpConn false s, [DeadlineTCP None; WriteTCP buf (Some e); CloseTCP])
      | None => (None, s, [DeadlineTCP None; WriteTCP buf None])
      end
  end.

Definition sendTCP (env : SockEnv) (buf : bytes) (s : Sender) : option EgressErr * Sender * list SockEv :=
  if se_tcpConn s then write_tcp env buf s
  else
    match sv_dial env with
    | Some e => (Some (TCPDial e), s, [DialTCP (Some e)])
    | None => let '(err, s, evs) := write_tcp env buf (set_tcpConn true s) in (err, s, DialTCP None :: evs)
    end.

(** [SendRaw]; the tail of every other send. *)
Definition SendRaw (env : SockEnv) (buf : bytes) (s : Sender) : option EgressErr * Sender * list SockEv :=
  if String.eqb (se_proto s) "udp" then sendUDP env buf s
  else if String.eqb (se_proto s) "tcp" then sendTCP env buf s
  else (Some UnknownProtocol, s, []).

Definition closeTCP (s : Sender) : Sender * list SockEv :=
  if se_tcpConn s then (set_tcpConn false s, [CloseTCP]) else (s, []).

Definition Close (env : SockEnv) (s : Sender) : option EgressErr * Sender * list SockEv :=
  if se_udpConn s then (CloseFailed <$> sv_close env, set_udpConn false s, [CloseUDP])
  else let '(s, evs) := closeTCP s in (None, s, evs).

(** [New]: [ok] says whether the address splits into host and port. *)
Definition NewSender (env : SockEnv) (addr proto : string) (ok stripHeader : bool) : option Sender * list SockEv :=
  let s := mkSender addr proto stripHeader false false None 0 0 false in
  if String.eqb proto "udp" then
    if negb ok then (None, []) else let '(_, s, evs) := dialUDP env s in (Some s, evs)
  else (Some s, []).

Section Egress.
Context `{FrameLib} `{WireLib}.

(** [objfmt.StripBytes] for blocks and subtrees, [objfmt.EncodeBEEFDelivery]. *)
Context (StripBlock StripSubtree : bytes -> option bytes) (EncodeBEEFDelivery : bytes -> bytes -> bytes).

(** The frame classes a sender takes. *)
Inductive SendOp :=
| OpTx (raw : bytes) (f : Frame)
| OpBlock (raw : bytes) (bf : BlockFrame)
| OpSubtree (raw : bytes) (sf : SubtreeDataFrame)
| OpBeef (raw : bytes) (bf : BEEFFrame)
| OpRaw (buf : bytes).

Definition Send (env : SockEnv) (raw : bytes) (f : Frame) (s : Sender) :=
  SendRaw env (if se_stripHeader s then f_Payload f else raw) s.

Definition SendBlock (env : SockEnv) (raw : bytes) (bf : BlockFrame) (s : Sender) :=
  if se_stripHeader s then
    match StripBlock raw with
    | None => (Some StripFailed, s, [])
    | Some obj => SendRaw env obj s
    end
  else SendRaw env raw s.

Definition SendSubtreeData (env : SockEnv) (raw : bytes) (sf : SubtreeDataFrame) (s : Sender) :=
  if se_stripHeader s then
    match StripSubtree raw with
    | None => (Some StripFailed, s, [])
    | Some obj => SendRaw env obj s
    end
  else SendRaw env raw s.

Definition SendBeef (env : SockEnv) (raw : bytes) (bf : BEEFFrame) (s : Sender) :=
  SendRaw env (if se_stripHeader s then EncodeBEEFDelivery (be_TopicID bf) (be_Payload bf) else raw) s.

Definition send_op (env : SockEnv) (op : SendOp) (s : Sender) : option EgressErr * Sender * list SockEv :=
  match op with
  | OpTx raw f => Send env raw f s
  | OpBlock raw bf => SendBlock env raw bf s
  | OpSubtree raw sf => SendSubtreeData env raw sf s
  | OpBeef raw bf => SendBeef env raw bf s
  | OpRaw buf => SendRaw env buf s
  end.

(** ** Several destinations *)

(** [MultiSender.fanout]: every sender is tried; the errors are joined. *)
Fixpoint multi_fanout (fn : nat -> Sender -> option EgressErr * Sender * list SockEv) (i : nat) (senders : list Sender) :
    list EgressErr * list Sender * list (list SockEv) :=
  match senders with
  | [] => ([], [], [])
  | s :: senders =>
      let '(err, s, evs) := fn i s in
      let '(errs, senders, evss) := multi_fanout fn (S i) senders in
      (option_list err ++ errs, s :: senders, evs :: evss)
  end.

(** One of the multi sender's sends. *)
Definition multi_send (envs : nat -> SockEnv) (op : SendOp) (senders : list Sender) :=
  multi_fanout (fun i s => send_op (envs i) op s) 0 senders.

(** [DeliverBundle] on a sink that takes no bundles: [send] is its [Send]. *)
Definition deliver_members (send : bytes -> Frame -> option EgressErr) (b : Bundle) :
    list (bytes * Frame) * option EgressErr :=
  fold_left (fun '(out, first) mf =>
    match EncodeFrame mf (zeros (HeaderSize + length (f_Payload mf))) with
    | None => (out, match first with None => Some EncodeFailed | e => e end)
    | Some (n, buf) =>
        (out ++ [(take n buf, mf)], match first with None => send (take n buf) mf | e => e end)
    end) (Decoalesce b) ([], None).

End Egress.

(** ** Multicast *)

Record MCastSender := mkMCastSender { addrTemplate : bytes; egressPort : Z }.

(** The template [NewMCast] fills. *)
Definition mcast_template (mcPrefix groupID : Z) : bytes := be_put 2 mcPrefix ++ zeros 10 ++ be_put 2 groupID ++ zeros 2.

Definition NewMCast (mcPrefix groupID port : Z) : MCastSender := mkMCastSender (mcast_template mcPrefix groupID) port.

(** [Send] and [SendToGroup]: the group index goes into the last two bytes of
    the shared template; the datagram is sent to the address that results. *)
Definition mcast_to (groupIdx : Z) (s : MCastSender) : (bytes * Z) * MCastSender :=
  let t := write (addrTemplate s) 14 [Z.land (Z.shiftr groupIdx 8) 255; Z.land groupIdx 255] in
  ((t, egressPort s), mkMCastSender t (egressPort s)).
