(* ===== verification/EgressProps.v ===== *)
(** * Egress senders: theorems

    What a sender puts on the wire, how often it dials an unreachable
    destination, the independence of the destinations of a multi sender, and the
    address a multicast datagram goes to. *)

From S2P Require Import Prelude Discovery Tracker TrackerRepair Dedup SubtreeGroup Filter Reassembly ReassemblyProps ReassemblyRepair RetryTee Listener ListenerExample Egress.

(** ** Events *)

(** The buffers that went out. *)
Definition written (ev : SockEv) : option bytes :=
  match ev with WriteUDP buf None | WriteTCP buf None => Some buf | _ => None end.

(** UDP dial attempts: when, and whether it connected. *)
Definition dialed (ev : SockEv) : option (Z * bool) :=
  match ev with DialUDP now res => Some (now, bool_decide (res = None)) | _ => None end.

(** ** Spacing of dial attempts *)

(** The wait after [k] failures in a row. *)
Definition redial_delay (k : nat) : Z :=
  match k with O => 0 | S k => Z.min (udpRedialMin * 2 ^ Z.of_nat k) udpRedialMax end.

(** Dial attempts that keep the wait: [prev] is the last attempt when it failed,
    with the number of failures in a row. *)
Fixpoint spaced (prev : option (Z * nat)) (dials : list (Z * bool)) : Prop :=
  match dials with
  | [] => True
  | (now, ok) :: dials =>
      match prev with Some (t, k) => t + redial_delay k <= now | None => True end /\
      spaced (if (ok : bool) then None else Some (now, match prev with Some (_, k) => S k | None => 1%nat end)) dials
  end.

(** The failed attempt a list of dials ends with. *)
Definition after_dial (prev : option (Z * nat)) (d : Z * bool) : option (Z * nat) :=
  if d.2 then None else Some (d.1, match prev with Some (_, k) => S k | None => 1%nat end).

Lemma spaced_app prev l l' : spaced prev (l ++ l') <-> spaced prev l /\ spaced (fold_left after_dial l prev) l'.
Proof.
  revert prev. induction l as [|[now ok] l IH]; intros prev; cbn [app spaced fold_left]; [tauto|].
  rewrite IH. unfold after_dial at 2. cbn [fst snd]. tauto.
Qed.

(** The backoff state of a sender says how its dials ended. *)
Definition backs_off (prev : option (Z * nat)) (s : Sender) : Prop :=
  match prev with
  | None => se_udpBackoff s = 0
  | Some (t, k) =>
      (0 < k)%nat /\ se_udpBackoff s = redial_delay k /\ se_udpRetryAt s = t + redial_delay k /\
      is_Some (se_udpErr s) /\ se_udpConn s = false
  end.

Lemma redial_delay_pos k : (0 < k)%nat -> 0 < redial_delay k.
Proof. destruct k as [|k]; [lia|]. intros _. unfold redial_delay, udpRedialMin, udpRedialMax. lia. Qed.

Lemma redial_delay_next k :
  Z.min (Z.max (2 * redial_delay k) udpRedialMin) udpRedialMax = redial_delay (S k).
Proof.
  destruct k as [|k]; [done|]. cbn [redial_delay]. rewrite Nat2Z.inj_succ, Z.pow_succ_r by lia.
  unfold udpRedialMin, udpRedialMax. lia.
Qed.

(** What a step owes the history of dials. *)
Definition dials_kept (prev : option (Z * nat)) (s' : Sender) (evs : list SockEv) : Prop :=
  spaced prev (omap dialed evs) /\ backs_off (fold_left after_dial (omap dialed evs) prev) s'.

Lemma dialUDP_kept env prev s :
  se_udpConn s = false -> backs_off prev s ->
  let '(err, s', evs) := dialUDP env s in
  dials_kept prev s' evs /\ omap written evs = [] /\ (err = None <-> se_udpConn s' = true) /\
  se_proto s' = se_proto s /\ se_stripHeader s' = se_stripHeader s.
Proof.
  intros Hc Hb. unfold dialUDP. destruct (_ && _) eqn:Hw.
  { apply andb_prop in Hw as [Hpos Hlt]. destruct prev as [[t k]|]; [|cbn in Hb; lia].
    destruct Hb as (Hk & Hbo & Hre & [e He] & Hc'). rewrite He, Hc'. split_and!; [|done..].
    split; [done|]. cbn. rewrite He. by split_and!. }
  assert (match prev with Some (t, k) => t + redial_delay k <= sv_now env | None => True end) as Hsp.
  { destruct prev as [[t k]|]; [|done]. destruct Hb as (Hk & Hbo & Hre & _). pose proof (redial_delay_pos k Hk).
    apply andb_false_iff in Hw as [Hw|Hw]; lia. }
  destruct (sv_dial env) as [e|]; cbn [se_udpConn set_udp se_proto se_stripHeader].
  - rewrite Hc. split_and!; [|done..]. split; [by split|]. cbn. destruct prev as [[t k]|]; cbn in Hb.
    + destruct Hb as (Hk & Hbo & _). rewrite Hbo, redial_delay_next. split_and!; [lia|done..].
    + rewrite Hb. split_and!; [lia|done..].
  - split_and!; [|done..]. by split; [split|].
Qed.

(** ** One send *)

(** A send of [buf]: the dials are kept, and the result is success exactly when
    the buffer went out, whole and once, as the only one. *)
Definition sends_buf (prev : option (Z * nat)) (buf : bytes) (s : Sender) (r : option EgressErr * Sender * list SockEv) : Prop :=
  let '(err, s', evs) := r in
  dials_kept prev s' evs /\ omap written evs = match err with None => [buf] | Some _ => [] end /\
  se_proto s' = se_proto s /\ se_stripHeader s' = se_stripHeader s.

(** An open UDP socket means the last dial succeeded. *)
Lemma open_backs_off prev s : se_udpConn s = true -> backs_off prev s -> prev = None /\ se_udpBackoff s = 0.
Proof. intros Hc. destruct prev as [[t k]|]; cbn; [|done]. intros (_ & _ & _ & _ & Hc'). congruence. Qed.

Lemma write_udp_sends env buf s :
  se_udpBackoff s = 0 -> sends_buf None buf s (write_udp env buf s).
Proof.
  intros Hb. unfold write_udp, sends_buf. destruct (sv_write env) as [e|]; [destruct (isPathError e)|]; cbn; by split_and!.
Qed.

Lemma sendUDP_sends env prev buf s : backs_off prev s -> sends_buf prev buf s (sendUDP env buf s).
Proof.
  intros Hb. unfold sendUDP. destruct (se_udpConn s) eqn:Hc.
  { destruct (open_backs_off prev s Hc Hb) as [-> Hb0]. by apply write_udp_sends. }
  pose proof (dialUDP_kept env prev s Hc Hb) as Hd. destruct (dialUDP env s) as [[err s1] evs].
  destruct Hd as ([Hsp Hbo] & Hw & Herr & Hp & Hst). destruct err as [e|]; [done|].
  destruct (open_backs_off _ s1 (proj1 Herr eq_refl) Hbo) as [Hn Hb0].
  pose proof (write_udp_sends env buf s1 Hb0) as Hs. unfold sends_buf in *.
  destruct (write_udp env buf s1) as [[err' s2] evs']. destruct Hs as ([Hsp' Hbo'] & Hw' & Hp' & Hst').
  rewrite !omap_app, Hw. split_and!; [|done|congruence|congruence]. unfold dials_kept.
  rewrite omap_app, spaced_app, fold_left_app, Hn. done.
Qed.

Lemma sendTCP_sends env prev buf s : backs_off prev s -> sends_buf prev buf s (sendTCP env buf s).
Proof.
  intros Hb. unfold sendTCP, write_tcp.
  destruct (se_tcpConn s), (sv_dial env), (sv_deadline env), (sv_write env); by split_and!.
Qed.

Lemma SendRaw_sends env prev buf s : backs_off prev s -> sends_buf prev buf s (SendRaw env buf s).
Proof.
  intros Hb. unfold SendRaw. destruct (String.eqb (se_proto s) "udp"); [by apply sendUDP_sends|].
  destruct (String.eqb (se_proto s) "tcp"); [by apply sendTCP_sends|]. by split_and!.
Qed.

(** ** Runs *)

Section Contract.
Context `{FrameLib} `{WireLib}.
Context (StripBlock StripSubtree : bytes -> option bytes) (EncodeBEEFDelivery : bytes -> bytes -> bytes).

(** The bytes an operation is to put on the wire: the datagram as received, or
    the object inside; a frame without one has none. *)
Definition wire_form (strip : bool) (op : SendOp) : option bytes :=
  match op with
  | OpTx raw f => Some (if strip then f_Payload f else raw)
  | OpBlock raw _ => if strip then StripBlock raw else Some raw
  | OpSubtree raw _ => if strip then StripSubtree raw else Some raw
  | OpBeef raw bf => Some (if strip then EncodeBEEFDelivery (be_TopicID bf) (be_Payload bf) else raw)
  | OpRaw buf => Some buf
  end.

Let send_op := send_op StripBlock StripSubtree EncodeBEEFDelivery.

Lemma send_op_sends env prev op s :
  backs_off prev s ->
  match wire_form (se_stripHeader s) op with
  | Some buf => sends_buf prev buf s (send_op env op s)
  | None => send_op env op s = (Some StripFailed, s, [])
  end.
Proof.
  intros Hb. destruct op; cbn; unfold Send, SendBlock, SendSubtreeData, SendBeef; try (by apply SendRaw_sends);
    destruct (se_stripHeader s); try (by apply SendRaw_sends);
    [destruct (StripBlock raw)|destruct (StripSubtree raw)]; try done; by apply SendRaw_sends.
Qed.

(** The outcomes of a sequence of operations. *)
Fixpoint run_sends (ops : list (SockEnv * SendOp)) (s : Sender) : list (option EgressErr * list SockEv) * Sender :=
  match ops with
  | [] => ([], s)
  | (env, op) :: ops =>
      let '(err, s, evs) := send_op env op s in
      let '(outs, s) := run_sends ops s in
      ((err, evs) :: outs, s)
  end.

(** What one operation owes its caller. *)
Definition outcome_ok (strip : bool) (op : SockEnv * SendOp) (out : option EgressErr * list SockEv) : Prop :=
  match wire_form strip op.2 with
  | Some buf => omap written out.2 = match out.1 with None => [buf] | Some _ => [] end
  | None => out = (Some StripFailed, [])
  end.

Lemma run_sends_ok prev ops s :
  backs_off prev s ->
  let '(outs, s') := run_sends ops s in
  Forall2 (outcome_ok (se_stripHeader s)) ops outs /\ spaced prev (omap dialed (concat (snd <$> outs))).
Proof.
  revert prev s. induction ops as [|[env op] ops IH]; intros prev s Hb; [done|]. cbn [run_sends].
  pose proof (send_op_sends env prev op s Hb) as Hs. destruct (wire_form (se_stripHeader s) op) as [buf|] eqn:Ew.
  - unfold sends_buf in Hs. destruct (send_op env op s) as [[err s1] evs]. destruct Hs as ([Hsp Hbo] & Hw & Hp & Hst).
    specialize (IH _ s1 Hbo). destruct (run_sends ops s1) as [outs s']. destruct IH as [Hf Hsp']. rewrite Hst in Hf.
    cbn [fmap list_fmap concat snd]. rewrite omap_app, spaced_app. split; [|done]. constructor; [|done].
    unfold outcome_ok. cbn [fst snd]. by rewrite Ew.
  - rewrite Hs. specialize (IH prev s Hb). destruct (run_sends ops s) as [outs s']. destruct IH as [Hf Hsp'].
    split; [|done]. constructor; [|done]. unfold outcome_ok. cbn [fst snd]. by rewrite Ew.
Qed.

(** C15: The contract of a sender, from its construction through any sequence of
    frames and any answers of the network.  An operation reports success exactly
    when its wire form (the datagram, or with header stripping the object inside)
    went out, whole, once and alone; otherwise nothing of it went out, and a
    frame that holds no object fails without touching the socket.  And the UDP
    dials are spaced: after the k-th failure in a row the next attempt, whichever
    frame triggers it, comes no earlier than 250 ms doubled k-1 times, capped at
    5 s. *)
Theorem sender_contract env addr proto ok strip s evs0 ops :
  NewSender env addr proto ok strip = (Some s, evs0) ->
  let '(outs, s') := run_sends ops s in
  Forall2 (outcome_ok strip) ops outs /\ spaced None (omap dialed (evs0 ++ concat (snd <$> outs))).
Proof.
  intros Hn. assert (se_stripHeader s = strip /\ dials_kept None s evs0) as [<- [Hsp Hbo]].
  { unfold NewSender in Hn. set (s0 := mkSender _ _ _ _ _ _ _ _ _) in Hn. destruct (String.eqb proto "udp").
    - destruct (negb ok); [done|]. pose proof (dialUDP_kept env None s0 eq_refl eq_refl) as Hd.
      destruct (dialUDP env s0) as [[err s1] evs]. injection Hn as <- <-. by destruct Hd as (Hd & _ & _ & _ & Hst).
    - injection Hn as <- <-. done. }
  pose proof (run_sends_ok _ ops s Hbo) as Hr. destruct (run_sends ops s) as [outs s']. destruct Hr as [Hf Hsp'].
  split; [done|]. by rewrite omap_app, spaced_app.
Qed.

Lemma multi_fanout_shift fn n senders : multi_fanout fn (S n) senders = multi_fanout (fun i => fn (S i)) n senders.
Proof.
  revert n. induction senders as [|s senders IH]; intros n; [done|]. cbn [multi_fanout].
  destruct (fn (S n) s) as [[err s1] evs]. by rewrite IH.
Qed.

(** The destinations of a multi sender are independent: each gets the operation
    as if it were alone, and the errors are those of the ones that failed. *)
Theorem multi_send_isolated envs op senders :
  let one i s := send_op (envs i) op s in
  multi_send StripBlock StripSubtree EncodeBEEFDelivery envs op senders =
  (omap id (imap (fun i s => (one i s).1.1) senders), imap (fun i s => (one i s).1.2) senders,
   imap (fun i s => (one i s).2) senders).
Proof.
  intros one. unfold multi_send. change (fun i s => Egress.send_op _ _ _ (envs i) op s) with one. generalize one. clear one.
  induction senders as [|s senders IH]; intros one; [done|]. cbn [multi_fanout]. rewrite multi_fanout_shift, IH, !imap_cons.
  by destruct (one 0%nat s) as [[[e|] s1] evs].
Qed.

End Contract.

(** ** Multicast addresses *)

(** A multicast datagram goes to the group of its index, whatever was sent
    before: prefix, ten zero bytes, group id and the index's low 16 bits. *)
Theorem mcast_address mcPrefix groupID port before idx :
  let s := fold_left (fun s i => snd (mcast_to i s)) before (NewMCast mcPrefix groupID port) in
  fst (mcast_to idx s) =
  (be_put 2 mcPrefix ++ zeros 10 ++ be_put 2 groupID ++ [Z.land (Z.shiftr idx 8) 255; Z.land idx 255], port).
Proof.
  intros s. assert (exists a b, s = mkMCastSender (be_put 2 mcPrefix ++ zeros 10 ++ be_put 2 groupID ++ [a; b]) port) as (a & b & ->).
  { unfold s. clear s. set (init := NewMCast mcPrefix groupID port).
    assert (exists a b, init = mkMCastSender (be_put 2 mcPrefix ++ zeros 10 ++ be_put 2 groupID ++ [a; b]) port) as Hi by (by exists 0, 0).
    revert Hi. generalize init. clear init. induction before as [|i before IH]; intros m Hm; [done|]. cbn [fold_left]. apply IH.
    destruct Hm as (a & b & ->). by exists (Z.land (Z.shiftr i 8) 255), (Z.land i 255). }
  done.
Qed.

(** ** Witness and a limit of the backoff *)

#[local] Existing Instances lib0 wire0.

(** A network at time [now] that answers dials and writes as told. *)
Definition sock0 (now : Z) (dial write : option Z) : SockEnv := mkSockEnv now dial None write None.

Definition sender0 : option Sender * list SockEv := NewSender (sock0 0 (Some 101) None) "h:1" "udp" true true.

Lemma sender_contract_witness :
  let s := mkSender "h:1" "udp" true false false (Some 101) udpRedialMin udpRedialMin false in
  let ops := [(sock0 5 None None, OpTx [9] (tx_of [2; 1; 7])); (sock0 (5 * udpRedialMin) None None, OpTx [9] (tx_of [2; 1; 7]))] in
  let outs := fst (run_sends (fun _ => None) (fun _ => None) (fun _ p => p) ops s) in
  sender0.1 = Some s /\ fst <$> outs = [Some (UDPDial 101); None] /\ Forall2 (outcome_ok (fun _ => None) (fun _ => None) (fun _ p => p) true) ops outs.
Proof.
  cbv zeta.
  set (s := mkSender "h:1" "udp" true false false (Some 101) udpRedialMin udpRedialMin false).
  set (ops := [(sock0 5 None None, OpTx [9] (tx_of [2; 1; 7])); (sock0 (5 * udpRedialMin) None None, OpTx [9] (tx_of [2; 1; 7]))]).
  pose proof (sender_contract (fun _ => None) (fun _ => None) (fun _ p => p) (sock0 0 (Some 101) None) "h:1" "udp" true true s
    [DialUDP 0 (Some 101)] ops eq_refl) as Hw.
  split_and!; [done|by vm_compute|].
  destruct (run_sends _ _ _ ops s) as [outs s']. exact (proj1 Hw).
Defined.

(** A dial that succeeds clears the backoff, so when every write then fails on
    the path the sender dials anew for every frame, at once. *)
Theorem path_errors_redial_every_frame :
  let env := sock0 1000 None (Some 101) in
  let op := (env, OpRaw [7]) in
  let s := mkSender "h:1" "udp" false false false None 0 0 false in
  let outs := fst (run_sends (fun _ => None) (fun _ => None) (fun _ p => p) [op; op; op] s) in
  omap dialed (concat (snd <$> outs)) = [(1000, true); (1000, true); (1000, true)].
Proof. by vm_compute. Qed.
