(* ===== verification/Config.v ===== *)
(** * Configuration values (config/config.go, config/controlgroup.go)

    The lists, group ids and hexadecimal ids the flags are parsed into, and the
    multicast prefixes of the control-plane groups.  Flag values are ASCII: the
    trimming and case rules are those of ASCII text.  The scope parser and the
    source-specific prefix of the shard library are parameters. *)

From Stdlib Require Import Ascii.
From S2P Require Import Prelude.

(** ** Lists *)

(** [strings.Split] at one character: never empty. *)
Fixpoint Split (sep : ascii) (s : string) : list string :=
  match s with
  | EmptyString => [EmptyString]
  | String a s =>
      if Ascii.eqb a sep then EmptyString :: Split sep s
      else match Split sep s with
           | [] => [String a EmptyString]
           | part :: parts => String a part :: parts
           end
  end.

Definition is_space (a : ascii) : bool :=
  let n := nat_of_ascii a in ((n =? 32) || (9 <=? n) && (n <=? 13))%nat.

Fixpoint trim_left (s : string) : string :=
  match s with
  | String a s' => if is_space a then trim_left s' else s
  | EmptyString => EmptyString
  end.

(** Spaces at the end go when nothing but spaces follows. *)
Fixpoint trim_right (s : string) : string :=
  match s with
  | EmptyString => EmptyString
  | String a s =>
      match trim_right s with
      | EmptyString => if is_space a then EmptyString else String a EmptyString
      | s => String a s
      end
  end.

Definition TrimSpace (s : string) : string := trim_right (trim_left s).

Definition nonempty (s : string) : bool := negb (String.eqb s "").

Definition splitCSV (s : string) : list string :=
  if String.eqb s "" then [] else List.filter nonempty (TrimSpace <$> Split "," s).

Definition splitComma (s : string) : list string :=
  if String.eqb s "" then [] else TrimSpace <$> Split "," s.

(** ** Numbers and ids *)

(** The value of a digit in a base up to 16. *)
Definition digit (base : Z) (a : ascii) : option Z :=
  let n := Z.of_nat (nat_of_ascii a) in
  let v := if (48 <=? n) && (n <=? 57) then n - 48
           else if (97 <=? n) && (n <=? 102) then n - 87
           else if (65 <=? n) && (n <=? 70) then n - 55 else base in
  if v <? base then Some v else None.

Fixpoint digits (base acc : Z) (s : string) : option Z :=
  match s with
  | EmptyString => Some acc
  | String a s => d ← digit base a; digits base (acc * base + d) s
  end.

(** [strconv.ParseUint] in base 10 or 16. *)
Definition ParseUint (s : string) (base bits : Z) : option Z :=
  if String.eqb s "" then None
  else n ← digits base 0 s; if n <? 2 ^ bits then Some n else None.

Definition ascii_lower (a : ascii) : ascii :=
  let n := nat_of_ascii a in
  if ((65 <=? n) && (n <=? 90))%nat then ascii_of_nat (n + 32) else a.

Fixpoint ToLower (s : string) : string :=
  match s with EmptyString => EmptyString | String a s => String (ascii_lower a) (ToLower s) end.

(** [strings.TrimPrefix] of two characters. *)
Definition TrimPrefix0x (s : string) : string :=
  match s with
  | String "0" (String "x" s') => s'
  | _ => s
  end.

Definition parseGroupID (s : string) : option Z :=
  let s := TrimSpace s in
  if String.eqb s "" then None
  else
    match ToLower s, s with
    | String "0" (String "x" _), String _ (String _ rest) => ParseUint rest 16 16
    | _, _ => if is_set (ParseUint s 10 16) then ParseUint s 10 16 else ParseUint s 16 16
    end.

(** [hex.DecodeString]. *)
Fixpoint DecodeHex (s : string) : option bytes :=
  match s with
  | EmptyString => Some []
  | String a (String b s) =>
      hi ← digit 16 a; lo ← digit 16 b; rest ← DecodeHex s; Some (hi * 16 + lo :: rest)
  | String _ EmptyString => None
  end.

(** [parseSubtreeList] with [size = 32], [parseGroupList] with [size = 16]. *)
Fixpoint parse_ids (size : nat) (l : list string) : option (list bytes) :=
  match l with
  | [] => Some []
  | h :: l =>
      if String.eqb h "" then parse_ids size l
      else
        b ← DecodeHex (TrimPrefix0x h);
        if negb (length b =? size)%nat then None
        else rest ← parse_ids size l; Some (b :: rest)
  end.

Definition parseSubtreeList (s : string) : option (list bytes) := parse_ids 32 (splitComma s).

Definition parseGroupList (s : string) : option (list bytes) := parse_ids 16 (splitComma s).

(** ** Control-plane groups *)

Definition Scopes (name : string) : option Z :=
  if String.eqb name "link" then Some 0xFF02
  else if String.eqb name "site" then Some 0xFF05
  else if String.eqb name "org" then Some 0xFF08
  else if String.eqb name "global" then Some 0xFF0E
  else None.

Definition ControlGroupASMOnly : string := "asm-only".

Definition ControlGroupBoth : string := "both".

Definition ControlGroupDerived : string := "derived".

Inductive PrefixError := UnknownScope | InvalidCompat | NoSSMGroup | PrefixFailed.

Section ControlGroups.

(** [shard.ParseScope] and [shard.Prefix] in SSM mode. *)
Context {Scope : Type} (ParseScope : string -> option Scope) (PrefixSSM : Scope -> option Z).

Definition ControlGroupPrefixes (compat sourceMode scopeName : string) : list Z + PrefixError :=
  match Scopes scopeName with
  | None => inr UnknownScope
  | Some asm =>
      if String.eqb compat ControlGroupASMOnly then inl [asm]
      else if negb (String.eqb compat ControlGroupBoth || String.eqb compat ControlGroupDerived) then inr InvalidCompat
      else
        let derived :=
          if String.eqb (ToLower sourceMode) "ssm" then
            match ParseScope scopeName with
            | None => if String.eqb compat ControlGroupDerived then inr NoSSMGroup else inl asm
            | Some sc => match PrefixSSM sc with None => inr PrefixFailed | Some p => inl p end
            end
          else inl asm in
        match derived with
        | inr e => inr e
        | inl derived =>
            if String.eqb compat ControlGroupDerived || (derived =? asm) then inl [derived] else inl [asm; derived]
        end
  end.

End ControlGroups.
