(* ===== verification/ConfigProps.v ===== *)
(** * Configuration values: theorems

    Lists and id lists survive printing and parsing, parsed group ids keep their
    width, and a receiver that joins both control-plane prefixes hears every
    sender. *)

From Stdlib Require Import Ascii.
From S2P Require Import Prelude Config.

(** ** Splitting *)

(** No separator inside. *)
Fixpoint free_of (sep : ascii) (s : string) : bool :=
  match s with EmptyString => true | String a s => negb (Ascii.eqb a sep) && free_of sep s end.

Lemma Split_free sep s : free_of sep s = true -> Split sep s = [s].
Proof.
  induction s as [|a s IH]; [done|]. cbn. intros Hf. apply andb_prop in Hf as [Ha Hf].
  apply negb_true_iff in Ha. by rewrite Ha, IH.
Qed.

Lemma Split_app sep s t : free_of sep s = true -> Split sep (String.append s (String sep t)) = s :: Split sep t.
Proof.
  induction s as [|a s IH]; cbn [free_of]; intros Hf.
  - change (String.append EmptyString ?x) with x. cbn [Split]. by rewrite Ascii.eqb_refl.
  - change (String.append (String a s) ?x) with (String a (String.append s x)). cbn [Split].
    apply andb_prop in Hf as [Ha Hf]. apply negb_true_iff in Ha. by rewrite Ha, IH.
Qed.

Definition joined (l : list string) : string := String.concat "," l.

Lemma Split_joined l : l <> [] -> Forall (fun s => free_of "," s = true) l -> Split "," (joined l) = l.
Proof.
  unfold joined. intros Hne Hl. destruct l as [|s l]; [done|]. clear Hne. revert s Hl.
  induction l as [|t l IH]; intros s Hl; apply Forall_cons in Hl as [Hs Hl]; cbn [String.concat].
  - by apply Split_free.
  - change (String.append "," ?x) with (String "," x). rewrite Split_app by done. f_equal. by apply IH.
Qed.

(** A list entry that parsing leaves alone. *)
Definition plain (s : string) : Prop := s <> EmptyString /\ free_of "," s = true /\ TrimSpace s = s.

Lemma joined_nonempty l : l <> [] -> Forall plain l -> joined l <> EmptyString.
Proof.
  intros Hne Hl. destruct l as [|s l]; [done|]. apply Forall_cons in Hl as [[Hs _] _]. unfold joined. destruct l; [done|].
  cbn [String.concat]. by destruct s.
Qed.

Lemma plain_free l : Forall plain l -> Forall (fun s => free_of "," s = true) l.
Proof. intros Hl. eapply Forall_impl; [done|]. by intros s (_ & Hf & _). Qed.

Lemma plain_trimmed l : Forall plain l -> TrimSpace <$> l = l.
Proof. induction 1 as [|s l (_ & _ & Ht) _ IH]; [done|]. cbn. by rewrite Ht, IH. Qed.

Lemma splitComma_joined l : l <> [] -> Forall plain l -> splitComma (joined l) = l.
Proof.
  intros Hne Hl. unfold splitComma. rewrite (proj2 (String.eqb_neq _ _)) by (by apply joined_nonempty).
  by rewrite Split_joined, plain_trimmed by eauto using plain_free.
Qed.

(** A list of plain entries, printed with commas, parses to itself. *)
Theorem csv_roundtrip l : Forall plain l -> splitCSV (joined l) = l.
Proof.
  intros Hl. destruct (decide (l = [])) as [->|Hne]; [done|]. unfold splitCSV.
  rewrite (proj2 (String.eqb_neq _ _)) by (by apply joined_nonempty).
  rewrite Split_joined, plain_trimmed by eauto using plain_free. clear Hne.
  induction Hl as [|s l (Hs & _) _ IH]; [done|]. cbn. unfold nonempty at 1. by rewrite (proj2 (String.eqb_neq _ _) Hs), IH.
Qed.

(** ** Hexadecimal ids *)

Definition hex_digit (v : Z) : ascii := ascii_of_nat (Z.to_nat (if v <? 10 then 48 + v else 87 + v)).

Fixpoint EncodeHex (b : bytes) : string :=
  match b with [] => EmptyString | x :: b => String (hex_digit (x / 16)) (String (hex_digit (x mod 16)) (EncodeHex b)) end.

(** Nibbles are few enough to be looked at one by one. *)
Lemma nibble_cases (P : Z -> Prop) : Forall P (Z.of_nat <$> seq 0 16) -> forall v, 0 <= v < 16 -> P v.
Proof.
  intros HP v Hv. rewrite Forall_forall in HP. apply HP, list_elem_of_fmap. exists (Z.to_nat v).
  split; [lia|]. apply elem_of_seq. lia.
Qed.

Lemma digit_hex v : 0 <= v < 16 -> digit 16 (hex_digit v) = Some v.
Proof. revert v. apply nibble_cases. by repeat constructor. Qed.

Lemma hex_digit_plain v : 0 <= v < 16 -> Ascii.eqb (hex_digit v) "," = false /\ is_space (hex_digit v) = false.
Proof. revert v. apply nibble_cases. by repeat constructor. Qed.

Lemma byte_nibbles x : byte_ok x -> 0 <= x / 16 < 16 /\ 0 <= x mod 16 < 16.
Proof. unfold byte_ok. intros Hx. split; [split; [apply Z.div_pos|apply Z.div_lt_upper_bound]; lia|apply Z.mod_pos_bound; lia]. Qed.

Lemma DecodeHex_encode b : Forall byte_ok b -> DecodeHex (EncodeHex b) = Some b.
Proof.
  induction 1 as [|x b Hx _ IH]; [done|]. cbn. destruct (byte_nibbles x Hx) as [H1 H2]. rewrite !digit_hex, IH by done.
  cbn. do 2 f_equal. pose proof (Z.div_mod x 16). lia.
Qed.

(** No space anywhere. *)
Fixpoint spaceless (s : string) : bool :=
  match s with EmptyString => true | String a s => negb (is_space a) && spaceless s end.

Lemma spaceless_trimmed s : spaceless s = true -> TrimSpace s = s.
Proof.
  assert (Hr : forall s, spaceless s = true -> trim_right s = s).
  { induction s0 as [|a s0 IH]; [done|]. cbn. intros Hs. apply andb_prop in Hs as [Ha Hs]. apply negb_true_iff in Ha.
    rewrite (IH Hs), Ha. by destruct s0. }
  intros Hs. unfold TrimSpace. destruct s as [|a s]; [done|]. cbn [trim_left]. cbn in Hs. apply andb_prop in Hs as [Ha Hs'].
  apply negb_true_iff in Ha. rewrite Ha. apply Hr. cbn. by rewrite Ha.
Qed.

Lemma EncodeHex_clean b : Forall byte_ok b -> free_of "," (EncodeHex b) = true /\ spaceless (EncodeHex b) = true.
Proof.
  induction 1 as [|x b Hx _ [IH1 IH2]]; [done|]. cbn [EncodeHex free_of spaceless].
  destruct (byte_nibbles x Hx) as [H1 H2].
  destruct (hex_digit_plain _ H1) as [-> ->], (hex_digit_plain _ H2) as [-> ->]. by rewrite IH1, IH2.
Qed.

Lemma hex_digit_not_x v : 0 <= v < 16 -> Ascii.eqb (hex_digit v) "x" = false.
Proof. revert v. apply nibble_cases. by repeat constructor. Qed.

Lemma EncodeHex_no_prefix b : Forall byte_ok b -> TrimPrefix0x (EncodeHex b) = EncodeHex b.
Proof.
  intros Hb. destruct Hb as [|x b Hx Hb]; [done|]. cbn [EncodeHex].
  destruct (byte_nibbles x Hx) as [_ H2]. pose proof (hex_digit_not_x _ H2) as Hn. apply Ascii.eqb_neq in Hn.
  unfold TrimPrefix0x. by repeat case_match.
Qed.

(** An id of the right size, as a list entry. *)
Definition id_ok (size : nat) (b : bytes) : Prop := length b = size /\ Forall byte_ok b.

Lemma id_plain size b : (0 < size)%nat -> id_ok size b -> plain (EncodeHex b).
Proof.
  intros Hsz [Hl Hb]. destruct (EncodeHex_clean b Hb) as [Hf Hs]. split_and!; [|done|by apply spaceless_trimmed].
  destruct b; [cbn in Hl; lia|done].
Qed.

(** A list of ids, printed in hexadecimal with commas, parses to itself. *)
Theorem id_list_roundtrip size ids :
  (0 < size)%nat -> ids <> [] -> Forall (id_ok size) ids ->
  parse_ids size (splitComma (joined (EncodeHex <$> ids))) = Some ids.
Proof.
  intros Hsz Hne Hids. rewrite splitComma_joined.
  2: { by destruct ids. }
  2: { apply Forall_fmap. eapply Forall_impl; [done|]. intros b. by apply id_plain. }
  clear Hne. induction Hids as [|b ids Hb _ IH]; [done|]. cbn [fmap list_fmap parse_ids].
  destruct (id_plain size b Hsz Hb) as (Hs & _). destruct Hb as [Hl Hb].
  rewrite (proj2 (String.eqb_neq _ _) Hs), EncodeHex_no_prefix, DecodeHex_encode by done. cbn [mbind option_bind].
  rewrite Hl, Nat.eqb_refl. cbn [negb]. by rewrite IH.
Qed.

Lemma digits_bound base s acc : 0 < base -> 0 <= acc -> forall n, digits base acc s = Some n -> 0 <= n.
Proof.
  intros Hb. revert acc. induction s as [|a s IH]; intros acc Hacc n; cbn; [by intros [= <-]|].
  destruct (digit base a) as [d|] eqn:Ed; [|done]. cbn. apply IH. unfold digit in Ed.
  repeat case_match; simplify_eq; bool_to_prop; nia.
Qed.

(** A parsed group id has 16 bits. *)
Theorem parseGroupID_bound s n : parseGroupID s = Some n -> 0 <= n < 65536.
Proof.
  assert (Hu : forall s base, 0 < base -> ParseUint s base 16 = Some n -> 0 <= n < 65536).
  { intros s0 base Hb. unfold ParseUint. case_match; [done|]. destruct (digits base 0 s0) as [m|] eqn:Ed; [|done]. cbn.
    case_match; [|done]. intros [= <-]. pose proof (digits_bound base s0 0 Hb ltac:(lia) m Ed). lia. }
  unfold parseGroupID. repeat case_match; try done; by apply Hu.
Qed.

(** ** Control-plane prefixes *)

Section ControlGroups.
Context {Scope : Type} (ParseScope : string -> option Scope) (PrefixSSM : Scope -> option Z).

Local Abbreviation prefixes := (ControlGroupPrefixes ParseScope PrefixSSM).

(** The three settings in terms of one derived prefix. *)
Lemma prefixes_cases mode scope asm :
  (forall sc, is_Some (PrefixSSM sc)) -> Scopes scope = Some asm ->
  let ssm := String.eqb (ToLower mode) "ssm" in
  exists p,
    prefixes ControlGroupASMOnly mode scope = inl [asm] /\
    prefixes ControlGroupBoth mode scope = inl (if p =? asm then [asm] else [asm; p]) /\
    (prefixes ControlGroupDerived mode scope = inl [p] /\ ~ (ssm = true /\ ParseScope scope = None) \/
     prefixes ControlGroupDerived mode scope = inr NoSSMGroup /\ ssm = true /\ ParseScope scope = None) /\
    (ssm = false -> p = asm).
Proof.
  intros Htot Hs ssm. unfold ControlGroupPrefixes. rewrite Hs. fold ssm. cbn [String.eqb].
  destruct ssm; [destruct (ParseScope scope) as [sc|]|]; [destruct (Htot sc) as [p ->]; exists p|exists asm..]; cbn.
  - split_and!; [done| |by left; split; [|intros [_ ?]]|done]. by destruct (Z.eqb_spec p asm) as [->|].
  - rewrite Z.eqb_refl. split_and!; [done..|by right|done].
  - rewrite Z.eqb_refl. split_and!; [done..|by left; split; [|intros [? _]]|done].
Qed.

(** The rollout order of the control-plane prefixes is safe.  Given that every
    parsed scope has a source-specific prefix: a known scope and setting fail only
    for "derived" in SSM mode at a scope without an SSM group; whenever a peer on
    any setting derives prefixes for a mode and scope, a receiver on "both" does
    too, joins each of them once, the any-source one first; "asm-only" stays on
    the any-source prefix in every mode, and outside SSM all settings agree. *)
Theorem control_prefixes compat mode scope asm :
  (forall sc, is_Some (PrefixSSM sc)) -> Scopes scope = Some asm ->
  compat = ControlGroupASMOnly \/ compat = ControlGroupBoth \/ compat = ControlGroupDerived ->
  let ssm := String.eqb (ToLower mode) "ssm" in
  match prefixes compat mode scope with
  | inr e => e = NoSSMGroup /\ compat = ControlGroupDerived /\ ssm = true /\ ParseScope scope = None
  | inl ps => ps <> []
  end /\
  (exists qs, prefixes ControlGroupBoth mode scope = inl qs /\ NoDup qs /\ head qs = Some asm /\
     (forall ps, prefixes compat mode scope = inl ps -> ps ⊆ qs) /\ (ssm = false -> prefixes compat mode scope = inl qs)) /\
  (compat = ControlGroupASMOnly -> prefixes compat mode scope = inl [asm]) /\
  (compat = ControlGroupDerived -> ssm = true -> ParseScope scope = None -> prefixes compat mode scope = inr NoSSMGroup).
Proof.
  intros Htot Hs Hc ssm. destruct (prefixes_cases mode scope asm Htot Hs) as (p & Ea & Eb & Ed & Hp). fold ssm in Ed, Hp.
  assert (forall l, l = (if p =? asm then [asm] else [asm; p]) -> NoDup l /\ head l = Some asm /\ [asm] ⊆ l /\ [p] ⊆ l) as Hl.
  { intros l ->. destruct (Z.eqb_spec p asm) as [->|Hne].
    - split_and!; [by apply NoDup_singleton|done..].
    - split_and!; [|done|intros x Hx|intros x Hx]; [|apply list_elem_of_singleton in Hx as ->..]; [|by left|by right; left].
      apply NoDup_cons. split; [|by apply NoDup_singleton]. by intros Hx%list_elem_of_singleton. }
  destruct (Hl _ eq_refl) as (Hnd & Hh & Hasm & Hpp).
  assert (ssm = false -> (if p =? asm then [asm] else [asm; p]) = [asm] /\ [p] = [asm]) as Hoff.
  { intros Hf. rewrite (Hp Hf), Z.eqb_refl. done. }
  rewrite Eb. destruct Hc as [->|[->| ->]].
  - rewrite Ea. split_and!; [done| |done|done]. eexists. split_and!; [done..|by intros ps [= <-]|].
    intros Hf. by rewrite (proj1 (Hoff Hf)).
  - rewrite Eb. split_and!; [by destruct (p =? asm)| |done|done]. eexists. split_and!; [done..|by intros ps [= <-]|done].
  - destruct Ed as [[-> Hno]|(-> & Hssm & Hps)].
    + split_and!; [done| |done|intros _ H1 H2; by destruct Hno]. eexists. split_and!; [done..|by intros ps [= <-]|].
      intros Hf. by destruct (Hoff Hf) as [-> ->].
    + split_and!; try done. eexists. split_and!; try done. intros Hf. congruence.
Qed.

End ControlGroups.

(** Site and global have source-specific prefixes. *)
Definition parse_scope0 (s : string) : option Z :=
  if String.eqb s "site" then Some 0xFF35 else if String.eqb s "global" then Some 0xFF3E else None.

Lemma control_prefixes_witness :
  ControlGroupPrefixes parse_scope0 Some ControlGroupBoth "SSM" "site" = inl [0xFF05; 0xFF35] /\
  ControlGroupPrefixes parse_scope0 Some ControlGroupDerived "ssm" "org" = inr NoSSMGroup.
Proof.
  destruct (control_prefixes parse_scope0 Some ControlGroupDerived "ssm" "org" 0xFF08) as (_ & _ & _ & Hd).
  - intros sc. by eexists.
  - reflexivity.
  - right. right. reflexivity.
  - split; [reflexivity|]. apply Hd; reflexivity.
Defined.
