(* ===== verification/Sockets.v ===== *)
(** * Opening sockets (listener/listener.go, egress/mcast.go, egress/multi.go)

    The worker's receive socket, the socket of the multicast sender and the
    construction of the multi sender, against a table of open descriptors: which
    options a socket has when it is handed out, and that a constructor that fails
    leaves no descriptor behind. *)

From S2P Require Import Prelude Discovery Tracker TrackerRepair Dedup SubtreeGroup Filter Reassembly ReassemblyRepair RetryTee Listener ListenerExample Egress EgressProps Config.

(** ** The kernel *)

Inductive SockOpt := SO_REUSEPORT | SO_REUSEADDR | SO_RCVBUF | SO_SNDBUF | IPV6_MULTICAST_IF | IPV6_MULTICAST_HOPS | IPV6_MULTICAST_LOOP.

Inductive SysCall := SysSocket | SysSetsockopt (o : SockOpt) (v : Z) | SysBind (port : Z).

#[export] Instance SockOpt_eq_dec : EqDecision SockOpt.
Proof. solve_decision. Defined.

#[export] Instance SysCall_eq_dec : EqDecision SysCall.
Proof. solve_decision. Defined.

(** An open datagram socket: the options in the order they were set, and the port. *)
Record Descr := mkDescr { d_opts : list (SockOpt * Z); d_port : option Z }.

Definition Descrs : Type := gmap Z Descr.

(** A call that was refused, with its errno. *)
Definition SysErr : Type := SysCall * Z.

(** [SO_RCVBUF] and [SO_SNDBUF] asked for. *)
Definition socketRecvBuf : Z := 64 * 1024 * 1024.

Definition mcSendBuf : Z := 16 * 1024 * 1024.

Section Kernel.
(** Which calls the kernel refuses, and the descriptor it hands out. *)
Variable answer : SysCall -> option Z.
Variable next_fd : Descrs -> Z.

(** What a call that succeeds does to the socket. *)
Definition effect (call : SysCall) (d : Descr) : Descr :=
  match call with
  | SysSocket => d
  | SysSetsockopt o v => mkDescr (d_opts d ++ [(o, v)]) (d_port d)
  | SysBind port => mkDescr (d_opts d) (Some port)
  end.

(** Programs that return an error or a value. *)
Definition Sys (A : Type) : Type := Descrs -> (SysErr + A) * Descrs.

#[export] Instance Sys_ret : MRet Sys := fun A a t => (inr a, t).
#[export] Instance Sys_bind : MBind Sys := fun A B k m t =>
  match m t with (inl e, t) => (inl e, t) | (inr a, t) => k a t end.

Definition socket : Sys Z := fun t =>
  match answer SysSocket with
  | Some e => (inl (SysSocket, e), t)
  | None => (inr (next_fd t), <[next_fd t := mkDescr [] None]> t)
  end.

(** [if err := call; err != nil { _ = unix.Close(fd); return err }]. *)
Definition must (fd : Z) (call : SysCall) : Sys unit := fun t =>
  match answer call with
  | Some e => (inl (call, e), delete fd t)
  | None => (inr tt, alter (effect call) fd t)
  end.

(** [_ = call]. *)
Definition may (fd : Z) (call : SysCall) : Sys unit := fun t =>
  (inr tt, match answer call with Some _ => t | None => alter (effect call) fd t end).

(** ** The constructors *)

Definition openRawSocket (port : Z) : Sys Z :=
  fd ← socket;
  must fd (SysSetsockopt SO_REUSEPORT 1) ;;
  must fd (SysSetsockopt SO_REUSEADDR 1) ;;
  may fd (SysSetsockopt SO_RCVBUF socketRecvBuf) ;;
  must fd (SysBind port) ;;
  mret fd.

(** [NewMCast]: the descriptor and the sender with its address template. *)
Definition OpenMCast (mcPrefix groupID port ifindex hopLimit : Z) : Sys (Z * MCastSender) :=
  fd ← socket;
  must fd (SysSetsockopt IPV6_MULTICAST_IF ifindex) ;;
  must fd (SysSetsockopt IPV6_MULTICAST_HOPS hopLimit) ;;
  must fd (SysSetsockopt IPV6_MULTICAST_LOOP 0) ;;
  may fd (SysSetsockopt SO_SNDBUF mcSendBuf) ;;
  mret (fd, NewMCast mcPrefix groupID port).

Definition CloseMCast (fd : Z) : Sys unit := fun t => (inr tt, delete fd t).

(** ** What they leave *)

(** The first of the calls that the kernel refuses. *)
Definition refusal (calls : list SysCall) : option SysErr :=
  head (omap (fun call => (fun e => (call, e)) <$> answer call) calls).

(** The option, if the kernel took it. *)
Definition taken (o : SockOpt) (v : Z) : list (SockOpt * Z) :=
  match answer (SysSetsockopt o v) with None => [(o, v)] | Some _ => [] end.

(** Sockets are opened whole or not at all.  The receive socket comes with port and
    address sharing and bound to its port; the multicast sender's with interface and
    hop limit and without loopback, so that nothing it sends comes back to this
    host.  The buffer size is there when the kernel grants it.  If any other call is
    refused, the error names the first such call and the descriptor table is the
    one before; and closing a sender's descriptor restores it too. *)
Theorem sockets_whole (t : Descrs) (port mcPrefix groupID ifindex hopLimit : Z) :
  t !! next_fd t = None ->
  openRawSocket port t =
    match refusal [SysSocket; SysSetsockopt SO_REUSEPORT 1; SysSetsockopt SO_REUSEADDR 1; SysBind port] with
    | Some e => (inl e, t)
    | None =>
        (inr (next_fd t),
         <[next_fd t := mkDescr ([(SO_REUSEPORT, 1); (SO_REUSEADDR, 1)] ++ taken SO_RCVBUF socketRecvBuf) (Some port)]> t)
    end /\
  match refusal [SysSocket; SysSetsockopt IPV6_MULTICAST_IF ifindex; SysSetsockopt IPV6_MULTICAST_HOPS hopLimit;
                 SysSetsockopt IPV6_MULTICAST_LOOP 0] with
  | Some e => OpenMCast mcPrefix groupID port ifindex hopLimit t = (inl e, t)
  | None =>
      exists t', OpenMCast mcPrefix groupID port ifindex hopLimit t = (inr (next_fd t, NewMCast mcPrefix groupID port), t') /\
        t' = <[next_fd t := mkDescr ([(IPV6_MULTICAST_IF, ifindex); (IPV6_MULTICAST_HOPS, hopLimit); (IPV6_MULTICAST_LOOP, 0)] ++
                                     taken SO_SNDBUF mcSendBuf) None]> t /\
        CloseMCast (next_fd t) t' = (inr tt, t)
  end.
Proof.
  intros Hfree.
  assert (Hd : forall d, delete (next_fd t) (<[next_fd t := d]> t) = t) by (intros d; by apply delete_insert_id).
  assert (Ha : forall f d, alter f (next_fd t) (<[next_fd t := d]> t) = <[next_fd t := f d]> t) by (intros f d; apply alter_insert_eq).
  split; unfold openRawSocket, OpenMCast, CloseMCast, mbind, Sys_bind, mret, Sys_ret, socket, must, may, refusal, taken; cbn [omap list_omap];
    repeat (match goal with |- context [answer ?c] => destruct (answer c) eqn:? end; cbn [fmap option_fmap option_map head effect d_opts d_port app]; rewrite ?Ha, ?Hd;
      cbn [effect d_opts d_port app]);
    try done; eexists; split_and!; try done; by rewrite Hd.
Qed.

End Kernel.

(** A kernel that grants no larger buffers and refuses multicast hops. *)
Definition answer0 (call : SysCall) : option Z :=
  match call with SysSetsockopt SO_RCVBUF _ => Some 1 | SysSetsockopt IPV6_MULTICAST_HOPS _ => Some 22 | _ => None end.

Definition next_fd0 (t : Descrs) : Z := fresh (dom t).

Lemma sockets_whole_witness :
  openRawSocket answer0 next_fd0 9000 ∅ = (inr (next_fd0 ∅), {[next_fd0 ∅ := mkDescr [(SO_REUSEPORT, 1); (SO_REUSEADDR, 1)] (Some 9000)]}) /\
  OpenMCast answer0 next_fd0 0xFF05 11 9000 2 64 ∅ = (inl (SysSetsockopt IPV6_MULTICAST_HOPS 64, 22), ∅).
Proof. exact (sockets_whole answer0 next_fd0 ∅ 9000 0xFF05 11 2 64 eq_refl). Defined.

(** ** Several destinations *)

Inductive MultiErr := BadDelivery (a : string) | NoDelivery.

Section Multi.
(** Does [net.SplitHostPort] accept the address. *)
Variable splits : string -> bool.
(** What the network answers while the [i]-th address is dialed, and at a close. *)
Variable envs : nat -> SockEnv.

(** [MultiSender.Close]. *)
Definition CloseMulti (senders : list Sender) : list EgressErr * list Sender * list SockEv :=
  let '(errs, senders, evss) := multi_fanout (fun i s => Close (envs i) s) 0 senders in (errs, senders, concat evss).

(** The loop of [NewMulti], with the senders built so far. *)
Fixpoint multi_loop (i : nat) (addrs : list string) (proto : string) (senders : list Sender) (evs : list SockEv) :
    (MultiErr + list Sender) * list SockEv :=
  match addrs with
  | [] => match senders with [] => (inl NoDelivery, evs) | _ => (inr senders, evs) end
  | a :: addrs =>
      let a := TrimSpace a in
      if String.eqb a "" then multi_loop (S i) addrs proto senders evs
      else
        match NewSender (envs i) a proto (splits a) false with
        | (None, ev) => let '(_, _, closes) := CloseMulti senders in (inl (BadDelivery a), evs ++ ev ++ closes)
        | (Some s, ev) => multi_loop (S i) addrs proto (senders ++ [s]) (evs ++ ev)
        end
  end.

Definition NewMulti (addrs : list string) (proto : string) : (MultiErr + list Sender) * list SockEv :=
  multi_loop 0 addrs proto [] [].

Definition Dests (senders : list Sender) : nat := length senders.

(** The addresses of a list that are not blank, trimmed. *)
Definition destinations (addrs : list string) : list string := List.filter nonempty (TrimSpace <$> addrs).

(** Connections that are opened and not closed. *)
Definition conn_delta (ev : SockEv) : Z :=
  match ev with DialUDP _ None | DialTCP None => 1 | CloseUDP | CloseTCP => -1 | _ => 0 end.

Definition conns (evs : list SockEv) : Z := foldr Z.add 0 (conn_delta <$> evs).

Definition held (s : Sender) : Z := (if se_udpConn s then 1 else 0) + (if se_tcpConn s then 1 else 0).

Definition held_all (senders : list Sender) : Z := foldr Z.add 0 (held <$> senders).

(** ** Construction *)

Lemma conns_app evs evs' : conns (evs ++ evs') = conns evs + conns evs'.
Proof. unfold conns. induction evs as [|ev evs IH]; [done|]. cbn in *. lia. Qed.

Lemma held_all_app l l' : held_all (l ++ l') = held_all l + held_all l'.
Proof. unfold held_all. induction l as [|s l IH]; [done|]. cbn in *. lia. Qed.

(** A sender as the constructor returns it: whole frames, no TCP connection yet. *)
Definition fresh_sender (proto : string) (s : Sender) : Prop :=
  se_proto s = proto /\ se_stripHeader s = false /\ se_tcpConn s = false /\ exists prev, backs_off prev s.

Lemma NewSender_fresh env a proto ok :
  match NewSender env a proto ok false with
  | (None, evs) => proto = "udp"%string /\ ok = false /\ evs = []
  | (Some s, evs) => fresh_sender proto s /\ se_addr s = a /\ conns evs = held s /\ (proto = "udp"%string -> ok = true)
  end.
Proof.
  unfold NewSender. destruct (String.eqb_spec proto "udp") as [->|Hp]; [destruct ok; [|done]|].
  - unfold dialUDP. cbn [se_udpBackoff]. destruct (sv_dial env) as [e|]; cbn; split_and!; try done.
    + split_and!; try done. exists (Some (sv_now env, 1%nat)). unfold backs_off. cbn. split_and!; try done; lia.
    + split_and!; try done. by exists None.
  - cbn. split_and!; try done. by split_and!; [..|exists None].
Qed.

(** [Close] gives back the connection of such a sender. *)
Lemma CloseMulti_conns proto senders : Forall (fresh_sender proto) senders -> conns (CloseMulti senders).2 = - held_all senders.
Proof.
  intros Hf. unfold CloseMulti. generalize 0%nat.
  induction Hf as [|s senders (_ & _ & Ht & _) _ IH]; intros n; [done|]. cbn [multi_fanout].
  specialize (IH (S n)). unfold Close at 1, closeTCP. rewrite Ht.
  destruct (multi_fanout _ (S n) senders) as [[errs ss] evss]. cbn [snd] in IH.
  change (held_all (s :: senders)) with (held s + held_all senders). unfold held. rewrite Ht.
  destruct (se_udpConn s); cbn [snd concat]; rewrite conns_app, IH; cbn; lia.
Qed.

(** The state of the loop. *)
Record multi_ok (proto : string) (done : list string) (senders : list Sender) (evs : list SockEv) : Prop := mkMultiOk {
  mo_addr : se_addr <$> senders = done;
  mo_fresh : Forall (fresh_sender proto) senders;
  mo_conns : conns evs = held_all senders;
  mo_none : senders = [] -> evs = [];
  mo_splits : proto = "udp"%string -> List.find (fun a => negb (splits a)) done = None
}.

(** What [NewMulti] answers for the destinations [ds]. *)
Definition multi_built (proto : string) (ds : list string) (r : (MultiErr + list Sender) * list SockEv) : Prop :=
  match r with
  | (inl NoDelivery, evs) => ds = [] /\ evs = []
  | (inl (BadDelivery a), evs) =>
      proto = "udp"%string /\ List.find (fun a => negb (splits a)) ds = Some a /\ conns evs = 0
  | (inr senders, evs) => ds <> [] /\ multi_ok proto ds senders evs
  end.

Lemma find_app {A} (f : A -> bool) l l' :
  List.find f (l ++ l') = match List.find f l with Some a => Some a | None => List.find f l' end.
Proof. induction l as [|a l IH]; [done|]. cbn. by destruct (f a). Qed.

Lemma multi_loop_built i addrs proto done senders evs :
  multi_ok proto done senders evs ->
  multi_built proto (done ++ destinations addrs) (multi_loop i addrs proto senders evs).
Proof.
  revert i done senders evs. induction addrs as [|a addrs IH]; intros i done senders evs [Ha Hf Hc Hn Hs].
  - cbn [multi_loop]. unfold destinations. cbn. rewrite app_nil_r.
    destruct senders as [|s senders]; cbn; [by rewrite <- Ha, Hn|]. split; [by subst|]. by split.
  - cbn [multi_loop]. unfold destinations. cbn [fmap list_fmap List.filter]. fold (destinations addrs).
    unfold nonempty at 1. destruct (String.eqb (TrimSpace a) ""); cbn [negb]; [by apply IH|].
    pose proof (NewSender_fresh (envs i) (TrimSpace a) proto (splits (TrimSpace a))) as Hnew.
    destruct (NewSender (envs i) (TrimSpace a) proto (splits (TrimSpace a)) false) as [[s|] ev].
    + destruct Hnew as (Hfr & Had & Hco & Hsp). rewrite cons_middle, app_assoc. apply IH. split.
      * rewrite fmap_app. cbn. by rewrite Ha, Had.
      * by apply Forall_app_2; [|constructor].
      * rewrite conns_app, held_all_app, Hc, Hco. cbn. lia.
      * intros E. by destruct senders.
      * intros Hp. rewrite find_app, Hs by done. cbn. by rewrite Hsp.
    + destruct Hnew as (Hp & Hok & ->). pose proof (CloseMulti_conns proto senders Hf) as Hcl.
      destruct (CloseMulti senders) as [[errs ss] closes]. cbn [snd app multi_built] in Hcl |- *. split_and!; [done| |].
      * rewrite find_app, Hs by done. cbn. by rewrite Hok.
      * rewrite conns_app, Hc, Hcl. lia.
Qed.
End Multi.

(** ** The handoff to the delivery tier *)

Section Handoff.
Context `{FrameLib} `{WireLib}.
Context (StripBlock StripSubtree : bytes -> option bytes) (EncodeBEEFDelivery : bytes -> bytes -> bytes).

Let multi_send := multi_send StripBlock StripSubtree EncodeBEEFDelivery.

(** The datagram as it was received. *)
Definition raw_of (op : SendOp) : bytes :=
  match op with OpTx raw _ | OpBlock raw _ | OpSubtree raw _ | OpBeef raw _ | OpRaw raw => raw end.

(** A sequence of sends: the joined errors and the socket calls of each destination. *)
Fixpoint run_multi (ops : list ((nat -> SockEnv) * SendOp)) (senders : list Sender) :
    list (list EgressErr * list (list SockEv)) * list Sender :=
  match ops with
  | [] => ([], senders)
  | (env, op) :: ops =>
      let '(errs, senders, evss) := multi_send env op senders in
      let '(outs, senders) := run_multi ops senders in
      ((errs, evss) :: outs, senders)
  end.

(** Every destination got the datagram whole, once, or nothing; one error for each
    that got nothing. *)
Definition handed (n : nat) (op : (nat -> SockEnv) * SendOp) (out : list EgressErr * list (list SockEv)) : Prop :=
  length (snd out) = n /\
  Forall (fun evs => omap written evs = [raw_of (snd op)] \/ omap written evs = []) (snd out) /\
  length (fst out) = length (List.filter (fun evs => bool_decide (omap written evs = [])) (snd out)).

(** A sender that forwards whole frames. *)
Definition whole_sender (s : Sender) : Prop := se_stripHeader s = false /\ exists prev, backs_off prev s.

Lemma whole_send env op s :
  whole_sender s ->
  let '(err, s', evs) := send_op StripBlock StripSubtree EncodeBEEFDelivery env op s in
  whole_sender s' /\ omap written evs = match err with None => [raw_of op] | Some _ => [] end.
Proof.
  intros [Hs [prev Hb]]. pose proof (send_op_sends StripBlock StripSubtree EncodeBEEFDelivery env prev op s Hb) as Ho.
  rewrite Hs in Ho. replace (wire_form _ _ _ false op) with (Some (raw_of op)) in Ho by (by destruct op).
  unfold sends_buf in Ho. destruct (send_op _ _ _ env op s) as [[err s'] evs].
  destruct Ho as ([_ Hb'] & Hw & _ & Hs'). split; [|done]. split; [by rewrite Hs'|]. by eexists.
Qed.

Lemma multi_send_handed env op senders :
  Forall whole_sender senders ->
  let '(errs, senders', evss) := multi_send env op senders in
  Forall whole_sender senders' /\ length senders' = length senders /\ handed (length senders) (env, op) (errs, evss).
Proof.
  unfold multi_send, Egress.multi_send, handed. cbn [fst snd]. generalize 0%nat. intros n Hw. revert n.
  induction Hw as [|s senders Hs _ IH]; intros n; [done|]. cbn [multi_fanout].
  pose proof (whole_send (env n) op s Hs) as Ho. destruct (send_op _ _ _ (env n) op s) as [[err s'] evs].
  specialize (IH (S n)). destruct (multi_fanout _ (S n) senders) as [[errs ss] evss].
  destruct Ho as [Hs' Hev], IH as (Hss & Hl & Hn & Hall & Herr). cbn [length List.filter snd] in *. split_and!.
  - by constructor.
  - by rewrite Hl.
  - by rewrite Hn.
  - constructor; [|done]. rewrite Hev. destruct err; auto.
  - rewrite Hev, length_app, Herr. by destruct err.
Qed.

Lemma run_multi_handed ops senders :
  Forall whole_sender senders -> Forall2 (handed (length senders)) ops (fst (run_multi ops senders)).
Proof.
  revert senders. induction ops as [|[env op] ops IH]; intros senders Hw; [by constructor|]. cbn [run_multi].
  pose proof (multi_send_handed env op senders Hw) as Hm. destruct (multi_send env op senders) as [[errs ss] evss].
  destruct Hm as (Hss & Hl & Hh). specialize (IH ss Hss). rewrite Hl in IH. destruct (run_multi ops ss). by constructor.
Qed.

(** C26: The handoff from a receiver to its delivery tier.  [NewMulti] succeeds exactly
    when an address is not blank and, over UDP, every address that is not blank has
    a host and a port; then there is one sender per such address, in order, and
    whatever the network does, every frame that is sent afterwards reaches each
    destination whole, with its envelope, exactly once, or is reported as one error
    for that destination, without touching the others.  When it fails, it names the
    first bad address and every connection that was opened is closed again. *)
Theorem multi_handoff splits envs addrs proto ops :
  let ds := destinations addrs in
  match NewMulti splits envs addrs proto with
  | (inl NoDelivery, evs) => ds = [] /\ evs = []
  | (inl (BadDelivery a), evs) =>
      proto = "udp"%string /\ List.find (fun a => negb (splits a)) ds = Some a /\ conns evs = 0
  | (inr senders, evs) =>
      ds <> [] /\ (proto = "udp"%string -> Forall (fun a => splits a = true) ds) /\
      se_addr <$> senders = ds /\ Dests senders = length ds /\ conns evs = held_all senders /\
      Forall2 (handed (length ds)) ops (fst (run_multi ops senders))
  end.
Proof.
  cbn zeta.
  assert (Hb : multi_built splits proto (destinations addrs) (NewMulti splits envs addrs proto)).
  { apply (multi_loop_built splits envs 0 addrs proto [] [] []). by split. }
  unfold multi_built in Hb. destruct (NewMulti splits envs addrs proto) as [[[a|]|senders] evs]; [done..|].
  destruct Hb as (Hne & [Ha Hf Hc _ Hs]). unfold Dests. rewrite <- (length_fmap se_addr senders), Ha.
  split_and!; try done.
  - intros Hp. apply Forall_forall. intros a Hin. apply list_elem_of_In in Hin.
    pose proof (List.find_none _ _ (Hs Hp) a Hin) as Hz. cbn in Hz. apply negb_false_iff. exact Hz.
  - rewrite <- Ha, length_fmap. apply run_multi_handed. eapply Forall_impl; [exact Hf|].
    intros s (_ & Hstrip & _ & Hprev). by split.
Qed.

End Handoff.
