(* ===== verification/ConfigFlags.v ===== *)
(** * Flags and environment (config/config.go)

    The value of every flag of [Load]: the command line wins, then the
    environment, then the default.  The text forms the flag and strconv packages
    accept for booleans, integers and durations are written out; the form of
    floating-point text is a parameter, as the two values that use it are passed
    through unread. *)

From Stdlib Require Import Ascii.
From Corelib Require Import SpecFloat.
From S2P Require Import Prelude Config.

(** ** Text forms *)

Definition is_digit (a : ascii) : bool := let n := nat_of_ascii a in ((48 <=? n) && (n <=? 57))%nat.

Definition is_hex_letter (a : ascii) : bool :=
  let n := nat_of_ascii (ascii_lower a) in ((97 <=? n) && (n <=? 102))%nat.

(** The base a literal names and the text after it, as in [ParseUint] with base 0. *)
Definition literal_base (s : string) : Z * string :=
  match s with
  | String "0" (String c (String _ _ as rest)) =>
      if Ascii.eqb (ascii_lower c) "b" then (2, rest)
      else if Ascii.eqb (ascii_lower c) "o" then (8, rest)
      else if Ascii.eqb (ascii_lower c) "x" then (16, rest)
      else (8, String c rest)
  | String "0" rest => (8, rest)
  | _ => (10, s)
  end.

(** The last character class of [underscoreOK]. *)
Inductive Last := LStart | LDigit | LUnderscore | LOther.

Fixpoint underscore_scan (hex : bool) (last : Last) (s : string) : bool :=
  match s with
  | EmptyString => match last with LUnderscore => false | _ => true end
  | String a s =>
      if is_digit a || hex && is_hex_letter a then underscore_scan hex LDigit s
      else if Ascii.eqb a "_" then match last with LDigit => underscore_scan hex LUnderscore s | _ => false end
      else match last with LUnderscore => false | _ => underscore_scan hex LOther s end
  end.

Definition underscoreOK (s : string) : bool :=
  match s with
  | String "0" (String c rest) =>
      let l := ascii_lower c in
      if Ascii.eqb l "b" || Ascii.eqb l "o" || Ascii.eqb l "x"
      then underscore_scan (Ascii.eqb l "x") LDigit rest
      else underscore_scan false LStart s
  | _ => underscore_scan false LStart s
  end.

Fixpoint drop_underscores (s : string) : string :=
  match s with
  | EmptyString => EmptyString
  | String a s => if Ascii.eqb a "_" then drop_underscores s else String a (drop_underscores s)
  end.

(** [strconv.ParseUint] with base 0: underscores may separate digits. *)
Definition ParseUint0 (s : string) (bits : Z) : option Z :=
  if String.eqb s "" then None
  else
    let '(base, rest) := literal_base s in
    n ← digits base 0 (drop_underscores rest);
    if negb (String.eqb (drop_underscores rest) rest) && negb (underscoreOK s) then None
    else if n <? 2 ^ bits then Some n else None.

(** A sign, then an unsigned form, in range of an [int]. *)
Definition signed (parse : string -> option Z) (s : string) : option Z :=
  let '(neg, s) := match s with
    | String "-" s => (true, s)
    | String "+" s => (false, s)
    | _ => (false, s)
    end in
  n ← parse s;
  if neg then if n <=? 2 ^ 63 then Some (- n) else None
  else if n <? 2 ^ 63 then Some n else None.

(** [strconv.Atoi], and the form of an integer flag. *)
Definition Atoi (s : string) : option Z := signed (fun s => ParseUint s 10 64) s.

Definition ParseInt0 (s : string) : option Z := signed (fun s => ParseUint0 s 64) s.

Definition ParseBool (s : string) : option bool :=
  if bool_decide (s ∈ ["1"; "t"; "T"; "TRUE"; "true"; "True"]%string) then Some true
  else if bool_decide (s ∈ ["0"; "f"; "F"; "FALSE"; "false"; "False"]%string) then Some false
  else None.

(** *** Durations *)

(** [leadingInt]: the digits at the front and what follows them. *)
Fixpoint leadingInt (acc : Z) (s : string) : option (Z * string) :=
  match s with
  | String a s' =>
      if is_digit a then
        let acc := acc * 10 + Z.of_nat (nat_of_ascii a - 48) in
        if 2 ^ 63 <? acc then None else leadingInt acc s'
      else Some (acc, s)
  | EmptyString => Some (acc, s)
  end.

(** [leadingFraction]: digits past the precision of 63 bits are read and ignored. *)
Fixpoint leadingFraction (acc : Z) (scale : spec_float) (overflow : bool) (s : string) : Z * spec_float * string :=
  match s with
  | String a s' =>
      if is_digit a then
        let y := acc * 10 + Z.of_nat (nat_of_ascii a - 48) in
        if overflow || ((2 ^ 63 - 1) / 10 <? acc) || (2 ^ 63 <? y) then leadingFraction acc scale true s'
        else leadingFraction y (f64_mul scale (f64_of_int 10)) false s'
      else (acc, scale, s)
  | EmptyString => (acc, scale, s)
  end.

Fixpoint take_unit (s : string) : string * string :=
  match s with
  | String a s' =>
      if Ascii.eqb a "." || is_digit a then (EmptyString, s)
      else let '(u, rest) := take_unit s' in (String a u, rest)
  | EmptyString => (EmptyString, EmptyString)
  end.

Definition unit_of (u : string) : option Z :=
  if String.eqb u "ns" then Some 1
  else if String.eqb u "us" then Some 1000
  else if String.eqb u "ms" then Some ns_per_ms
  else if String.eqb u "s" then Some ns_per_s
  else if String.eqb u "m" then Some (60 * ns_per_s)
  else if String.eqb u "h" then Some (3600 * ns_per_s)
  else None.

(** One number with its unit. *)
Definition duration_term (s : string) : option (Z * string) :=
  match s with
  | String a _ =>
      if negb (Ascii.eqb a "." || is_digit a) then None else
      '(v, s1) ← leadingInt 0 s;
      let pre := negb (String.eqb s1 s) in
      let '(f, scale, s2, post) :=
        match s1 with
        | String "." s1' =>
            let '(f, scale, s2) := leadingFraction 0 (f64_of_int 1) false s1' in (f, scale, s2, negb (String.eqb s2 s1'))
        | _ => (0, f64_of_int 1, s1, false)
        end in
      if negb (pre || post) then None else
      let '(u, rest) := take_unit s2 in
      unit ← unit_of u;
      if 2 ^ 63 / unit <? v then None else
      let v := v * unit in
      let v := if 0 <? f then v + int_of_f64 (f64_mul (f64_of_int f) (SFdiv 53 1024 (f64_of_int unit) scale)) else v in
      if 2 ^ 63 <? v then None else Some (v, rest)
  | EmptyString => None
  end.

(** Every term consumes at least one character: the length of the text is enough. *)
Fixpoint duration_terms (fuel : nat) (acc : Z) (s : string) : option Z :=
  match s, fuel with
  | EmptyString, _ => Some acc
  | _, O => None
  | _, S fuel =>
      '(v, rest) ← duration_term s;
      if 2 ^ 63 <? acc + v then None else duration_terms fuel (acc + v) rest
  end.

(** [time.ParseDuration]; the micro sign is not ASCII and left out. *)
Definition ParseDuration (s : string) : option Z :=
  let '(neg, s) := match s with
    | String "-" s => (true, s)
    | String "+" s => (false, s)
    | _ => (false, s)
    end in
  if String.eqb s "0" then Some 0
  else if String.eqb s "" then None
  else
    d ← duration_terms (String.length s) 0 s;
    if neg then Some (- d) else if 2 ^ 63 - 1 <? d then None else Some d.

(** ** The flags of [Load] *)

Inductive Val :=
| VStr (s : string)
| VInt (n : Z)
| VUint (n : Z)
| VBool (b : bool)
| VDur (d : Z)
| VFloat (f : spec_float).

(** Name, environment variable, default. *)
Record Flag := mkFlag { fl_name : string; fl_env : string; fl_default : Val }.

Definition DefaultSubtreeGroupTTL : Z := 900 * ns_per_s.

Section Flags.
(** [runtime.NumCPU], [os.Getenv], the command line (the text given to a flag, if
    any) and [strconv.ParseFloat]. *)
Context (numCPU : Z) (getenv : string -> string) (args : string -> option string)
  (ParseFloat : string -> option spec_float).

Definition flags_receive : list Flag :=
  [
    mkFlag "iface" "MULTICAST_IF" (VStr "eth0");
    mkFlag "listen-port" "LISTEN_PORT" (VInt 9001);
    mkFlag "scope" "MC_SCOPE" (VStr "site");
    mkFlag "mc-group-id" "MC_GROUP_ID" (VStr "0x000B");
    mkFlag "source-mode" "SOURCE_MODE" (VStr "asm");
    mkFlag "mode" "LISTENER_MODE" (VStr "collapsed");
    mkFlag "ssm-bootstrap-beacon" "SSM_BOOTSTRAP_BEACON" (VStr "");
    mkFlag "ssm-bootstrap-manifest" "SSM_BOOTSTRAP_MANIFEST" (VStr "");
    mkFlag "ssm-bootstrap-subtree-announce" "SSM_BOOTSTRAP_SUBTREE_ANNOUNCE" (VStr "");
    mkFlag "ssm-publishers-static" "SSM_PUBLISHERS_STATIC" (VStr "");
    mkFlag "local-source" "LOCAL_SOURCE" (VStr "");
    mkFlag "ssm-bootstrap-refresh" "SSM_BOOTSTRAP_REFRESH" (VDur (30 * ns_per_s));
    mkFlag "shard-include" "SHARD_INCLUDE" (VStr "");
    mkFlag "subtree-include" "SUBTREE_INCLUDE" (VStr "");
    mkFlag "subtree-exclude" "SUBTREE_EXCLUDE" (VStr "");
    mkFlag "egress-addr" "EGRESS_ADDR" (VStr "127.0.0.1:9100");
    mkFlag "delivery-addrs" "DELIVERY_ADDRS" (VStr "");
    mkFlag "egress-proto" "EGRESS_PROTO" (VStr "udp");
    mkFlag "strip-header" "STRIP_HEADER" (VBool true);
    mkFlag "mc-egress-enabled" "MC_EGRESS_ENABLED" (VBool false);
    mkFlag "mc-egress-iface" "MC_EGRESS_IFACE" (VStr "");
    mkFlag "mc-egress-port" "MC_EGRESS_PORT" (VInt 0);
    mkFlag "mc-egress-scope" "MC_EGRESS_SCOPE" (VStr "");
    mkFlag "mc-egress-group-id" "MC_EGRESS_GROUP_ID" (VStr "");
    mkFlag "mc-egress-hoplimit" "MC_EGRESS_HOPLIMIT" (VInt 1);
    mkFlag "header-egress-enabled" "HEADER_EGRESS_ENABLED" (VBool false);
    mkFlag "header-egress-addr" "HEADER_EGRESS_ADDR" (VStr "127.0.0.1:9101");
    mkFlag "header-egress-proto" "HEADER_EGRESS_PROTO" (VStr "udp");
    mkFlag "header-mc-egress-enabled" "HEADER_MC_EGRESS_ENABLED" (VBool false);
    mkFlag "header-mc-egress-iface" "HEADER_MC_EGRESS_IFACE" (VStr "");
    mkFlag "header-mc-egress-port" "HEADER_MC_EGRESS_PORT" (VInt 0);
    mkFlag "header-mc-egress-scope" "HEADER_MC_EGRESS_SCOPE" (VStr "");
    mkFlag "header-mc-egress-group-id" "HEADER_MC_EGRESS_GROUP_ID" (VStr "");
    mkFlag "header-mc-egress-hoplimit" "HEADER_MC_EGRESS_HOPLIMIT" (VInt 1);
    mkFlag "retry-endpoints" "RETRY_ENDPOINTS" (VStr "");
    mkFlag "retry-tee" "RETRY_TEE" (VStr "");
    mkFlag "nack-jitter-max" "NACK_JITTER_MAX" (VDur (200 * ns_per_ms));
    mkFlag "nack-backoff-base" "NACK_BACKOFF_BASE" (VDur (500 * ns_per_ms))
  ]%string.

Definition flags_repair : list Flag :=
  [
    mkFlag "nack-backoff-max" "NACK_BACKOFF_MAX" (VDur (5 * ns_per_s));
    mkFlag "nack-max-retries" "NACK_MAX_RETRIES" (VInt 5);
    mkFlag "nack-gap-ttl" "NACK_GAP_TTL" (VDur (600 * ns_per_s));
    mkFlag "reassembly-ttl" "REASSEMBLY_TTL" (VDur (10 * ns_per_s));
    mkFlag "reassembly-max-age" "REASSEMBLY_MAX_AGE" (VDur (120 * ns_per_s));
    mkFlag "nack-tail-probe" "NACK_TAIL_PROBE" (VBool true);
    mkFlag "nack-tail-probe-idle-factor" "NACK_TAIL_PROBE_IDLE_FACTOR" (VFloat (f64_of_int 4));
    mkFlag "nack-tail-probe-min-idle" "NACK_TAIL_PROBE_MIN_IDLE" (VDur (500 * ns_per_ms));
    mkFlag "nack-tail-probe-max-misses" "NACK_TAIL_PROBE_MAX_MISSES" (VInt 3);
    mkFlag "nack-max-flows" "NACK_MAX_FLOWS" (VInt 100000);
    mkFlag "nack-max-forward-jump" "NACK_MAX_FORWARD_JUMP" (VInt 4096);
    mkFlag "beacon-enabled" "BEACON_ENABLED" (VBool true);
    mkFlag "beacon-port" "BEACON_PORT" (VInt 9300);
    mkFlag "beacon-scope" "BEACON_SCOPE" (VStr "site");
    mkFlag "control-group-compat" "CONTROL_GROUP_COMPAT" (VStr ControlGroupBoth);
    mkFlag "manifest-consumer-enabled" "MANIFEST_CONSUMER_ENABLED" (VBool false);
    mkFlag "manifest-beacon-port" "MANIFEST_BEACON_PORT" (VInt 9001);
    mkFlag "manifest-bootstrap" "MANIFEST_BOOTSTRAP" (VStr "optional");
    mkFlag "pilot-quorum" "PILOT_QUORUM" (VInt 2);
    mkFlag "pilot-hysteresis" "PILOT_HYSTERESIS" (VDur 0);
    mkFlag "shard-include-from-manifest" "SHARD_INCLUDE_FROM_MANIFEST" (VBool false);
    mkFlag "live-resharding" "LIVE_RESHARDING" (VBool false);
    mkFlag "bridging-window" "BRIDGING_WINDOW" (VDur 0);
    mkFlag "subtree-groups" "SUBTREE_GROUPS" (VStr "");
    mkFlag "subtree-group-default-ttl" "SUBTREE_GROUP_DEFAULT_TTL" (VDur DefaultSubtreeGroupTTL);
    mkFlag "announce-scope" "ANNOUNCE_SCOPE" (VStr "site");
    mkFlag "sender-include" "SENDER_INCLUDE" (VStr "");
    mkFlag "sender-exclude" "SENDER_EXCLUDE" (VStr "");
    mkFlag "workers" "NUM_WORKERS" (VInt numCPU);
    mkFlag "debug" "DEBUG" (VBool false);
    mkFlag "log-format" "LOG_FORMAT" (VStr "text");
    mkFlag "log-level" "LOG_LEVEL" (VStr "info");
    mkFlag "trace-sampling" "TRACE_SAMPLING" (VFloat (f64_of_int 0))
  ]%string.

Definition flags_stores : list Flag :=
  [
    mkFlag "verify-payload-hash" "VERIFY_PAYLOAD_HASH" (VBool false);
    mkFlag "require-block-pow" "REQUIRE_BLOCK_POW" (VBool true);
    mkFlag "min-pow-bits" "MIN_POW_BITS" (VStr "0");
    mkFlag "subtree-data-enabled" "SUBTREE_DATA_ENABLED" (VBool false);
    mkFlag "egress-dedup-cap" "EGRESS_DEDUP_CAP" (VInt 0);
    mkFlag "egress-dedup-ttl" "EGRESS_DEDUP_TTL" (VDur (2 * ns_per_s));
    mkFlag "txid-dedup-addr" "TXID_DEDUP_ADDR" (VStr "");
    mkFlag "txid-dedup-prefix" "TXID_DEDUP_PREFIX" (VStr "");
    mkFlag "txid-dedup-ttl" "TXID_DEDUP_TTL" (VDur 0);
    mkFlag "deployment-id" "DEPLOYMENT_ID" (VStr "");
    mkFlag "node-id" "NODE_ID" (VStr "");
    mkFlag "egress-dedup-backend" "EGRESS_DEDUP_BACKEND" (VStr "");
    mkFlag "egress-dedup-redis-addr" "EGRESS_DEDUP_REDIS_ADDR" (VStr "");
    mkFlag "egress-dedup-aerospike-hosts" "EGRESS_DEDUP_AEROSPIKE_HOSTS" (VStr "");
    mkFlag "egress-dedup-aerospike-namespace" "EGRESS_DEDUP_AEROSPIKE_NAMESPACE" (VStr "cache");
    mkFlag "egress-dedup-aerospike-set" "EGRESS_DEDUP_AEROSPIKE_SET" (VStr "bsl-egr");
    mkFlag "egress-dedup-prefix" "EGRESS_DEDUP_PREFIX" (VStr "bsl:egr:");
    mkFlag "egress-dedup-ttl-redis" "EGRESS_DEDUP_TTL_REDIS" (VDur (60 * ns_per_s));
    mkFlag "egress-dedup-local-cap" "EGRESS_DEDUP_LOCAL_CAP" (VInt (2 ^ 20));
    mkFlag "ingress-set-backend" "INGRESS_SET_BACKEND" (VStr "");
    mkFlag "ingress-set-redis-addr" "INGRESS_SET_REDIS_ADDR" (VStr "");
    mkFlag "ingress-set-aerospike-hosts" "INGRESS_SET_AEROSPIKE_HOSTS" (VStr "");
    mkFlag "ingress-set-aerospike-namespace" "INGRESS_SET_AEROSPIKE_NAMESPACE" (VStr "cache");
    mkFlag "ingress-set-aerospike-set" "INGRESS_SET_AEROSPIKE_SET" (VStr "bsp-tx");
    mkFlag "ingress-set-prefix" "INGRESS_SET_PREFIX" (VStr "bsp:tx:");
    mkFlag "ingress-set-ttl" "INGRESS_SET_TTL" (VDur (600 * ns_per_s));
    mkFlag "ingress-set-local-cap" "INGRESS_SET_LOCAL_CAP" (VInt (2 ^ 20));
    mkFlag "drain-timeout" "DRAIN_TIMEOUT" (VDur 0);
    mkFlag "metrics-addr" "METRICS_ADDR" (VStr ":9200");
    mkFlag "instance" "INSTANCE_ID" (VStr "");
    mkFlag "otlp-endpoint" "OTLP_ENDPOINT" (VStr "");
    mkFlag "otlp-interval" "OTLP_INTERVAL" (VDur (30 * ns_per_s));
    mkFlag "shard-bits" "SHARD_BITS" (VUint 2);
    mkFlag "beef-topics" "BEEF_TOPICS" (VStr "");
    mkFlag "beef-groups" "BEEF_GROUPS" (VStr "");
    mkFlag "beef-shard-bits" "BEEF_SHARD_BITS" (VUint 0);
    mkFlag "beef-max-object-bytes" "BEEF_MAX_OBJECT_BYTES" (VInt (2 ^ 20));
    mkFlag "beef-versions" "BEEF_VERSIONS" (VStr "");
    mkFlag "beef-verify-content" "BEEF_VERIFY_CONTENT" (VBool false);
    mkFlag "rebucket-relay" "REBUCKET_RELAY" (VBool false)
  ]%string.

Definition flag_table : list Flag := flags_receive ++ flags_repair ++ flags_stores.

Definition envStr (key def : string) : string := if String.eqb (getenv key) "" then def else getenv key.

Definition envInt (key : string) (def : Z) : Z :=
  if String.eqb (getenv key) "" then def else default def (Atoi (getenv key)).

Definition envBool (key : string) (def : bool) : bool :=
  if String.eqb (getenv key) "" then def else default def (ParseBool (getenv key)).

Definition envFloat (key : string) (def : spec_float) : spec_float :=
  if String.eqb (getenv key) "" then def else default def (ParseFloat (getenv key)).

Definition envDuration (key : string) (def : Z) : Z :=
  if String.eqb (getenv key) "" then def else default def (ParseDuration (getenv key)).

(** The default handed to the flag package. *)
Definition env_value (f : Flag) : Val :=
  match fl_default f with
  | VStr d => VStr (envStr (fl_env f) d)
  | VInt d => VInt (envInt (fl_env f) d)
  | VUint d => VUint (u64 (envInt (fl_env f) d))
  | VBool d => VBool (envBool (fl_env f) d)
  | VDur d => VDur (envDuration (fl_env f) d)
  | VFloat d => VFloat (envFloat (fl_env f) d)
  end.

(** The text of a flag on the command line, by the type of the flag. *)
Definition parse_value (kind : Val) (text : string) : option Val :=
  match kind with
  | VStr _ => Some (VStr text)
  | VInt _ => VInt <$> ParseInt0 text
  | VUint _ => VUint <$> ParseUint0 text 64
  | VBool _ => VBool <$> ParseBool text
  | VDur _ => VDur <$> ParseDuration text
  | VFloat _ => VFloat <$> ParseFloat text
  end.

(** [None] is text the flag package rejects, which ends the program. *)
Definition flag_value (f : Flag) : option Val :=
  match args (fl_name f) with
  | Some text => parse_value (fl_default f) text
  | None => Some (env_value f)
  end.

(** The values after [flag.Parse], by flag name. *)
Definition Values : Type := list (string * Val).

Fixpoint read_flags (table : list Flag) : option Values :=
  match table with
  | [] => Some []
  | f :: table => v ← flag_value f; vs ← read_flags table; Some ((fl_name f, v) :: vs)
  end.

End Flags.

Fixpoint lookup_flag (name : string) (vs : Values) : option Val :=
  match vs with
  | [] => None
  | (n, v) :: vs => if String.eqb n name then Some v else lookup_flag name vs
  end.

Definition get_str (vs : Values) (name : string) : string :=
  match lookup_flag name vs with Some (VStr s) => s | _ => EmptyString end.

Definition get_int (vs : Values) (name : string) : Z :=
  match lookup_flag name vs with Some (VInt n) | Some (VUint n) | Some (VDur n) => n | _ => 0 end.

Definition get_bool (vs : Values) (name : string) : bool :=
  match lookup_flag name vs with Some (VBool b) => b | _ => false end.
