(* ===== verification/ConfigLoad.v ===== *)
(** * Loading the configuration (config/config.go)

    [Load] after [flag.Parse]: every check and derivation in the order of the
    code, in an error monad whose errors name the check that failed.  What the
    host answers (interfaces, host name, processors), the scope and prefix
    functions of the shard library and the standard library's address parsers
    are parameters.  Flags that [Load] only passes through stay in the values. *)

From Stdlib Require Import Ascii.
From S2P Require Import Prelude SubtreeGroup Filter Config ConfigFlags.

(** ** Errors *)

Inductive LoadErr :=
| ErrFlag
| ErrMinPoWBits
| ErrShardBits
| ErrBEEFShardBits
| ErrBEEFMaxObject
| ErrBEEFGroup (g : string)
| ErrBEEFGroupRange (n : Z)
| ErrBEEFVersion (tok : string)
| ErrMode
| ErrScope
| ErrSSMScope
| ErrPrefix
| ErrSourceMode
| ErrControlGroupCompat
| ErrBeaconGroup (e : PrefixError)
| ErrSSMRefresh
| ErrSSMSources
| ErrSSMStatic
| ErrGroupID
| ErrEgressProto
| ErrIface
| ErrMCScope
| ErrMCGroupID
| ErrMCIface
| ErrHeaderEgressProto
| ErrHeaderMCScope
| ErrHeaderMCGroupID
| ErrHeaderMCIface
| ErrShardInclude (s : string)
| ErrShardIncludeRange (n : Z)
| ErrSubtreeInclude
| ErrSubtreeExclude
| ErrSubtreeGroups
| ErrAnnounceScope (s : string)
| ErrAnnounceGroup (e : PrefixError)
| ErrSenderInclude
| ErrSenderExclude
| ErrDedupBackend (b : string)
| ErrManifestBootstrap
| ErrPilotQuorum
| ErrManifestPort
| ErrReshardCap
| ErrReshardTTL.

Definition res (A : Type) : Type := (LoadErr + A)%type.

#[export] Instance res_ret : MRet res := fun A a => inr a.
#[export] Instance res_bind : MBind res := fun A B k m => match m with inl e => inl e | inr a => k a end.

(** [if cond { return err }]. *)
Definition reject (b : bool) (e : LoadErr) : res unit := if b then inl e else inr tt.

Definition require {A} (x : option A) (e : LoadErr) : res A := match x with Some a => inr a | None => inl e end.

Fixpoint traverse {A B} (f : A -> res B) (l : list A) : res (list B) :=
  match l with [] => mret [] | x :: l => y ← f x; ys ← traverse f l; mret (y :: ys) end.

(** ** The result *)

(** The parameters of one multicast egress. *)
Record MCEgress (Iface : Type) := mkMCEgress {
  mc_Scope : string; mc_Prefix : Z; mc_GroupID : Z; mc_Port : Z; mc_Iface : Iface
}.
Arguments mkMCEgress {_}.
Arguments mc_Scope {_}.
Arguments mc_Prefix {_}.
Arguments mc_GroupID {_}.
Arguments mc_Port {_}.
Arguments mc_Iface {_}.

Record BEEFPlane := mkBEEFPlane {
  BEEFShardBits : Z; BEEFMaxObjectBytes : Z; BEEFTopics : list string; BEEFGroups : list Z; BEEFVersions : list string
}.

Record SSMSources := mkSSMSources {
  SSMBootstrapBeacon : list string;
  SSMBootstrapManifest : list string;
  SSMBootstrapSubtreeAnn : list string;
  SSMPublishersStatic : list string
}.

Record DedupStores := mkDedupStores {
  EgressDedupRedisAddr : string;
  EgressDedupPrefix : string;
  EgressDedupTTL2 : Z;
  EgressDedupAeroHosts : list string;
  EgressDedupBackend : string;
  IngressSetAeroHosts : list string;
  IngressSetBackend : string
}.

(** [Config]: what [Load] derives, and the values it passes through. *)
Record Cfg (Iface : Type) := mkCfg {
  cf_values : Values;
  MinPoWBits : Z;
  ShardBits : Z;
  NumGroups : Z;
  cf_BEEF : BEEFPlane;
  Mode : string;
  SourceMode : string;
  MCPrefix : Z;
  ControlGroupCompat : string;
  cf_SSM : SSMSources;
  DeliveryAddrs : list string;
  MCGroupID : Z;
  NumWorkers : Z;
  cf_Iface : Iface;
  cf_MCEgress : option (MCEgress Iface);
  cf_HeaderMCEgress : option (MCEgress Iface);
  RetryEndpoints : list string;
  ShardInclude : list Z;
  SubtreeInclude : list bytes;
  SubtreeExclude : list bytes;
  SubtreeGroups : list bytes;
  AnnounceScopes : list string;
  SenderIncludes : list IPNet;
  SenderExcludes : list IPNet;
  cf_Dedup : DedupStores;
  DeploymentID : string;
  NodeID : string
}.
Arguments mkCfg {_}.
Arguments cf_values {_}.
Arguments MinPoWBits {_}.
Arguments ShardBits {_}.
Arguments NumGroups {_}.
Arguments cf_BEEF {_}.
Arguments Mode {_}.
Arguments SourceMode {_}.
Arguments MCPrefix {_}.
Arguments ControlGroupCompat {_}.
Arguments cf_SSM {_}.
Arguments DeliveryAddrs {_}.
Arguments MCGroupID {_}.
Arguments NumWorkers {_}.
Arguments cf_Iface {_}.
Arguments cf_MCEgress {_}.
Arguments cf_HeaderMCEgress {_}.
Arguments RetryEndpoints {_}.
Arguments ShardInclude {_}.
Arguments SubtreeInclude {_}.
Arguments SubtreeExclude {_}.
Arguments SubtreeGroups {_}.
Arguments AnnounceScopes {_}.
Arguments SenderIncludes {_}.
Arguments SenderExcludes {_}.
Arguments cf_Dedup {_}.
Arguments DeploymentID {_}.
Arguments NodeID {_}.

(** ** The stages *)

Section Load.
Context {Iface Scope : Type} (InterfaceByName : string -> option Iface) (hostname : option string) (numCPU : Z)
  (ParseScope : string -> option Scope) (PrefixSSM : Scope -> option Z)
  (ParseIP : string -> option bytes) (ParseCIDR : string -> option IPNet).

Local Abbreviation prefixes := (ControlGroupPrefixes ParseScope PrefixSSM).

(** [strings.Split] at commas, trimmed, without empty parts. *)
Definition split_trim (s : string) : list string := List.filter nonempty (TrimSpace <$> Split "," s).

(** The difficulty floor: hexadecimal after 0x, else decimal. *)
Definition load_pow (vs : Values) : res Z :=
  let s := TrimSpace (get_str vs "min-pow-bits") in
  require
    match ToLower s, s with
    | String "0" (String "x" _), String _ (String _ rest) => ParseUint rest 16 32
    | _, _ => ParseUint s 10 32
    end ErrMinPoWBits.

Definition load_shard_bits (vs : Values) : res Z :=
  let bits := get_int vs "shard-bits" in
  reject ((bits <? 1) || (12 <? bits)) ErrShardBits ;;
  mret bits.

Definition load_beef_group (bits : Z) (g : string) : res Z :=
  v ← require (ParseUint0 g 32) (ErrBEEFGroup g);
  reject (2 ^ bits <=? v) (ErrBEEFGroupRange v) ;;
  mret v.

Definition load_beef_version (tok : string) : res string :=
  if bool_decide (tok ∈ ["beef"; "beefv2"; "atomic"]%string) then mret tok else inl (ErrBEEFVersion tok).

Definition load_beef (vs : Values) : res BEEFPlane :=
  let bits := get_int vs "beef-shard-bits" in
  reject (12 <? bits) ErrBEEFShardBits ;;
  reject (get_int vs "beef-max-object-bytes" <? 1) ErrBEEFMaxObject ;;
  groups ← traverse (load_beef_group bits) (split_trim (get_str vs "beef-groups"));
  versions ← traverse load_beef_version
    (List.filter nonempty ((fun tok => ToLower (TrimSpace tok)) <$> Split "," (get_str vs "beef-versions")));
  mret (mkBEEFPlane bits (get_int vs "beef-max-object-bytes") (split_trim (get_str vs "beef-topics")) groups versions).

Definition load_mode (vs : Values) : res string :=
  let m := ToLower (get_str vs "mode") in
  if String.eqb m "" || String.eqb m "collapsed" then mret "collapsed"%string
  else if String.eqb m "receiver" then mret "receiver"%string
  else if String.eqb m "delivery" then mret "delivery"%string
  else inl ErrMode.

(** The source mode and the upper 16 bits of the group addresses. *)
Definition load_source (vs : Values) : res (string * Z) :=
  let m := ToLower (get_str vs "source-mode") in
  if String.eqb m "asm" then
    prefix ← require (Scopes (get_str vs "scope")) ErrScope;
    mret ("asm"%string, prefix)
  else if String.eqb m "ssm" then
    scope ← require (ParseScope (get_str vs "scope")) ErrSSMScope;
    prefix ← require (PrefixSSM scope) ErrPrefix;
    mret ("ssm"%string, prefix)
  else inl ErrSourceMode.

Definition load_control (vs : Values) (sourceMode : string) : res string :=
  let compat := ToLower (TrimSpace (get_str vs "control-group-compat")) in
  reject (negb (bool_decide (compat ∈ [ControlGroupASMOnly; ControlGroupBoth; ControlGroupDerived]))) ErrControlGroupCompat ;;
  (if get_bool vs "beacon-enabled" then
     match prefixes compat sourceMode (get_str vs "beacon-scope") with inr e => inl (ErrBeaconGroup e) | inl _ => mret tt end
   else mret tt) ;;
  mret compat.

Definition load_ssm (vs : Values) (sourceMode : string) : res SSMSources :=
  let s := mkSSMSources (splitCSV (get_str vs "ssm-bootstrap-beacon")) (splitCSV (get_str vs "ssm-bootstrap-manifest"))
    (splitCSV (get_str vs "ssm-bootstrap-subtree-announce")) (splitCSV (get_str vs "ssm-publishers-static")) in
  reject (get_int vs "ssm-bootstrap-refresh" <=? 0) ErrSSMRefresh ;;
  (if String.eqb sourceMode "ssm" then
     reject ((length (SSMBootstrapBeacon s) =? 0) && (length (SSMBootstrapManifest s) =? 0) &&
             (length (SSMBootstrapSubtreeAnn s) =? 0) && (length (SSMPublishersStatic s) =? 0))%nat ErrSSMSources ;;
     reject ((16 <? length (SSMPublishersStatic s)) && (length (SSMBootstrapManifest s) =? 0))%nat ErrSSMStatic
   else mret tt) ;;
  mret s.

(** A multicast egress: scope, group id, port and interface default to those of
    the ingress. *)
Definition load_mc (eScope eGroup eIface : LoadErr) (scope gidFlag : string) (port : Z) (ifaceFlag : string)
    (ingressScope : string) (ingressGroup ingressPort : Z) (ingressIface : Iface) : res (MCEgress Iface) :=
  let scope := if String.eqb scope "" then ingressScope else scope in
  prefix ← require (Scopes scope) eScope;
  gid ← (if String.eqb gidFlag "" then mret ingressGroup else require (parseGroupID gidFlag) eGroup);
  let port := if port =? 0 then ingressPort else port in
  ifc ← (if String.eqb ifaceFlag "" then mret ingressIface else require (InterfaceByName ifaceFlag) eIface);
  mret (mkMCEgress scope prefix gid port ifc).

Definition load_mc_egress (vs : Values) (gid : Z) (ifc : Iface) : res (option (MCEgress Iface)) :=
  if get_bool vs "mc-egress-enabled" then
    m ← load_mc ErrMCScope ErrMCGroupID ErrMCIface (get_str vs "mc-egress-scope") (get_str vs "mc-egress-group-id")
      (get_int vs "mc-egress-port") (get_str vs "mc-egress-iface") (get_str vs "scope") gid (get_int vs "listen-port") ifc;
    mret (Some m)
  else mret None.

Definition load_header_egress (vs : Values) (gid : Z) (ifc : Iface) : res (option (MCEgress Iface)) :=
  let proto := get_str vs "header-egress-proto" in
  reject (get_bool vs "header-egress-enabled" && negb (String.eqb proto "udp") && negb (String.eqb proto "tcp"))
    ErrHeaderEgressProto ;;
  if get_bool vs "header-mc-egress-enabled" then
    m ← load_mc ErrHeaderMCScope ErrHeaderMCGroupID ErrHeaderMCIface (get_str vs "header-mc-egress-scope")
      (get_str vs "header-mc-egress-group-id") (get_int vs "header-mc-egress-port") (get_str vs "header-mc-egress-iface")
      (get_str vs "scope") gid (get_int vs "listen-port") ifc;
    mret (Some m)
  else mret None.

Definition load_shard (numGroups : Z) (s : string) : res Z :=
  idx ← require (ParseUint s 10 32) (ErrShardInclude s);
  reject (numGroups <=? u32 idx) (ErrShardIncludeRange idx) ;;
  mret (u32 idx).

Definition load_shard_include (vs : Values) (numGroups : Z) : res (list Z) :=
  traverse (load_shard numGroups) (List.filter nonempty (splitComma (get_str vs "shard-include"))).

Definition load_announce_scope (s : string) : res string :=
  if is_set (Scopes s) then mret s else inl (ErrAnnounceScope s).

Definition load_announce (vs : Values) (compat sourceMode : string) : res (list string) :=
  scopes ← traverse load_announce_scope (List.filter nonempty (splitComma (get_str vs "announce-scope")));
  let scopes := match scopes with [] => ["site"%string] | _ => scopes end in
  traverse (fun s => match prefixes compat sourceMode s with inr e => inl (ErrAnnounceGroup e) | inl _ => mret s end) scopes.

Fixpoint Contains (c : ascii) (s : string) : bool :=
  match s with EmptyString => false | String a s => Ascii.eqb a c || Contains c s end.

(** An address or a CIDR block. *)
Definition parse_ipnet (addr : string) : option IPNet :=
  if Contains "/" addr then ParseCIDR addr
  else
    ip ← ParseIP addr;
    Some (mkIPNet ip (repeat 255 (if is_set (To4 ip) then 4 else 16)%nat)).

Definition parseIPNetList (s : string) (e : LoadErr) : res (list IPNet) :=
  traverse (fun addr => require (parse_ipnet addr) e) (List.filter nonempty (splitComma s)).

(** The deprecated aliases. *)
Definition load_aliases (vs : Values) : string * string * Z :=
  let addr := get_str vs "egress-dedup-redis-addr" in
  let old := get_str vs "txid-dedup-addr" in
  (if String.eqb addr "" && negb (String.eqb old "") then old else addr,
   if String.eqb (get_str vs "txid-dedup-prefix") "" then get_str vs "egress-dedup-prefix" else get_str vs "txid-dedup-prefix",
   if 0 <? get_int vs "txid-dedup-ttl" then get_int vs "txid-dedup-ttl" else get_int vs "egress-dedup-ttl-redis").

(** The backend, inferred from the address when not given. *)
Definition infer_backend (backend addr : string) : string :=
  if negb (String.eqb backend "") then backend
  else if negb (String.eqb addr "") then "redis" else "none".

Definition check_backend (b : string) : res string :=
  if bool_decide (b ∈ ["redis"; "aerospike"; "memory"; "none"]%string) then mret b else inl (ErrDedupBackend b).

Definition load_dedup (vs : Values) : res DedupStores :=
  let '(addr, prefix, ttl) := load_aliases vs in
  eg ← check_backend (infer_backend (get_str vs "egress-dedup-backend") addr);
  ing ← check_backend (infer_backend (get_str vs "ingress-set-backend") (get_str vs "ingress-set-redis-addr"));
  mret (mkDedupStores addr prefix ttl (split_trim (get_str vs "egress-dedup-aerospike-hosts")) eg
    (split_trim (get_str vs "ingress-set-aerospike-hosts")) ing).

Definition load_ids (vs : Values) : string * string :=
  let dep := get_str vs "deployment-id" in
  let dep :=
    if negb (String.eqb dep "") then dep
    else match hostname with Some h => if String.eqb h "" then "unknown"%string else h | None => "unknown"%string end in
  (dep, if String.eqb (get_str vs "node-id") "" then dep else get_str vs "node-id").

Definition load_manifest (vs : Values) : res unit :=
  let resharding := get_bool vs "manifest-consumer-enabled" && get_bool vs "live-resharding" in
  reject (negb (bool_decide (get_str vs "manifest-bootstrap" ∈ ["optional"; "required"]%string))) ErrManifestBootstrap ;;
  reject (get_int vs "pilot-quorum" <? 1) ErrPilotQuorum ;;
  reject ((get_int vs "manifest-beacon-port" <? 1) || (65535 <? get_int vs "manifest-beacon-port")) ErrManifestPort ;;
  reject (resharding && (get_int vs "egress-dedup-cap" =? 0)) ErrReshardCap ;;
  reject (resharding && (get_int vs "egress-dedup-ttl" <? 4 * ns_per_s)) ErrReshardTTL.

(** ** Load *)

(** The part of [Load] after [flag.Parse]. *)
Definition load_values (vs : Values) : res (Cfg Iface) :=
  pow ← load_pow vs;
  bits ← load_shard_bits vs;
  let numGroups := u32 (2 ^ bits) in
  beef ← load_beef vs;
  mode ← load_mode vs;
  '(sourceMode, prefix) ← load_source vs;
  compat ← load_control vs sourceMode;
  ssm ← load_ssm vs sourceMode;
  gid ← require (parseGroupID (get_str vs "mc-group-id")) ErrGroupID;
  reject (negb (String.eqb (get_str vs "egress-proto") "udp") && negb (String.eqb (get_str vs "egress-proto") "tcp"))
    ErrEgressProto ;;
  let workers := if get_int vs "workers" <=? 0 then numCPU else get_int vs "workers" in
  ifc ← require (InterfaceByName (get_str vs "iface")) ErrIface;
  mc ← load_mc_egress vs gid ifc;
  hmc ← load_header_egress vs gid ifc;
  include ← load_shard_include vs numGroups;
  sinc ← require (parseSubtreeList (get_str vs "subtree-include")) ErrSubtreeInclude;
  sexc ← require (parseSubtreeList (get_str vs "subtree-exclude")) ErrSubtreeExclude;
  sgrp ← require (parseGroupList (get_str vs "subtree-groups")) ErrSubtreeGroups;
  scopes ← load_announce vs compat sourceMode;
  ninc ← parseIPNetList (get_str vs "sender-include") ErrSenderInclude;
  nexc ← parseIPNetList (get_str vs "sender-exclude") ErrSenderExclude;
  dedup ← load_dedup vs;
  let '(dep, node) := load_ids vs in
  load_manifest vs ;;
  mret (mkCfg vs pow bits numGroups beef mode sourceMode prefix compat ssm (splitCSV (get_str vs "delivery-addrs")) gid
    workers ifc mc hmc (List.filter nonempty (splitComma (get_str vs "retry-endpoints"))) include sinc sexc sgrp scopes
    ninc nexc dedup dep node).

(** [Load]: the flags, then the checks. *)
Definition Load (getenv : string -> string) (args : string -> option string)
    (ParseFloat : string -> option SpecFloat.spec_float) : res (Cfg Iface) :=
  vs ← require (read_flags getenv args ParseFloat (flag_table numCPU)) ErrFlag;
  load_values vs.

End Load.
