(* ===== verification/ConfigLoadProps.v ===== *)
(** * Loading the configuration: properties

    A configuration that [Load] accepts is well-formed; the command line wins over
    the environment and the environment over the default; the defaults load. *)

From Stdlib Require Import Ascii.
From S2P Require Import Prelude SubtreeGroup Filter Config ConfigProps ConfigFlags ConfigLoad.

(** ** The error monad *)

Lemma bind_inr {A B} (m : res A) (k : A -> res B) b :
  mbind k m = inr b -> exists a, m = inr a /\ k a = inr b.
Proof. destruct m as [e|a]; [done|]. intros Hk. by exists a. Qed.

Lemma reject_inr b e u : reject b e = inr u -> b = false.
Proof. by destruct b. Qed.

Lemma require_inr {A} (x : option A) e a : require x e = inr a -> x = Some a.
Proof. destruct x; [|done]. by intros [= ->]. Qed.

Lemma traverse_inr {A B} (f : A -> res B) l ys :
  traverse f l = inr ys -> Forall2 (fun x y => f x = inr y) l ys.
Proof.
  revert ys. induction l as [|x l IH]; intros ys Hl; cbn in Hl.
  - injection Hl as <-. constructor.
  - apply bind_inr in Hl as (y & Hy & Hl). apply bind_inr in Hl as (ys' & Hys & Hl). injection Hl as <-.
    constructor; [done|by apply IH].
Qed.

Lemma traverse_forall {A B} (f : A -> res B) (P : B -> Prop) l ys :
  (forall x y, f x = inr y -> P y) -> traverse f l = inr ys -> Forall P ys.
Proof.
  intros Hf Hl. apply traverse_inr in Hl. induction Hl as [|x y l ys Hy _ IH]; [constructor|].
  constructor; [by apply (Hf x)|done].
Qed.

(** Takes an accepted computation apart. *)
Ltac res_inv :=
  repeat match goal with
  | Hx : mbind _ _ = inr _ |- _ => apply bind_inr in Hx as (? & ? & ?)
  | Hx : reject _ _ = inr _ |- _ => apply reject_inr in Hx
  | Hx : require _ _ = inr _ |- _ => apply require_inr in Hx
  | Hx : mret _ = inr _ |- _ => injection Hx as ?; subst
  | Hx : @inr _ _ _ = inr _ |- _ => injection Hx as ?; subst
  | Hx : inl _ = inr _ |- _ => discriminate Hx
  end.

(** ** Well-formed configurations *)

Section Load.
Context {Iface Scope : Type} (InterfaceByName : string -> option Iface) (hostname : option string) (numCPU : Z)
  (ParseScope : string -> option Scope) (PrefixSSM : Scope -> option Z)
  (ParseIP : string -> option bytes) (ParseCIDR : string -> option IPNet).

(** A resolved multicast egress: its interface is the ingress's or the one named. *)
Definition mc_ok (ingressPort : Z) (ingress : Iface) (m : MCEgress Iface) : Prop :=
  Scopes (mc_Scope m) = Some (mc_Prefix m) /\ 0 <= mc_GroupID m < 2 ^ 16 /\ (ingressPort <> 0 -> mc_Port m <> 0) /\
  (mc_Iface m = ingress \/ exists name, InterfaceByName name = Some (mc_Iface m)).

Record BeefOk (b : BEEFPlane) : Prop := mkBeefOk {
  bo_bits : BEEFShardBits b <= 12;
  bo_object : 1 <= BEEFMaxObjectBytes b;
  bo_groups : Forall (fun g => 0 <= g < 2 ^ BEEFShardBits b) (BEEFGroups b);
  bo_versions : Forall (fun v => v ∈ ["beef"; "beefv2"; "atomic"]%string) (BEEFVersions b)
}.

(** The parsed entries of a sender list. *)
Definition senders_ok (entries : string) (nets : list IPNet) : Prop :=
  Forall2 (fun addr n => parse_ipnet ParseIP ParseCIDR addr = Some n) (List.filter nonempty (splitComma entries)) nets.

(** What the rest of the program relies on: a field for every check of [Load]. *)
Record WellFormed (c : Cfg Iface) : Prop := mkWellFormed {
  wf_bits : 1 <= ShardBits c <= 12 /\ NumGroups c = 2 ^ ShardBits c;
  wf_pow : 0 <= MinPoWBits c < 2 ^ 32;
  wf_beef : BeefOk (cf_BEEF c);
  wf_mode : Mode c ∈ ["collapsed"; "receiver"; "delivery"]%string;
  wf_source :
    (SourceMode c = "asm"%string /\ Scopes (get_str (cf_values c) "scope") = Some (MCPrefix c)) \/
    (SourceMode c = "ssm"%string /\
     exists sc, ParseScope (get_str (cf_values c) "scope") = Some sc /\ PrefixSSM sc = Some (MCPrefix c));
  wf_compat : ControlGroupCompat c ∈ [ControlGroupASMOnly; ControlGroupBoth; ControlGroupDerived];
  wf_beacon : get_bool (cf_values c) "beacon-enabled" = true ->
    exists ps, ControlGroupPrefixes ParseScope PrefixSSM (ControlGroupCompat c) (SourceMode c)
      (get_str (cf_values c) "beacon-scope") = inl ps;
  wf_announce : AnnounceScopes c <> [] /\ Forall (fun s => is_Some (Scopes s) /\
    exists ps, ControlGroupPrefixes ParseScope PrefixSSM (ControlGroupCompat c) (SourceMode c) s = inl ps) (AnnounceScopes c);
  wf_ssm : SourceMode c = "ssm"%string ->
    SSMBootstrapBeacon (cf_SSM c) <> [] \/ SSMBootstrapManifest (cf_SSM c) <> [] \/
    SSMBootstrapSubtreeAnn (cf_SSM c) <> [] \/ SSMPublishersStatic (cf_SSM c) <> [];
  wf_refresh : 0 < get_int (cf_values c) "ssm-bootstrap-refresh";
  wf_static : SourceMode c = "ssm"%string ->
    (length (SSMPublishersStatic (cf_SSM c)) <= 16)%nat \/ SSMBootstrapManifest (cf_SSM c) <> [];
  wf_proto : get_str (cf_values c) "egress-proto" ∈ ["udp"; "tcp"]%string;
  wf_header_proto : get_bool (cf_values c) "header-egress-enabled" = true ->
    get_str (cf_values c) "header-egress-proto" ∈ ["udp"; "tcp"]%string;
  wf_iface : InterfaceByName (get_str (cf_values c) "iface") = Some (cf_Iface c);
  wf_group : 0 <= MCGroupID c < 2 ^ 16;
  wf_workers : 1 <= NumWorkers c;
  wf_mc : forall m, cf_MCEgress c = Some m \/ cf_HeaderMCEgress c = Some m ->
    mc_ok (get_int (cf_values c) "listen-port") (cf_Iface c) m;
  wf_mc_enabled : is_set (cf_MCEgress c) = get_bool (cf_values c) "mc-egress-enabled" /\
    is_set (cf_HeaderMCEgress c) = get_bool (cf_values c) "header-mc-egress-enabled";
  wf_include : Forall (fun i => 0 <= i < NumGroups c) (ShardInclude c);
  wf_subtrees : Forall (fun id => length id = 32%nat) (SubtreeInclude c ++ SubtreeExclude c) /\
    Forall (fun id => length id = 16%nat) (SubtreeGroups c);
  wf_senders : senders_ok (get_str (cf_values c) "sender-include") (SenderIncludes c) /\
    senders_ok (get_str (cf_values c) "sender-exclude") (SenderExcludes c);
  wf_backends : EgressDedupBackend (cf_Dedup c) ∈ ["redis"; "aerospike"; "memory"; "none"]%string /\
    IngressSetBackend (cf_Dedup c) ∈ ["redis"; "aerospike"; "memory"; "none"]%string;
  wf_ids : DeploymentID c <> EmptyString /\ NodeID c <> EmptyString;
  wf_manifest : get_str (cf_values c) "manifest-bootstrap" ∈ ["optional"; "required"]%string /\
    1 <= get_int (cf_values c) "pilot-quorum" /\ 1 <= get_int (cf_values c) "manifest-beacon-port" <= 65535;
  wf_resharding : get_bool (cf_values c) "manifest-consumer-enabled" = true ->
    get_bool (cf_values c) "live-resharding" = true ->
    get_int (cf_values c) "egress-dedup-cap" <> 0 /\ 4 * ns_per_s <= get_int (cf_values c) "egress-dedup-ttl"
}.

(** ** The stages *)

Lemma ParseUint_range s base bits n : 0 < base -> ParseUint s base bits = Some n -> 0 <= n < 2 ^ bits.
Proof.
  unfold ParseUint. intros Hb. destruct (String.eqb s ""); [done|].
  destruct (digits base 0 s) as [m|] eqn:Hd; [|done]. cbn. destruct (Z.ltb_spec m (2 ^ bits)); [|done].
  intros [= <-]. split; [|done]. eapply digits_bound; [exact Hb| |exact Hd]. done.
Qed.

Lemma ParseUint0_range s bits n : ParseUint0 s bits = Some n -> 0 <= n < 2 ^ bits.
Proof.
  unfold ParseUint0. destruct (String.eqb s ""); [done|]. destruct (literal_base s) as [base rest] eqn:Hl.
  destruct (digits base 0 (drop_underscores rest)) as [m|] eqn:Hd; [|done]. cbn.
  case_match; [done|]. destruct (Z.ltb_spec m (2 ^ bits)); [|done]. intros [= <-]. split; [|done].
  eapply (digits_bound base); [|done|exact Hd]. unfold literal_base in Hl. by repeat case_match; simplify_eq.
Qed.

Lemma load_pow_ok vs n : load_pow vs = inr n -> 0 <= n < 2 ^ 32.
Proof.
  unfold load_pow. intros Hn. res_inv.
  repeat case_match; first [by eapply (ParseUint_range _ 10) | by eapply (ParseUint_range _ 16)].
Qed.

Lemma load_shard_bits_ok vs b : load_shard_bits vs = inr b -> 1 <= b <= 12.
Proof. unfold load_shard_bits. intros Hb. res_inv. bool_to_prop. lia. Qed.

Lemma load_beef_ok vs b : load_beef vs = inr b -> BeefOk b.
Proof.
  unfold load_beef. intros Hb. res_inv. bool_to_prop. split; cbn [BEEFShardBits BEEFMaxObjectBytes BEEFGroups BEEFVersions]; [lia|lia| |].
  - eapply traverse_forall; [|eassumption]. intros g v Hg. unfold load_beef_group in Hg. res_inv.
    match goal with Hp : ParseUint0 _ _ = Some _ |- _ => apply ParseUint0_range in Hp end. bool_to_prop. lia.
  - eapply traverse_forall; [|eassumption]. intros t v Ht. unfold load_beef_version in Ht.
    case_bool_decide; [|done]. by res_inv.
Qed.

Lemma load_mode_ok vs m : load_mode vs = inr m -> m ∈ ["collapsed"; "receiver"; "delivery"]%string.
Proof.
  unfold load_mode. intros Hm. repeat case_match; try done; res_inv; rewrite !elem_of_cons; tauto.
Qed.

Lemma load_source_ok vs m p :
  load_source ParseScope PrefixSSM vs = inr (m, p) ->
  (m = "asm"%string /\ Scopes (get_str vs "scope") = Some p) \/
  (m = "ssm"%string /\ exists sc, ParseScope (get_str vs "scope") = Some sc /\ PrefixSSM sc = Some p).
Proof.
  unfold load_source. intros Hm. repeat case_match; try done; res_inv; simplify_eq; [by left|right].
  split; [done|]. eauto.
Qed.

Lemma load_control_ok vs m compat :
  load_control ParseScope PrefixSSM vs m = inr compat ->
  compat ∈ [ControlGroupASMOnly; ControlGroupBoth; ControlGroupDerived] /\
  (get_bool vs "beacon-enabled" = true ->
   exists ps, ControlGroupPrefixes ParseScope PrefixSSM compat m (get_str vs "beacon-scope") = inl ps).
Proof.
  unfold load_control. intros Hc. res_inv. split.
  - match goal with Hx : negb _ = false |- _ => apply negb_false_iff, bool_decide_eq_true in Hx; exact Hx end.
  - intros Hb. rewrite Hb in *. case_match; [|done]. eauto.
Qed.

Lemma load_ssm_ok vs m s :
  load_ssm vs m = inr s ->
  0 < get_int vs "ssm-bootstrap-refresh" /\
  (m = "ssm"%string ->
   (SSMBootstrapBeacon s <> [] \/ SSMBootstrapManifest s <> [] \/ SSMBootstrapSubtreeAnn s <> [] \/ SSMPublishersStatic s <> []) /\
   ((length (SSMPublishersStatic s) <= 16)%nat \/ SSMBootstrapManifest s <> [])).
Proof.
  unfold load_ssm. cbv zeta. set (s0 := mkSSMSources _ _ _ _). clearbody s0. intros Hs. res_inv. bool_to_prop.
  split; [lia|]. intros ->. cbn [String.eqb Ascii.eqb Bool.eqb] in *. res_inv. split.
  - destruct s as [[|] [|] [|] [|]]; cbn in *; try done; auto.
  - match goal with Hx : ((16 <? _) && _)%nat = false |- _ => apply andb_false_iff in Hx as [Hx%Nat.ltb_ge|Hx] end; [by left|].
    right. intros E. by rewrite E in *.
Qed.

Lemma load_mc_ok e1 e2 e3 scope gidf port ifcf sc0 ig ip ii m :
  load_mc InterfaceByName e1 e2 e3 scope gidf port ifcf sc0 ig ip ii = inr m -> 0 <= ig < 2 ^ 16 -> mc_ok ip ii m.
Proof.
  unfold load_mc, mc_ok. intros Hm Hg. res_inv. cbn [mc_Scope mc_Prefix mc_GroupID mc_Port mc_Iface]. split; [done|].
  split; [|split].
  - match goal with Hx : (if String.eqb gidf "" then _ else _) = _ |- _ => rename Hx into Hgid end.
    destruct (String.eqb gidf ""); res_inv; [done|]. by eapply parseGroupID_bound.
  - intros Hip. destruct (Z.eqb_spec port 0); [done|done].
  - match goal with Hx : (if String.eqb ifcf "" then _ else _) = _ |- _ => rename Hx into Hif end.
    destruct (String.eqb ifcf ""); res_inv; eauto.
Qed.

Lemma proto_ok s : negb (String.eqb s "udp") && negb (String.eqb s "tcp") = false -> s ∈ ["udp"; "tcp"]%string.
Proof. rewrite !elem_of_cons. destruct (String.eqb_spec s "udp"), (String.eqb_spec s "tcp"); try done; auto. Qed.

(** Both multicast egresses. *)
Lemma egress_ok vs gid ifc mc hmc :
  0 <= gid < 2 ^ 16 -> load_mc_egress InterfaceByName vs gid ifc = inr mc ->
  load_header_egress InterfaceByName vs gid ifc = inr hmc ->
  (forall m, mc = Some m \/ hmc = Some m -> mc_ok (get_int vs "listen-port") ifc m) /\
  (is_set mc = get_bool vs "mc-egress-enabled" /\ is_set hmc = get_bool vs "header-mc-egress-enabled") /\
  (get_bool vs "header-egress-enabled" = true -> get_str vs "header-egress-proto" ∈ ["udp"; "tcp"]%string).
Proof.
  unfold load_mc_egress, load_header_egress. intros Hg Hmc Hh. split; [intros m [->| ->]|split; [split|]].
  - destruct (get_bool vs "mc-egress-enabled"); [|discriminate Hmc].
    apply bind_inr in Hmc as (m' & Hm & [= ->]). by eapply load_mc_ok.
  - apply bind_inr in Hh as (u & _ & Hh). destruct (get_bool vs "header-mc-egress-enabled"); [|discriminate Hh].
    apply bind_inr in Hh as (m' & Hm & [= ->]). by eapply load_mc_ok.
  - destruct (get_bool vs "mc-egress-enabled"); by res_inv.
  - destruct (get_bool vs "header-mc-egress-enabled"); by res_inv.
  - intros Hen. apply bind_inr in Hh as (u & Hp & _). apply reject_inr in Hp. rewrite Hen in Hp. by apply proto_ok.
Qed.

Lemma load_shard_include_ok vs n l :
  load_shard_include vs n = inr l -> Forall (fun i => 0 <= i < n) l.
Proof.
  unfold load_shard_include. apply traverse_forall. intros s i Hi. unfold load_shard in Hi. res_inv.
  match goal with Hp : ParseUint _ _ _ = Some _ |- _ => apply ParseUint_range in Hp; [|done] end.
  bool_to_prop. unfold u32 in *. rewrite Z.mod_small in * by lia. lia.
Qed.

Lemma parse_ids_ok size l ids : parse_ids size l = Some ids -> Forall (fun id => length id = size) ids.
Proof.
  revert ids. induction l as [|h l IH]; intros ids Hl; cbn in Hl; [by simplify_eq|].
  case_match; [by apply IH|]. destruct (DecodeHex _) as [b|]; [|done]. cbn in Hl. case_match eqn:Hs; [done|].
  destruct (parse_ids size l) as [rest|]; [|done]. cbn in Hl. injection Hl as <-. constructor; [|by apply IH].
  by apply negb_false_iff, Nat.eqb_eq in Hs.
Qed.

Lemma load_announce_ok vs compat m scopes :
  load_announce ParseScope PrefixSSM vs compat m = inr scopes ->
  scopes <> [] /\
  Forall (fun s => is_Some (Scopes s) /\ exists ps, ControlGroupPrefixes ParseScope PrefixSSM compat m s = inl ps) scopes.
Proof.
  unfold load_announce. intros Hs. apply bind_inr in Hs as (x & Hx & Ht).
  assert (Hk : Forall (fun s => is_Some (Scopes s)) (match x with [] => ["site"%string] | _ => x end)).
  { destruct x as [|x0 x]; [by repeat constructor|]. eapply traverse_forall; [|exact Hx]. intros s y Hy.
    unfold load_announce_scope in Hy. destruct (Scopes s) eqn:E; [|done]. injection Hy as <-. by rewrite E. }
  apply traverse_inr in Ht. split.
  - apply Forall2_length in Ht. intros ->. by destruct x.
  - induction Ht as [|s y l ys Hy _ IH]; [constructor|]. apply Forall_cons in Hk as [Hs Hk].
    constructor; [|by apply IH]. cbv beta in Hy. case_match; [|done]. res_inv. eauto.
Qed.

Lemma parseIPNetList_ok entries e nets : parseIPNetList ParseIP ParseCIDR entries e = inr nets -> senders_ok entries nets.
Proof.
  intros Hn. apply traverse_inr in Hn. eapply Forall2_impl; [exact Hn|]. intros addr n Ha. by apply require_inr in Ha.
Qed.

Lemma check_backend_ok b x : check_backend b = inr x -> x ∈ ["redis"; "aerospike"; "memory"; "none"]%string.
Proof. unfold check_backend. case_bool_decide; [|done]. intros Hx. by res_inv. Qed.

Lemma load_dedup_ok vs d :
  load_dedup vs = inr d ->
  EgressDedupBackend d ∈ ["redis"; "aerospike"; "memory"; "none"]%string /\
  IngressSetBackend d ∈ ["redis"; "aerospike"; "memory"; "none"]%string.
Proof.
  unfold load_dedup. destruct (load_aliases vs) as [[addr prefix] ttl]. intros Hd. res_inv.
  cbn [EgressDedupBackend IngressSetBackend]. split; by eapply check_backend_ok.
Qed.

Lemma load_ids_ok vs : (load_ids hostname vs).1 <> EmptyString /\ (load_ids hostname vs).2 <> EmptyString.
Proof.
  unfold load_ids. cbn [fst snd].
  assert (Hd : (if negb (String.eqb (get_str vs "deployment-id") "") then get_str vs "deployment-id"
    else match hostname with Some h => if String.eqb h "" then "unknown"%string else h | None => "unknown"%string end) <> EmptyString).
  { destruct (String.eqb_spec (get_str vs "deployment-id") ""); cbn [negb]; [|done].
    destruct hostname as [h|]; [|done]. by destruct (String.eqb_spec h ""). }
  split; [done|]. by destruct (String.eqb_spec (get_str vs "node-id") "").
Qed.

Lemma load_manifest_ok vs u :
  load_manifest vs = inr u ->
  (get_str vs "manifest-bootstrap" ∈ ["optional"; "required"]%string /\
   1 <= get_int vs "pilot-quorum" /\ 1 <= get_int vs "manifest-beacon-port" <= 65535) /\
  (get_bool vs "manifest-consumer-enabled" = true -> get_bool vs "live-resharding" = true ->
   get_int vs "egress-dedup-cap" <> 0 /\ 4 * ns_per_s <= get_int vs "egress-dedup-ttl").
Proof.
  unfold load_manifest. intros Hm. res_inv. split.
  - match goal with Hx : negb (bool_decide _) = false |- _ => apply negb_false_iff, bool_decide_eq_true in Hx end.
    bool_to_prop. split; [done|]. lia.
  - intros H5 H6. rewrite H5, H6 in *. cbn [andb] in *. bool_to_prop. lia.
Qed.

Local Abbreviation load := (load_values InterfaceByName hostname numCPU ParseScope PrefixSSM ParseIP ParseCIDR).

(** C16: a configuration that [Load] accepts is well-formed; there is a field for
    every check [Load] makes.  The shard width is in 1..12 with its number of
    groups, the BEEF plane and its groups fit their width, every mode, source mode,
    control-group setting, egress and header protocol, bootstrap mode and backend
    is one the code handles, the group prefixes and the beacon and announcement
    groups can be derived, a source-specific fabric has a source list (and at most
    16 static publishers without a manifest source), the refresh interval, the
    quorum and the manifest port are in range, the interfaces exist, the multicast
    egresses are there exactly when enabled and resolved with 16-bit group ids, the
    included shards exist, subtree and group ids have their lengths, the sender
    lists are their parsed entries, the deployment and node have names, and live
    resharding has a duplicate set. *)
Theorem load_wellformed vs c : 1 <= numCPU -> load vs = inr c -> WellFormed c.
Proof.
  intros Hcpu Hc. unfold load_values in Hc.
  apply bind_inr in Hc as (pow & Hpow & Hc). apply bind_inr in Hc as (bits & Hbits & Hc).
  apply bind_inr in Hc as (beef & Hbeef & Hc). apply bind_inr in Hc as (mode & Hmode & Hc).
  apply bind_inr in Hc as ([sm prefix] & Hsrc & Hc). apply bind_inr in Hc as (compat & Hctl & Hc).
  apply bind_inr in Hc as (ssm & Hssm & Hc). apply bind_inr in Hc as (gid & Hgid & Hc).
  apply bind_inr in Hc as (u & Hproto & Hc). apply bind_inr in Hc as (ifc & Hifc & Hc).
  apply bind_inr in Hc as (mc & Hmc & Hc). apply bind_inr in Hc as (hmc & Hhmc & Hc).
  apply bind_inr in Hc as (incl & Hincl & Hc). apply bind_inr in Hc as (sinc & Hsinc & Hc).
  apply bind_inr in Hc as (sexc & Hsexc & Hc). apply bind_inr in Hc as (sgrp & Hsgrp & Hc).
  apply bind_inr in Hc as (scopes & Hscopes & Hc). apply bind_inr in Hc as (ninc & Hninc & Hc).
  apply bind_inr in Hc as (nexc & Hnexc & Hc). apply bind_inr in Hc as (dedup & Hdedup & Hc).
  destruct (load_ids hostname vs) as [dep node] eqn:Hids. apply bind_inr in Hc as (u' & Hman & Hc).
  injection Hc as <-. apply load_shard_bits_ok in Hbits. apply require_inr in Hgid, Hsinc, Hsexc, Hsgrp, Hifc.
  apply parseGroupID_bound in Hgid.
  assert (Hn : u32 (2 ^ bits) = 2 ^ bits).
  { apply Z.mod_small. split; [lia|]. apply Z.pow_lt_mono_r; lia. }
  rewrite Hn in *. apply load_control_ok in Hctl as [Hcomp Hbeac]. apply load_ssm_ok in Hssm as [Hrefr Hssm].
  destruct (egress_ok vs gid ifc mc hmc Hgid Hmc Hhmc) as (Hmcok & Hen & Hhp). apply load_manifest_ok in Hman as [Hman Hresh].
  split; cbn; try done.
  - by apply load_pow_ok in Hpow.
  - by apply load_beef_ok in Hbeef.
  - by apply load_mode_ok in Hmode.
  - by apply load_source_ok in Hsrc.
  - by apply (load_announce_ok vs).
  - intros E. by apply Hssm.
  - intros E. by apply Hssm.
  - apply reject_inr in Hproto. by apply proto_ok.
  - destruct (Z.leb_spec (get_int vs "workers") 0); lia.
  - by apply (load_shard_include_ok vs).
  - split; [apply Forall_app; split|]; by eapply parse_ids_ok.
  - split; by eapply parseIPNetList_ok.
  - by apply (load_dedup_ok vs).
  - pose proof (load_ids_ok vs) as Hok. by rewrite Hids in Hok.
Qed.

End Load.

(** ** Flags *)

Section Flags.
Context (getenv : string -> string) (args : string -> option string) (ParseFloat : string -> option SpecFloat.spec_float).

Lemma read_flags_lookup table vs :
  read_flags getenv args ParseFloat table = Some vs -> NoDup (map fl_name table) ->
  forall f, f ∈ table -> lookup_flag (fl_name f) vs = flag_value getenv args ParseFloat f.
Proof.
  revert vs. induction table as [|g table IH]; intros vs Hr Hnd f Hf; [by apply elem_of_nil in Hf|].
  cbn [read_flags map] in *. apply NoDup_cons in Hnd as [Hg Hnd].
  destruct (flag_value getenv args ParseFloat g) as [v|] eqn:Hv; [|done]. cbn in Hr.
  destruct (read_flags getenv args ParseFloat table) as [vs'|] eqn:Ht; [|done]. cbn in Hr. injection Hr as <-.
  cbn [lookup_flag]. apply elem_of_cons in Hf as [->|Hf]; [by rewrite String.eqb_refl|].
  destruct (String.eqb_spec (fl_name g) (fl_name f)) as [He|_]; [|by apply IH].
  exfalso. apply Hg. rewrite He. by apply (list_elem_of_fmap_2 fl_name).
Qed.

Lemma flag_names_distinct numCPU : NoDup (map fl_name (flag_table numCPU)).
Proof. apply (bool_decide_unpack _). vm_compute. exact I. Qed.

(** After [flag.Parse] every flag of the table has one value: the text of the
    command line when the flag is given there, else the environment variable when
    it is set and can be read, else the default. *)
Theorem flags_resolved numCPU vs f :
  read_flags getenv args ParseFloat (flag_table numCPU) = Some vs -> f ∈ flag_table numCPU ->
  lookup_flag (fl_name f) vs =
  match args (fl_name f) with
  | Some text => parse_value ParseFloat (fl_default f) text
  | None =>
      if String.eqb (getenv (fl_env f)) "" then Some match fl_default f with VUint d => VUint (u64 d) | d => d end
      else Some (env_value getenv ParseFloat f)
  end.
Proof.
  intros Hr Hf. rewrite (read_flags_lookup _ _ Hr (flag_names_distinct numCPU) f Hf).
  unfold flag_value, env_value, envStr, envInt, envBool, envDuration, envFloat.
  destruct (args (fl_name f)); [done|]. by destruct (String.eqb (getenv (fl_env f)) ""), (fl_default f).
Qed.

End Flags.

(** ** A concrete host *)

Definition host_ifaces (name : string) : option string := if String.eqb name "eth0" then Some name else None.

(** Stand-ins of the shard library: SSM groups exist at site scope only. *)
Definition scope0 (s : string) : option Z := if String.eqb s "site" then Some 5 else None.

Definition prefix0 (sc : Z) : option Z := Some (0xFF30 + sc).

Definition cli (l : list (string * string)) (name : string) : option string :=
  match List.find (fun p => String.eqb p.1 name) l with Some p => Some p.2 | None => None end.

Definition load0 (l : list (string * string)) : res (Cfg string) :=
  Load host_ifaces (Some "host1"%string) 8 scope0 prefix0 (fun _ => None) (fun _ => None) (fun _ => EmptyString) (cli l)
    (fun _ => None).

Definition values0 (l : list (string * string)) : Values :=
  default [] (read_flags (fun _ => EmptyString) (cli l) (fun _ => None) (flag_table 8)).

(** The defaults load, and so does a bridge with some flags set. *)
Definition bridge_flags : list (string * string) :=
  [("shard-bits", "4"); ("shard-include", "0, 3,15"); ("mc-egress-enabled", "true"); ("mc-egress-scope", "global");
   ("beef-shard-bits", "0x2"); ("beef-groups", "0b11")]%string.

Lemma load_wellformed_witness :
  exists c, load0 bridge_flags = inr c /\ ShardInclude c = [0; 3; 15] /\ BEEFGroups (cf_BEEF c) = [3] /\ 
    WellFormed host_ifaces scope0 prefix0 (fun _ => None) (fun _ => None) c.
Proof.
  eexists. split; [vm_compute; reflexivity|]. split; [reflexivity|]. split; [reflexivity|].
  apply (load_wellformed host_ifaces (Some "host1"%string) 8 scope0 prefix0 (fun _ => None) (fun _ => None) (values0 bridge_flags));
    [lia|vm_compute; reflexivity].
Defined.

Lemma flags_resolved_witness :
  lookup_flag "shard-bits" (values0 bridge_flags) = Some (VUint 4) /\
  lookup_flag "scope" (values0 bridge_flags) = Some (VStr "site").
Proof.
  split.
  - apply (flags_resolved (fun _ => EmptyString) (cli bridge_flags) (fun _ => None) 8 (values0 bridge_flags)
      (mkFlag "shard-bits" "SHARD_BITS" (VUint 2))); [vm_compute; reflexivity|].
    apply list_elem_of_In. vm_compute. tauto.
  - apply (flags_resolved (fun _ => EmptyString) (cli bridge_flags) (fun _ => None) 8 (values0 bridge_flags)
      (mkFlag "scope" "MC_SCOPE" (VStr "site"))); [vm_compute; reflexivity|].
    apply list_elem_of_In. vm_compute. tauto.
Defined.

(** ** Where the text differs *)

(** A range is refused, and so is a bare hexadecimal difficulty. *)
Theorem shard_range_refused : load0 [("shard-include", "0-3")%string] = inl (ErrShardInclude "0-3").
Proof. vm_compute. reflexivity. Qed.

Theorem bare_hex_refused : load0 [("min-pow-bits", "1d00ffff")%string] = inl ErrMinPoWBits.
Proof. vm_compute. reflexivity. Qed.

(** A negative duplicate-set capacity passes the check of live resharding. *)
Theorem resharding_negative_cap :
  exists c, load0 [("manifest-consumer-enabled", "true"); ("live-resharding", "true"); ("egress-dedup-cap", "-1");
                   ("egress-dedup-ttl", "4s")]%string = inr c /\ get_int (cf_values c) "egress-dedup-cap" = -1.
Proof. eexists. split; [vm_compute; reflexivity|]. reflexivity. Qed.

(** The node id of a listener without one is its deployment id, not its host name. *)
Theorem node_id_is_deployment :
  exists c, load0 [("deployment-id", "dc1")%string] = inr c /\ NodeID c = "dc1"%string.
Proof. eexists. split; [vm_compute; reflexivity|]. reflexivity. Qed.
