(* ===== verification/Wiring.v ===== *)
(** * Process wiring (main.go)

    What [run] derives from the configuration before it starts the workers: the
    BEEF election with its group joins, the source rosters of a source-specific
    fabric, the control-plane groups of the discovery listeners, the emitter
    address, and the stages each mode gives its workers.  The shard library, the
    topic hash, the bootstrap resolver and the address parser are parameters. *)

From stdpp Require Import sorting.
From S2P Require Import Prelude Discovery Tracker Dedup SubtreeGroup Filter Reassembly RetryTee Listener Membership Config ConfigFlags ConfigLoad.

(** ** The emitter address *)

(** [net.IP.IsLinkLocalUnicast] on a 16-byte address that is not IPv4. *)
Definition link_local (ip : bytes) : bool := (byte_at ip 0 =? 0xfe) && (Z.land (byte_at ip 1) 0xc0 =? 0x80).

(** The addresses of the interface that are IPv6 networks; [None] is an address of
    another kind. *)
Definition ipv6_of (a : option bytes) : option bytes :=
  ip ← a; if (length ip =? 16)%nat && negb (is_set (To4 ip)) then Some ip else None.

Fixpoint primary_scan (fallback : option bytes) (addrs : list (option bytes)) : option bytes :=
  match addrs with
  | [] => fallback
  | a :: addrs =>
      match ipv6_of a with
      | None => primary_scan fallback addrs
      | Some ip =>
          if negb (link_local ip) then Some ip
          else primary_scan (match fallback with None => Some ip | Some _ => fallback end) addrs
      end
  end.

(** [primaryIPv6]; [None] is a missing interface or a failed query. *)
Definition primaryIPv6 (addrs : option (list (option bytes))) : option bytes :=
  addrs ← addrs; primary_scan None addrs.

(** ** The BEEF election *)

(** [shard.PlaneEngine]. *)
Record Plane := mkPlane { pl_GroupIndex : bytes -> Z; pl_Base : Z }.

Section Beef.
Context (NewPlane : Z -> option Plane) (TopicID : string -> bytes) (BEEFMarkerV1 BEEFMarkerV2 AtomicBEEFMarker : Z).

(** A 64-digit hexadecimal topic is its id, any other is hashed. *)
Definition topic_id (t : string) : bytes :=
  match DecodeHex t with
  | Some b => if (length b =? 32)%nat then b else TopicID t
  | None => TopicID t
  end.

Definition version_word (tok : string) : option Z :=
  if String.eqb tok "beef" then Some BEEFMarkerV1
  else if String.eqb tok "beefv2" then Some BEEFMarkerV2
  else if String.eqb tok "atomic" then Some AtomicBEEFMarker
  else None.

(** [setupBEEF]: the plane, the elected topic ids, the accepted version words (an
    empty set admits all) and the sorted group indices to join. *)
Definition setupBEEF (b : BEEFPlane) : option (Plane * gset bytes * gset Z * list Z) :=
  pe ← NewPlane (BEEFShardBits b);
  let ids := topic_id <$> BEEFTopics b in
  let joins : gset Z :=
    list_to_set ((pl_GroupIndex pe <$> ids) ++ ((fun g => u32 (pl_Base pe + g)) <$> BEEFGroups b)) in
  Some (pe, list_to_set ids, list_to_set (omap version_word (BEEFVersions b)), merge_sort Z.le (elements joins)).

End Beef.

(** ** Source rosters *)

Definition excludeOwnSource (srcs : list bytes) (own : option bytes) : list bytes :=
  match own with
  | None => srcs
  | Some o => List.filter (fun s => negb (bool_decide (s = o))) srcs
  end.

Inductive SSMErr := ErrLocalSource | ErrBeaconRoster | ErrManifestRoster | ErrSubtreeRoster | ErrStaticRoster.

Record Rosters := mkRosters {
  ro_gs : gmap bytes (list bytes);
  ro_beacon : list bytes;
  ro_manifest : list bytes;
  ro_subtree : list bytes
}.

Section SSM.
(** [netip.ParseAddr], the roster a resolver starts with, the group address of an
    index, and the control-plane indices of the shard library. *)
Context (ParseAddr : string -> option bytes) (Resolve : list string -> option (list bytes))
  (GroupAddr : Z -> option bytes) (idxBeacon idxSubtreeData idxSubtreeGroup idxBlock : Z).

Definition resolve (own : option bytes) (entries : list string) : option (list bytes) :=
  match entries with
  | [] => Some []
  | _ => srcs ← Resolve entries; Some (excludeOwnSource srcs own)
  end.

Definition put (ga : option bytes) (srcs : list bytes) (gs : gmap bytes (list bytes)) : gmap bytes (list bytes) :=
  match srcs, ga with
  | [], _ => gs
  | _, Some ga => <[ga := srcs]> gs
  | _, None => gs
  end.

(** The groups of the control plane. *)
Definition put_control (beacon manifest subtree : list bytes) : gmap bytes (list bytes) :=
  put (GroupAddr idxBlock) manifest
    (put (GroupAddr idxSubtreeGroup) subtree
      (put (GroupAddr idxSubtreeData) subtree
        (put (GroupAddr idxBeacon) beacon ∅))).

(** The data-plane groups, then the elected object groups. *)
Definition put_static (static : list bytes) (numGroups : nat) (beefJoinIdx : list Z) (gs : gmap bytes (list bytes)) :
    gmap bytes (list bytes) :=
  match static with
  | [] => gs
  | _ => fold_left (fun gs idx => put (GroupAddr idx) static gs) ((Z.of_nat <$> seq 0 numGroups) ++ beefJoinIdx) gs
  end.

Definition buildSSMSources (localSource : string) (s : SSMSources) (numGroups : nat) (beefJoinIdx : list Z) :
    SSMErr + Rosters :=
  match (if String.eqb localSource "" then Some None else Some <$> ParseAddr localSource) with
  | None => inl ErrLocalSource
  | Some own =>
      match resolve own (SSMBootstrapBeacon s), resolve own (SSMBootstrapManifest s),
            resolve own (SSMBootstrapSubtreeAnn s), resolve own (SSMPublishersStatic s) with
      | None, _, _, _ => inl ErrBeaconRoster
      | _, None, _, _ => inl ErrManifestRoster
      | _, _, None, _ => inl ErrSubtreeRoster
      | _, _, _, None => inl ErrStaticRoster
      | Some beacon, Some manifest, Some subtree, Some static =>
          inr (mkRosters (put_static static numGroups beefJoinIdx (put_control beacon manifest subtree))
                 beacon manifest subtree)
      end
  end.

End SSM.

(** ** The groups of the discovery listeners *)

(** [beaconGroups]: every beacon address on the ADVERT port, and on the manifest
    port when it is another. *)
Definition beaconGroups (beaconPort manifestPort : Z) (autoConfig : bool) (beaconIPs : list bytes) : list (bytes * Z) :=
  let ports := beaconPort :: (if autoConfig && negb (manifestPort =? beaconPort) then [manifestPort] else []) in
  flat_map (fun port => (fun ip => (ip, port)) <$> beaconIPs) ports.

(** The rosters by port of the beacon listener: manifests have their own. *)
Definition sourcesByPort (beaconPort manifestPort : Z) (autoConfig : bool) (manifest : list bytes) : list (Z * list bytes) :=
  if autoConfig && negb (length manifest =? 0)%nat && negb (manifestPort =? beaconPort) then [(manifestPort, manifest)] else [].

Section Control.
Context {Scope : Type} (ParseScope : string -> option Scope) (PrefixSSM : Scope -> option Z) (GroupAddr : Z -> Z -> bytes).

(** The announcement groups: every prefix of every scope; [None] ends the program. *)
Fixpoint announceGroups (compat sourceMode : string) (idx : Z) (scopes : list string) : option (list bytes) :=
  match scopes with
  | [] => Some []
  | s :: scopes =>
      match ControlGroupPrefixes ParseScope PrefixSSM compat sourceMode s with
      | inr _ => None
      | inl ps => rest ← announceGroups compat sourceMode idx scopes; Some (((fun p => GroupAddr p idx) <$> ps) ++ rest)
      end
  end.

(** The beacon addresses. *)
Definition beaconAddrs (compat sourceMode scope : string) (idx : Z) : option (list bytes) :=
  match ControlGroupPrefixes ParseScope PrefixSSM compat sourceMode scope with
  | inr _ => None
  | inl ps => Some ((fun p => GroupAddr p idx) <$> ps)
  end.

End Control.

(** ** The stages of a worker *)

Definition get_float (vs : Values) (name : string) : SpecFloat.spec_float :=
  match lookup_flag name vs with Some (VFloat f) => f | _ => f64_of_int 0 end.

(** The tracker's configuration; what [run] leaves out is zero. *)
Definition tracker_config (vs : Values) : TrackerConfig :=
  mkTrackerConfig (get_int vs "nack-jitter-max") (get_int vs "nack-backoff-base") (get_int vs "nack-backoff-max")
    (get_int vs "nack-max-retries") (get_int vs "nack-gap-ttl") 0 0 (get_int vs "nack-max-flows")
    (u64 (get_int vs "nack-max-forward-jump")) (get_bool vs "nack-tail-probe") (get_float vs "nack-tail-probe-idle-factor")
    (get_int vs "nack-tail-probe-min-idle") (get_int vs "nack-tail-probe-max-misses").

(** Which callbacks a buffer has. *)
Definition set_callbacks (block subtree beefFrame : bool) (b : Buffer) : Buffer :=
  mkBuffer (b_slots b) (b_lastEvict b) (b_evictEvery b) (b_insertOrder b) (b_maxSlots b) (b_ttl b)
    (b_verifyHash b) (b_cbTx b) block subtree (b_cbBEEF b) beefFrame (b_repairWait b) (b_maxAge b)
    (b_hookIncomplete b) (b_maxObject b) (b_maxObjectV9 b) (b_done b) (b_doneOrder b) (b_completionTTL b).

Section Worker.
Context {Iface : Type} `{FrameLib} `{TeeLib} `{WireLib}.

Definition delivery (c : Cfg Iface) : bool := String.eqb (Mode c) "delivery".

(** The reassembly buffer, repaired through the tracker when there is one. *)
Definition wire_buffer (c : Cfg Iface) (tracker : bool) : Buffer :=
  let vs := cf_values c in
  let b := SetMaxObjectBytesV9 (BEEFMaxObjectBytes (cf_BEEF c))
    (Reassembly.New DefaultMaxSlots (get_int vs "reassembly-ttl") (get_bool vs "verify-payload-hash") true) in
  let b := if tracker then SetRepairWait (get_int vs "reassembly-max-age") (SetIncompleteHook b) else b in
  set_callbacks true true true b.

(** The configuration of worker [i].  [store] says whether there is a claim store
    and whether it marks, [emitter] is the hash of the emitter address; the
    senders of this program take bundles member by member. *)
Definition wire_conf (c : Cfg Iface) (i : Z) (engine : Engine) (filt : Filter) (store : option bool)
    (emitter : option Z) (beefEngine : bytes -> Z) (topics : gset bytes) (versions : gset Z) : Conf :=
  let vs := cf_values c in
  let header := negb (delivery c) && get_bool vs "header-egress-enabled" in
  let headerMC := negb (delivery c) && is_set (cf_HeaderMCEgress c) in
  let conf := mkConf i true engine filt (get_bool vs "verify-payload-hash")
    (if delivery c then None else NewSenderACL (SenderIncludes c) (SenderExcludes c))
    (if delivery c then None else store)
    (negb (delivery c) && is_set (cf_MCEgress c)) false header headerMC None
    (if header || headerMC then default 0 emitter else 0)
    None ∅ ∅ false false None (get_bool vs "rebucket-relay") in
  let conf := SetBEEF (Some beefEngine) topics versions (get_bool vs "beef-verify-content") conf in
  if negb (delivery c) && get_bool vs "require-block-pow" then SetBlockPoW true (MinPoWBits c) conf else conf.

(** Worker [i] as [run] starts it. *)
Definition wire_worker (c : Cfg Iface) (i : Z) (engine : Engine) (reg : option SubtreeGroup.Registry) (endpoints : Discovery.Registry)
    (store : option bool) (emitter : option Z) (beefEngine : bytes -> Z) (topics : gset bytes) (versions : gset Z)
    (tee : option Tee) : Worker :=
  let vs := cf_values c in
  let filt := NewFilter (ShardInclude c) (SubtreeInclude c) (SubtreeExclude c) reg in
  let tracker := if delivery c then None
                 else Some (Tracker.New (tracker_config vs) (RetryEndpoints c) true (Some endpoints)) in
  NewWorker (wire_conf c i engine filt store emitter beefEngine topics versions) tracker
    (if negb (delivery c) && (0 <? get_int vs "egress-dedup-cap")
     then Some (NewSet (get_int vs "egress-dedup-cap") (get_int vs "egress-dedup-ttl")) else None)
    (if delivery c then None else Some (wire_buffer c (is_set tracker))) tee.

(** The groups a worker joins; a delivery worker joins none. *)
Definition wire_groups (engine_addr control_addr : Z -> option bytes) (idxBlock idxSubtreeData : Z) (c : Cfg Iface)
    (beefJoinIdx : list Z) : list (option bytes) :=
  if delivery c then []
  else buildGroups engine_addr control_addr idxBlock idxSubtreeData (ShardInclude c) (Z.to_nat (NumGroups c))
         (get_bool (cf_values c) "subtree-data-enabled") beefJoinIdx.

End Worker.
