(* ===== verification/WiringProps.v ===== *)
(** * Process wiring: properties

    The elected topics are heard and admitted, the rosters of a source-specific
    fabric leave out the node itself, the beacon listens where it should, and
    what a delivery worker does. *)

From stdpp Require Import sorting.
From S2P Require Import Prelude Discovery Tracker TrackerInv TrackerProps TrackerRepair Dedup SubtreeGroup Filter Reassembly ReassemblyProps ReassemblyRepair RetryTee Listener ListenerInv ListenerExample ListenerProps Membership Config ConfigProps ConfigFlags ConfigLoad ConfigLoadProps Wiring.

(** ** The BEEF election *)

Section Beef.
Context {Iface : Type} `{FrameLib} `{TeeLib} `{WL : WireLib}.
Context (NewPlane : Z -> option Plane) (TopicID : string -> bytes) (V1 V2 Atomic : Z).

Lemma elem_of_joins b pe topics versions joins j :
  setupBEEF NewPlane TopicID V1 V2 Atomic b = Some (pe, topics, versions, joins) ->
  j ∈ joins <->
  (exists t, t ∈ BEEFTopics b /\ j = pl_GroupIndex pe (topic_id TopicID t)) \/
  (exists g, g ∈ BEEFGroups b /\ j = u32 (pl_Base pe + g)).
Proof.
  unfold setupBEEF. destruct (NewPlane (BEEFShardBits b)) as [pe'|]; [|done]. cbn. intros [= <- <- <- <-].
  rewrite (merge_sort_Permutation Z.le), elem_of_elements, elem_of_list_to_set, elem_of_app, !list_elem_of_fmap.
  setoid_rewrite list_elem_of_fmap. split.
  - intros [(id & -> & t & -> & Ht)|(g & -> & Hg)]; eauto.
  - intros [(t & Ht & ->)|(g & Hg & ->)]; [left|right]; eauto 6.
Qed.

Lemma joins_sorted b pe topics versions joins :
  setupBEEF NewPlane TopicID V1 V2 Atomic b = Some (pe, topics, versions, joins) ->
  StronglySorted Z.le joins /\ NoDup joins.
Proof.
  unfold setupBEEF. destruct (NewPlane (BEEFShardBits b)) as [pe'|]; [|done]. cbn. intros [= <- <- <- <-]. split.
  - apply (StronglySorted_merge_sort Z.le).
  - rewrite (merge_sort_Permutation Z.le). apply NoDup_elements.
Qed.

(** the BEEF election as wired.  The joined object groups are exactly those of
    the elected topics and the explicit group indices, each once and in order; a
    worker outside delivery mode joins the group of every elected topic; and it
    admits a frame that names an elected topic whose encoding is accepted, while a
    frame of no elected topic is refused (with no election all are admitted). *)
Theorem beef_election (c : Cfg Iface) pe topics versions joins engine_addr control_addr ib isd i engine filt store emitter t bf :
  setupBEEF NewPlane TopicID V1 V2 Atomic (cf_BEEF c) = Some (pe, topics, versions, joins) ->
  t ∈ BEEFTopics (cf_BEEF c) ->
  let conf := wire_conf c i engine filt store emitter (pl_GroupIndex pe) topics versions in
  let tid := topic_id TopicID t in
  (StronglySorted Z.le joins /\ NoDup joins) /\
  (delivery c = false -> engine_addr (pl_GroupIndex pe tid) ∈ wire_groups engine_addr control_addr ib isd c joins) /\
  (tid ∈ BEEFDeliverableTopicIDs bf -> beef_refused conf bf <> Some "topic_filter"%string) /\
  ((forall t', t' ∈ BEEFTopics (cf_BEEF c) -> topic_id TopicID t' ∉ BEEFDeliverableTopicIDs bf) ->
     beef_refused conf bf = Some "topic_filter"%string).
Proof.
  intros Hs Ht conf tid. split; [by eapply joins_sorted|].
  assert (Hconf : c_beefTopics conf = topics).
  { unfold conf, wire_conf. case_match; done. }
  assert (Htop : forall id, id ∈ topics <-> exists t', t' ∈ BEEFTopics (cf_BEEF c) /\ id = topic_id TopicID t').
  { intros id. unfold setupBEEF in Hs. destruct (NewPlane _) as [pe'|]; [|done]. cbn in Hs. injection Hs as <- <- <- <-.
    rewrite elem_of_list_to_set, list_elem_of_fmap. split; intros (t' & ? & ?); eauto. }
  assert (Hin : tid ∈ topics) by (apply Htop; eauto).
  assert (Hne : topics <> ∅) by (intros He; rewrite He in Hin; by apply elem_of_empty in Hin).
  split; [|split].
  - intros Hd. unfold wire_groups. rewrite Hd. unfold buildGroups. rewrite !elem_of_app, !list_elem_of_fmap.
    right. right. right. exists (pl_GroupIndex pe tid). split; [done|]. rewrite (elem_of_joins _ _ _ _ _ _ Hs). left. eauto.
  - intros Hb. unfold beef_refused. rewrite Hconf, bool_decide_eq_false_2 by done. cbn [negb andb].
    replace (existsb _ _) with true; [cbn [negb]; by repeat case_match|].
    symmetry. apply existsb_exists. exists tid. split; [by apply list_elem_of_In|by apply bool_decide_eq_true_2].
  - intros Hno. unfold beef_refused. rewrite Hconf, bool_decide_eq_false_2 by done. cbn [negb andb].
    replace (existsb _ _) with false; [done|].
    symmetry. apply not_true_is_false. intros Hex. apply existsb_exists in Hex as (id & Hid & Hb).
    apply bool_decide_eq_true_1, Htop in Hb as (t' & Ht' & ->). apply (Hno t' Ht'). by apply list_elem_of_In.
Qed.

End Beef.

(** ** Source rosters *)

Section SSM.
Context (ParseAddr : string -> option bytes) (Resolve : list string -> option (list bytes))
  (GroupAddr : Z -> option bytes) (idxBeacon idxSubtreeData idxSubtreeGroup idxBlock : Z).

Local Abbreviation build := (buildSSMSources ParseAddr Resolve GroupAddr idxBeacon idxSubtreeData idxSubtreeGroup idxBlock).

Lemma excludeOwnSource_free srcs o : o ∉ excludeOwnSource srcs (Some o).
Proof.
  cbn. intros Hin. apply list_elem_of_In, filter_In in Hin as [_ Hb]. by rewrite bool_decide_eq_true_2 in Hb.
Qed.

Lemma resolve_free own entries srcs o : own = Some o -> resolve Resolve own entries = Some srcs -> o ∉ srcs.
Proof.
  intros -> Hr. unfold resolve in Hr. destruct entries; [injection Hr as <-; by apply not_elem_of_nil|].
  destruct (Resolve _) as [l|]; [|done]. cbn in Hr. injection Hr as <-. apply excludeOwnSource_free.
Qed.

(** What a property of every roster makes of the map. *)
Definition rosters_all (P : list bytes -> Prop) (gs : gmap bytes (list bytes)) : Prop :=
  map_Forall (fun _ srcs => srcs <> [] /\ P srcs) gs.

Lemma put_all P ga srcs gs : P srcs -> rosters_all P gs -> rosters_all P (put ga srcs gs).
Proof.
  intros Hp Hgs. unfold put. destruct srcs as [|s srcs]; [done|]. destruct ga as [ga|]; [|done].
  apply map_Forall_insert_2; [done|done].
Qed.

Lemma put_static_all P static n joins gs :
  P static -> rosters_all P gs -> rosters_all P (put_static GroupAddr static n joins gs).
Proof.
  intros Hp Hgs. unfold put_static. destruct static as [|s static]; [done|].
  apply fold_left_inv; [done|]. intros gs' idx _ Hgs'. by apply put_all.
Qed.

(** Every data-plane and object group that is put has the static roster. *)
Lemma put_static_lookup static n joins gs idx ga :
  static <> [] -> GroupAddr idx = Some ga -> idx ∈ (Z.of_nat <$> seq 0 n) ++ joins ->
  put_static GroupAddr static n joins gs !! ga = Some static.
Proof.
  intros Hne Hga Hin. unfold put_static. destruct static as [|s static]; [done|].
  generalize ((Z.of_nat <$> seq 0 n) ++ joins), Hin. intros l Hl. clear Hin n joins.
  assert (Hkeep : forall l gs, gs !! ga = Some (s :: static) ->
    fold_left (fun gs idx => put (GroupAddr idx) (s :: static) gs) l gs !! ga = Some (s :: static)).
  { clear. induction l as [|i l IH]; intros gs Hgs; [done|]. cbn [fold_left]. apply IH. unfold put.
    destruct (GroupAddr i) as [g|]; [|done]. destruct (decide (g = ga)) as [->|Hg]; [by rewrite lookup_insert_eq|].
    by rewrite lookup_insert_ne. }
  revert gs. induction l as [|i l IH]; intros gs; [by apply elem_of_nil in Hl|].
  apply elem_of_cons in Hl as [->|Hl]; cbn [fold_left]; [|by apply IH].
  apply Hkeep. unfold put. rewrite Hga. by rewrite lookup_insert_eq.
Qed.

(** The rosters of a source-specific fabric.  The node's own source is in no
    list the program joins with, no group is mapped to an empty list, and every
    shard and elected object group is joined with exactly the static publishers
    without the node itself, as long as any is left. *)
Theorem ssm_rosters (c : SSMSources) local n joins r o :
  ParseAddr local = Some o -> local <> EmptyString -> build local c n joins = inr r ->
  (o ∉ ro_beacon r) /\ (o ∉ ro_manifest r) /\ (o ∉ ro_subtree r) /\
  map_Forall (fun _ srcs => srcs <> [] /\ o ∉ srcs) (ro_gs r) /\
  (forall idx ga static, GroupAddr idx = Some ga -> idx ∈ (Z.of_nat <$> seq 0 n) ++ joins ->
     resolve Resolve (Some o) (SSMPublishersStatic c) = Some static -> static <> [] -> ro_gs r !! ga = Some static).
Proof.
  intros Ho Hl Hr. unfold buildSSMSources in Hr. rewrite (proj2 (String.eqb_neq _ _) Hl), Ho in Hr. cbn in Hr.
  destruct (resolve Resolve (Some o) (SSMBootstrapBeacon c)) as [beacon|] eqn:Eb; [|done].
  destruct (resolve Resolve (Some o) (SSMBootstrapManifest c)) as [manifest|] eqn:Em; [|done].
  destruct (resolve Resolve (Some o) (SSMBootstrapSubtreeAnn c)) as [subtree|] eqn:Es; [|done].
  destruct (resolve Resolve (Some o) (SSMPublishersStatic c)) as [static|] eqn:Et; [|done]. injection Hr as <-.
  assert (Hfree : forall own entries srcs, own = Some o -> resolve Resolve own entries = Some srcs -> o ∉ srcs)
    by (intros; by eapply resolve_free).
  cbn [ro_gs ro_beacon ro_manifest ro_subtree]. do 3 (split; [by eapply Hfree; [reflexivity|eassumption]|]). split.
  - apply (put_static_all (fun srcs => o ∉ srcs)); [by eapply Hfree; [reflexivity|eassumption]|].
    unfold put_control. repeat (apply (put_all (fun srcs => o ∉ srcs)); [by eapply Hfree; [reflexivity|eassumption]|]). apply map_Forall_empty.
  - intros idx ga st Hga Hin [= <-] Hne. by apply (put_static_lookup _ _ _ _ idx).
Qed.

(** Left without a publisher, a group has no entry: the worker joins it from any
    source. *)
Theorem own_roster_any_source c local n joins r o idx ga :
  ParseAddr local = Some o -> local <> EmptyString -> build local c n joins = inr r ->
  SSMBootstrapBeacon c = [] -> SSMBootstrapManifest c = [] -> SSMBootstrapSubtreeAnn c = [] ->
  Resolve (SSMPublishersStatic c) = Some [o] -> SSMPublishersStatic c <> [] -> GroupAddr idx = Some ga ->
  default [] (ro_gs r !! ga) = [].
Proof.
  intros Ho Hl Hr Hb Hm Hs Hst Hne Hga. unfold buildSSMSources in Hr. rewrite (proj2 (String.eqb_neq _ _) Hl), Ho, Hb, Hm, Hs in Hr.
  cbn in Hr. unfold resolve in Hr. destruct (SSMPublishersStatic c) as [|x l]; [done|]. rewrite Hst in Hr. cbn in Hr.
  rewrite bool_decide_eq_true_2 in Hr by done. cbn in Hr. by injection Hr as <-.
Qed.

End SSM.

(** ** Delivery workers *)

Section Delivery.
Context {Iface : Type} `{FrameLib} `{TeeLib} `{WL : WireLib}.
Context (oracle : nat -> Answer).

(** C28: a worker of a delivery node, which receives what another node already
    recovered and deduplicated, forwards every stamped transaction that passes
    the payload check and the filter, once each time it arrives, on the egress
    sink only, without asking a claim store, a duplicate set or a tracker; and it
    drops fragments. *)
Theorem delivery_forwards (c : Cfg Iface) i engine reg eps store emitter pe topics versions tee raw f :
  delivery c = true -> f_Version f = FrameVerV2 -> f_SeqNum f <> 0 ->
  let w := wire_worker c i engine reg eps store emitter pe topics versions tee in
  let w' := (processTx oracle raw f w).2 in
  sends (w_log w') = (if tx_pass (w_conf w) (oracle 0%nat) f then [WSend raw f] else []) /\
  w_tracker w' = None /\ w_dedup w' = None /\
  w_log (processFragment oracle raw w).2 = [FrameDropped "no_reassembly_buffer"].
Proof.
  intros Hd Hv Hs w w'.
  assert (Hw : w_tracker w = None /\ w_dedup w = None /\ w_reassem w = None /\ w_log w = [] /\ w_asked w = 0%nat).
  { unfold w, wire_worker. rewrite Hd. done. }
  assert (Hc : c_txDedup (w_conf w) = None /\ c_mcastEgr (w_conf w) = false /\ c_rec (w_conf w) = true).
  { unfold w, wire_worker, wire_conf. cbn [w_conf NewWorker]. rewrite Hd. done. }
  destruct Hw as (Ht & Hdd & Hr & Hl & Ha), Hc as (Hst & Hm & Hrec). clearbody w.
  split; [|split; [|split]].
  all: pose proof (processTx_run oracle raw f w Hv Hs) as (evs & Hev & Hrest); cbv zeta in Hrest; fold w' in Hev, Hrest;
    rewrite Ha in Hrest; rewrite Hl in Hev; cbn [app] in Hev.
  1-3: rewrite ?Hev; destruct (tx_pass (w_conf w) (oracle 0%nat) f);
    [destruct Hrest as ((k & Hobs) & now & Hrest); unfold lost_claim in Hrest; rewrite Hst in Hrest; cbn [is_set andb] in Hrest;
     rewrite Hdd in Hrest; cbn [seen_at orb] in Hrest; destruct Hrest as (Hd' & Hsend); rewrite Hm in Hsend
    |destruct Hrest as (Ht' & Hd' & Hsend)].
  - done.
  - done.
  - rewrite Hobs. unfold observed. by rewrite Ht.
  - congruence.
  - done.
  - congruence.
  - unfold processFragment. rewrite run_bind. cbn [gets fst snd]. rewrite Hr. unfold metric, modify, add_log. cbn.
    by rewrite Hrec, Hl.
Qed.

End Delivery.

(** ** Concrete nodes *)

#[local] Existing Instances lib0 tee0 wire0.

(** What a command line loads: a configuration, or the refusal. *)
Definition loaded (l : list (string * string)) : match load0 l return Type with inr _ => Cfg string | inl _ => LoadErr end :=
  match load0 l as r return match r return Type with inr _ => Cfg string | inl _ => LoadErr end with inr c => c | inl e => e end.

Definition beef_cfg : Cfg string :=
  Eval vm_compute in loaded [("beef-topics", "tm_a"); ("beef-shard-bits", "2"); ("beef-groups", "3")]%string.

(** A plane of four groups from index 0x1000, and a topic hash. *)
Definition plane0 (bits : Z) : option Plane := Some (mkPlane (fun tid => 0x1000 + byte_at tid 0 mod 2 ^ bits) 0x1000).

Definition topic0 (t : string) : bytes := Z.of_nat (String.length t) :: repeat 1 31.

Definition group0 (idx : Z) : option bytes := Some (be_put 2 idx).

Lemma beef_election_witness :
  setupBEEF plane0 topic0 1 2 3 (cf_BEEF beef_cfg) =
    Some (mkPlane (fun tid => 0x1000 + byte_at tid 0 mod 2 ^ 2) 0x1000, {[topic0 "tm_a"]}, ∅, [0x1000; 0x1003]) /\
  group0 0x1000 ∈ wire_groups group0 group0 0xFFFE 0xFFFB beef_cfg [0x1000; 0x1003].
Proof.
  assert (Hs : setupBEEF plane0 topic0 1 2 3 (cf_BEEF beef_cfg) =
    Some (mkPlane (fun tid => 0x1000 + byte_at tid 0 mod 2 ^ 2) 0x1000, {[topic0 "tm_a"]}, ∅, [0x1000; 0x1003]))
    by (vm_compute; reflexivity).
  split; [exact Hs|].
  destruct (beef_election plane0 topic0 1 2 3 beef_cfg _ _ _ _ group0 group0 0xFFFE 0xFFFB 0 (mkEngine (fun _ => 0) 4)
    (mkFilter None None None None) None None "tm_a" (mkBEEFFrame [] [] 0 0 0 []) Hs) as (_ & Hg & _).
  - apply list_elem_of_In. vm_compute. tauto.
  - exact (Hg eq_refl).
Defined.

Definition ssm0 : SSMSources := mkSSMSources ["ep"]%string [] [] ["pub"; "self"]%string.

Definition resolve0 (entries : list string) : option (list bytes) :=
  Some ((fun e => Z.of_nat (String.length e) :: repeat 0 15) <$> entries).

Definition parse0 (s : string) : option bytes := Some (Z.of_nat (String.length s) :: repeat 0 15).

Definition rosters0 : Rosters :=
  Eval vm_compute in
  match buildSSMSources parse0 resolve0 group0 0xFFFD 0xFFFB 0xFFFC 0xFFFE "self" ssm0 4 [0x1000] with
  | inr r => r | inl _ => mkRosters ∅ [] [] []
  end.

Lemma ssm_rosters_witness :
  ro_gs rosters0 !! be_put 2 3 = Some [3 :: repeat 0 15] /\ ro_gs rosters0 !! be_put 2 0x1000 = Some [3 :: repeat 0 15].
Proof.
  destruct (ssm_rosters parse0 resolve0 group0 0xFFFD 0xFFFB 0xFFFC 0xFFFE ssm0 "self" 4 [0x1000] rosters0
    (4 :: repeat 0 15) eq_refl ltac:(done) ltac:(vm_compute; reflexivity)) as (_ & _ & _ & _ & Hst).
  split; [apply (Hst 3)|apply (Hst 0x1000)]; try reflexivity; try done; apply list_elem_of_In; vm_compute; tauto.
Defined.

Definition delivery_cfg : Cfg string := Eval vm_compute in loaded [("mode", "delivery"); ("egress-dedup-cap", "100")]%string.

Definition delivery_worker : Worker :=
  wire_worker delivery_cfg 0 (mkEngine (fun _ => 0) 4) None NewRegistry (Some true) None (fun _ => 0x1000) ∅ ∅ None.

Lemma delivery_forwards_witness :
  sends (w_log (processTx oracle0 [2; 2; 77] (tx_of [2; 2; 77]) delivery_worker).2) = [WSend [2; 2; 77] (tx_of [2; 2; 77])].
Proof.
  destruct (delivery_forwards (WL := wire0) oracle0 delivery_cfg 0 (mkEngine (fun _ => 0) 4) None NewRegistry (Some true) None (fun _ => 0x1000)
    ∅ ∅ None [2; 2; 77] (tx_of [2; 2; 77]) eq_refl eq_refl ltac:(done)) as (Hs & _).
  etransitivity; [exact Hs|]. vm_compute. reflexivity.
Defined.

(** ** Two workers, one emitter *)

Definition header_cfg : Cfg string := Eval vm_compute in loaded [("header-egress-enabled", "true"); ("workers", "2")]%string.

Definition header_worker (i : Z) : Worker :=
  wire_worker header_cfg i (mkEngine (fun _ => 0) 4) None NewRegistry None (Some 42) (fun _ => 0x1000) ∅ ∅ None.

Definition headers (w : Worker) : list bytes := omap (fun ev => match ev with WHeader buf => Some buf | _ => None end) (w_log w).

(** The workers of one listener emit headers under one HashKey, each with a counter
    of its own: the headers of two blocks carry the same SeqNum. *)
Theorem header_seq_collides :
  c_headerHashKey (w_conf (header_worker 0)) = c_headerHashKey (w_conf (header_worker 1)) /\
  headers (processBlockFrame oracle0 [4; 9; 0; 11; 5] (header_worker 0)).2 = [[7; 1; 0; 11]] /\
  headers (processBlockFrame oracle0 [4; 9; 0; 22; 6] (header_worker 1)).2 = [[7; 1; 0; 22]].
Proof. vm_compute. repeat split. Qed.
