(* ===== verification/WiringStore.v ===== *)
(** * The claim store of a node (main.go)

    How [run] opens the two cache backends and builds the shared claim store from
    the configuration.  The cache package is a parameter. *)

From S2P Require Import Prelude TxDedup TxDedupProps ConfigFlags ConfigLoad ConfigLoadProps Listener Wiring.

(** ** Opening *)

(** [cache.Config]. *)
Record CacheConfig := mkCacheConfig {
  cc_Backend : string;
  cc_RedisAddr : string;
  cc_AeroHosts : list string;
  cc_AeroNamespace : string;
  cc_AeroSet : string
}.

Inductive StoreErr := ErrEgressBackend | ErrIngressBackend | ErrTxDedup (e : Err).

Section Store.
Context {Iface : Type} `{TxidSet}.

(** [cache.Open], with [None] for an error, and [Backend.Close]. *)
Variable Open : CacheConfig -> World -> option (option Backend) * World.
Variable CloseBackend : Backend -> World -> World.

Definition egress_cache (c : Cfg Iface) : CacheConfig :=
  let d := cf_Dedup c in
  mkCacheConfig (EgressDedupBackend d) (EgressDedupRedisAddr d) (EgressDedupAeroHosts d)
    (get_str (cf_values c) "egress-dedup-aerospike-namespace") (get_str (cf_values c) "egress-dedup-aerospike-set").

Definition ingress_cache (c : Cfg Iface) : CacheConfig :=
  let d := cf_Dedup c in
  mkCacheConfig (IngressSetBackend d) (get_str (cf_values c) "ingress-set-redis-addr") (IngressSetAeroHosts d)
    (get_str (cf_values c) "ingress-set-aerospike-namespace") (get_str (cf_values c) "ingress-set-aerospike-set").

Definition store_config (c : Cfg Iface) (egBackend ingBackend : option Backend) : TxDedup.Config :=
  let vs := cf_values c in
  TxDedup.mkConfig egBackend EmptyString (EgressDedupPrefix (cf_Dedup c)) (EgressDedupTTL2 (cf_Dedup c))
    (get_int vs "egress-dedup-local-cap") (ConfigLoad.DeploymentID c) ingBackend EmptyString
    (get_str vs "ingress-set-prefix") (get_int vs "ingress-set-ttl") (get_int vs "ingress-set-local-cap").

(** The store, [None] on a node without the feature. *)
Definition wire_store (c : Cfg Iface) (w : World) : (StoreErr + option Store) * World :=
  if negb (delivery c) && (0 <? get_int (cf_values c) "egress-dedup-local-cap") then
    let '(eg, w) := Open (egress_cache c) w in
    match eg with
    | None => (inl ErrEgressBackend, w)
    | Some eg =>
        let '(ing, w) := Open (ingress_cache c) w in
        match ing with
        | None => (inl ErrIngressBackend, match eg with Some b => CloseBackend b w | None => w end)
        | Some ing =>
            match NewWithConfig (store_config c eg ing) w with
            | (inr s, w) => (inr (Some s), w)
            | (inl e, w) => (inl (ErrTxDedup e), w)
            end
        end
    end
  else (inr None, w).

(** What the workers are told of the store: is there one, and does it mark. *)
Definition store_flags (s : option Store) : option bool := match s with Some _ => Some (HasIngressMark s) | None => None end.

(** ** What a node's store is *)

(** The claim store of a configured node: there is none exactly on a delivery node
    or with a local capacity that is not positive; otherwise its claims are made
    under the configured prefix and the deployment id, so two nodes share claims
    when they agree on both. *)
Theorem node_store (c : Cfg Iface) w s w' :
  wire_store c w = (inr s, w') ->
  (s = None <-> delivery c = true \/ get_int (cf_values c) "egress-dedup-local-cap" <= 0) /\
  forall st, s = Some st ->
    s_egressPrefix st = egress_prefix (or_default (EgressDedupPrefix (cf_Dedup c)) "bsl:egr:") (ConfigLoad.DeploymentID c).
Proof.
  unfold wire_store. destruct (delivery c) eqn:Hd; cbn [negb andb].
  { intros [= <- _]. split; [|done]. split; [by left|done]. }
  destruct (Z.ltb_spec 0 (get_int (cf_values c) "egress-dedup-local-cap")) as [Hl|Hl];
    [|intros [= <- _]; split; [|done]; split; [by right|done]].
  destruct (Open (egress_cache c) w) as [[eg|] w1]; [|done]. destruct (Open (ingress_cache c) w1) as [[ing|] w2]; [|done].
  destruct (NewWithConfig (store_config c eg ing) w2) as [[e|st] w3] eqn:En; [done|]. intros [= <- _].
  split; [split; [done|intros [?|?]; [done|lia]]|]. intros st' [= <-].
  assert (Hn : fst (NewWithConfig (store_config c eg ing) w2) = inr st) by (by rewrite En).
  by apply NewWithConfig_egress in Hn as (Hp & _).
Qed.

(** With the default prefix every store marks, whether or not the ingress set has a
    backend. *)
Theorem default_store_marks (c : Cfg Iface) w st w' :
  wire_store c w = (inr (Some st), w') -> get_str (cf_values c) "ingress-set-prefix" = "bsp:tx:"%string ->
  store_flags (Some st) = Some true.
Proof.
  unfold wire_store. case_match; [|done].
  destruct (Open (egress_cache c) w) as [[eg|] w1]; [|done]. destruct (Open (ingress_cache c) w1) as [[ing|] w2]; [|done].
  destruct (NewWithConfig (store_config c eg ing) w2) as [[e|st'] w3] eqn:En; [done|]. intros [= -> _] Hp.
  assert (Hn : fst (NewWithConfig (store_config c eg ing) w2) = inr st) by (by rewrite En).
  apply NewWithConfig_egress in Hn as (_ & _ & Hi). cbn [store_flags HasIngressMark]. f_equal. rewrite Hi.
  unfold wants_ingress, store_config. cbn [IngressPrefix]. rewrite Hp. cbn. by rewrite orb_true_r.
Qed.

End Store.
