(* ===== verification/Lifecycle.v ===== *)
(** * The life of the process (main.go)

    [run] from the loaded configuration to its return: what the main goroutine opens,
    starts, waits for and closes, in order, with Go's deferred calls.  The results of
    the calls that can fail are answers of an oracle (what they do is modelled in the
    files of their components); which of them are made is decided by the
    configuration as the code decides it.  [pstep] interleaves the main goroutine
    with the goroutines it starts, each of which ends on its own account, and blocks
    [wg.Wait] until the counted ones have ended. *)

From S2P Require Import Prelude Config ConfigFlags ConfigLoad ConfigLoadProps Wiring WiringProps.

(** ** Data *)

(** What is opened and has to be released.  [RContext] is the context of the
    goroutines, [RBackend false] and [RBackend true] the egress and the ingress
    cache. *)
Inductive Resource :=
| RTracing
| RContext
| RBackend (ingress : bool)
| RStore
| REgress (i : nat)
| RMcast (i : nat)
| RHeader (i : nat)
| RHeaderMcast (i : nat).

(** Goroutines.  [GTracker] stands for the two loops of the tracker and the requests
    they start, which the WaitGroup does not count.  Goroutines that a component starts
    for itself (the sender of a tee, the close of a socket, the HTTP server) belong to
    the component. *)
Inductive Goroutine := GTracker | GMetrics | GAnnounce | GBeacon | GApplier | GTicker (i : nat) | GWorker (i : nat).

Definition counted (g : Goroutine) : bool := match g with GTracker => false | _ => true end.

Inductive LEvent :=
| LOpen (r : Resource)
| LClose (r : Resource)
| LGo (g : Goroutine)
| LTee (i : nat)        (* the tee of a worker is dialled, its sender started *)
| LSignal
| LDraining
| LSleep (d : Z)
| LStopMetrics
| LWait                 (* [wg.Wait] returns *)
| LShutdown
| LTeeClosed (i : nat)  (* the receive loop of the worker is done and closes its tee *)
| LEnd (g : Goroutine).

(** The calls whose failure ends [run]. *)
Inductive Call :=
| CMetrics
| CBEEF
| CGroups
| CRosters
| CAnnounceGroups
| CBeaconGroups
| CEgressBackend
| CIngressBackend
| CStore
| CEgress (i : nat)
| CMcast (i : nat)
| CHeader (i : nat)
| CHeaderMcast (i : nat)
| CTee (i : nat).

(** What ended the body: an error, or [os.Exit] on the spot. *)
Inductive Stop := Fails (c : Call) | Exits (c : Call).

#[export] Instance Resource_eq_dec : EqDecision Resource.
Proof. solve_decision. Defined.

#[export] Instance Goroutine_eq_dec : EqDecision Goroutine.
Proof. solve_decision. Defined.

#[export] Instance LEvent_eq_dec : EqDecision LEvent.
Proof. solve_decision. Defined.

(** The log, and the deferred closes, the last one first. *)
Record Life := mkLife { l_log : list LEvent; l_defers : list Resource }.

(** ** A monad with early returns and deferred calls *)

Definition D (A : Type) : Type := Life -> (Stop + A) * Life.

#[export] Instance D_ret : MRet D := fun A a l => (inr a, l).
#[export] Instance D_bind : MBind D := fun A B k m l =>
  match m l with (inl s, l) => (inl s, l) | (inr a, l) => k a l end.

Definition say (ev : LEvent) : D unit := fun l => (inr tt, mkLife (l_log l ++ [ev]) (l_defers l)).

(** [defer func() { close r }()]. *)
Definition defer (r : Resource) : D unit := fun l => (inr tt, mkLife (l_log l) (r :: l_defers l)).

Definition dwhen (b : bool) (m : D unit) : D unit := if b then m else mret tt.

Fixpoint dfor {A} (f : A -> D unit) (xs : list A) : D unit :=
  match xs with [] => mret tt | x :: xs => f x ;; dfor f xs end.

(** ** Views of a log *)

Definition opened (log : list LEvent) : list Resource := omap (fun ev => match ev with LOpen r => Some r | _ => None end) log.

Definition closed (log : list LEvent) : list Resource := omap (fun ev => match ev with LClose r => Some r | _ => None end) log.

Definition started (log : list LEvent) : list Goroutine := omap (fun ev => match ev with LGo g => Some g | _ => None end) log.

Definition ended (log : list LEvent) : list Goroutine := omap (fun ev => match ev with LEnd g => Some g | _ => None end) log.

Definition tees_opened (log : list LEvent) : list nat := omap (fun ev => match ev with LTee i => Some i | _ => None end) log.

Definition tees_closed (log : list LEvent) : list nat := omap (fun ev => match ev with LTeeClosed i => Some i | _ => None end) log.

(** The goroutines that run after a log, and what the main goroutine did of it. *)
Definition running (log : list LEvent) : list Goroutine := filter (fun g => g ∉ ended log) (started log).

Definition of_main (log : list LEvent) : list LEvent :=
  omap (fun ev => match ev with LEnd _ | LTeeClosed _ => None | _ => Some ev end) log.

(** ** The process *)

(** What the main goroutine has still to do, and what happened. *)
Record Proc := mkProc { p_todo : list LEvent; p_log : list LEvent }.

Section Process.
(** Does the worker come to its receive loop: its socket opens and its groups are joined. *)
Variable serves : nat -> bool.

(** What has to happen before a goroutine can return: the metrics server stands on
    its channel, the loops of the tracker, the applier and the tickers on the
    context.  The control-plane listeners and the workers may also fail, at any time;
    a worker that has served returns behind the close of its tee. *)
Definition may_end (log : list LEvent) (g : Goroutine) : bool :=
  match g with
  | GMetrics => bool_decide (LStopMetrics ∈ log)
  | GTracker | GApplier | GTicker _ => bool_decide (LClose RContext ∈ log)
  | GAnnounce | GBeacon => true
  | GWorker i => negb (serves i && bool_decide (LTee i ∈ log)) || bool_decide (LTeeClosed i ∈ log)
  end.

Definition may_close_tee (log : list LEvent) (i : nat) : bool :=
  serves i && bool_decide (GWorker i ∈ running log) && bool_decide (LTee i ∈ log) && bool_decide (LTeeClosed i ∉ log).

(** [wg.Wait] returns when no counted goroutine runs; nothing else blocks the main
    goroutine for good. *)
Definition may_happen (log : list LEvent) (ev : LEvent) : bool :=
  match ev with
  | LWait => forallb (fun g => negb (counted g)) (running log)
  | LEnd g => bool_decide (g ∈ running log) && may_end log g
  | LTeeClosed i => may_close_tee log i
  | _ => true
  end.

(** The main goroutine does the next thing of its script, or another goroutine acts;
    with the main goroutine the process is gone. *)
Inductive pstep : Proc -> Proc -> Prop :=
| main_acts ev todo log :
    may_happen log ev = true -> pstep (mkProc (ev :: todo) log) (mkProc todo (log ++ [ev]))
| goroutine_ends g todo log :
    todo <> [] -> may_happen log (LEnd g) = true -> pstep (mkProc todo log) (mkProc todo (log ++ [LEnd g]))
| worker_closes_tee i todo log :
    todo <> [] -> may_happen log (LTeeClosed i) = true -> pstep (mkProc todo log) (mkProc todo (log ++ [LTeeClosed i])).
End Process.

(** ** The main goroutine *)

Section Run.
Context {Iface : Type} (c : Cfg Iface).
(** Does the call succeed, and does [cache.Open] return a backend. *)
Variable succeeds : Call -> bool.
Variable has_backend : bool -> bool.

Local Abbreviation vs := (cf_values c).

(** [if err != nil { return err }], and with [os.Exit(1)]. *)
Definition try_call (call : Call) : D unit := fun l => if succeeds call then (inr tt, l) else (inl (Fails call), l).

Definition try_or_exit (call : Call) : D unit := fun l => if succeeds call then (inr tt, l) else (inl (Exits call), l).

(** Opens what is closed when [run] returns. *)
Definition hold (r : Resource) : D unit := say (LOpen r) ;; defer r.

Definition acquire (call : Call) (r : Resource) : D unit := try_call call ;; hold r.

(** ** The stages *)

(** The recorder, then tracing, which never fails the start. *)
Definition start_observability : D unit :=
  try_call CMetrics ;;
  hold RTracing.

(** The BEEF election, the groups, the context and the rosters; then the loops of
    the tracker and the metrics server. *)
Definition start_fabric : D unit :=
  try_call CBEEF ;;
  dwhen (negb (delivery c)) (try_call CGroups) ;;
  hold RContext ;;
  dwhen (negb (delivery c) && String.eqb (SourceMode c) "ssm") (try_call CRosters) ;;
  dwhen (negb (delivery c)) (say (LGo GTracker)) ;;
  say (LGo GMetrics).

(** The announcement listener, with a subtree-group registry. *)
Definition start_announce : D unit :=
  dwhen (negb (delivery c) && negb (length (SubtreeGroups c) =? 0)%nat)
    (try_or_exit CAnnounceGroups ;; say (LGo GAnnounce)).

Definition start_beacon : D unit :=
  dwhen (negb (delivery c) && get_bool vs "beacon-enabled") (try_or_exit CBeaconGroups ;; say (LGo GBeacon)).

Definition start_applier : D unit :=
  dwhen (negb (delivery c) && get_bool vs "manifest-consumer-enabled") (say (LGo GApplier)).

(** A cache backend; [Open] may succeed without one. *)
Definition open_backend (ingress : bool) : D unit := dwhen (has_backend ingress) (say (LOpen (RBackend ingress))).

Definition close_backend (ingress : bool) : D unit := dwhen (has_backend ingress) (say (LClose (RBackend ingress))).

(** The claim store: one deferred function closes the store, then the egress and
    the ingress backend. *)
Definition start_store : D unit :=
  dwhen (negb (delivery c) && (0 <? get_int vs "egress-dedup-local-cap"))
    (try_call CEgressBackend ;; open_backend false ;;
     (if succeeds CIngressBackend then open_backend true
      else close_backend false ;; try_call CIngressBackend) ;;
     try_call CStore ;;
     say (LOpen RStore) ;;
     dwhen (has_backend true) (defer (RBackend true)) ;;
     dwhen (has_backend false) (defer (RBackend false)) ;;
     defer RStore).

(** One turn of the loop over the workers: the senders, the tee, the ticker and the
    worker's goroutine.  The worker's settings in between are [wire_worker]. *)
Definition start_worker (i : nat) : D unit :=
  acquire (CEgress i) (REgress i) ;;
  dwhen (negb (delivery c) && is_set (cf_MCEgress c)) (acquire (CMcast i) (RMcast i)) ;;
  dwhen (negb (delivery c) && get_bool vs "header-egress-enabled") (acquire (CHeader i) (RHeader i)) ;;
  dwhen (negb (delivery c) && is_set (cf_HeaderMCEgress c)) (acquire (CHeaderMcast i) (RHeaderMcast i)) ;;
  dwhen (negb (String.eqb (get_str vs "retry-tee") "")) (try_call (CTee i) ;; say (LTee i)) ;;
  dwhen (negb (delivery c)) (say (LGo (GTicker i))) ;;
  say (LGo (GWorker i)).

(** From the signal on: the drain window, the context, the metrics server, the
    goroutines, the recorder. *)
Definition shutdown : D unit :=
  say LSignal ;;
  dwhen (0 <? get_int vs "drain-timeout") (say LDraining ;; say (LSleep (get_int vs "drain-timeout"))) ;;
  say (LClose RContext) ;; say LStopMetrics ;; say LWait ;; say LShutdown.

(** The body of [run] behind [config.Load]. *)
Definition body : D unit :=
  start_observability ;; start_fabric ;; start_announce ;; start_beacon ;; start_applier ;; start_store ;;
  dfor start_worker (seq 0 (Z.to_nat (NumWorkers c))) ;;
  shutdown.

(** [run]: what ended the body, and the log with the deferred closes, which
    [os.Exit] skips. *)
Definition run : option Stop * list LEvent :=
  match body (mkLife [] []) with
  | (inl (Exits call), l) => (Some (Exits call), l_log l)
  | (inl s, l) => (Some s, l_log l ++ (LClose <$> l_defers l))
  | (inr _, l) => (None, l_log l ++ (LClose <$> l_defers l))
  end.

(** [main]: the exit status. *)
Definition main_status : Z := match fst run with None => 0 | Some _ => 1 end.

(** ** What a run leaves open *)

(** The caches that were opened for a store that could not be built. *)
Definition stranded : list Resource :=
  (if has_backend false then [RBackend false] else []) ++ (if has_backend true then [RBackend true] else []).

(** The goroutines and the tees the configuration asks for. *)
Definition only {A} (b : bool) (a : A) : list A := if b then [a] else [].

Definition of_worker (i : nat) : list Goroutine := only (negb (delivery c)) (GTicker i) ++ [GWorker i].

Definition worker_ids : list nat := seq 0 (Z.to_nat (NumWorkers c)).

Definition teeing : bool := negb (String.eqb (get_str vs "retry-tee") "").

Definition spawned : list Goroutine :=
  only (negb (delivery c)) GTracker ++ [GMetrics] ++
  only (negb (delivery c) && negb (length (SubtreeGroups c) =? 0)%nat) GAnnounce ++
  only (negb (delivery c) && get_bool vs "beacon-enabled") GBeacon ++
  only (negb (delivery c) && get_bool vs "manifest-consumer-enabled") GApplier ++
  flat_map of_worker worker_ids.

Definition tees : list nat := if teeing then worker_ids else [].

(** Events of the main goroutine before [wg.Wait]. *)
Definition plain (ev : LEvent) : bool := match ev with LWait | LEnd _ | LTeeClosed _ => false | _ => true end.

(** A tee is there before its worker starts. *)
Definition tees_first (log : list LEvent) : Prop := forall a i b, log = a ++ LTee i :: b -> GWorker i ∉ started a.

(** The state between two stages: nothing is closed, and the deferred closes are
    those of what is open. *)
Record tidy (gs : list Goroutine) (ts : list nat) (l : Life) : Prop := mkTidy {
  ti_closed : closed (l_log l) = [];
  ti_opened : opened (l_log l) ≡ₚ l_defers l;
  ti_started : started (l_log l) = gs;
  ti_tees : tees_opened (l_log l) = ts;
  ti_first : tees_first (l_log l);
  ti_plain : forallb plain (l_log l) = true
}.

(** The state in which the body stopped early. *)
Definition stopped (s : Stop) (l : Life) : Prop :=
  forallb plain (l_log l) = true /\
  match s with
  | Fails CStore => closed (l_log l) = [] /\ opened (l_log l) ≡ₚ l_defers l ++ stranded
  | Fails _ => opened (l_log l) ≡ₚ closed (l_log l) ++ l_defers l
  | Exits _ => closed (l_log l) = []
  end.

Definition triple (P : Life -> Prop) (m : D unit) (Q : Life -> Prop) : Prop :=
  forall l, P l -> match m l with (inl s, l') => stopped s l' | (inr _, l') => Q l' end.

Lemma triple_bind P Q R m k : triple P m Q -> (forall a, triple Q (k a) R) -> triple P (mbind k m) R.
Proof.
  intros Hm Hk l Hl. unfold mbind, D_bind. specialize (Hm l Hl). destruct (m l) as [[s|a] l']; [done|]. by apply Hk.
Qed.

Lemma triple_ret P : triple P (mret tt) P.
Proof. by intros l Hl. Qed.

Lemma triple_when b m P : triple P m P -> triple P (dwhen b m) P.
Proof. destruct b; [done|]. intros _. apply triple_ret. Qed.

Lemma triple_opt b m gs ts g :
  triple (tidy gs ts) m (tidy (gs ++ [g]) ts) -> triple (tidy gs ts) (dwhen b m) (tidy (gs ++ only b g) ts).
Proof. destruct b; [done|]. intros _. unfold only. rewrite app_nil_r. apply triple_ret. Qed.

(** What an event adds to the goroutines and to the tees. *)
Definition starts (ev : LEvent) : list Goroutine := match ev with LGo g => [g] | _ => [] end.

Definition dials (ev : LEvent) : list nat := match ev with LTee i => [i] | _ => [] end.

(** An event that neither opens nor closes. *)
Definition neutral (ev : LEvent) : bool := match ev with LOpen _ | LClose _ => false | _ => plain ev end.

Lemma tees_first_snoc log ev : (forall i, ev = LTee i -> GWorker i ∉ started log) -> tees_first log -> tees_first (log ++ [ev]).
Proof.
  intros Hev Hf a i b E. destruct b as [|e b _] using rev_ind.
  - apply app_inj_tail in E as [-> ->]. by apply Hev.
  - rewrite app_comm_cons, app_assoc in E. apply app_inj_tail in E as [-> _]. by eapply Hf.
Qed.

Lemma triple_say gs ts ev : neutral ev = true -> (forall i, ev = LTee i -> GWorker i ∉ gs) ->
  triple (tidy gs ts) (say ev) (tidy (gs ++ starts ev) (ts ++ dials ev)).
Proof.
  intros Hn Hev l [Hc Ho Hs Ht Hf Hw]. subst gs ts. split; cbn.
  1-4: unfold closed, opened, started, tees_opened in *; rewrite omap_app, ?Hc; destruct ev; try done; cbn; by rewrite ?app_nil_r.
  - by apply tees_first_snoc.
  - rewrite forallb_app, Hw. by destruct ev.
Qed.

Lemma triple_note gs ts ev : neutral ev = true -> starts ev = [] -> dials ev = [] -> triple (tidy gs ts) (say ev) (tidy gs ts).
Proof.
  intros Hn Hs Hd. generalize (triple_say gs ts ev Hn). rewrite Hs, Hd, !app_nil_r. intros H. apply H. by intros i ->.
Qed.

Lemma triple_go gs ts g : triple (tidy gs ts) (say (LGo g)) (tidy (gs ++ [g]) ts).
Proof. generalize (triple_say gs ts (LGo g) eq_refl). cbn. rewrite app_nil_r. intros H. by apply H. Qed.

Lemma triple_try gs ts call : call <> CStore -> triple (tidy gs ts) (try_call call) (tidy gs ts).
Proof.
  intros Hne l Hl. unfold try_call. destruct (succeeds call); [done|]. destruct Hl as [Hc Ho _ _ _ Hw]. split; [done|].
  assert (opened (l_log l) ≡ₚ closed (l_log l) ++ l_defers l) by (by rewrite Hc). by destruct call.
Qed.

Lemma triple_exit gs ts call : triple (tidy gs ts) (try_or_exit call) (tidy gs ts).
Proof. intros l Hl. unfold try_or_exit. destruct (succeeds call); [done|]. split; apply Hl. Qed.

Lemma triple_open gs ts r : triple (tidy gs ts) (hold r) (tidy gs ts).
Proof.
  intros l [Hc Ho Hs Ht Hf Hw]. cbn. split; cbn.
  1-4: unfold opened, closed, started, tees_opened in *; rewrite omap_app; cbn; rewrite ?app_nil_r, ?Ho; try done; solve_Permutation.
  - by apply tees_first_snoc.
  - by rewrite forallb_app, Hw.
Qed.

Lemma triple_acquire gs ts call r : call <> CStore -> triple (tidy gs ts) (acquire call r) (tidy gs ts).
Proof. intros Hne. eapply triple_bind; [by apply triple_try|]. intros _. apply triple_open. Qed.

Ltac tidy_step :=
  lazymatch goal with
  | |- triple _ (hold _) _ => apply triple_open
  | |- triple _ (mbind _ _) _ => eapply triple_bind; [|intros ?]
  | |- triple _ (dwhen _ (say (LGo _))) _ => apply triple_opt
  | |- triple _ (dwhen _ (try_or_exit _ ;; _)) _ => apply triple_opt
  | |- triple _ (dwhen _ _) _ => apply triple_when
  | |- triple _ (say (LGo _)) _ => apply triple_go
  | |- triple _ (say _) _ => by apply triple_note
  | |- triple _ (try_call _) _ => by apply triple_try
  | |- triple _ (try_or_exit _) _ => apply triple_exit
  | |- triple _ (acquire _ _) _ => by apply triple_acquire
  end.

Lemma start_store_tidy gs ts : triple (tidy gs ts) start_store (tidy gs ts).
Proof.
  apply triple_when. intros l Hl. unfold mbind, D_bind, try_call, open_backend, close_backend, dwhen, say, defer, mret, D_ret.
  destruct (succeeds CEgressBackend); [|split; [apply Hl|]; cbn; rewrite (ti_closed _ _ _ Hl); apply Hl].
  destruct Hl as [Hc Ho Hs Ht Hf Hw].
  destruct (has_backend false) eqn:B0, (succeeds CIngressBackend), (has_backend true) eqn:B1, (succeeds CStore);
    cbn; unfold stopped, stranded; rewrite ?B0, ?B1; split_and?; try split; cbn;
    rewrite ?forallb_app, ?Hw; try done;
    try (by repeat apply tees_first_snoc);
    unfold opened, closed, started, tees_opened in *; rewrite ?omap_app, ?Hc, ?Ho, ?Hs, ?Ht; cbn; rewrite ?app_nil_r;
    first [done | solve_Permutation].
Qed.

Lemma start_worker_tidy gs ts i : GWorker i ∉ gs ->
  triple (tidy gs ts) (start_worker i) (tidy (gs ++ of_worker i) (ts ++ only teeing i)).
Proof.
  intros Hi. unfold start_worker, of_worker. do 4 (eapply triple_bind; [repeat tidy_step|intros _]).
  eapply triple_bind with (Q := tidy gs (ts ++ only teeing i)).
  - unfold only, teeing. destruct (negb _); cbn [dwhen]; [|rewrite app_nil_r; apply triple_ret].
    eapply triple_bind; [by apply triple_try|intros _]. generalize (triple_say gs ts (LTee i) eq_refl). cbn. rewrite app_nil_r.
    intros H. apply H. by intros j [= ->].
  - intros _. rewrite app_assoc. repeat tidy_step.
Qed.

Lemma start_workers_tidy gs ts ids : NoDup ids -> (forall i, i ∈ ids -> GWorker i ∉ gs) ->
  triple (tidy gs ts) (dfor start_worker ids) (tidy (gs ++ flat_map of_worker ids) (ts ++ if teeing then ids else [])).
Proof.
  revert gs ts. induction ids as [|i ids IH]; intros gs ts Hnd Hgs; cbn [dfor flat_map].
  { destruct teeing; rewrite !app_nil_r; apply triple_ret. }
  apply NoDup_cons in Hnd as [Hi Hnd]. eapply triple_bind; [apply start_worker_tidy, Hgs; left|]. intros _.
  assert (Hl : forall j, j ∈ ids -> GWorker j ∉ gs ++ of_worker i).
  { intros j Hj. rewrite elem_of_app. intros [H|H]; [by apply (Hgs j); [right|]|]. unfold of_worker, only in H.
    clear -H Hi Hj. destruct (negb (delivery c)); cbn in H; rewrite ?elem_of_cons, elem_of_nil in H; destruct_or? H; simplify_eq; done. }
  generalize (IH _ (ts ++ only teeing i) Hnd Hl). rewrite <- !app_assoc. unfold only. by destruct teeing.
Qed.

(** The state in which [shutdown] leaves the body. *)
Definition finished (gs : list Goroutine) (ts : list nat) (l : Life) : Prop :=
  exists pre, l_log l = pre ++ [LClose RContext; LStopMetrics; LWait; LShutdown] /\
    closed pre = [] /\ opened pre ≡ₚ l_defers l /\ started pre = gs /\ tees_opened pre = ts /\ tees_first pre /\ forallb plain pre = true.

Lemma shutdown_finishes gs ts : triple (tidy gs ts) shutdown (finished gs ts).
Proof.
  unfold shutdown. do 2 (eapply triple_bind; [repeat tidy_step|intros _]).
  intros l []. exists (l_log l). cbn. by rewrite <- !app_assoc.
Qed.

Lemma triple_seq (m k : D unit) P Q R : triple P m Q -> triple Q k R -> triple P (m ;; k) R.
Proof. intros. eapply triple_bind; [done|by intros _]. Qed.

Lemma body_life : triple (tidy [] []) body (finished spawned tees).
Proof.
  unfold body. eapply triple_seq; [unfold start_observability; repeat tidy_step|].
  eapply triple_seq; [unfold start_fabric; repeat tidy_step|]. eapply triple_seq; [unfold start_announce; repeat tidy_step|].
  eapply triple_seq; [unfold start_beacon; repeat tidy_step|]. eapply triple_seq; [unfold start_applier; repeat tidy_step|].
  eapply triple_seq; [apply start_store_tidy|]. eapply triple_seq; [apply start_workers_tidy; [apply NoDup_seq|]|].
  - intros i _ H. clear -H. unfold only in H. 
    repeat (apply elem_of_app in H as [H|H]); repeat case_match; rewrite ?elem_of_cons, ?elem_of_nil in H; destruct_or? H; simplify_eq; done.
  - unfold spawned, tees, worker_ids. rewrite <- !app_assoc. cbn [app]. apply shutdown_finishes.
Qed.

Lemma closed_closes rs : closed (LClose <$> rs) = rs.
Proof. induction rs as [|r rs IH]; [done|]. cbn. f_equal. exact IH. Qed.

Lemma opened_closes rs : opened (LClose <$> rs) = [].
Proof. by induction rs as [|r rs IH]. Qed.

Lemma plain_closes (rs : list Resource) : forallb plain (LClose <$> rs) = true.
Proof. by induction rs as [|r rs IH]. Qed.

(** What the main goroutine does, as a whole. *)
Lemma run_script :
  match run with
  | (None, script) =>
      exists pre rs, script = (pre ++ [LClose RContext; LStopMetrics]) ++ LWait :: LShutdown :: (LClose <$> rs) /\
        closed pre = [] /\ opened pre ≡ₚ rs /\ started pre = spawned /\ tees_opened pre = tees /\ tees_first pre /\ forallb plain pre = true
  | (Some (Fails CStore), script) => forallb plain script = true /\ opened script ≡ₚ closed script ++ stranded
  | (Some (Fails _), script) => forallb plain script = true /\ opened script ≡ₚ closed script
  | (Some (Exits _), script) => forallb plain script = true /\ closed script = []
  end.
Proof.
  pose proof (body_life (mkLife [] [])) as Hb. unfold run.
  assert (Ht : tidy [] [] (mkLife [] [])) by (split; try done; by intros [] ? ?).
  destruct (body (mkLife [] [])) as [[s|[]] l]; specialize (Hb Ht).
  - destruct Hb as [Hw Hs]. destruct s as [call|call]; [|by split].
    assert (Hf : forall (G : list Resource), opened (l_log l) ≡ₚ closed (l_log l) ++ l_defers l ++ G ->
      opened (l_log l ++ (LClose <$> l_defers l)) ≡ₚ closed (l_log l ++ (LClose <$> l_defers l)) ++ G).
    { intros G HG. unfold opened, closed in *. rewrite !omap_app. fold (opened (LClose <$> l_defers l)) (closed (LClose <$> l_defers l)).
      rewrite opened_closes, closed_closes, app_nil_r, HG. solve_Permutation. }
    assert (Hn : forallb plain (l_log l ++ (LClose <$> l_defers l)) = true) by (by rewrite forallb_app, Hw, plain_closes).
    specialize (Hf []). rewrite !app_nil_r in Hf. destruct call; split; try done; try (by apply Hf).
    destruct Hs as [Hc Ho]. clear Hf. unfold opened, closed in *. rewrite !omap_app. fold (opened (LClose <$> l_defers l)) (closed (LClose <$> l_defers l)).
    rewrite opened_closes, closed_closes, app_nil_r, Hc, Ho. done.
  - destruct Hb as (pre & El & ?). exists pre, (l_defers l). rewrite El, <- !app_assoc. done.
Qed.

(** ** The process *)

End Run.
