(* ===== verification/LifecycleProps.v ===== *)
(** * What a run of the process releases, and when

    Every interleaving of the main goroutine with the goroutines it starts: a log is a
    sequence of events each of which may happen where it happens ([valid]), from which
    the theorem on the end of the process follows with [run_script]. *)

From S2P Require Import Prelude Config ConfigFlags ConfigLoad ConfigLoadProps Wiring WiringProps Lifecycle.

(** ** Views of a log *)

Lemma elem_of_ended g log : g ∈ ended log <-> LEnd g ∈ log.
Proof.
  unfold ended. rewrite list_elem_of_omap. split; [intros ([] & ? & ?); by simplify_eq|]. intros H. by exists (LEnd g).
Qed.

Lemma elem_of_started g log : g ∈ started log <-> LGo g ∈ log.
Proof.
  unfold started. rewrite list_elem_of_omap. split; [intros ([] & ? & ?); by simplify_eq|]. intros H. by exists (LGo g).
Qed.

Lemma elem_of_tees_closed i log : i ∈ tees_closed log <-> LTeeClosed i ∈ log.
Proof.
  unfold tees_closed. rewrite list_elem_of_omap. split; [intros ([] & ? & ?); by simplify_eq|]. intros H. by exists (LTeeClosed i).
Qed.

Lemma elem_of_tees_opened i log : i ∈ tees_opened log <-> LTee i ∈ log.
Proof.
  unfold tees_opened. rewrite list_elem_of_omap. split; [intros ([] & ? & ?); by simplify_eq|]. intros H. by exists (LTee i).
Qed.

(** What does not depend on the other goroutines. *)
Lemma started_of_main log : started (of_main log) = started log.
Proof. induction log as [|[] log IH]; cbn; unfold started, of_main in *; cbn in *; congruence. Qed.

Lemma tees_opened_of_main log : tees_opened (of_main log) = tees_opened log.
Proof. induction log as [|[] log IH]; cbn; unfold tees_opened, of_main in *; cbn in *; congruence. Qed.

Lemma opened_of_main log : opened (of_main log) = opened log.
Proof. induction log as [|[] log IH]; cbn; unfold opened, of_main in *; cbn in *; congruence. Qed.

Lemma closed_of_main log : closed (of_main log) = closed log.
Proof. induction log as [|[] log IH]; cbn; unfold closed, of_main in *; cbn in *; congruence. Qed.

Lemma of_main_app a b : of_main (a ++ b) = of_main a ++ of_main b.
Proof. apply omap_app. Qed.

Lemma elem_of_of_main ev log : of_main [ev] = [ev] -> ev ∈ of_main log <-> ev ∈ log.
Proof.
  intros Hev. unfold of_main. rewrite list_elem_of_omap. split.
  - intros ([] & ? & ?); by simplify_eq.
  - intros H. exists ev. split; [done|]. by destruct ev.
Qed.

Lemma elem_of_running g log : g ∈ running log <-> g ∈ started log /\ g ∉ ended log.
Proof. unfold running. rewrite list_elem_of_filter. tauto. Qed.

Lemma started_app a b : started (a ++ b) = started a ++ started b.
Proof. apply omap_app. Qed.

Lemma ended_app a b : ended (a ++ b) = ended a ++ ended b.
Proof. apply omap_app. Qed.

Lemma tees_opened_app a b : tees_opened (a ++ b) = tees_opened a ++ tees_opened b.
Proof. apply omap_app. Qed.

Lemma tees_closed_app a b : tees_closed (a ++ b) = tees_closed a ++ tees_closed b.
Proof. apply omap_app. Qed.

Lemma opened_app a b : opened (a ++ b) = opened a ++ opened b.
Proof. apply omap_app. Qed.

Lemma closed_app a b : closed (a ++ b) = closed a ++ closed b.
Proof. apply omap_app. Qed.

Lemma nothing_starts rs : started (LClose <$> rs) = [] /\ tees_opened (LClose <$> rs) = [].
Proof. by induction rs. Qed.

(** The lengths add up. *)
Lemma length_parts log : length log = (length (of_main log) + length (ended log) + length (tees_closed log))%nat.
Proof. induction log as [|[] log IH]; cbn; unfold of_main, ended, tees_closed in *; cbn in *; lia. Qed.

Lemma length_starts log : (length (started log) + length (tees_opened log) <= length (of_main log))%nat.
Proof. induction log as [|[] log IH]; cbn; unfold of_main, started, tees_opened in *; cbn in *; lia. Qed.

Lemma split_unique {A} (x : A) a b a' b' : a ++ x :: b = a' ++ x :: b' -> (x ∉ a') -> (x ∉ b') -> a = a' /\ b = b'.
Proof.
  revert a'. induction a as [|y a IH]; intros [|y' a'] E Ha Hb; cbn in E.
  - by injection E as ->.
  - injection E as <- _. destruct Ha. left.
  - injection E as -> <-. destruct Hb. apply elem_of_app. right. left.
  - injection E as -> E2. apply not_elem_of_cons in Ha as [_ Ha]. by destruct (IH _ E2 Ha Hb) as [-> ->].
Qed.

(** ** Valid logs *)

Section Process.
Context (serves : nat -> bool).

Local Abbreviation pstep := (pstep serves).

Definition valid (log : list LEvent) : Prop := forall a ev b, log = a ++ ev :: b -> may_happen serves a ev = true.

Lemma valid_nil : valid [].
Proof. by intros [] ? ?. Qed.

Lemma valid_prefix a b : valid (a ++ b) -> valid a.
Proof. intros Hv a' ev b' ->. apply (Hv _ _ (b' ++ b)). by rewrite <- app_assoc. Qed.

Lemma valid_snoc log ev : valid (log ++ [ev]) <-> valid log /\ may_happen serves log ev = true.
Proof.
  split; [intros Hv; split; [by eapply valid_prefix|by apply (Hv _ _ [])]|]. intros [Hv Hev] a e b E.
  destruct b as [|x b _] using rev_ind; [by apply app_inj_tail in E as [-> ->]|].
  rewrite app_comm_cons, app_assoc in E. apply app_inj_tail in E as [-> _]. by eapply Hv.
Qed.

(** Goroutines end once, after their start; tees are closed once, after they opened. *)
Record accounted (log : list LEvent) : Prop := mkAccounted {
  ac_ended : NoDup (ended log);
  ac_started : ended log ⊆ started log;
  ac_tees : NoDup (tees_closed log);
  ac_serves : forall i, i ∈ tees_closed log -> serves i = true /\ i ∈ tees_opened log
}.

Lemma valid_accounted log : valid log -> accounted log.
Proof.
  induction log as [|ev log IH] using rev_ind; intros Hv.
  { split; [apply NoDup_nil_2|done|apply NoDup_nil_2|by intros i Hi%elem_of_nil]. }
  apply valid_snoc in Hv as [Hv Hev]. destruct (IH Hv) as [He Hs Ht Hc].
  destruct ev; split; unfold ended, started, tees_closed, tees_opened in *; rewrite !omap_app; cbn; rewrite ?app_nil_r; try done;
    try (by intros j Hj; destruct (Hc j Hj); split; [|apply elem_of_app; left]); try (by intros j Hj; apply elem_of_app; left; apply Hs).
  all: cbn in Hev; unfold may_close_tee in Hev; rewrite !andb_true_iff, !bool_decide_eq_true in Hev.
  - apply NoDup_app. split_and!; [done| |apply NoDup_singleton]. intros j Hj ->%list_elem_of_singleton.
    by apply elem_of_tees_closed in Hj; apply (proj2 Hev).
  - intros j [Hj| ->%list_elem_of_singleton]%elem_of_app; [by apply Hc|]. split; [apply Hev|].
    apply elem_of_tees_opened, Hev.
  - apply NoDup_app. split_and!; [done| |apply NoDup_singleton]. intros j Hj ->%list_elem_of_singleton.
    destruct Hev as [[_ Hn]%elem_of_running _]. by apply Hn.
  - intros j [Hj| ->%list_elem_of_singleton]%elem_of_app; [by apply Hs|]. by destruct Hev as [[Hn _]%elem_of_running _].
Qed.

(** A worker that served closed its tee before it ended. *)
Lemma ended_closed_tee log i :
  valid log -> tees_first (of_main log) -> serves i = true -> LTee i ∈ log -> GWorker i ∈ ended log -> LTeeClosed i ∈ log.
Proof.
  intros Hv Hf Hi Ht Hg%elem_of_ended. apply list_elem_of_split in Hg as (a & b & ->).
  specialize (Hv a _ b eq_refl). cbn in Hv. apply andb_true_iff in Hv as [Hr Hv]. apply bool_decide_eq_true, elem_of_running in Hr as [Hr _].
  rewrite Hi in Hv. cbn in Hv. destruct (decide (LTee i ∈ a)) as [Ha|Ha].
  - rewrite (bool_decide_eq_true_2 _ Ha) in Hv. cbn in Hv. apply bool_decide_eq_true in Hv. apply elem_of_app. by left.
  - destruct Ha. rewrite elem_of_app, elem_of_cons in Ht. destruct Ht as [Ht|[Ht|Ht]]; [done..|].
    apply list_elem_of_split in Ht as (b1 & b2 & ->). destruct (Hf (of_main (a ++ LEnd (GWorker i) :: b1)) i (of_main b2)).
    { rewrite <- (of_main_app _ (LTee i :: b2)). f_equal. by rewrite <- app_assoc. }
    rewrite started_of_main. unfold started in *. rewrite omap_app. apply elem_of_app. by left.
Qed.

Lemma wait_gone a b g : valid (a ++ LWait :: b) -> g ∈ started a -> counted g = true -> g ∈ ended a.
Proof.
  intros Hv Hg Hc. specialize (Hv a _ b eq_refl). cbn in Hv. rewrite forallb_forall in Hv.
  destruct (decide (g ∈ ended a)) as [|Hn]; [done|]. specialize (Hv g). rewrite Hc in Hv. discriminate Hv.
  apply list_elem_of_In, elem_of_running. by split.
Qed.

(** ** Executions *)

Lemma steps_valid script n p : of_main script = script -> nsteps pstep n (mkProc script []) p ->
  valid (p_log p) /\ of_main (p_log p) ++ p_todo p = script /\ n = length (p_log p).
Proof.
  intros Hs. revert p. induction n as [|n IH]; intros p Hn.
  { inversion Hn; subst. by split; [apply valid_nil|]. }
  apply nsteps_inv_r in Hn as (q & (Hv & Hm & Hl)%IH & Hq). inversion Hq; subst; cbn [p_log p_todo] in *;
    rewrite valid_snoc, of_main_app, length_app; cbn [length]; (split; [done|split; [|lia]]); [|by cbn; rewrite app_nil_r..].
  assert (Hev : ev ∈ of_main (of_main log ++ ev :: todo)) by (rewrite Hs; apply elem_of_app; right; left).
  rewrite <- app_assoc. f_equal. unfold of_main in Hev. apply list_elem_of_omap in Hev as ([] & _ & Hev); by simplify_eq.
Qed.

(** As long as the main goroutine is not done something can happen, if it cancels the
    context and stops the metrics server before it waits. *)
Lemma steps_progress script n p : of_main script = script ->
  (forall a b, script = a ++ LWait :: b -> LClose RContext ∈ a /\ LStopMetrics ∈ a) ->
  nsteps pstep n (mkProc script []) p -> p_todo p <> [] -> exists q, pstep p q.
Proof.
  intros Hs Hw Hn Ht. apply steps_valid in Hn as (Hv & Hm & _); [|done]. destruct p as [[|ev todo] log]; [done|]. cbn in *.
  destruct (may_happen serves log ev) eqn:Hev; [eexists; by constructor|].
  assert (ev = LWait) as ->.
  { assert (He : ev ∈ of_main script) by (rewrite Hs, <- Hm; apply elem_of_app; right; left).
    unfold of_main in He. apply list_elem_of_omap in He as ([] & _ & He); by simplify_eq. }
  destruct (Hw _ _ (eq_sym Hm)) as [Hc Hd]. rewrite elem_of_of_main in Hc, Hd by done.
  cbn in Hev. apply not_true_iff_false in Hev. destruct (decide (Exists (fun g => counted g = true) (running log))) as [He|He].
  - apply Exists_exists in He as (g & Hg & Hcg). destruct (may_end serves log g) eqn:Hme.
    + eexists. apply (goroutine_ends serves g); [done|]. cbn. by rewrite (bool_decide_eq_true_2 _ Hg), Hme.
    + destruct g; cbn in Hme; try discriminate; try (by apply bool_decide_eq_false_1 in Hme).
      apply orb_false_iff in Hme as [[Hi Hti]%negb_false_iff%andb_true_iff Hn%bool_decide_eq_false].
      eexists. apply (worker_closes_tee serves i); [done|]. cbn. unfold may_close_tee. rewrite Hi, Hti.
      by rewrite (bool_decide_eq_true_2 _ Hg), (bool_decide_eq_true_2 _ Hn).
  - destruct Hev. apply forallb_forall. intros g Hg%list_elem_of_In. apply negb_true_iff, not_true_iff_false. intros Hcg.
    apply He, Exists_exists. by exists g.
Qed.
End Process.

Lemma plain_mine log : forallb plain log = true -> of_main log = log /\ LWait ∉ log.
Proof.
  induction log as [|ev log IH]; [by split; [|apply not_elem_of_nil]|]. cbn. intros [Hev [Hm Hw]%IH]%andb_true_iff.
  rewrite not_elem_of_cons. unfold of_main in *. destruct ev; try done; cbn; rewrite Hm; by split.
Qed.

(** ** The end of the process *)

Section Run.
Context {Iface : Type} (c : Cfg Iface) (succeeds : Call -> bool) (has_backend : bool -> bool) (serves : nat -> bool).

Local Abbreviation run := (run c succeeds has_backend).

Lemma run_mine : of_main (snd run) = snd run.
Proof.
  pose proof (run_script c succeeds has_backend) as H. destruct run as [[[[]|]|] script]; cbn in *.
  all: try (apply plain_mine, H).
  destruct H as (pre & rs & -> & _ & _ & _ & _ & _ & [Hp _]%plain_mine). rewrite !of_main_app, Hp. cbn. do 3 f_equal.
  apply plain_mine, plain_closes.
Qed.

Lemma run_waits a b : snd run = a ++ LWait :: b -> LClose RContext ∈ a /\ LStopMetrics ∈ a.
Proof.
  pose proof (run_script c succeeds has_backend) as H. intros E.
  assert (Hn : forallb plain (snd run) = true -> LClose RContext ∈ a /\ LStopMetrics ∈ a).
  { intros [_ Hw]%plain_mine. destruct Hw. rewrite E. apply elem_of_app. right. left. }
  destruct run as [[[[]|]|] script]; cbn in *; try (apply Hn, H).
  destruct H as (pre & rs & -> & _ & _ & _ & _ & _ & [_ Hp]%plain_mine). symmetry in E.
  apply split_unique in E as [-> _]; [split; apply elem_of_app; right; [left|right; left]| |].
  - rewrite not_elem_of_app. split; [done|]. by intros [|[|[]%elem_of_nil]%elem_of_cons]%elem_of_cons.
  - apply not_elem_of_cons. split; [done|]. apply plain_mine, plain_closes.
Qed.
(** The end of [wg.Wait] in a whole log of a run that the signal ended. *)
Record waited (pre : list LEvent) (rs : list Resource) (before after : list LEvent) : Prop := mkWaited {
  wa_before : of_main before = pre ++ [LClose RContext; LStopMetrics];
  wa_after : of_main after = LShutdown :: (LClose <$> rs);
  wa_once : NoDup (ended (before ++ after)) /\ NoDup (tees_closed before);
  wa_ended : forall g, counted g = true -> g ∈ ended before <-> g ∈ spawned c;
  wa_late : forall g, g ∈ ended after -> g = GTracker;
  wa_tees : forall i, i ∈ tees_closed before <-> i ∈ tees c /\ serves i = true;
  wa_notees : tees_closed after = []
}.

Lemma worker_spawned i : i ∈ tees c -> GWorker i ∈ spawned c.
Proof.
  unfold tees, spawned. destruct (teeing c); [|by intros ?%elem_of_nil]. intros Hi. repeat (apply elem_of_app; right).
  apply list_elem_of_In, in_flat_map. exists i. split; [by apply list_elem_of_In|]. apply list_elem_of_In. apply elem_of_app. right. left.
Qed.

(** The two halves of the main goroutine's script. *)
Local Abbreviation first_half pre := (pre ++ [LClose RContext; LStopMetrics]).
Local Abbreviation last_half rs := (LShutdown :: (LClose <$> rs)).

Lemma wait_split pre rs log : LWait ∉ pre -> of_main log = first_half pre ++ LWait :: last_half rs ->
  exists before after, log = before ++ LWait :: after /\ of_main before = first_half pre /\ of_main after = last_half rs.
Proof.
  intros Hp Hm.
  assert (Hw : LWait ∈ log) by (apply elem_of_of_main; [done|]; rewrite Hm; apply elem_of_app; right; left).
  apply list_elem_of_split in Hw as (before & after & ->). exists before, after.
  rewrite of_main_app in Hm. change (of_main (LWait :: after)) with (LWait :: of_main after) in Hm.
  apply split_unique in Hm as [Hb Ha]; [done|..].
  - rewrite not_elem_of_app. split; [done|]. by intros [|[|[]%elem_of_nil]%elem_of_cons]%elem_of_cons.
  - apply not_elem_of_cons. split; [done|]. apply plain_mine, plain_closes.
Qed.

Lemma run_waited pre rs before after :
  valid serves (before ++ LWait :: after) -> of_main before = first_half pre -> of_main after = last_half rs ->
  started pre = spawned c -> tees_opened pre = tees c -> tees_first pre -> waited pre rs before after.
Proof.
  intros Hv Hb Ha Hs Ht Hf.
  assert (Hsb : started before = spawned c) by (by rewrite <- started_of_main, Hb, started_app, Hs, app_nil_r).
  assert (Htb : tees_opened before = tees c) by (by rewrite <- tees_opened_of_main, Hb, tees_opened_app, Ht, app_nil_r).
  assert (Hsa : started (LWait :: after) = []).
  { change (started (LWait :: after)) with (started after). rewrite <- started_of_main, Ha. apply (nothing_starts rs). }
  assert (Hta : tees_opened (LWait :: after) = []).
  { change (tees_opened (LWait :: after)) with (tees_opened after). rewrite <- tees_opened_of_main, Ha. apply (nothing_starts rs). }
  assert (Hgone : forall g, counted g = true -> g ∈ spawned c -> g ∈ ended before) by (intros g Hc Hg; eapply wait_gone; [done|by rewrite Hsb|done]).
  assert (Hff : tees_first (of_main before)) by (rewrite Hb; change [LClose RContext; LStopMetrics] with ([LClose RContext] ++ [LStopMetrics]);
    rewrite app_assoc; do 2 (apply tees_first_snoc; [done|]); exact Hf).
  pose proof (valid_accounted _ _ Hv) as [He Hes Htc Hts]. assert (Hvb : valid serves before) by (by eapply valid_prefix).
  pose proof (valid_accounted _ _ Hvb) as [He' Hes' Htc' Hts'].
  rewrite started_app, Hsa, Hsb, app_nil_r, ended_app in Hes. rewrite ended_app in He.
  assert (Hclosed : forall i, i ∈ tees c -> serves i = true -> i ∈ tees_closed before).
  { intros i Hi Hsi. apply elem_of_tees_closed. apply (ended_closed_tee _ _ _ Hvb Hff Hsi); [by apply elem_of_tees_opened; rewrite Htb|].
    by apply Hgone, worker_spawned. }
  split; [done|done|..].
  - by rewrite ended_app.
  - intros g Hg. split; [|by apply Hgone]. intros He1. rewrite <- Hsb. by apply Hes'.
  - intros g Hg. destruct (counted g) eqn:Hc; [|by destruct g]. apply NoDup_app in He as (_ & Hd & _).
    destruct (Hd g); [|done]. apply Hgone; [done|]. apply Hes, elem_of_app. by right.
  - intros i. rewrite <- Htb. split; [intros [? ?]%Hts'; done|]. intros [Hi Hsi]. by apply Hclosed; [rewrite <- Htb|].
  - destruct (tees_closed after) as [|i l] eqn:E; [done|]. rewrite tees_closed_app in Htc, Hts.
    change (tees_closed (LWait :: after)) with (tees_closed after) in Htc, Hts. rewrite E in Htc, Hts.
    destruct (Hts i) as [Hsi Hi]; [apply elem_of_app; right; left|]. rewrite tees_opened_app, Hta, Htb, app_nil_r in Hi.
    apply NoDup_app in Htc as (_ & Hd & _). destruct (Hd i); [by apply Hclosed|left].
Qed.
Lemma script_totals pre rs (script := first_half pre ++ LWait :: last_half rs) : closed pre = [] -> opened pre ≡ₚ rs ->
  started script = started pre /\ tees_opened script = tees_opened pre /\ closed script ≡ₚ RContext :: opened script.
Proof.
  intros Hc Ho. subst script. rewrite !started_app, !tees_opened_app, !closed_app, !opened_app, Hc.
  destruct (nothing_starts rs) as [Es Et]. change (LWait :: last_half rs) with ([LWait; LShutdown] ++ (LClose <$> rs)).
  rewrite started_app, tees_opened_app, closed_app, opened_app, Es, Et, closed_closes, opened_closes. cbn. rewrite !app_nil_r.
  split_and!; [done..|]. by rewrite Ho.
Qed.

(** C24: The life of a process, for every configuration, every failing call and every
    interleaving of the main goroutine with the goroutines it starts.  The process
    comes to an end: no execution has more than two steps per event of the main
    goroutine, and something can happen until the main goroutine is done.  When the
    signal ended it, then before [wg.Wait] returns exactly the goroutines the
    configuration asks for were started, every one of them but the loops of the tracker
    has ended, once, and every worker that came to its receive loop has closed its tee;
    only then the recorder is flushed and the senders, the claim store, the caches and
    tracing are closed, everything as often as it was opened and the context once more.
    The tracker is not waited for.  When a call fails, everything opened until then but
    the tees is closed as often, except that a claim store that cannot be built leaves
    the caches opened for it; [os.Exit] closes nothing. *)
Theorem run_releases n p : nsteps (pstep serves) n (mkProc (snd run) []) p ->
  (n <= 2 * length (snd run))%nat /\ (p_todo p <> [] -> exists q, pstep serves p q) /\
  (p_todo p = [] -> let log := p_log p in
   match fst run with
   | None =>
       exists pre rs before after, log = before ++ LWait :: after /\ waited pre rs before after /\
         closed pre = [] /\ started log = spawned c /\ tees_opened log = tees c /\ closed log ≡ₚ RContext :: opened log
   | Some (Fails CStore) => opened log ≡ₚ closed log ++ stranded has_backend
   | Some (Fails _) => opened log ≡ₚ closed log
   | Some (Exits _) => closed log = []
   end).
Proof.
  intros Hn. pose proof (steps_valid _ _ _ _ run_mine Hn) as (Hv & Hm & Hl). split_and!.
  - rewrite Hl, length_parts, <- Hm, length_app. pose proof (length_starts (p_log p)).
    destruct (valid_accounted _ _ Hv) as [He Hes Ht Hts].
    assert (length (ended (p_log p)) <= length (started (p_log p)))%nat by (apply submseteq_length, NoDup_submseteq; done).
    assert (length (tees_closed (p_log p)) <= length (tees_opened (p_log p)))%nat
      by (apply submseteq_length, NoDup_submseteq; [done|]; intros i Hi; by apply Hts). lia.
  - by apply steps_progress with (2 := run_waits) (3 := Hn), run_mine.
  - intros Ed. rewrite Ed, app_nil_r in Hm. pose proof (run_script c succeeds has_backend) as Hr.
    cbn zeta. rewrite <- closed_of_main, <- opened_of_main, <- started_of_main, <- tees_opened_of_main, Hm.
    destruct run as [[[[]|]|] script]; cbn [fst snd] in *; try apply Hr.
    destruct Hr as (pre & rs & -> & Hc & Ho & Hs & Ht & Hf & [_ Hp]%plain_mine).
    destruct (wait_split _ _ _ Hp Hm) as (before & after & E & Hb & Ha). exists pre, rs, before, after.
    split; [done|]. split; [rewrite E in Hv; by apply run_waited|]. split; [done|].
    rewrite <- Hs, <- Ht. by apply script_totals.
Qed.
End Run.

(** ** Executions of two workers *)

#[export] Instance Call_eq_dec : EqDecision Call.
Proof. solve_decision. Defined.

(** Plays a log: each event is the next one of the main goroutine, or another
    goroutine's. *)
Fixpoint play (serves : nat -> bool) (p : Proc) (evs : list LEvent) : option Proc :=
  match evs with
  | [] => Some p
  | ev :: evs =>
      if negb (may_happen serves (p_log p) ev) then None else
      match ev, p_todo p with
      | _, [] => None
      | (LEnd _ | LTeeClosed _), todo => play serves (mkProc todo (p_log p ++ [ev])) evs
      | _, ev' :: todo => if decide (ev = ev') then play serves (mkProc todo (p_log p ++ [ev])) evs else None
      end
  end.

Lemma play_steps serves p evs q : play serves p evs = Some q -> nsteps (pstep serves) (length evs) p q.
Proof.
  revert p. induction evs as [|ev evs IH]; intros [todo log]; cbn; [intros [= <-]; constructor|].
  destruct (may_happen serves log ev) eqn:Hev; [|done]. cbn.
  destruct todo as [|ev' todo]; [by destruct ev|].
  destruct ev; try (case_decide as E; [subst ev'|done]); intros Hp; (eapply nsteps_l; [|apply IH, Hp]);
    first [by apply main_acts | by apply goroutine_ends | by apply worker_closes_tee].
Qed.

(** Two workers with tees; the second cannot open its socket. *)
Definition tee_cfg : Cfg string := Eval vm_compute in loaded [("retry-tee", "[::1]:9100"); ("workers", "2")]%string.

Definition tee_serves (i : nat) : bool := (i =? 0)%nat.

Local Abbreviation tee_run := (run tee_cfg (fun _ => true) (fun _ => false)).

Definition tee_before : list LEvent :=
  [LOpen RTracing; LOpen RContext; LGo GTracker; LGo GMetrics; LGo GBeacon; LOpen RStore; LOpen (REgress 0); LTee 0;
   LGo (GTicker 0); LGo (GWorker 0); LOpen (REgress 1); LTee 1; LGo (GTicker 1); LGo (GWorker 1); LEnd (GWorker 1);
   LSignal; LClose RContext; LTeeClosed 0; LEnd (GTicker 1); LEnd (GWorker 0); LStopMetrics; LEnd GMetrics; LEnd GBeacon;
   LEnd (GTicker 0)].

Definition tee_after : list LEvent :=
  [LShutdown; LClose (REgress 1); LClose (REgress 0); LClose RStore; LEnd GTracker; LClose RContext; LClose RTracing].

Definition tee_log : list LEvent := tee_before ++ LWait :: tee_after.

Lemma run_releases_witness :
  (length tee_log <= 2 * length (snd tee_run))%nat /\
  exists pre rs before after, tee_log = before ++ LWait :: after /\ waited tee_cfg tee_serves pre rs before after /\
    closed pre = [] /\ started tee_log = spawned tee_cfg /\ tees_opened tee_log = tees tee_cfg /\
    closed tee_log ≡ₚ RContext :: opened tee_log.
Proof.
  assert (Hs : nsteps (pstep tee_serves) (length tee_log) (mkProc (snd tee_run) []) (mkProc [] tee_log))
    by (apply play_steps; vm_compute; reflexivity).
  destruct (run_releases tee_cfg (fun _ => true) (fun _ => false) tee_serves _ _ Hs) as (Hl & _ & He).
  split; [exact Hl|]. exact (He eq_refl).
Defined.

(** The same end, with the tracker still running when the senders are closed: a frame
    it recovers then is re-injected into a worker without a sender. *)
Theorem tracker_not_awaited :
  exists p, nsteps (pstep tee_serves) 29 (mkProc (snd tee_run) []) p /\ p_todo p = [LClose RContext; LClose RTracing] /\
    LClose (REgress 0) ∈ p_log p /\ running (p_log p) = [GTracker].
Proof.
  exists (mkProc [LClose RContext; LClose RTracing] (tee_before ++ LWait :: take 4 tee_after)).
  split; [|split; [reflexivity|split; [|reflexivity]]].
  - apply (play_steps _ _ (tee_before ++ LWait :: take 4 tee_after)). vm_compute. reflexivity.
  - apply (bool_decide_unpack _). vm_compute. exact I.
Qed.

(** When the ingress cache cannot be opened the egress cache is closed; when the store
    on top of both cannot be built, both stay open. *)
Theorem store_failure_strands :
  let failing (call : Call) := run header_cfg (fun c => negb (bool_decide (c = call))) (fun _ => true) in
  LClose (RBackend false) ∈ snd (failing CIngressBackend) /\
  LOpen (RBackend false) ∈ snd (failing CStore) /\ (LClose (RBackend false) ∉ snd (failing CStore)) /\
  LOpen (RBackend true) ∈ snd (failing CStore) /\ LClose (RBackend true) ∉ snd (failing CStore).
Proof. cbn zeta. split_and!; apply (bool_decide_unpack _); vm_compute; exact I. Qed.

Definition failing_log : list LEvent :=
  [LOpen RTracing; LOpen RContext; LGo GTracker; LGo GMetrics; LGo GBeacon; LOpen RStore; LOpen (REgress 0);
   LOpen (RHeader 0); LGo (GTicker 0); LGo (GWorker 0); LClose (RHeader 0); LClose (REgress 0); LClose RStore].

(** When the sender of the second worker cannot be built, the sender and the claim
    store of the first are closed while it runs: its context is cancelled last. *)
Theorem senders_closed_under_worker :
  let script := snd (run header_cfg (fun c => negb (bool_decide (c = CEgress 1))) (fun _ => false)) in
  exists p, nsteps (pstep (fun _ => true)) 13 (mkProc script []) p /\ p_todo p = [LClose RContext; LClose RTracing] /\
    closed (p_log p) = [RHeader 0; REgress 0; RStore] /\ GWorker 0 ∈ running (p_log p).
Proof.
  exists (mkProc [LClose RContext; LClose RTracing] failing_log).
  split; [|split; [reflexivity|split; [reflexivity|]]].
  - apply (play_steps _ _ failing_log). vm_compute. reflexivity.
  - apply (bool_decide_unpack _). vm_compute. exact I.
Qed.
