(* ===== verification/TestSink.v ===== *)
(** * The test sink (cmd/sink-test-frames/main.go)

    A command that counts the datagrams, or the frames, a listener forwards to it
    and exits with the verdict: 0 when the count is reached, 1 when the timer fires
    first.  The frame decoder is a parameter. *)

From S2P Require Import Prelude.

(** ** Data *)

(** The flags, with their defaults; the duration is in nanoseconds. *)
Record SinkFlags := mkSinkFlags { sk_count : Z; sk_raw : bool; sk_timeout : Z }.

Definition default_flags : SinkFlags := mkSinkFlags 0 false (30 * 1000000000).

(** What happens to the process: [ReadFrom] returns a datagram or an error, the
    timer fires. *)
Inductive SinkEv := SRead (buf : bytes) | SReadErr | STimer.

Record Sink := mkSink {
  si_received : Z;
  si_done : bool;      (* the channel [done] is closed *)
  si_looping : bool;   (* [recvLoop] has not returned *)
  si_fired : bool
}.

Definition sink0 : Sink := mkSink 0 false true false.

Section Sink.
Variable Decodes : bytes -> bool.
Variable fl : SinkFlags.

(** ** The receive loop *)

(** [received.Add(1)] and the check of the limit. *)
Definition count_one (s : Sink) : Sink :=
  let cnt := i64 (si_received s + 1) in
  if (0 <? sk_count fl) && (sk_count fl <=? cnt) then mkSink cnt true false (si_fired s)
  else mkSink cnt (si_done s) true (si_fired s).

Definition recvLoop (s : Sink) (ev : SinkEv) : Sink :=
  match ev with
  | STimer => mkSink (si_received s) (si_done s) (si_looping s) (0 <? sk_timeout fl)
  | SReadErr => if si_looping s then mkSink (si_received s) (si_done s) false (si_fired s) else s
  | SRead buf =>
      if negb (si_looping s) then s
      else if sk_raw fl then count_one s
      else if Decodes buf then count_one s else s
  end.

Definition run_sink (evs : list SinkEv) : Sink := fold_left recvLoop evs sink0.

(** ** The verdict *)

(** The exit codes the [select] of [main] may choose; none while it blocks. *)
Definition verdicts (s : Sink) : list Z := (if si_done s then [0] else []) ++ (if si_fired s then [1] else []).

Lemma elem_of_verdicts s : (0 ∈ verdicts s <-> si_done s = true) /\ (1 ∈ verdicts s <-> si_fired s = true).
Proof.
  unfold verdicts. destruct (si_done s), (si_fired s); cbn; rewrite ?elem_of_cons, ?elem_of_nil; intuition congruence.
Qed.

(** The datagrams that count, up to the first read error. *)
Fixpoint counted (evs : list SinkEv) : Z :=
  match evs with
  | [] | SReadErr :: _ => 0
  | STimer :: evs => counted evs
  | SRead buf :: evs => (if sk_raw fl || Decodes buf then 1 else 0) + counted evs
  end.

Lemma counted_bounds evs : 0 <= counted evs <= Z.of_nat (length evs).
Proof. induction evs as [|[buf| |] evs IH]; cbn [counted length]; try lia. destruct (sk_raw fl || Decodes buf); lia. Qed.

Lemma stopped_sink evs s :
  si_looping s = false ->
  si_received (fold_left recvLoop evs s) = si_received s /\ si_done (fold_left recvLoop evs s) = si_done s.
Proof.
  revert s. induction evs as [|[buf| |] evs IH]; intros s Hs; [done|..]; cbn [fold_left recvLoop]; rewrite ?Hs; cbn [negb];
    [by apply IH..|]. exact (IH (mkSink _ _ _ _) eq_refl).
Qed.

Definition reached (n : Z) : bool := (0 <? sk_count fl) && (sk_count fl <=? n).

Lemma looping_sink evs s :
  si_looping s = true -> si_done s = false -> reached (si_received s) = false ->
  0 <= si_received s -> si_received s + Z.of_nat (length evs) < 2 ^ 63 ->
  let n := si_received s + counted evs in
  si_done (fold_left recvLoop evs s) = reached n /\
  si_received (fold_left recvLoop evs s) = if reached n then sk_count fl else n.
Proof.
  cbn zeta. revert s. induction evs as [|ev evs IH]; intros s Hl Hd Hr H0 Hb.
  { cbn [fold_left counted]. rewrite Z.add_0_r, Hr. done. }
  cbn [length] in Hb. destruct ev as [buf| |]; cbn [fold_left recvLoop counted]; rewrite ?Hl; cbn [negb].
  - assert (Hc : forall s', s' = count_one s ->
      si_done (fold_left recvLoop evs s') = reached (si_received s + (1 + counted evs)) /\
      si_received (fold_left recvLoop evs s') =
        if reached (si_received s + (1 + counted evs)) then sk_count fl else si_received s + (1 + counted evs)).
    { intros s' ->. unfold count_one. rewrite (i64_small (si_received s + 1)) by (unfold min_i64, max_i64; lia).
      pose proof (counted_bounds evs) as Hcb. unfold reached in Hr |- *.
      destruct ((0 <? sk_count fl) && (sk_count fl <=? si_received s + 1)) eqn:E.
      - destruct (stopped_sink evs (mkSink (si_received s + 1) true false (si_fired s)) eq_refl) as [-> ->]. cbn [si_done si_received].
        replace (0 <? sk_count fl) with true in * by lia. replace (sk_count fl <=? si_received s + (1 + counted evs)) with true by lia.
        cbn in Hr |- *. split; [done|]. lia.
      - rewrite Z.add_assoc. apply IH; cbn [si_looping si_done si_received]; try done; lia. }
    destruct (sk_raw fl), (Decodes buf); cbn [orb]; try (by apply Hc). rewrite Z.add_0_l. apply IH; try done; lia.
  - destruct (stopped_sink evs (mkSink (si_received s) (si_done s) false (si_fired s)) eq_refl) as [-> ->].
    cbn [si_done si_received]. by rewrite Z.add_0_r, Hr.
  - by apply (IH (mkSink _ _ _ _)); cbn; try done; lia.
Qed.

Definition is_timer (ev : SinkEv) : bool := match ev with STimer => true | _ => false end.

Lemma fired_sink evs s :
  si_fired (fold_left recvLoop evs s) = (if existsb is_timer evs then 0 <? sk_timeout fl else si_fired s).
Proof.
  revert s. induction evs as [|[buf| |] evs IH]; intros s; [done|..]; cbn [fold_left existsb orb]; rewrite IH; cbn [recvLoop].
  - unfold count_one. by repeat case_match.
  - by repeat case_match.
  - by repeat case_match.
Qed.

(** The verdict of the sink.  It may exit with 0 exactly when a positive count was
    asked for and that many datagrams counted before a read failed, and with 1
    exactly when a timeout was asked for and the timer fired; in particular it
    never exits with 0 when the count is 0. *)
Theorem sink_verdict (evs : list SinkEv) :
  Z.of_nat (length evs) < 2 ^ 63 ->
  (0 ∈ verdicts (run_sink evs) <-> 0 < sk_count fl <= counted evs) /\
  (1 ∈ verdicts (run_sink evs) <-> 0 < sk_timeout fl /\ STimer ∈ evs).
Proof.
  intros Hb. destruct (elem_of_verdicts (run_sink evs)) as [-> ->]. unfold run_sink.
  destruct (looping_sink evs sink0) as [-> _]; try done; [unfold reached; cbn; lia|]. rewrite fired_sink.
  cbn [si_received sink0 si_fired]. rewrite Z.add_0_l. split; [unfold reached; lia|].
  assert (He : existsb is_timer evs = true <-> STimer ∈ evs).
  { rewrite existsb_exists. setoid_rewrite <- list_elem_of_In. split; [by intros ([] & ? & ?)|]. by exists STimer. }
  rewrite <- He. destruct (existsb is_timer evs); [rewrite Z.ltb_lt; tauto|]. split; [done|]. by intros [_ ?].
Qed.

End Sink.

(** The help text of [-count] says that 0 runs forever: with the default timeout the
    sink exits with 1 when the timer fires, whatever it received. *)
Theorem count_zero_times_out Decodes (evs : list SinkEv) :
  Z.of_nat (length evs) < 2 ^ 63 -> STimer ∈ evs ->
  1 ∈ verdicts (run_sink Decodes default_flags evs) /\ 0 ∉ verdicts (run_sink Decodes default_flags evs).
Proof.
  intros Hb Ht. destruct (elem_of_verdicts (run_sink Decodes default_flags evs)) as [H0 ->]. rewrite H0. unfold run_sink.
  destruct (looping_sink Decodes default_flags evs sink0) as [-> _]; try done. rewrite fired_sink.
  replace (existsb is_timer evs) with true; [done|]. symmetry. apply existsb_exists. exists STimer.
  split; [by apply list_elem_of_In|done].
Qed.
